(** * VR Streamer: a shallow embedding of the pipeline core

  The development follows the C++ sources under [pc_app_cpp]:
  - [include/core/spsc_queue.hpp]      -> [SPSCQueue], [SPSCFrameQueue]
  - [include/core/memory_pool.hpp]     -> [FrameBufferPool]
  - [src/encoder/stereo_processor.cpp] -> [CPUStereoProcessor], [VRFrameEncoder]
  - [src/capture/dxgi_capture.cpp]     -> [DXGICapture], [CaptureManager],
                                          [WindowClip]
  - [src/network/websocket_server.cpp] -> [StreamingServer], [WebSocketSession],
                                          [ServerShutdown], [SessionThreads]
  - [src/network/http_server.cpp]      -> [HTTPServer]
  - [src/core/config.cpp]              -> [Config]
  - [src/core/vr_streamer_app.cpp]     -> [VRStreamerApp], [Pipeline]
  - [src/main.cpp]                     -> [Main]

  Fixed-width integers are [Z] with the wrap-around written out, [f32] is
  IEEE-754 binary32 as given by [SpecFloat] (precision 24, emax 128), raw
  byte buffers are lists updated by index, the session registry is a
  [gmap], a file is the list of its characters. Undefined behaviour and
  thrown exceptions are [None]. The models come first, their properties
  follow in the modules named [...Facts]. *)

From Stdlib Require Import ZArith Lia Bool Ascii.
From Stdlib Require Import Floats.SpecFloat.
From stdpp Require Import base option list gmap strings.

Local Open Scope Z_scope.

(* ===================================================================== *)
(** ** Machine arithmetic ([common.hpp]) *)
(* ===================================================================== *)

Module Machine.

(** [u32], [u64]/[size_t]: an unsigned result is reduced modulo [2^w]. *)
Definition wrap32 (x : Z) : Z := x mod 2 ^ 32.
Definition wrap64 (x : Z) : Z := x mod 2 ^ 64.
Definition wrap16 (x : Z) : Z := x mod 2 ^ 16.

Definition INT_MAX : Z := 2 ^ 31 - 1.
Definition INT_MIN : Z := - 2 ^ 31.

(** [std::has_single_bit(v)]: exactly one bit of [v] is set. *)
Definition has_single_bit (v : Z) : bool :=
  (0 <? v) && (v =? 2 ^ Z.log2 v).

(** [is_power_of_2(u64 v)] *)
Definition is_power_of_2 (v : Z) : bool := has_single_bit v.

(** [std::clamp(v, lo, hi)] on integers:
    [(v < lo) ? lo : (hi < v) ? hi : v]. *)
Definition clamp (v lo hi : Z) : Z :=
  if v <? lo then lo else if hi <? v then hi else v.

End Machine.

(* ===================================================================== *)
(** ** [SPSCQueue<T, N>] ([spsc_queue.hpp]) *)
(* ===================================================================== *)

Module SPSCQueue.
Section Queue.
Context {T : Type} `{Inhabited T}.
(** Template parameter [N]. *)
Variable N : Z.

Definition CAPACITY : Z := N.
Definition MASK : Z := Machine.wrap64 (N - 1).

Record t := mk {
  head_ : Z;
  tail_ : Z;
  storage_ : list T
}.

(** Constructor: both indices zero, every slot value-initialised. *)
Definition init : t :=
  {| head_ := 0; tail_ := 0; storage_ := replicate (Z.to_nat N) inhabitant |}.

Definition try_push (item : T) (q : t) : bool * t :=
  let tail := tail_ q in
  let next := Z.land (Machine.wrap64 (tail + 1)) MASK in
  if next =? head_ q then (false, q)
  else (true, {| head_ := head_ q;
                 tail_ := next;
                 storage_ := <[Z.to_nat tail := item]> (storage_ q) |}).

(** [try_pop(T &item)]: the boolean result and the out-parameter are
    folded into an [option]. *)
Definition try_pop (q : t) : option T * t :=
  let head := head_ q in
  if head =? tail_ q then (None, q)
  else (Some (storage_ q !!! Z.to_nat head),
        {| head_ := Z.land (Machine.wrap64 (head + 1)) MASK;
           tail_ := tail_ q;
           storage_ := storage_ q |}).

Definition peek (q : t) : option T :=
  let head := head_ q in
  if head =? tail_ q then None else Some (storage_ q !!! Z.to_nat head).

Definition empty (q : t) : bool := head_ q =? tail_ q.

Definition size_approx (q : t) : Z :=
  Z.land (Machine.wrap64 (Machine.wrap64 (tail_ q - head_ q) + N)) MASK.

Definition full (q : t) : bool :=
  Z.land (Machine.wrap64 (tail_ q + 1)) MASK =? head_ q.

Definition clear (q : t) : t :=
  {| head_ := tail_ q; tail_ := tail_ q; storage_ := storage_ q |}.

(** Operations a producer and a consumer can issue. *)
Inductive op :=
| Push (item : T)
| Pop
| Clear.

Definition step (o : op) (q : t) : t :=
  match o with
  | Push item => snd (try_push item q)
  | Pop => snd (try_pop q)
  | Clear => clear q
  end.

Definition run (ops : list op) (q : t) : t :=
  fold_left (fun q o => step o q) ops q.

(** States reachable from a freshly constructed queue. *)
Definition reachable (q : t) : Prop := exists ops, q = run ops init.

(** The template constraint [requires(is_power_of_2(N) && N >= 2)],
    [N] being a [size_t]. *)
Definition valid_capacity : Prop :=
  Machine.is_power_of_2 N = true /\ 2 <= N /\ N < 2 ^ 64.

Definition wf (q : t) : Prop :=
  0 <= head_ q < N /\ 0 <= tail_ q < N /\ length (storage_ q) = Z.to_nat N.

End Queue.
Arguments t : clear implicits.
End SPSCQueue.

(* ===================================================================== *)
(** ** [FrameBufferPool] ([memory_pool.hpp]) *)
(* ===================================================================== *)

Module FrameBufferPool.

(** [FrameBufferPool::Buffer]; the byte region is a list of [u8]. *)
Record Buffer := mkBuffer {
  data : list Z;
  capacity : Z;
  size : Z;
  width : Z;
  height : Z;
  stride : Z;
  format : Z;
  timestamp : Z;
  frame_id : Z
}.

(** [Buffer()] *)
Definition Buffer_new : Buffer :=
  mkBuffer [] 0 0 0 0 0 0 0 0.

(** [Buffer::allocate]: grows iff [cap > capacity], never shrinks. *)
Definition allocate (cap : Z) (b : Buffer) : Buffer :=
  let b1 :=
    if capacity b <? cap
    then mkBuffer (replicate (Z.to_nat cap) 0) cap (size b) (width b)
                  (height b) (stride b) (format b) (timestamp b) (frame_id b)
    else b in
  mkBuffer (data b1) (capacity b1) 0 (width b1) (height b1) (stride b1)
           (format b1) (timestamp b1) (frame_id b1).

(** [Buffer::reset] *)
Definition reset (b : Buffer) : Buffer :=
  mkBuffer (data b) (capacity b) 0 0 0 0 (format b) 0 (frame_id b).

Record t := mk {
  buffer_size_ : Z;
  pool_size_ : Z;
  (** [std::stack<BufferPtr>], top of the stack first *)
  free_buffers_ : list Buffer
}.

(** Constructor: pushes [pool_size] freshly allocated buffers. *)
Definition create (buffer_size pool_size : Z) : t :=
  {| buffer_size_ := buffer_size;
     pool_size_ := pool_size;
     free_buffers_ :=
       replicate (Z.to_nat pool_size) (allocate buffer_size Buffer_new) |}.

Definition acquire (p : t) : Buffer * t :=
  match free_buffers_ p with
  | [] => (allocate (buffer_size_ p) Buffer_new, p)
  | buf :: rest =>
      (reset buf,
       {| buffer_size_ := buffer_size_ p;
          pool_size_ := pool_size_ p;
          free_buffers_ := rest |})
  end.

(** [release(BufferPtr buf)]; [None] is the null pointer. *)
Definition release (buf : option Buffer) (p : t) : t :=
  match buf with
  | None => p
  | Some b =>
      if Z.of_nat (length (free_buffers_ p)) <? Machine.wrap64 (pool_size_ p * 2)
      then {| buffer_size_ := buffer_size_ p;
              pool_size_ := pool_size_ p;
              free_buffers_ := reset b :: free_buffers_ p |}
      else p
  end.

Definition free_count (p : t) : Z := Z.of_nat (length (free_buffers_ p)).

(** A pool together with the buffers its clients currently hold: handed
    out by [acquire] and neither released nor dropped yet. *)
Record system := mkSystem {
  pool : t;
  held : list Buffer
}.

Inductive op :=
| Acquire
| Release (i : nat)   (* give the [i]-th held buffer back to the pool *)
| Drop (i : nat).     (* let the [i]-th held buffer be destroyed *)

Definition step (o : op) (s : system) : system :=
  match o with
  | Acquire =>
      let '(b, p') := acquire (pool s) in
      mkSystem p' (b :: held s)
  | Release i =>
      match held s !! i with
      | Some b => mkSystem (release (Some b) (pool s)) (delete i (held s))
      | None => s
      end
  | Drop i => mkSystem (pool s) (delete i (held s))
  end.

Definition run (ops : list op) (s : system) : system :=
  fold_left (fun s o => step o s) ops s.

Definition start (buffer_size pool_size : Z) : system :=
  mkSystem (create buffer_size pool_size) [].

Definition in_use_count (s : system) : Z := Z.of_nat (length (held s)).

End FrameBufferPool.

(* ===================================================================== *)
(** ** IEEE-754 arithmetic of [f32] and [f64] *)
(* ===================================================================== *)

(** Truncation of a float towards zero; [None] for NaN and infinities. *)
Definition float_trunc (x : spec_float) : option Z :=
  match x with
  | S754_zero _ => Some 0
  | S754_finite s m e =>
      let v := if 0 <=? e then Z.pos m * 2 ^ e else Z.pos m / 2 ^ (- e) in
      Some (if s then - v else v)
  | _ => None
  end.

Module F32.

Definition prec : Z := 24.
Definition emax : Z := 128.

Definition mul : spec_float -> spec_float -> spec_float := SFmul prec emax.
Definition div : spec_float -> spec_float -> spec_float := SFdiv prec emax.
Definition add : spec_float -> spec_float -> spec_float := SFadd prec emax.
Definition ltb : spec_float -> spec_float -> bool := SFltb.
Definition leb : spec_float -> spec_float -> bool := SFleb.

(** Conversion of an integer ([u32], [i32], [size_t]) to [f32], rounding
    to nearest even. *)
Definition of_int (n : Z) : spec_float := binary_normalize prec emax n 0 false.

(** [static_cast<u32>(x)]: truncation; the conversion is undefined ([None])
    when the truncated value is not representable in [u32]. *)
Definition to_u32 (x : spec_float) : option Z :=
  v ← float_trunc x;
  if (0 <=? v) && (v <? 2 ^ 32) then Some v else None.

(** The decimal literal [n / 10^k f], e.g. [0.1f] is [lit 1 1]; both
    operands are exact in binary32 for the literals used here, so the
    correctly rounded quotient is the literal's value. *)
Definition lit (n : Z) (k : Z) : spec_float := div (of_int n) (of_int (10 ^ k)).

Definition one : spec_float := of_int 1.

(** [std::clamp(v, lo, hi)]: [(v < lo) ? lo : (hi < v) ? hi : v]. *)
Definition clamp (v lo hi : spec_float) : spec_float :=
  if ltb v lo then lo else if ltb hi v then hi else v.

End F32.

Module F64.

Definition prec : Z := 53.
Definition emax : Z := 1024.

Definition div : spec_float -> spec_float -> spec_float := SFdiv prec emax.
Definition of_int (n : Z) : spec_float := binary_normalize prec emax n 0 false.

End F64.

(* ===================================================================== *)
(** ** Raw byte buffers *)
(* ===================================================================== *)

(** A [u8*] region is a list of bytes; an access outside the region is
    undefined behaviour, modelled by [None]. *)
Module Mem.

Definition load (buf : list Z) (off : Z) : option Z :=
  if 0 <=? off then buf !! Z.to_nat off else None.

Definition store (buf : list Z) (off : Z) (v : Z) : option (list Z) :=
  if (0 <=? off) && (off <? Z.of_nat (length buf))
  then Some (<[Z.to_nat off := v]> buf)
  else None.

(** [for (i = start; i < start + n; ++i) body], threading the state and
    stopping at the first undefined step. *)
Fixpoint for_loop {S : Type} (n : nat) (i : Z) (body : Z -> S -> option S)
  (s : S) : option S :=
  match n with
  | O => Some s
  | Datatypes.S n' => s' ← body i s; for_loop n' (i + 1) body s'
  end.

(** The three bytes at [dst] of [out] are those at [src] of [input]. *)
Definition pixel_copied (input : list Z) (src : Z) (out : list Z) (dst : Z) : Prop :=
  forall c, 0 <= c < 3 ->
    exists b, load input (src + c) = Some b /\ load out (dst + c) = Some b.

End Mem.

(* ===================================================================== *)
(** ** [CPUStereoProcessor] ([stereo_processor.cpp]) *)
(* ===================================================================== *)

Module CPUStereoProcessor.
Import Machine.

(** [static_cast<i32>(u)] of a [u32]. *)
Definition as_i32 (u : Z) : Z := if u <? 2 ^ 31 then u else u - 2 ^ 32.

(** [dst_pixel[0..2] = src_pixel[0..2]] (B, G, R). *)
Definition copy_pixel (input : list Z) (src : Z) (output : list Z) (dst : Z)
  : option (list Z) :=
  b ← Mem.load input src;
  o0 ← Mem.store output dst b;
  g ← Mem.load input (src + 1);
  o1 ← Mem.store o0 (dst + 1) g;
  r ← Mem.load input (src + 2);
  Mem.store o1 (dst + 2) r.

(** Left eye: the source column of output column [x]. *)
Definition left_src_x (input_width separation_pixels : Z) (x_scale : spec_float)
  (x : Z) : option Z :=
  src_x ← F32.to_u32 (F32.mul (F32.of_int x) x_scale);
  Some (if wrap32 (src_x + separation_pixels) <? input_width
        then Z.min src_x (wrap32 (wrap32 (input_width - separation_pixels) - 1))
        else src_x).

(** Right eye: the source column of output column [half_width + x]. *)
Definition right_src_x (input_width separation_pixels : Z) (x_scale : spec_float)
  (x : Z) : option Z :=
  src_x ← F32.to_u32 (F32.mul (F32.of_int x) x_scale);
  Some (Z.min (wrap32 (src_x + separation_pixels)) (wrap32 (input_width - 1))).

(** The row of the source sampled by output row [y]. *)
Definition src_row_y (y_scale : spec_float) (y : Z) : option Z :=
  F32.to_u32 (F32.mul (F32.of_int y) y_scale).

Definition left_eye (input : list Z) (input_width input_channels : Z)
  (separation_pixels : Z) (x_scale : spec_float) (src_row dst_row : Z)
  (x : Z) (output : list Z) : option (list Z) :=
  src_x ← left_src_x input_width separation_pixels x_scale x;
  copy_pixel input (src_row + wrap32 (src_x * input_channels))
             output (dst_row + wrap32 (x * 3)).

Definition right_eye (input : list Z) (input_width input_channels : Z)
  (separation_pixels half_width : Z) (x_scale : spec_float) (src_row dst_row : Z)
  (x : Z) (output : list Z) : option (list Z) :=
  src_x ← right_src_x input_width separation_pixels x_scale x;
  copy_pixel input (src_row + wrap32 (src_x * input_channels))
             output (dst_row + wrap32 (wrap32 (half_width + x) * 3)).

Definition process_row (input : list Z) (input_width input_pitch input_channels : Z)
  (separation_pixels half_width output_pitch : Z) (x_scale y_scale : spec_float)
  (y : Z) (output : list Z) : option (list Z) :=
  src_y ← src_row_y y_scale y;
  let src_row := wrap32 (src_y * input_pitch) in
  let dst_row := wrap32 (y * output_pitch) in
  o1 ← Mem.for_loop (Z.to_nat half_width) 0
         (left_eye input input_width input_channels separation_pixels
                   x_scale src_row dst_row) output;
  Mem.for_loop (Z.to_nat half_width) 0
    (right_eye input input_width input_channels separation_pixels half_width
               x_scale src_row dst_row) o1.

(** [process_scaled]: returns [output_pitch] and the written output buffer.
    The timing statistics are not modelled. *)
Definition process_scaled (input : list Z)
  (input_width input_height input_pitch input_channels : Z)
  (output : list Z) (output_width output_height : Z)
  (downscale_factor eye_separation : spec_float) : option (Z * list Z) :=
  let half_width := output_width / 2 in
  let output_pitch := wrap32 (output_width * 3) in
  separation_pixels ← F32.to_u32 (F32.mul (F32.of_int input_width) eye_separation);
  let scaled_height := output_height in
  let x_scale := F32.div (F32.of_int input_width) (F32.of_int half_width) in
  let y_scale := F32.div (F32.of_int input_height) (F32.of_int scaled_height) in
  out ← Mem.for_loop (Z.to_nat (as_i32 output_height)) 0
          (process_row input input_width input_pitch input_channels
                       separation_pixels half_width output_pitch x_scale y_scale)
          output;
  Some (output_pitch, out).

(** [process] *)
Definition process (input : list Z)
  (input_width input_height input_pitch input_channels : Z)
  (output : list Z) (output_width output_height : Z)
  (eye_separation : spec_float) : option (Z * list Z) :=
  process_scaled input input_width input_height input_pitch input_channels
                 output output_width output_height F32.one eye_separation.

End CPUStereoProcessor.

(* ===================================================================== *)
(** ** Configuration records ([config.hpp]) *)
(* ===================================================================== *)

Module Cfg.

Record CaptureConfig := mkCapture {
  target_fps : Z;
  monitor_index : Z;
  capture_cursor : bool;
  use_gpu_capture : bool;
  frame_buffer_count : Z;
  wait_for_vsync : bool
}.

Inductive Method := JPEG | NVJPEG | TURBOJPEG | H264 | RAW.

Record EncoderConfig := mkEncoder {
  jpeg_quality : Z;
  downscale_factor : spec_float;
  output_width : Z;
  output_height : Z;
  method : Method;
  vr_enabled : bool;
  eye_separation : spec_float;
  use_gpu : bool;
  gpu_device_id : Z;
  use_nvenc : bool;
  use_nvjpeg : bool;
  h264_bitrate : Z;
  h264_gop_length : Z;
  h264_low_latency : bool
}.

Record NetworkConfig := mkNetwork {
  host : string;
  port : Z;
  http_port : Z;
  static_ip : string;
  max_clients : Z;
  send_buffer_size : Z;
  ping_interval : spec_float;
  use_tcp_nodelay : bool;
  use_cork : bool
}.

Record Config := mkConfig {
  capture : CaptureConfig;
  encoder : EncoderConfig;
  network : NetworkConfig
}.

Inductive QualityPreset :=
| ULTRA_PERFORMANCE | LOW_LATENCY | BALANCED | QUALITY | MAXIMUM_QUALITY.

(** The default member initialisers. *)
Definition CaptureConfig_init : CaptureConfig :=
  mkCapture 60 0 true true 3 false.

Definition EncoderConfig_init : EncoderConfig :=
  mkEncoder 65 (F32.lit 65 2) 0 0 TURBOJPEG true (F32.lit 3 2)
            true 0 true true 20000 30 true.

Definition NetworkConfig_init : NetworkConfig :=
  mkNetwork "0.0.0.0" 8765 8080 "" 4 (64 * 1024) F32.one true false.

Definition Config_init : Config :=
  mkConfig CaptureConfig_init EncoderConfig_init NetworkConfig_init.

(** Field assignments. *)
Definition set_target_fps v (c : CaptureConfig) :=
  mkCapture v (monitor_index c) (capture_cursor c) (use_gpu_capture c)
            (frame_buffer_count c) (wait_for_vsync c).
Definition set_monitor_index v (c : CaptureConfig) :=
  mkCapture (target_fps c) v (capture_cursor c) (use_gpu_capture c)
            (frame_buffer_count c) (wait_for_vsync c).
Definition set_capture_cursor v (c : CaptureConfig) :=
  mkCapture (target_fps c) (monitor_index c) v (use_gpu_capture c)
            (frame_buffer_count c) (wait_for_vsync c).
Definition set_use_gpu_capture v (c : CaptureConfig) :=
  mkCapture (target_fps c) (monitor_index c) (capture_cursor c) v
            (frame_buffer_count c) (wait_for_vsync c).
Definition set_frame_buffer_count v (c : CaptureConfig) :=
  mkCapture (target_fps c) (monitor_index c) (capture_cursor c)
            (use_gpu_capture c) v (wait_for_vsync c).
Definition set_wait_for_vsync v (c : CaptureConfig) :=
  mkCapture (target_fps c) (monitor_index c) (capture_cursor c)
            (use_gpu_capture c) (frame_buffer_count c) v.

Definition set_jpeg_quality v (e : EncoderConfig) :=
  mkEncoder v (downscale_factor e) (output_width e) (output_height e) (method e)
    (vr_enabled e) (eye_separation e) (use_gpu e) (gpu_device_id e) (use_nvenc e)
    (use_nvjpeg e) (h264_bitrate e) (h264_gop_length e) (h264_low_latency e).
Definition set_downscale_factor v (e : EncoderConfig) :=
  mkEncoder (jpeg_quality e) v (output_width e) (output_height e) (method e)
    (vr_enabled e) (eye_separation e) (use_gpu e) (gpu_device_id e) (use_nvenc e)
    (use_nvjpeg e) (h264_bitrate e) (h264_gop_length e) (h264_low_latency e).
Definition set_output_width v (e : EncoderConfig) :=
  mkEncoder (jpeg_quality e) (downscale_factor e) v (output_height e) (method e)
    (vr_enabled e) (eye_separation e) (use_gpu e) (gpu_device_id e) (use_nvenc e)
    (use_nvjpeg e) (h264_bitrate e) (h264_gop_length e) (h264_low_latency e).
Definition set_output_height v (e : EncoderConfig) :=
  mkEncoder (jpeg_quality e) (downscale_factor e) (output_width e) v (method e)
    (vr_enabled e) (eye_separation e) (use_gpu e) (gpu_device_id e) (use_nvenc e)
    (use_nvjpeg e) (h264_bitrate e) (h264_gop_length e) (h264_low_latency e).
Definition set_method v (e : EncoderConfig) :=
  mkEncoder (jpeg_quality e) (downscale_factor e) (output_width e)
    (output_height e) v
    (vr_enabled e) (eye_separation e) (use_gpu e) (gpu_device_id e) (use_nvenc e)
    (use_nvjpeg e) (h264_bitrate e) (h264_gop_length e) (h264_low_latency e).
Definition set_vr_enabled v (e : EncoderConfig) :=
  mkEncoder (jpeg_quality e) (downscale_factor e) (output_width e)
    (output_height e) (method e)
    v (eye_separation e) (use_gpu e) (gpu_device_id e) (use_nvenc e)
    (use_nvjpeg e) (h264_bitrate e) (h264_gop_length e) (h264_low_latency e).
Definition set_eye_separation v (e : EncoderConfig) :=
  mkEncoder (jpeg_quality e) (downscale_factor e) (output_width e)
    (output_height e) (method e)
    (vr_enabled e) v (use_gpu e) (gpu_device_id e) (use_nvenc e)
    (use_nvjpeg e) (h264_bitrate e) (h264_gop_length e) (h264_low_latency e).
Definition set_use_gpu v (e : EncoderConfig) :=
  mkEncoder (jpeg_quality e) (downscale_factor e) (output_width e)
    (output_height e) (method e)
    (vr_enabled e) (eye_separation e) v (gpu_device_id e) (use_nvenc e)
    (use_nvjpeg e) (h264_bitrate e) (h264_gop_length e) (h264_low_latency e).
Definition set_gpu_device_id v (e : EncoderConfig) :=
  mkEncoder (jpeg_quality e) (downscale_factor e) (output_width e)
    (output_height e) (method e)
    (vr_enabled e) (eye_separation e) (use_gpu e) v (use_nvenc e)
    (use_nvjpeg e) (h264_bitrate e) (h264_gop_length e) (h264_low_latency e).
Definition set_use_nvenc v (e : EncoderConfig) :=
  mkEncoder (jpeg_quality e) (downscale_factor e) (output_width e)
    (output_height e) (method e)
    (vr_enabled e) (eye_separation e) (use_gpu e) (gpu_device_id e) v
    (use_nvjpeg e) (h264_bitrate e) (h264_gop_length e) (h264_low_latency e).
Definition set_use_nvjpeg v (e : EncoderConfig) :=
  mkEncoder (jpeg_quality e) (downscale_factor e) (output_width e)
    (output_height e) (method e)
    (vr_enabled e) (eye_separation e) (use_gpu e) (gpu_device_id e) (use_nvenc e)
    v (h264_bitrate e) (h264_gop_length e) (h264_low_latency e).
Definition set_h264_bitrate v (e : EncoderConfig) :=
  mkEncoder (jpeg_quality e) (downscale_factor e) (output_width e)
    (output_height e) (method e)
    (vr_enabled e) (eye_separation e) (use_gpu e) (gpu_device_id e) (use_nvenc e)
    (use_nvjpeg e) v (h264_gop_length e) (h264_low_latency e).
Definition set_h264_gop_length v (e : EncoderConfig) :=
  mkEncoder (jpeg_quality e) (downscale_factor e) (output_width e)
    (output_height e) (method e)
    (vr_enabled e) (eye_separation e) (use_gpu e) (gpu_device_id e) (use_nvenc e)
    (use_nvjpeg e) (h264_bitrate e) v (h264_low_latency e).
Definition set_h264_low_latency v (e : EncoderConfig) :=
  mkEncoder (jpeg_quality e) (downscale_factor e) (output_width e)
    (output_height e) (method e)
    (vr_enabled e) (eye_separation e) (use_gpu e) (gpu_device_id e) (use_nvenc e)
    (use_nvjpeg e) (h264_bitrate e) (h264_gop_length e) v.

Definition set_host v (n : NetworkConfig) :=
  mkNetwork v (port n) (http_port n) (static_ip n) (max_clients n)
            (send_buffer_size n) (ping_interval n) (use_tcp_nodelay n) (use_cork n).
Definition set_port v (n : NetworkConfig) :=
  mkNetwork (host n) v (http_port n) (static_ip n) (max_clients n)
            (send_buffer_size n) (ping_interval n) (use_tcp_nodelay n) (use_cork n).
Definition set_http_port v (n : NetworkConfig) :=
  mkNetwork (host n) (port n) v (static_ip n) (max_clients n)
            (send_buffer_size n) (ping_interval n) (use_tcp_nodelay n) (use_cork n).
Definition set_static_ip v (n : NetworkConfig) :=
  mkNetwork (host n) (port n) (http_port n) v (max_clients n)
            (send_buffer_size n) (ping_interval n) (use_tcp_nodelay n) (use_cork n).
Definition set_max_clients v (n : NetworkConfig) :=
  mkNetwork (host n) (port n) (http_port n) (static_ip n) v
            (send_buffer_size n) (ping_interval n) (use_tcp_nodelay n) (use_cork n).
Definition set_send_buffer_size v (n : NetworkConfig) :=
  mkNetwork (host n) (port n) (http_port n) (static_ip n) (max_clients n)
            v (ping_interval n) (use_tcp_nodelay n) (use_cork n).
Definition set_ping_interval v (n : NetworkConfig) :=
  mkNetwork (host n) (port n) (http_port n) (static_ip n) (max_clients n)
            (send_buffer_size n) v (use_tcp_nodelay n) (use_cork n).
Definition set_use_tcp_nodelay v (n : NetworkConfig) :=
  mkNetwork (host n) (port n) (http_port n) (static_ip n) (max_clients n)
            (send_buffer_size n) (ping_interval n) v (use_cork n).
Definition set_use_cork v (n : NetworkConfig) :=
  mkNetwork (host n) (port n) (http_port n) (static_ip n) (max_clients n)
            (send_buffer_size n) (ping_interval n) (use_tcp_nodelay n) v.

Definition on_capture (f : CaptureConfig -> CaptureConfig) (c : Config) : Config :=
  mkConfig (f (capture c)) (encoder c) (network c).
Definition on_encoder (f : EncoderConfig -> EncoderConfig) (c : Config) : Config :=
  mkConfig (capture c) (f (encoder c)) (network c).
Definition on_network (f : NetworkConfig -> NetworkConfig) (c : Config) : Config :=
  mkConfig (capture c) (encoder c) (f (network c)).

(** [Config::apply_preset] *)
Definition apply_preset (preset : QualityPreset) (c : Config) : Config :=
  match preset with
  | ULTRA_PERFORMANCE =>
      on_encoder (set_method TURBOJPEG)
        (on_capture (set_target_fps 90)
          (on_encoder (set_downscale_factor (F32.lit 35 2))
            (on_encoder (set_jpeg_quality 40) c)))
  | LOW_LATENCY =>
      on_encoder (set_method TURBOJPEG)
        (on_capture (set_target_fps 60)
          (on_encoder (set_downscale_factor (F32.lit 5 1))
            (on_encoder (set_jpeg_quality 55) c)))
  | BALANCED =>
      on_encoder (set_method NVJPEG)
        (on_capture (set_target_fps 60)
          (on_encoder (set_downscale_factor (F32.lit 65 2))
            (on_encoder (set_jpeg_quality 70) c)))
  | QUALITY =>
      on_encoder (set_method H264)
        (on_capture (set_target_fps 45)
          (on_encoder (set_downscale_factor (F32.lit 8 1))
            (on_encoder (set_jpeg_quality 80) c)))
  | MAXIMUM_QUALITY =>
      on_encoder (set_h264_bitrate 50000)
        (on_encoder (set_method H264)
          (on_capture (set_target_fps 30)
            (on_encoder (set_downscale_factor F32.one)
              (on_encoder (set_jpeg_quality 95) c))))
  end.

(** [Config::default_config] *)
Definition default_config : Config := apply_preset LOW_LATENCY Config_init.

End Cfg.

(* ===================================================================== *)
(** ** JPEG back ends ([jpeg_encoder.cpp]) *)
(* ===================================================================== *)

Module JPEG.

(** What [IJPEGEncoder::encode] receives besides the output vector. *)
Record request := mkRequest {
  rq_input : list Z;
  rq_width : Z;
  rq_height : Z;
  rq_pitch : Z;
  rq_channels : Z;
  rq_quality : Z
}.

(** [encode(input, width, height, pitch, channels, quality, output)]
    returns the number of bytes written and the output vector. *)
Definition backend : Type := request -> list Z -> Z * list Z.

(** [OpenCVJPEGEncoder::encode]: touches nothing and returns 0. *)
Definition OpenCV_encode : backend := fun _ output => (0, output).

(** [NvJPEGEncoder::encode] of a build without CUDA. *)
Definition NvJPEG_stub_encode : backend := fun _ output => (0, output).

(** [TurboJPEGEncoder::encode] around the library call [tjCompress2], which
    yields the compressed bytes or fails; [handle] tells whether
    [tjInitCompress] succeeded. *)
Definition TurboJPEG_encode (handle : bool)
  (tjCompress2 : request -> option (list Z)) : backend :=
  fun rq output =>
    if negb handle then (0, output)
    else match tjCompress2 rq with
         | None => (0, output)
         | Some jpeg_buf => (Z.of_nat (length jpeg_buf), jpeg_buf)
         end.

(** [AutoJPEGEncoder] of a build without CUDA: TurboJPEG when available,
    the OpenCV fallback otherwise. *)
Definition Auto_encode (handle : bool)
  (tjCompress2 : request -> option (list Z)) : backend :=
  if handle then TurboJPEG_encode handle tjCompress2 else OpenCV_encode.

End JPEG.

(* ===================================================================== *)
(** ** [VRFrameEncoder] ([stereo_processor.cpp]) *)
(* ===================================================================== *)

Module VRFrameEncoder.
Import Machine Cfg.

(** [VRFrameEncoder::Stats] without the three timer readings. *)
Record Stats := mkStats {
  frames_encoded : Z;
  bytes_encoded : Z;
  compression_ratio : spec_float
}.

Record t := mk {
  config_ : EncoderConfig;
  stereo_buffer_ : list Z;
  stats_ : Stats
}.

(** Constructor; [reserve] leaves the stereo buffer empty. *)
Definition create (config : EncoderConfig) : t :=
  mk config [] (mkStats 0 0 (S754_zero false)).

(** [std::vector::resize] to a larger size appends zero bytes. *)
Definition grow (buf : list Z) (n : Z) : list Z :=
  if Z.of_nat (length buf) <? n
  then buf ++ replicate (Z.to_nat n - length buf) 0
  else buf.

(** The output dimensions computed at the top of [encode]. *)
Definition output_dims (cfg : EncoderConfig) (width height : Z) : option (Z * Z) :=
  d ← (if F32.ltb (downscale_factor cfg) F32.one
       then w ← F32.to_u32 (F32.mul (F32.of_int width) (downscale_factor cfg));
            h ← F32.to_u32 (F32.mul (F32.of_int height) (downscale_factor cfg));
            Some (w, h)
       else Some (width, height));
  let d := if (0 <? output_width cfg) && (0 <? output_height cfg)
           then (output_width cfg, output_height cfg) else d in
  Some (wrap32 ((d.1 / 2) * 2), wrap32 ((d.2 / 2) * 2)).

(** The first half of [encode]: everything up to the call of the JPEG
    back end. Returns the request handed to the back end and the stereo
    buffer. [AutoStereoProcessor] always selects the CPU processor, the CUDA
    one never initialising. *)
Definition prepare (e : t) (input : list Z) (width height pitch channels : Z)
  : option (JPEG.request * list Z) :=
  let cfg := config_ e in
  '(output_width, output_height) ← output_dims cfg width height;
  let output_pitch := wrap32 (output_width * 3) in
  let stereo_size := wrap32 (output_pitch * output_height) in
  let stereo_buffer := grow (stereo_buffer_ e) stereo_size in
  if vr_enabled cfg then
    '(result_pitch, stereo_buffer') ←
      CPUStereoProcessor.process_scaled input width height pitch channels
        stereo_buffer output_width output_height
        (downscale_factor cfg) (eye_separation cfg);
    if 0 <? result_pitch
    then Some (JPEG.mkRequest stereo_buffer' output_width output_height
                              output_pitch 3 (jpeg_quality cfg),
               stereo_buffer')
    else Some (JPEG.mkRequest input width height pitch channels (jpeg_quality cfg),
               stereo_buffer')
  else
    Some (JPEG.mkRequest input width height pitch channels (jpeg_quality cfg),
          stereo_buffer).

(** The statistics update at the end of [encode]. *)
Definition update_stats (st : Stats) (rq : JPEG.request) (encoded_size : Z) : Stats :=
  let raw_size :=
    wrap32 (wrap32 (JPEG.rq_width rq * JPEG.rq_height rq) * JPEG.rq_channels rq) in
  mkStats (wrap64 (frames_encoded st + 1))
          (wrap64 (bytes_encoded st + encoded_size))
          (F64.div (F64.of_int raw_size) (F64.of_int encoded_size)).

(** [VRFrameEncoder::encode] *)
Definition encode (jpeg : JPEG.backend) (e : t) (input : list Z)
  (width height pitch channels : Z) (output : list Z)
  : option (Z * list Z * t) :=
  '(rq, stereo_buffer) ← prepare e input width height pitch channels;
  let '(encoded_size, output') := jpeg rq output in
  Some (encoded_size, output',
        mk (config_ e) stereo_buffer (update_stats (stats_ e) rq encoded_size)).

(** [update_config] *)
Definition update_config (config : EncoderConfig) (e : t) : t :=
  mk config (stereo_buffer_ e) (stats_ e).

(** The configuration of the cold-start scenario: quality 65, downscale
    0.5, stereo disabled, no output size override. *)
Definition scenario_config : EncoderConfig :=
  set_vr_enabled false
    (set_downscale_factor (F32.lit 5 1)
      (set_jpeg_quality 65 EncoderConfig_init)).

End VRFrameEncoder.

(* ===================================================================== *)
(** ** [DXGICapture] and [CaptureManager] ([dxgi_capture.cpp]) *)
(* ===================================================================== *)

Module DXGICapture.

(** Outcome of [AcquireNextFrame] followed by the texture query. *)
Inductive acquire_result :=
| NewFrame            (* a frame and its texture *)
| NoTexture           (* a frame whose resource is not a texture *)
| WaitTimeout
| AccessLost
| Failed.

(** The answers of the operating system at the time of a call; a window
    handle is an integer, 0 being the null handle. *)
Record Platform := mkPlatform {
  device_ok : bool;             (* D3D11CreateDevice, hardware or WARP *)
  output_exists : Z -> bool;    (* EnumOutputs(monitor_index) *)
  duplicate_ok : bool;          (* DuplicateOutput *)
  staging_ok : bool;            (* CreateTexture2D *)
  is_window : Z -> bool;        (* IsWindow(hwnd) *)
  window_monitor : Z -> Z;      (* index found by the loop of init_window *)
  next_frame : acquire_result
}.

Record t := mk {
  initialized_ : bool;
  monitor_index_ : Z;
  target_window_ : Z;
  device_ : bool;               (* device_ is non-null *)
  duplication_ : bool;          (* duplication_ is non-null *)
  staging_texture_ : bool;
  frame_id_ : Z;
  frames_captured : Z;
  frames_dropped : Z
}.

Definition create : t := mk false 0 0 false false false 0 0 0.

Definition shutdown (c : t) : t :=
  mk false (monitor_index_ c) (target_window_ c) false false false
     (frame_id_ c) (frames_captured c) (frames_dropped c).

Definition create_device (p : Platform) (c : t) : bool * t :=
  if device_ok p
  then (true, mk (initialized_ c) (monitor_index_ c) (target_window_ c) true
                 (duplication_ c) (staging_texture_ c) (frame_id_ c)
                 (frames_captured c) (frames_dropped c))
  else (false, c).

Definition create_duplication (p : Platform) (monitor_index : Z) (c : t)
  : bool * t :=
  if negb (output_exists p monitor_index) then (false, c)
  else if negb (duplicate_ok p) then (false, c)
  else (true, mk (initialized_ c) (monitor_index_ c) (target_window_ c)
                 (device_ c) true (staging_texture_ c) (frame_id_ c)
                 (frames_captured c) (frames_dropped c)).

Definition create_staging_texture (p : Platform) (c : t) : bool * t :=
  if staging_ok p
  then (true, mk (initialized_ c) (monitor_index_ c) (target_window_ c)
                 (device_ c) (duplication_ c) true (frame_id_ c)
                 (frames_captured c) (frames_dropped c))
  else (false, c).

(** [DXGICapture::init(monitor_index)] *)
Definition init (p : Platform) (monitor_index : Z) (c : t) : bool * t :=
  let c := shutdown c in
  let c := mk (initialized_ c) monitor_index 0 (device_ c) (duplication_ c)
              (staging_texture_ c) (frame_id_ c) (frames_captured c)
              (frames_dropped c) in
  let '(ok, c) := create_device p c in
  if negb ok then (false, c) else
  let '(ok, c) := create_duplication p monitor_index c in
  if negb ok then (false, c) else
  let '(ok, c) := create_staging_texture p c in
  if negb ok then (false, c) else
  (true, mk true (monitor_index_ c) (target_window_ c) (device_ c)
            (duplication_ c) (staging_texture_ c) 0 (frames_captured c)
            (frames_dropped c)).

(** [DXGICapture::init_window(hwnd)] *)
Definition init_window (p : Platform) (hwnd : Z) (c : t) : bool * t :=
  if negb (is_window p hwnd) then (false, c) else
  let monitor_index := window_monitor p hwnd in
  let '(ok, c) := init p monitor_index c in
  if negb ok then (false, c) else
  (true, mk (initialized_ c) (monitor_index_ c) hwnd (device_ c)
            (duplication_ c) (staging_texture_ c) (frame_id_ c)
            (frames_captured c) (frames_dropped c)).

(** [reinit_duplication] *)
Definition reinit_duplication (p : Platform) (c : t) : bool * t :=
  let c := mk (initialized_ c) (monitor_index_ c) (target_window_ c) (device_ c)
              false (staging_texture_ c) (frame_id_ c) (frames_captured c)
              (frames_dropped c) in
  create_duplication p (monitor_index_ c) c.

(** [capture_frame]; the frame contents are not modelled. *)
Definition capture_frame (p : Platform) (c : t) : bool * t :=
  if negb (initialized_ c) || negb (duplication_ c) then (false, c) else
  match next_frame p with
  | WaitTimeout => (false, c)
  | AccessLost => (false, (reinit_duplication p c).2)
  | Failed =>
      (false, mk (initialized_ c) (monitor_index_ c) (target_window_ c)
                 (device_ c) (duplication_ c) (staging_texture_ c) (frame_id_ c)
                 (frames_captured c) (Machine.wrap64 (frames_dropped c + 1)))
  | NoTexture => (false, c)
  | NewFrame =>
      (true, mk (initialized_ c) (monitor_index_ c) (target_window_ c)
                (device_ c) (duplication_ c) (staging_texture_ c)
                (Machine.wrap32 (frame_id_ c + 1))
                (Machine.wrap64 (frames_captured c + 1)) (frames_dropped c))
  end.

End DXGICapture.

Module CaptureManager.

Record t := mk {
  capture_ : DXGICapture.t;
  selected_window_ : Z;         (* selected_window_.hwnd, 0 when cleared *)
  use_window_capture_ : bool;
  recovery_attempts_ : Z
}.

Definition MAX_RECOVERY_ATTEMPTS : Z := 3.

Definition create : t := mk DXGICapture.create 0 false 0.

Definition init (p : DXGICapture.Platform) (m : t) : bool * t :=
  let '(ok, c) := DXGICapture.init p 0 (capture_ m) in
  (ok, mk c (selected_window_ m) (use_window_capture_ m) (recovery_attempts_ m)).

Definition set_monitor (p : DXGICapture.Platform) (monitor_index : Z) (m : t)
  : bool * t :=
  let '(ok, c) := DXGICapture.init p monitor_index (capture_ m) in
  (ok, mk c 0 false (recovery_attempts_ m)).

Definition set_window (p : DXGICapture.Platform) (hwnd : Z) (m : t) : bool * t :=
  let '(ok, c) := DXGICapture.init_window p hwnd (capture_ m) in
  (ok, mk c hwnd true (recovery_attempts_ m)).

(** [CaptureManager::capture] *)
Definition capture (p : DXGICapture.Platform) (m : t) : bool * t :=
  if negb (DXGICapture.initialized_ (capture_ m)) then
    if MAX_RECOVERY_ATTEMPTS <=? recovery_attempts_ m then (false, m) else
    let attempts := Machine.wrap32 (recovery_attempts_ m + 1) in
    let '(ok, c) :=
      if use_window_capture_ m && negb (selected_window_ m =? 0)
      then DXGICapture.init_window p (selected_window_ m) (capture_ m)
      else DXGICapture.init p 0 (capture_ m) in
    if negb ok
    then (false, mk c (selected_window_ m) (use_window_capture_ m) attempts)
    else
      let '(got, c) := DXGICapture.capture_frame p c in
      (got, mk c (selected_window_ m) (use_window_capture_ m) 0)
  else
    let '(got, c) := DXGICapture.capture_frame p (capture_ m) in
    (got, mk c (selected_window_ m) (use_window_capture_ m) (recovery_attempts_ m)).

(** Two monitors, everything available, a frame ready. *)
Definition two_monitors : DXGICapture.Platform :=
  DXGICapture.mkPlatform true (fun i => (0 <=? i) && (i <? 2)) true true
    (fun _ => false) (fun _ => 0) DXGICapture.NewFrame.

(** The same machine while desktop duplication is refused. *)
Definition two_monitors_busy : DXGICapture.Platform :=
  DXGICapture.mkPlatform true (fun i => (0 <=? i) && (i <? 2)) false true
    (fun _ => false) (fun _ => 0) DXGICapture.NewFrame.

End CaptureManager.

(* ===================================================================== *)
(** ** [StreamingServer] ([websocket_server.cpp]) *)
(* ===================================================================== *)

Module StreamingServer.

(** [ClientInfo], reduced to the identity and the counters. *)
Record ClientInfo := mkClient {
  id : string;
  frames_sent : Z;
  bytes_sent : Z
}.

Record t := mk {
  max_clients : Z;                       (* config_.max_clients *)
  running_ : bool;
  sessions_ : gmap string ClientInfo;    (* the client registry *)
  (** sessions created by [on_accept] whose websocket handshake has not
      completed yet; they are not in the registry *)
  handshaking : list string;
  connected_clients : Z                  (* stats_.connected_clients *)
}.

Definition create (max_clients : Z) : t := mk max_clients true ∅ [] 0.

Definition client_count (s : t) : Z :=
  Machine.wrap32 (Z.of_nat (size (sessions_ s))).

Definition register_session (cid : string) (s : t) : t :=
  let m := <[cid := mkClient cid 0 0]> (sessions_ s) in
  mk (max_clients s) (running_ s) m (handshaking s)
     (Machine.wrap32 (Z.of_nat (size m))).

Definition unregister_session (cid : string) (s : t) : t :=
  let m := delete cid (sessions_ s) in
  mk (max_clients s) (running_ s) m (handshaking s)
     (Machine.wrap32 (Z.of_nat (size m))).

(** [StreamingServer::on_accept(ec, socket)]; [cid] is the remote endpoint
    of the accepted socket. Returns whether a session was started. *)
Definition on_accept (ec : bool) (cid : string) (s : t) : bool * t :=
  if ec then (false, s)
  else if client_count s <? max_clients s
  then (true, mk (max_clients s) (running_ s) (sessions_ s)
                 (cid :: handshaking s) (connected_clients s))
  else (false, s).

Definition remove_pending (cid : string) (s : t) : t :=
  mk (max_clients s) (running_ s) (sessions_ s)
     (filter (fun x => x ≠ cid) (handshaking s)) (connected_clients s).

(** [WebSocketSession::on_accept(ec)]: the handshake of a started session
    completes. On failure the session is dropped, whose destructor
    unregisters its id. *)
Definition session_on_accept (ec : bool) (cid : string) (s : t) : t :=
  if bool_decide (cid ∈ handshaking s) then
    let s := remove_pending cid s in
    if ec then unregister_session cid s
    else register_session cid s
  else s.

(** [WebSocketSession::close] *)
Definition session_close (cid : string) (s : t) : t :=
  unregister_session cid s.

Inductive event :=
| Accept (cid : string)            (* a TCP connection has been accepted *)
| AcceptError
| Handshake (cid : string)         (* its websocket handshake succeeded *)
| HandshakeError (cid : string)
| Close (cid : string).

Definition step (e : event) (s : t) : t :=
  match e with
  | Accept cid => (on_accept false cid s).2
  | AcceptError => (on_accept true "" s).2
  | Handshake cid => session_on_accept false cid s
  | HandshakeError cid => session_on_accept true cid s
  | Close cid => session_close cid s
  end.

Definition run (es : list event) (s : t) : t :=
  fold_left (fun s e => step e s) es s.

End StreamingServer.

(* ===================================================================== *)
(** ** [VRStreamerApp] ([vr_streamer_app.cpp]) *)
(* ===================================================================== *)

Module VRStreamerApp.
Import Cfg.

Record t := mk {
  config_ : Config;
  encoder_ : option VRFrameEncoder.t;
  (** messages delivered to the [on_error] callback so far *)
  errors_ : list string
}.

(** [update_config] *)
Definition update_config (config : Config) (a : t) : t :=
  mk config
     (VRFrameEncoder.update_config (encoder config) <$> encoder_ a)
     (errors_ a).

(** [set_quality_preset] *)
Definition set_quality_preset (preset : QualityPreset) (a : t) : t :=
  let config := apply_preset preset (config_ a) in
  mk config
     (VRFrameEncoder.update_config (encoder config) <$> encoder_ a)
     (errors_ a).

(** [set_quality] *)
Definition set_quality (quality : Z) (a : t) : t :=
  let config :=
    on_encoder (set_jpeg_quality (Machine.clamp quality 1 100)) (config_ a) in
  mk config
     (VRFrameEncoder.update_config (encoder config) <$> encoder_ a)
     (errors_ a).

(** [set_downscale] *)
Definition set_downscale (factor : spec_float) (a : t) : t :=
  let config :=
    on_encoder (set_downscale_factor (F32.clamp factor (F32.lit 1 1) F32.one))
               (config_ a) in
  mk config
     (VRFrameEncoder.update_config (encoder config) <$> encoder_ a)
     (errors_ a).

End VRStreamerApp.

(* ===================================================================== *)
(** ** Text input and output of the C++ library *)
(* ===================================================================== *)

(** The contents of a [std::string] or of a file are a list of characters.
    The functions below model the library calls [config.cpp] relies on:
    stream insertion of integers and floats, [std::getline], [std::stoi],
    [std::stof], [std::string::find]. *)
Module Text.

Definition str (s : string) : list ascii := String.list_ascii_of_string s.

Definition nl : ascii := ascii_of_nat 10.
Definition cr : ascii := ascii_of_nat 13.
Definition quote : ascii := ascii_of_nat 34.
Definition space : ascii := ascii_of_nat 32.
Definition colon : ascii := ascii_of_nat 58.

(** *** Integers *)

Definition digit_char (d : Z) : ascii := ascii_of_N (Z.to_N (48 + d)).

Definition digit_val (c : ascii) : option Z :=
  let n := Z.of_N (N_of_ascii c) in
  if (48 <=? n) && (n <=? 57) then Some (n - 48) else None.

(** Decimal digits of a non-negative integer, most significant first;
    [fuel] bounds the number of digits. *)
Fixpoint digits_aux (fuel : nat) (n : Z) (acc : list ascii) : list ascii :=
  let acc' := digit_char (n mod 10) :: acc in
  match fuel with
  | O => acc'
  | S f => if n <? 10 then acc' else digits_aux f (n / 10) acc'
  end.

(** [os << n] for an unsigned integer of at most 64 bits. *)
Definition print_unsigned (n : Z) : list ascii := digits_aux 20 n [].

(** [os << n] for a signed integer. *)
Definition print_signed (n : Z) : list ascii :=
  if n <? 0 then str "-" ++ print_unsigned (- n) else print_unsigned n.

(** [isspace] in the C locale. *)
Definition is_space (c : ascii) : bool :=
  let n := Z.of_N (N_of_ascii c) in (n =? 32) || ((9 <=? n) && (n <=? 13)).

Fixpoint skip_space (s : list ascii) : list ascii :=
  match s with
  | c :: s' => if is_space c then skip_space s' else s
  | [] => []
  end.

(** The value of the longest prefix of digits, continuing from [acc]. *)
Fixpoint parse_digits_acc (s : list ascii) (acc : Z) : Z :=
  match s with
  | c :: s' =>
      match digit_val c with
      | Some d => parse_digits_acc s' (acc * 10 + d)
      | None => acc
      end
  | [] => acc
  end.

Definition starts_with_digit (s : list ascii) : bool :=
  match s with
  | c :: _ => match digit_val c with Some _ => true | None => false end
  | [] => false
  end.

(** An optional sign: whether it is a minus, and the rest. *)
Definition take_sign (s : list ascii) : bool * list ascii :=
  match s with
  | c :: s' =>
      if Ascii.eqb c "-" then (true, s')
      else if Ascii.eqb c "+" then (false, s')
      else (false, s)
  | [] => (false, [])
  end.

(** [std::stoi(s)]: leading white space, an optional sign, decimal digits;
    what follows the digits is ignored. [None] stands for the exceptions
    [std::invalid_argument] (no digit) and [std::out_of_range] (the value
    does not fit [int]). *)
Definition stoi (s : list ascii) : option Z :=
  let '(neg, s1) := take_sign (skip_space s) in
  if starts_with_digit s1 then
    let n := parse_digits_acc s1 0 in
    let v := if neg then - n else n in
    if (Machine.INT_MIN <=? v) && (v <=? Machine.INT_MAX) then Some v else None
  else None.

(** *** Floats *)

(** Quotient of [a / b] rounded to nearest, ties to even. *)
Definition round_div (a b : Z) : Z :=
  let q := a / b in
  let r := a mod b in
  if 2 * r <? b then q
  else if b <? 2 * r then q + 1
  else if Z.even q then q else q + 1.

(** Whether [10^k <= num / den]. *)
Definition ge_pow10 (num den k : Z) : bool :=
  if 0 <=? k then 10 ^ k * den <=? num else den <=? num * 10 ^ (- k).

(** The largest [k], searched downwards from the start, with
    [10^k <= num / den]. *)
Fixpoint find_exp (fuel : nat) (k : Z) (num den : Z) : Z :=
  match fuel with
  | O => k
  | S f => if ge_pow10 num den k then k else find_exp f (k - 1) num den
  end.

Fixpoint drop_zeros (s : list ascii) : list ascii :=
  match s with
  | c :: s' => if Ascii.eqb c "0" then drop_zeros s' else s
  | [] => []
  end.

(** Removal of trailing zeros. *)
Definition strip_zeros (s : list ascii) : list ascii :=
  rev (drop_zeros (rev s)).

(** A fractional part, with its point when it is not empty. *)
Definition point_frac (frac : list ascii) : list ascii :=
  match strip_zeros frac with
  | [] => []
  | f => str "." ++ f
  end.

(** [printf("%g")] with the default precision 6 of a positive value
    [num / den]: six significant digits correctly rounded, fixed notation
    when the decimal exponent is in [-4, 6), scientific otherwise, trailing
    zeros removed. *)
Definition print_g6 (num den : Z) : list ascii :=
  let X0 := find_exp 100 40 num den in
  let D0 := if 0 <=? 5 - X0
            then round_div (num * 10 ^ (5 - X0)) den
            else round_div num (den * 10 ^ (X0 - 5)) in
  let '(X, D) := if D0 =? 10 ^ 6 then (X0 + 1, 10 ^ 5) else (X0, D0) in
  let ds := digits_aux 5 D [] in
  if (-4 <=? X) && (X <? 6) then
    if 0 <=? X
    then take (Z.to_nat (X + 1)) ds ++ point_frac (drop (Z.to_nat (X + 1)) ds)
    else str "0" ++ point_frac (replicate (Z.to_nat (- X - 1)) "0"%char ++ ds)
  else
    take 1 ds ++ point_frac (drop 1 ds) ++ str "e"
      ++ (if X <? 0 then str "-" else str "+")
      ++ (if Z.abs X <? 10 then str "0" else [])
      ++ print_unsigned (Z.abs X).

(** [os << x] for a [float], default format flags. *)
Definition print_float (x : spec_float) : list ascii :=
  match x with
  | S754_zero s => (if s then str "-" else []) ++ str "0"
  | S754_infinity s => (if s then str "-" else []) ++ str "inf"
  | S754_nan => str "nan"
  | S754_finite s m e =>
      (if s then str "-" else [])
        ++ (if 0 <=? e then print_g6 (Z.pos m * 2 ^ e) 1
            else print_g6 (Z.pos m) (2 ^ (- e)))
  end.

Fixpoint is_prefix (p s : list ascii) : bool :=
  match p, s with
  | [], _ => true
  | a :: p', b :: s' => Ascii.eqb a b && is_prefix p' s'
  | _ :: _, [] => false
  end.

(** The digits at the front of [s], and the rest. *)
Fixpoint span_digits (s : list ascii) : list ascii * list ascii :=
  match s with
  | c :: s' =>
      match digit_val c with
      | Some _ => let '(d, r) := span_digits s' in (c :: d, r)
      | None => ([], s)
      end
  | [] => ([], [])
  end.

(** The binary32 value nearest to [n * 10^k], [n > 0]. *)
Definition nearest_f32 (neg : bool) (n : positive) (k : Z) : spec_float :=
  if 0 <=? k
  then binary_normalize F32.prec F32.emax
         (if neg then Z.neg n * 10 ^ k else Z.pos n * 10 ^ k) 0 false
  else SFdiv F32.prec F32.emax (S754_finite neg n 0)
         (S754_finite false (Z.to_pos (10 ^ (- k))) 0).

(** Normal numbers of binary32 have a 24-bit significand. *)
Definition is_normal_f32 (x : spec_float) : bool :=
  match x with
  | S754_finite _ m _ => Z.pos (SpecFloat.digits2_pos m) =? F32.prec
  | _ => false
  end.

(** [std::stof(s)]: leading white space, an optional sign, then [inf],
    [nan] or a decimal number with optional fraction and exponent, rounded
    to the nearest [float]. [None] stands for [std::invalid_argument] (no
    number) and [std::out_of_range] (overflow, or a non-zero value that
    underflows). Hexadecimal floats are not modelled. *)
Definition stof (s : list ascii) : option spec_float :=
  let '(neg, s1) := take_sign (skip_space s) in
  if is_prefix (str "inf") s1 then Some (S754_infinity neg)
  else if is_prefix (str "nan") s1 then Some S754_nan
  else
    let '(ip, r1) := span_digits s1 in
    let '(fp, r2) :=
      match r1 with
      | c :: r => if Ascii.eqb c "." then span_digits r else ([], r1)
      | [] => ([], [])
      end in
    match ip ++ fp with
    | [] => None
    | mant =>
        let ex :=
          match r2 with
          | c :: r =>
              if Ascii.eqb c "e" || Ascii.eqb c "E" then
                let '(eneg, r') := take_sign r in
                if starts_with_digit r'
                then (if eneg then - parse_digits_acc r' 0
                      else parse_digits_acc r' 0)
                else 0
              else 0
          | [] => 0
          end in
        match parse_digits_acc mant 0 with
        | Z.pos n =>
            let x := nearest_f32 neg n (ex - Z.of_nat (length fp)) in
            if is_normal_f32 x then Some x else None
        | _ => Some (S754_zero neg)
        end
    end.

(** *** Lines and searching *)

(** Successive [std::getline] calls until end of file; [cur] holds the
    characters of the current line in reverse. *)
Fixpoint getlines_aux (s : list ascii) (cur : list ascii) : list (list ascii) :=
  match s with
  | [] => match cur with [] => [] | _ => [rev cur] end
  | c :: s' =>
      if Ascii.eqb c nl then rev cur :: getlines_aux s' []
      else getlines_aux s' (c :: cur)
  end.

Definition getlines (s : list ascii) : list (list ascii) := getlines_aux s [].

(** [s.find(p) != npos] *)
Fixpoint contains (p s : list ascii) : bool :=
  is_prefix p s ||
  match s with
  | [] => false
  | _ :: s' => contains p s'
  end.

(** [s.substr(s.find(':') + 1)], if there is a colon. *)
Fixpoint after_colon (s : list ascii) : option (list ascii) :=
  match s with
  | [] => None
  | c :: s' => if Ascii.eqb c colon then Some s' else after_colon s'
  end.

Fixpoint drop_while (f : ascii -> bool) (s : list ascii) : list ascii :=
  match s with
  | c :: s' => if f c then drop_while f s' else s
  | [] => []
  end.

Definition eqs (a b : list ascii) : bool := bool_decide (a = b).

(** The pattern [p] does not hold the character [c]. *)
Definition lacks (c : ascii) (p : list ascii) : bool :=
  forallb (fun x => negb (Ascii.eqb x c)) p.

(** Lines joined the way the stream writes them. *)
Definition unlines (ls : list (list ascii)) : list ascii :=
  concat (map (fun l => l ++ [nl]) ls).

Definition no_nl (s : list ascii) : bool :=
  forallb (fun c => negb (Ascii.eqb c nl)) s.

Definition no_colon (s : list ascii) : bool :=
  forallb (fun c => negb (Ascii.eqb c colon)) s.

End Text.

(* ===================================================================== *)
(** ** [Config::save] and [Config::load] ([config.cpp]) *)
(* ===================================================================== *)

Module ConfigIO.
Import Cfg Text.

Definition print_bool (b : bool) : list ascii :=
  if b then str "true" else str "false".

Definition print_method (m : Method) : list ascii :=
  match m with
  | JPEG => str "jpeg"
  | NVJPEG => str "nvjpeg"
  | TURBOJPEG => str "turbojpeg"
  | H264 => str "h264"
  | RAW => str "raw"
  end.

(** The characters [Config::save] sends to the file. *)
Definition save_text (c : Config) : list ascii :=
  let cap := capture c in
  let enc := encoder c in
  let net := network c in
  str "# VR Streamer Configuration" ++ [nl] ++ [nl]
  ++ str "capture:" ++ [nl]
  ++ str "  target_fps: " ++ print_unsigned (target_fps cap) ++ [nl]
  ++ str "  monitor_index: " ++ print_unsigned (monitor_index cap) ++ [nl]
  ++ str "  capture_cursor: " ++ print_bool (capture_cursor cap) ++ [nl]
  ++ str "  use_gpu_capture: " ++ print_bool (use_gpu_capture cap) ++ [nl]
  ++ str "  frame_buffer_count: " ++ print_unsigned (frame_buffer_count cap) ++ [nl]
  ++ str "  wait_for_vsync: " ++ print_bool (wait_for_vsync cap) ++ [nl]
  ++ [nl]
  ++ str "encoder:" ++ [nl]
  ++ str "  jpeg_quality: " ++ print_unsigned (jpeg_quality enc) ++ [nl]
  ++ str "  downscale_factor: " ++ print_float (downscale_factor enc) ++ [nl]
  ++ str "  output_width: " ++ print_unsigned (output_width enc) ++ [nl]
  ++ str "  output_height: " ++ print_unsigned (output_height enc) ++ [nl]
  ++ str "  compression_method: " ++ print_method (method enc)
  ++ [nl]
  ++ str "  vr_enabled: " ++ print_bool (vr_enabled enc) ++ [nl]
  ++ str "  eye_separation: " ++ print_float (eye_separation enc) ++ [nl]
  ++ str "  use_gpu: " ++ print_bool (use_gpu enc) ++ [nl]
  ++ str "  gpu_device_id: " ++ print_signed (gpu_device_id enc) ++ [nl]
  ++ str "  use_nvenc: " ++ print_bool (use_nvenc enc) ++ [nl]
  ++ str "  use_nvjpeg: " ++ print_bool (use_nvjpeg enc) ++ [nl]
  ++ str "  h264_bitrate: " ++ print_unsigned (h264_bitrate enc) ++ [nl]
  ++ str "  h264_gop_length: " ++ print_unsigned (h264_gop_length enc) ++ [nl]
  ++ str "  h264_low_latency: " ++ print_bool (h264_low_latency enc) ++ [nl]
  ++ [nl]
  ++ str "network:" ++ [nl]
  ++ str "  host: " ++ [quote] ++ str (host net) ++ [quote] ++ [nl]
  ++ str "  port: " ++ print_unsigned (port net) ++ [nl]
  ++ str "  http_port: " ++ print_unsigned (http_port net) ++ [nl]
  ++ str "  static_ip: " ++ [quote] ++ str (static_ip net) ++ [quote] ++ [nl]
  ++ str "  max_clients: " ++ print_unsigned (max_clients net) ++ [nl]
  ++ str "  send_buffer_size: " ++ print_unsigned (send_buffer_size net) ++ [nl]
  ++ str "  ping_interval: " ++ print_float (ping_interval net) ++ [nl]
  ++ str "  use_tcp_nodelay: " ++ print_bool (use_tcp_nodelay net) ++ [nl]
  ++ str "  use_cork: " ++ print_bool (use_cork net) ++ [nl].

(** The lambda [parse_bool] *)
Definition parse_bool (s : list ascii) : bool :=
  eqs s (str "true") || eqs s (str "yes") || eqs s (str "1").

Definition trim_front_char (c : ascii) : bool :=
  Ascii.eqb c space || Ascii.eqb c quote.

Definition trim_back_char (c : ascii) : bool :=
  Ascii.eqb c space || Ascii.eqb c quote || Ascii.eqb c cr.

(** The lambda [parse_value] *)
Definition parse_value (line : list ascii) : list ascii :=
  match after_colon line with
  | None => []
  | Some value =>
      rev (drop_while trim_back_char (rev (drop_while trim_front_char value)))
  end.

(** The two trimming loops of [parse_value]. *)
Definition trim (value : list ascii) : list ascii :=
  rev (drop_while trim_back_char (rev (drop_while trim_front_char value))).

Definition parse_method (value : list ascii) (m : Method) : Method :=
  if eqs value (str "jpeg") then JPEG
  else if eqs value (str "nvjpeg") then NVJPEG
  else if eqs value (str "turbojpeg") then TURBOJPEG
  else if eqs value (str "h264") then H264
  else if eqs value (str "raw") then RAW
  else m.

Definition has (key : string) (line : list ascii) : bool := contains (str key) line.

(** The [capture] branch of the loop body. *)
Definition load_capture (line value : list ascii) (c : CaptureConfig)
  : option CaptureConfig :=
  if has "target_fps:" line then
    v ← stoi value; Some (set_target_fps (Machine.wrap32 v) c)
  else if has "monitor_index:" line then
    v ← stoi value; Some (set_monitor_index (Machine.wrap32 v) c)
  else if has "capture_cursor:" line then
    Some (set_capture_cursor (parse_bool value) c)
  else if has "use_gpu_capture:" line then
    Some (set_use_gpu_capture (parse_bool value) c)
  else if has "frame_buffer_count:" line then
    v ← stoi value; Some (set_frame_buffer_count (Machine.wrap32 v) c)
  else if has "wait_for_vsync:" line then
    Some (set_wait_for_vsync (parse_bool value) c)
  else Some c.

(** The [encoder] branch of the loop body. *)
Definition load_encoder (line value : list ascii) (e : EncoderConfig)
  : option EncoderConfig :=
  if has "jpeg_quality:" line then
    v ← stoi value; Some (set_jpeg_quality (Machine.wrap32 v) e)
  else if has "downscale_factor:" line then
    x ← stof value; Some (set_downscale_factor x e)
  else if has "output_width:" line then
    v ← stoi value; Some (set_output_width (Machine.wrap32 v) e)
  else if has "output_height:" line then
    v ← stoi value; Some (set_output_height (Machine.wrap32 v) e)
  else if has "compression_method:" line then
    Some (set_method (parse_method value (method e)) e)
  else if has "vr_enabled:" line then
    Some (set_vr_enabled (parse_bool value) e)
  else if has "eye_separation:" line then
    x ← stof value; Some (set_eye_separation x e)
  else if has "use_gpu:" line then
    Some (set_use_gpu (parse_bool value) e)
  else if has "gpu_device_id:" line then
    v ← stoi value; Some (set_gpu_device_id v e)
  else if has "use_nvenc:" line then
    Some (set_use_nvenc (parse_bool value) e)
  else if has "use_nvjpeg:" line then
    Some (set_use_nvjpeg (parse_bool value) e)
  else if has "h264_bitrate:" line then
    v ← stoi value; Some (set_h264_bitrate (Machine.wrap32 v) e)
  else if has "h264_gop_length:" line then
    v ← stoi value; Some (set_h264_gop_length (Machine.wrap32 v) e)
  else if has "h264_low_latency:" line then
    Some (set_h264_low_latency (parse_bool value) e)
  else Some e.

(** The [network] branch of the loop body. *)
Definition load_network (line value : list ascii) (n : NetworkConfig)
  : option NetworkConfig :=
  if has "host:" line then
    Some (set_host (String.string_of_list_ascii value) n)
  else if has "http_port:" line then
    v ← stoi value; Some (set_http_port (Machine.wrap16 v) n)
  else if has "port:" line then
    v ← stoi value; Some (set_port (Machine.wrap16 v) n)
  else if has "static_ip:" line then
    Some (set_static_ip (String.string_of_list_ascii value) n)
  else if has "max_clients:" line then
    v ← stoi value; Some (set_max_clients (Machine.wrap32 v) n)
  else if has "send_buffer_size:" line then
    v ← stoi value; Some (set_send_buffer_size (Machine.wrap32 v) n)
  else if has "ping_interval:" line then
    x ← stof value; Some (set_ping_interval x n)
  else if has "use_tcp_nodelay:" line then
    Some (set_use_tcp_nodelay (parse_bool value) n)
  else if has "use_cork:" line then
    Some (set_use_cork (parse_bool value) n)
  else Some n.

(** One iteration of the [while (std::getline(file, line))] loop on the
    current section name and configuration; [None] when [std::stoi] or
    [std::stof] throws. *)
Definition load_line (line : list ascii) (st : list ascii * Config)
  : option (list ascii * Config) :=
  let '(section, config) := st in
  match line with
  | [] => Some st
  | c0 :: _ =>
      if Ascii.eqb c0 "#" then Some st
      else if negb (Ascii.eqb c0 space) && eqs (drop (length line - 1) line) [colon]
      then Some (take (length line - 1) line, config)
      else
        let value := parse_value line in
        match value with
        | [] => Some st
        | _ =>
            if eqs section (str "capture") then
              cap ← load_capture line value (capture config);
              Some (section, mkConfig cap (encoder config) (network config))
            else if eqs section (str "encoder") then
              enc ← load_encoder line value (encoder config);
              Some (section, mkConfig (capture config) enc (network config))
            else if eqs section (str "network") then
              net ← load_network line value (network config);
              Some (section, mkConfig (capture config) (encoder config) net)
            else Some st
        end
  end.

Fixpoint load_lines (lines : list (list ascii)) (st : list ascii * Config)
  : option (list ascii * Config) :=
  match lines with
  | [] => Some st
  | line :: rest => st' ← load_line line st; load_lines rest st'
  end.

(** [Config::load] on the contents of an opened file. *)
Definition load_text (text : list ascii) : option Config :=
  st ← load_lines (getlines text) ([], Config_init); Some st.2.

(** A file system: the files that exist with their contents, and the
    paths that can be opened for writing. *)
Record FS := mkFS {
  files : gmap string (list ascii);
  writable : string -> bool
}.

(** [Config::save(filepath)]: [false] when the file cannot be opened. *)
Definition save (c : Config) (filepath : string) (fs : FS) : bool * FS :=
  if writable fs filepath
  then (true, mkFS (<[filepath := save_text c]> (files fs)) (writable fs))
  else (false, fs).

(** [Config::load(filepath)]: the default configuration when the file
    cannot be opened; [None] when parsing throws. *)
Definition load (filepath : string) (fs : FS) : option Config :=
  match files fs !! filepath with
  | None => Some default_config
  | Some text => load_text text
  end.

(** The lines of the file, one per [std::getline]. *)
Definition capture_lines (cap : CaptureConfig) : list (list ascii) :=
  [ str "  target_fps: " ++ print_unsigned (target_fps cap);
    str "  monitor_index: " ++ print_unsigned (monitor_index cap);
    str "  capture_cursor: " ++ print_bool (capture_cursor cap);
    str "  use_gpu_capture: " ++ print_bool (use_gpu_capture cap);
    str "  frame_buffer_count: " ++ print_unsigned (frame_buffer_count cap);
    str "  wait_for_vsync: " ++ print_bool (wait_for_vsync cap) ].

Definition encoder_lines (enc : EncoderConfig) : list (list ascii) :=
  [ str "  jpeg_quality: " ++ print_unsigned (jpeg_quality enc);
    str "  downscale_factor: " ++ print_float (downscale_factor enc);
    str "  output_width: " ++ print_unsigned (output_width enc);
    str "  output_height: " ++ print_unsigned (output_height enc);
    str "  compression_method: " ++ print_method (method enc);
    str "  vr_enabled: " ++ print_bool (vr_enabled enc);
    str "  eye_separation: " ++ print_float (eye_separation enc);
    str "  use_gpu: " ++ print_bool (use_gpu enc);
    str "  gpu_device_id: " ++ print_signed (gpu_device_id enc);
    str "  use_nvenc: " ++ print_bool (use_nvenc enc);
    str "  use_nvjpeg: " ++ print_bool (use_nvjpeg enc);
    str "  h264_bitrate: " ++ print_unsigned (h264_bitrate enc);
    str "  h264_gop_length: " ++ print_unsigned (h264_gop_length enc);
    str "  h264_low_latency: " ++ print_bool (h264_low_latency enc) ].

Definition network_lines (net : NetworkConfig) : list (list ascii) :=
  [ str "  host: " ++ [quote] ++ str (host net) ++ [quote];
    str "  port: " ++ print_unsigned (port net);
    str "  http_port: " ++ print_unsigned (http_port net);
    str "  static_ip: " ++ [quote] ++ str (static_ip net) ++ [quote];
    str "  max_clients: " ++ print_unsigned (max_clients net);
    str "  send_buffer_size: " ++ print_unsigned (send_buffer_size net);
    str "  ping_interval: " ++ print_float (ping_interval net);
    str "  use_tcp_nodelay: " ++ print_bool (use_tcp_nodelay net);
    str "  use_cork: " ++ print_bool (use_cork net) ].

Definition save_lines (c : Config) : list (list ascii) :=
  [str "# VR Streamer Configuration"; []; str "capture:"]
  ++ capture_lines (capture c)
  ++ [[]; str "encoder:"]
  ++ encoder_lines (encoder c)
  ++ [[]; str "network:"]
  ++ network_lines (network c).

(** Characters that neither end a line, nor separate key and value, nor
    are trimmed by [parse_value]. *)
Definition plain_char (c : ascii) : bool :=
  negb (Ascii.eqb c nl || Ascii.eqb c cr || Ascii.eqb c quote
        || Ascii.eqb c space || Ascii.eqb c colon).

Definition plain (s : list ascii) : bool := forallb plain_char s.

(** Values of [int]. *)
Definition fits_int (v : Z) : Prop := 0 <= v <= Machine.INT_MAX.

(** A float that [std::stof] reads back from its own printed form. *)
Definition prints_exactly (x : spec_float) : Prop :=
  stof (print_float x) = Some x.

(** A float that [load] reads back as a value equal to it: a NaN is read
    back as a NaN, which compares unequal. *)
Definition reads_back (x : spec_float) : Prop :=
  prints_exactly x /\ x <> S754_nan.

(** A string that is written on one line and that the two loops of
    [parse_value] leave as it is: it has no newline, does not begin with a
    space or a quote, and does not end with a space, a quote or a carriage
    return. *)
Definition kept (v : list ascii) : bool :=
  no_nl v
  && match v with c :: _ => negb (trim_front_char c) | [] => true end
  && match rev v with c :: _ => negb (trim_back_char c) | [] => true end.

(** The values of the C++ types of the fields: [u32], [i32] for the GPU
    device id, [u16] for the ports. *)
Definition in_u32 (v : Z) : Prop := 0 <= v < 2 ^ 32.

Definition well_typed (c : Config) : Prop :=
  let cap := capture c in
  let enc := encoder c in
  let net := network c in
  (in_u32 (target_fps cap) /\ in_u32 (monitor_index cap) /\
   in_u32 (frame_buffer_count cap)) /\
  (in_u32 (jpeg_quality enc) /\ in_u32 (output_width enc) /\
   in_u32 (output_height enc) /\
   Machine.INT_MIN <= gpu_device_id enc <= Machine.INT_MAX /\
   in_u32 (h264_bitrate enc) /\ in_u32 (h264_gop_length enc)) /\
  (0 <= port net < 2 ^ 16 /\ 0 <= http_port net < 2 ^ 16 /\
   in_u32 (max_clients net) /\ in_u32 (send_buffer_size net)).

(** [a == b] on [float]. *)
Definition feq (a b : spec_float) : bool := SFeqb a b.

(** Every key that [save] writes compares equal in [a] and [b]. *)
Definition keys_equal (a b : Config) : Prop :=
  (target_fps (capture a) = target_fps (capture b) /\
   monitor_index (capture a) = monitor_index (capture b) /\
   capture_cursor (capture a) = capture_cursor (capture b) /\
   use_gpu_capture (capture a) = use_gpu_capture (capture b) /\
   frame_buffer_count (capture a) = frame_buffer_count (capture b) /\
   wait_for_vsync (capture a) = wait_for_vsync (capture b)) /\
  (jpeg_quality (encoder a) = jpeg_quality (encoder b) /\
   feq (downscale_factor (encoder a)) (downscale_factor (encoder b)) = true /\
   output_width (encoder a) = output_width (encoder b) /\
   output_height (encoder a) = output_height (encoder b) /\
   method (encoder a) = method (encoder b) /\
   vr_enabled (encoder a) = vr_enabled (encoder b) /\
   feq (eye_separation (encoder a)) (eye_separation (encoder b)) = true /\
   use_gpu (encoder a) = use_gpu (encoder b) /\
   gpu_device_id (encoder a) = gpu_device_id (encoder b) /\
   use_nvenc (encoder a) = use_nvenc (encoder b) /\
   use_nvjpeg (encoder a) = use_nvjpeg (encoder b) /\
   h264_bitrate (encoder a) = h264_bitrate (encoder b) /\
   h264_gop_length (encoder a) = h264_gop_length (encoder b) /\
   h264_low_latency (encoder a) = h264_low_latency (encoder b)) /\
  (host (network a) = host (network b) /\
   port (network a) = port (network b) /\
   http_port (network a) = http_port (network b) /\
   static_ip (network a) = static_ip (network b) /\
   max_clients (network a) = max_clients (network b) /\
   send_buffer_size (network a) = send_buffer_size (network b) /\
   feq (ping_interval (network a)) (ping_interval (network b)) = true /\
   use_tcp_nodelay (network a) = use_tcp_nodelay (network b) /\
   use_cork (network a) = use_cork (network b)).

(** [c] survives [save] and [load]: what [load] reads from what [save]
    wrote has every key equal to that of [c]. *)
Definition survives (c : Config) : Prop :=
  exists c', load_text (save_text c) = Some c' /\ keys_equal c' c.

(** The configurations that survive, field by field: every unsigned
    field within [int]; the three floats read back as equal values; a
    non-empty host that [parse_value] keeps; a static address that is
    empty (its line is then skipped and the empty default stays) or that
    [parse_value] keeps and that holds neither ["host:"] nor ["port:"],
    for which [load] tests the line before it tests ["static_ip:"]. The
    ranges of the ports and of the GPU device id are those of their
    types. *)
Definition representable (c : Config) : Prop :=
  let cap := capture c in
  let enc := encoder c in
  let net := network c in
  (fits_int (target_fps cap) /\ fits_int (monitor_index cap) /\
   fits_int (frame_buffer_count cap)) /\
  (fits_int (jpeg_quality enc) /\ fits_int (output_width enc) /\
   fits_int (output_height enc) /\
   Machine.INT_MIN <= gpu_device_id enc <= Machine.INT_MAX /\
   fits_int (h264_bitrate enc) /\ fits_int (h264_gop_length enc) /\
   reads_back (downscale_factor enc) /\
   reads_back (eye_separation enc)) /\
  (0 <= port net < 2 ^ 16 /\ 0 <= http_port net < 2 ^ 16 /\
   fits_int (max_clients net) /\ fits_int (send_buffer_size net) /\
   reads_back (ping_interval net) /\
   host net <> "" /\ kept (str (host net)) = true /\
   (static_ip net = "" \/
    kept (str (static_ip net)) = true /\
    contains (str "host:") (str (static_ip net)) = false /\
    contains (str "port:") (str (static_ip net)) = false)).

End ConfigIO.

(* ===================================================================== *)
(** ** The ring seen as a bounded first-in first-out list *)
(* ===================================================================== *)

Module QueueModel.
Section Contents.
Context {T : Type} `{Inhabited T}.
Variable N : Z.

(** Number of occupied slots, and the slot [i] places after [head_]. *)
Definition count (q : SPSCQueue.t T) : Z :=
  (SPSCQueue.tail_ q - SPSCQueue.head_ q) mod N.

Definition slot (q : SPSCQueue.t T) (i : nat) : T :=
  SPSCQueue.storage_ q !!! Z.to_nat ((SPSCQueue.head_ q + Z.of_nat i) mod N).

(** The stored items, oldest first. *)
Definition contents (q : SPSCQueue.t T) : list T :=
  map (slot q) (seq 0 (Z.to_nat (count q))).

(** A list that holds at most [N - 1] items. *)
Definition fifo_step (o : SPSCQueue.op) (l : list T) : list T :=
  match o with
  | SPSCQueue.Push item =>
      if Z.of_nat (length l) <? N - 1 then l ++ [item] else l
  | SPSCQueue.Pop => tail l
  | SPSCQueue.Clear => []
  end.

Definition fifo_run (ops : list SPSCQueue.op) (l : list T) : list T :=
  fold_left (fun l o => fifo_step o l) ops l.

End Contents.
End QueueModel.

(* ===================================================================== *)
(** ** [SPSCFrameQueue<T, N>] ([spsc_queue.hpp]) *)
(* ===================================================================== *)

Module SPSCFrameQueue.
Section Queue.
Context {T : Type} `{Inhabited T}.
Variable N : Z.

(** [struct Slot { T data; std::atomic<bool> ready; }] *)
Record Slot := mkSlot {
  data : T;
  ready : bool
}.

Record t := mk {
  head_ : Z;
  tail_ : Z;
  slots_ : list Slot;
  write_in_progress_ : bool
}.

#[export] Instance Slot_inhabited : Inhabited Slot :=
  populate (mkSlot inhabitant false).

(** [(i + 1) & (N - 1)] on [size_t]. *)
Definition next (i : Z) : Z :=
  Z.land (Machine.wrap64 (i + 1)) (Machine.wrap64 (N - 1)).

Definition init : t :=
  {| head_ := 0; tail_ := 0;
     slots_ := replicate (Z.to_nat N) (mkSlot inhabitant false);
     write_in_progress_ := false |}.

Definition set_ready (i : Z) (b : bool) (l : list Slot) : list Slot :=
  <[Z.to_nat i := mkSlot (data (l !!! Z.to_nat i)) b]> l.

Definition set_data (i : Z) (v : T) (l : list Slot) : list Slot :=
  <[Z.to_nat i := mkSlot v (ready (l !!! Z.to_nat i))]> l.

(** [begin_write]: the returned pointer is the index of the slot it
    points into; [None] is the null pointer. *)
Definition begin_write (q : t) : option Z * t :=
  if write_in_progress_ q then (None, q)
  else
    let tail := tail_ q in
    if next tail =? head_ q then (None, q)
    else (Some tail,
          {| head_ := head_ q; tail_ := tail_ q; slots_ := slots_ q;
             write_in_progress_ := true |}).

(** The producer's store through the pointer [begin_write] returned. *)
Definition write (i : Z) (v : T) (q : t) : t :=
  {| head_ := head_ q; tail_ := tail_ q;
     slots_ := set_data i v (slots_ q);
     write_in_progress_ := write_in_progress_ q |}.

Definition commit_write (q : t) : t :=
  if negb (write_in_progress_ q) then q
  else
    let tail := tail_ q in
    {| head_ := head_ q;
       tail_ := next tail;
       slots_ := set_ready tail true (slots_ q);
       write_in_progress_ := false |}.

(** [peek_read]: the element the returned pointer points to. *)
Definition peek_read (q : t) : option T :=
  let head := head_ q in
  if head =? tail_ q then None
  else if negb (ready (slots_ q !!! Z.to_nat head)) then None
  else Some (data (slots_ q !!! Z.to_nat head)).

Definition complete_read (q : t) : t :=
  let head := head_ q in
  {| head_ := next head;
     tail_ := tail_ q;
     slots_ := set_ready head false (slots_ q);
     write_in_progress_ := write_in_progress_ q |}.

Definition empty (q : t) : bool := head_ q =? tail_ q.

(** The two ends used as their comments prescribe: a producer that
    writes and commits the slot it was given, a consumer that completes
    a read only after a successful peek. *)
Definition produce (v : T) (q : t) : bool * t :=
  match begin_write q with
  | (Some i, q1) => (true, commit_write (write i v q1))
  | (None, q1) => (false, q1)
  end.

Definition consume (q : t) : option T * t :=
  match peek_read q with
  | Some v => (Some v, complete_read q)
  | None => (None, q)
  end.

Inductive op :=
| Produce (v : T)
| Consume.

Definition step (o : op) (q : t) : t :=
  match o with
  | Produce v => snd (produce v q)
  | Consume => snd (consume q)
  end.

Definition run (ops : list op) (q : t) : t :=
  fold_left (fun q o => step o q) ops q.

(** Occupied slots, oldest first, and the list they refine. *)
Definition count (q : t) : Z := (tail_ q - head_ q) mod N.

Definition slot (q : t) (i : nat) : Slot :=
  slots_ q !!! Z.to_nat ((head_ q + Z.of_nat i) mod N).

Definition contents (q : t) : list T :=
  map (fun i => data (slot q i)) (seq 0 (Z.to_nat (count q))).

Definition fifo_step (o : op) (l : list T) : list T :=
  match o with
  | Produce v => if Z.of_nat (length l) <? N - 1 then l ++ [v] else l
  | Consume => tail l
  end.

Definition fifo_run (ops : list op) (l : list T) : list T :=
  fold_left (fun l o => fifo_step o l) ops l.

(** The payloads alone form a ring of the first kind. *)
Definition as_ring (q : t) : SPSCQueue.t T :=
  SPSCQueue.mk (head_ q) (tail_ q) (data <$> slots_ q).

(** Indices in range, no write pending, and a slot is flagged ready
    exactly when it lies between [head_] and [tail_]. *)
Definition wf (q : t) : Prop :=
  0 <= head_ q < N /\ 0 <= tail_ q < N /\
  length (slots_ q) = Z.to_nat N /\
  write_in_progress_ q = false /\
  forall j, 0 <= j < N ->
    ready (slots_ q !!! Z.to_nat j) = ((j - head_ q) mod N <? count q).

End Queue.
Arguments t : clear implicits.
Arguments Slot : clear implicits.
End SPSCFrameQueue.

(* ===================================================================== *)
(** ** The capture and encode threads ([vr_streamer_app.cpp]) *)
(* ===================================================================== *)

Module Bytes.

(** [std::memcpy(dst + doff, src + soff, n)]; reading or writing outside
    either region is undefined. *)
Definition memcpy (dst : list Z) (doff : Z) (src : list Z) (soff n : Z)
  : option (list Z) :=
  if (0 <=? doff) && (0 <=? soff) && (0 <=? n)
     && (soff + n <=? Z.of_nat (length src))
     && (doff + n <=? Z.of_nat (length dst))
  then Some (take (Z.to_nat doff) dst
             ++ take (Z.to_nat n) (drop (Z.to_nat soff) src)
             ++ drop (Z.to_nat (doff + n)) dst)
  else None.

End Bytes.

Module Pipeline.

Definition QUEUE_SIZE : Z := 4.

(** [size_t max_frame_size = 3840 * 2160 * 4] *)
Definition max_frame_size : Z := 3840 * 2160 * 4.

(** The fields of [CapturedFrame] the capture thread reads. *)
Record CapturedFrame := mkFrame {
  cpu_data : list Z;
  width : Z;
  height : Z;
  pitch : Z;
  timestamp : Z;
  frame_id : Z
}.

(** [BufferPtr]: a shared pointer, [None] when null. *)
Abbreviation BufferPtr := (option FrameBufferPool.Buffer).

Record t := mk {
  frame_pool_ : FrameBufferPool.t;
  capture_queue_ : SPSCQueue.t BufferPtr;
  (** the local [buffer] of [capture_loop], between [acquire] and
      [try_push] *)
  capture_buffer : BufferPtr;
  (** the local [buffer] of [encode_loop], between [try_pop] and
      [release] *)
  encode_buffer : BufferPtr;
  frames_captured : Z
}.

(** [VRStreamerApp::init]: a pool of six buffers, an empty queue. *)
Definition init : t :=
  {| frame_pool_ := FrameBufferPool.create max_frame_size 6;
     capture_queue_ := SPSCQueue.init QUEUE_SIZE;
     capture_buffer := None;
     encode_buffer := None;
     frames_captured := 0 |}.

(** [capture_loop], "Copy frame data" to "Copy pixel data". *)
Definition fill (frame : CapturedFrame) (b : FrameBufferPool.Buffer)
  : option FrameBufferPool.Buffer :=
  let b1 :=
    FrameBufferPool.mkBuffer
      (FrameBufferPool.data b) (FrameBufferPool.capacity b)
      (FrameBufferPool.size b) (width frame) (height frame) (pitch frame)
      0 (timestamp frame) (frame_id frame) in
  let required_size := Machine.wrap64 (pitch frame * height frame) in
  let b2 := FrameBufferPool.allocate required_size b1 in
  data' ← Bytes.memcpy (FrameBufferPool.data b2) 0 (cpu_data frame) 0
            required_size;
  Some (FrameBufferPool.mkBuffer
          data' (FrameBufferPool.capacity b2) required_size
          (FrameBufferPool.width b2) (FrameBufferPool.height b2)
          (FrameBufferPool.stride b2) (FrameBufferPool.format b2)
          (FrameBufferPool.timestamp b2) (FrameBufferPool.frame_id b2)).

(** The pool and the queue are the only objects the two threads share;
    each operation on them is one event, and the events of the two
    threads interleave freely. An event whose thread is elsewhere in its
    loop leaves the state as it is. *)
Inductive event :=
| CaptureAcquire (frame : CapturedFrame)  (* [acquire], then the copy *)
| CapturePush                             (* [try_push], else [release] *)
| EncodePop                               (* [try_pop] *)
| EncodeRelease.                          (* [encode], then [release] *)

Definition step (e : event) (s : t) : option t :=
  match e with
  | CaptureAcquire frame =>
      match capture_buffer s with
      | Some _ => Some s
      | None =>
          let '(buffer, pool') := FrameBufferPool.acquire (frame_pool_ s) in
          buffer' ← fill frame buffer;
          Some {| frame_pool_ := pool';
                  capture_queue_ := capture_queue_ s;
                  capture_buffer := Some buffer';
                  encode_buffer := encode_buffer s;
                  frames_captured := frames_captured s |}
      end
  | CapturePush =>
      match capture_buffer s with
      | None => Some s
      | Some buffer =>
          let '(pushed, queue') :=
            SPSCQueue.try_push QUEUE_SIZE (Some buffer) (capture_queue_ s) in
          Some {| frame_pool_ :=
                    if pushed then frame_pool_ s
                    else FrameBufferPool.release (Some buffer) (frame_pool_ s);
                  capture_queue_ := queue';
                  capture_buffer := None;
                  encode_buffer := encode_buffer s;
                  frames_captured := Machine.wrap64 (frames_captured s + 1) |}
      end
  | EncodePop =>
      match encode_buffer s with
      | Some _ => Some s
      | None =>
          match SPSCQueue.try_pop QUEUE_SIZE (capture_queue_ s) with
          | (None, _) => Some s
          | (Some buffer, queue') =>
              Some {| frame_pool_ := frame_pool_ s;
                      capture_queue_ := queue';
                      capture_buffer := capture_buffer s;
                      encode_buffer := buffer;
                      frames_captured := frames_captured s |}
          end
      end
  | EncodeRelease =>
      match encode_buffer s with
      | None => Some s
      | Some buffer =>
          Some {| frame_pool_ :=
                    FrameBufferPool.release (Some buffer) (frame_pool_ s);
                  capture_queue_ := capture_queue_ s;
                  capture_buffer := capture_buffer s;
                  encode_buffer := None;
                  frames_captured := frames_captured s |}
      end
  end.

Fixpoint run (es : list event) (s : t) : option t :=
  match es with
  | [] => Some s
  | e :: es => s' ← step e s; run es s'
  end.

(** Buffers a thread holds in its local variable. *)
Definition held (b : BufferPtr) : Z :=
  match b with Some _ => 1 | None => 0 end.

(** Buffers waiting in the queue. *)
Definition queued (s : t) : Z :=
  Z.of_nat (length (QueueModel.contents QUEUE_SIZE (capture_queue_ s))).

(** The frame a capture event copies spans [pitch * height] bytes. *)
Definition frame_mapped (e : event) : Prop :=
  match e with
  | CaptureAcquire frame =>
      Machine.wrap64 (pitch frame * height frame)
        <= Z.of_nat (length (cpu_data frame))
  | _ => True
  end.

(** A buffer owns as many bytes as its capacity says. *)
Definition sized (b : FrameBufferPool.Buffer) : Prop :=
  length (FrameBufferPool.data b) = Z.to_nat (FrameBufferPool.capacity b)
  /\ 0 <= FrameBufferPool.capacity b.

Definition sized_ptr (b : BufferPtr) : Prop :=
  match b with Some b => sized b | None => True end.

Definition inv (s : t) : Prop :=
  SPSCQueue.wf QUEUE_SIZE (capture_queue_ s) /\
  FrameBufferPool.pool_size_ (frame_pool_ s) = 6 /\
  FrameBufferPool.buffer_size_ (frame_pool_ s) = max_frame_size /\
  FrameBufferPool.free_count (frame_pool_ s) + queued s
    + held (capture_buffer s) + held (encode_buffer s) = 6 /\
  Forall (fun b => is_Some b /\ sized_ptr b)
         (QueueModel.contents QUEUE_SIZE (capture_queue_ s)) /\
  Forall sized (FrameBufferPool.free_buffers_ (frame_pool_ s)) /\
  sized_ptr (capture_buffer s) /\ sized_ptr (encode_buffer s).

End Pipeline.

(* ===================================================================== *)
(** ** The line classes of [Config::load] ([config.cpp]) *)
(* ===================================================================== *)

Module ConfigLines.
Import Text.


End ConfigLines.

(* ===================================================================== *)
(** ** [DXGICapture::clip_to_window] ([dxgi_capture.cpp]) *)
(* ===================================================================== *)

Module WindowClip.
Import Machine.

(** [RECT], four [LONG]s. *)
Record RECT := mkRECT {
  left : Z;
  top : Z;
  right : Z;
  bottom : Z
}.

(** [a - b] and [a * b] on [i32]; signed overflow is undefined. *)
Definition sub_i32 (a b : Z) : option Z :=
  if (INT_MIN <=? a - b) && (a - b <=? INT_MAX) then Some (a - b) else None.

Definition mul_i32 (a b : Z) : option Z :=
  if (INT_MIN <=? a * b) && (a * b <=? INT_MAX) then Some (a * b) else None.

(** The fields of [CapturedFrame] that clipping reads and writes. *)
Record Frame := mkFrame {
  cpu_data : list Z;
  width : Z;
  height : Z;
  pitch : Z
}.

(** The members of [DXGICapture] that clipping reads and writes. *)
Record t := mk {
  target_window_ : Z;
  window_rect_ : RECT;
  monitor_rect_ : RECT;
  width_ : Z;
  height_ : Z;
  clipped_buffer_ : list Z;
  clipped_width_ : Z;
  clipped_height_ : Z
}.

(** One iteration of "Copy clipped region row by row". *)
Definition copy_row (frame : Frame) (win_left win_top : Z)
  (clipped_width clipped_pitch : Z) (y : Z) (dst : list Z) : option (list Z) :=
  left4 ← mul_i32 win_left 4;
  Bytes.memcpy dst (wrap64 (y * clipped_pitch))
    (cpu_data frame)
    (wrap32 (wrap32 (wrap32 win_top + y) * pitch frame) + left4)
    (wrap32 (clipped_width * 4)).

(** [std::vector<u8>::max_size()] on the 64-bit targets: [PTRDIFF_MAX]. *)
Definition max_size : Z := 2 ^ 63 - 1.

(** [if (v.size() < n) v.resize(n)]: the new bytes are zero; [None] is
    the [std::length_error] that [resize] throws for a size above
    [max_size]. Below that bound the allocation is taken to succeed, as
    every other allocation here; where it would not, [resize] throws
    [std::bad_alloc] and nothing after it runs. *)
Definition resize_to (v : list Z) (n : Z) : option (list Z) :=
  if Z.of_nat (length v) <? n then
    if max_size <? n then None
    else Some (v ++ replicate (Z.to_nat n - length v) 0)
  else Some v.

(** [clip_to_window(frame)]; [rect_now] is what [update_window_rect]
    obtains, [None] when the window is gone. The result is the returned
    boolean, the members and the frame; [None] when the call throws or its
    behaviour is undefined. *)
Definition clip_to_window (rect_now : option RECT) (c : t) (frame : Frame)
  : option (bool * t * Frame) :=
  if target_window_ c =? 0 then Some (true, c, frame) else
  match rect_now with
  | None => Some (false, c, frame)
  | Some rect =>
      let monitor := monitor_rect_ c in
      win_left ← sub_i32 (left rect) (left monitor);
      win_top ← sub_i32 (top rect) (top monitor);
      win_right ← sub_i32 (right rect) (left monitor);
      win_bottom ← sub_i32 (bottom rect) (top monitor);
      let win_left := Z.max 0 win_left in
      let win_top := Z.max 0 win_top in
      let win_right := Z.min (CPUStereoProcessor.as_i32 (width_ c)) win_right in
      let win_bottom := Z.min (CPUStereoProcessor.as_i32 (height_ c)) win_bottom in
      dw ← sub_i32 win_right win_left;
      dh ← sub_i32 win_bottom win_top;
      let clipped_width := wrap32 dw in
      let clipped_height := wrap32 dh in
      let c1 := mk (target_window_ c) rect monitor (width_ c) (height_ c)
                   (clipped_buffer_ c) clipped_width clipped_height in
      if (clipped_width <? 10) || (clipped_height <? 10)
      then Some (false, c1, frame)
      else
        let clipped_pitch := wrap32 (clipped_width * 4) in
        let clipped_size := wrap64 (clipped_pitch * clipped_height) in
        buffer ← resize_to (clipped_buffer_ c) clipped_size;
        out ← Mem.for_loop (Z.to_nat clipped_height) 0
                (copy_row frame win_left win_top clipped_width clipped_pitch)
                buffer;
        Some (true,
              mk (target_window_ c) rect monitor (width_ c) (height_ c)
                 out clipped_width clipped_height,
              mkFrame out clipped_width clipped_height (wrap32 clipped_pitch))
  end.

(** The window's rectangle relative to the monitor, clamped to it. *)
Definition clamped (rect : RECT) (c : t) : RECT :=
  mkRECT (Z.max 0 (left rect - left (monitor_rect_ c)))
         (Z.max 0 (top rect - top (monitor_rect_ c)))
         (Z.min (width_ c) (right rect - left (monitor_rect_ c)))
         (Z.min (height_ c) (bottom rect - top (monitor_rect_ c))).

(** Screen coordinates and sizes of everyday magnitude. *)
Definition sane (rect : RECT) (c : t) : Prop :=
  let m := monitor_rect_ c in
  (- 2 ^ 20 <= left rect <= 2 ^ 20 /\ - 2 ^ 20 <= top rect <= 2 ^ 20 /\
   - 2 ^ 20 <= right rect <= 2 ^ 20 /\ - 2 ^ 20 <= bottom rect <= 2 ^ 20) /\
  (- 2 ^ 20 <= left m <= 2 ^ 20 /\ - 2 ^ 20 <= top m <= 2 ^ 20) /\
  (0 <= width_ c <= 2 ^ 20 /\ 0 <= height_ c <= 2 ^ 20).

End WindowClip.

(* ===================================================================== *)
(** ** [WebSocketSession] and [StreamingServer::stop] ([websocket_server.cpp]) *)
(* ===================================================================== *)

Module WebSocketSession.

(** A frame; a [std::shared_ptr<std::vector<u8>>] is an [option] of it,
    [None] when null. *)
Definition Data : Type := list Z.

(** What a session asks of its server. *)
Inductive effect :=
| Register                  (* server_.register_session *)
| Unregister                (* server_.unregister_session *)
| Connected                 (* server_.on_client_connected *)
| Disconnected              (* server_.on_client_disconnected *)
| BytesSent (bytes : Z)     (* server_.add_bytes_sent *)
| FrameSent.                (* server_.add_frame_sent *)

Record t := mk {
  closing_ : bool;
  is_open : bool;                               (* ws_.is_open() *)
  write_queue_ : SPSCQueue.t (option Data);
  writing_ : bool;
  current_write_ : option Data;
  (** [async_write] operations started whose handler has not run yet *)
  in_flight : list Data;
  (** every frame handed to [async_write], oldest first *)
  wire : list Data;
  frames_sent : Z;
  bytes_sent : Z
}.

Definition WRITE_QUEUE_SIZE : Z := 16.

(** A session after its constructor, on an open connection. *)
Definition create : t :=
  mk false true (SPSCQueue.init WRITE_QUEUE_SIZE) false None [] [] 0 0.

(** [do_write]; [None] when [*current_write_] dereferences a null
    pointer. *)
Definition do_write (s : t) : option t :=
  if closing_ s then
    Some (mk (closing_ s) (is_open s) (write_queue_ s) false
             (current_write_ s) (in_flight s) (wire s) (frames_sent s)
             (bytes_sent s))
  else
    match SPSCQueue.try_pop WRITE_QUEUE_SIZE (write_queue_ s) with
    | (None, _) =>
        Some (mk (closing_ s) (is_open s) (write_queue_ s) false
                 (current_write_ s) (in_flight s) (wire s) (frames_sent s)
                 (bytes_sent s))
    | (Some item, queue) =>
        data ← item;
        Some (mk (closing_ s) (is_open s) queue (writing_ s) (Some data)
                 (in_flight s ++ [data]) (wire s ++ [data]) (frames_sent s)
                 (bytes_sent s))
    end.

(** [send_frame(data)] *)
Definition send_frame (data : option Data) (s : t) : option t :=
  if closing_ s || negb (is_open s) then Some s
  else
    let '(pushed, queue) :=
      SPSCQueue.try_push WRITE_QUEUE_SIZE data (write_queue_ s) in
    if negb pushed then Some s
    else
      let s1 := mk (closing_ s) (is_open s) queue (writing_ s)
                   (current_write_ s) (in_flight s) (wire s) (frames_sent s)
                   (bytes_sent s) in
      if writing_ s1 then Some s1
      else do_write (mk (closing_ s1) (is_open s1) (write_queue_ s1) true
                        (current_write_ s1) (in_flight s1) (wire s1)
                        (frames_sent s1) (bytes_sent s1)).

(** [close] *)
Definition close (s : t) : t * list effect :=
  if closing_ s then (s, [])
  else (mk true false (write_queue_ s) (writing_ s) (current_write_ s)
           (in_flight s) (wire s) (frames_sent s) (bytes_sent s),
        [Unregister; Disconnected]).

(** [on_write(ec, bytes)], the handler of the oldest write in flight. *)
Definition on_write (ec : bool) (bytes : Z) (s : t) : option (t * list effect) :=
  match in_flight s with
  | [] => Some (s, [])
  | _ :: rest =>
      let s := mk (closing_ s) (is_open s) (write_queue_ s) (writing_ s)
                  (current_write_ s) rest (wire s) (frames_sent s)
                  (bytes_sent s) in
      if ec then
        Some (close (mk (closing_ s) (is_open s) (write_queue_ s) false
                        (current_write_ s) (in_flight s) (wire s)
                        (frames_sent s) (bytes_sent s)))
      else
        s' ← do_write
               (mk (closing_ s) (is_open s) (write_queue_ s) (writing_ s) None
                   (in_flight s) (wire s)
                   (Machine.wrap64 (frames_sent s + 1))
                   (Machine.wrap64 (bytes_sent s + bytes)));
        Some (s', [BytesSent bytes; FrameSent])
  end.

(** [on_read(ec, bytes)]: returns on an error, reads on otherwise;
    either way the members are left as they are. *)
Definition on_read (ec : bool) (s : t) : t * list effect := (s, []).

(** [on_accept(ec)], the end of the websocket handshake. *)
Definition on_accept (ec : bool) (s : t) : t * list effect :=
  if ec then (s, []) else (s, [Register; Connected]).

(** What can happen to a session once its handshake is done. *)
Inductive event :=
| SendFrame (data : Data)               (* the server broadcasts a frame *)
| WriteDone (ec : bool) (bytes : Z)     (* a write completes *)
| ReadDone (ec : bool)                  (* a read completes *)
| PeerClosed.                           (* the peer closes the connection *)

Definition step (e : event) (s : t) : option (t * list effect) :=
  match e with
  | SendFrame data => s' ← send_frame (Some data) s; Some (s', [])
  | WriteDone ec bytes => on_write ec bytes s
  | ReadDone ec => Some (on_read ec s)
  | PeerClosed =>
      Some (mk (closing_ s) false (write_queue_ s) (writing_ s)
               (current_write_ s) (in_flight s) (wire s) (frames_sent s)
               (bytes_sent s), [])
  end.

(** A run, with the effects it had on the server, oldest first. *)
Fixpoint run (es : list event) (s : t) : option (t * list effect) :=
  match es with
  | [] => Some (s, [])
  | e :: es =>
      '(s1, fx1) ← step e s;
      '(s2, fx2) ← run es s1;
      Some (s2, fx1 ++ fx2)
  end.

(** The frames a run offers to [send_frame], oldest first. *)
Definition offered (es : list event) : list Data :=
  omap (fun e => match e with SendFrame data => Some data | _ => None end) es.

(** The frames waiting in the write queue, oldest first. *)
Definition queued (s : t) : list (option Data) :=
  QueueModel.contents WRITE_QUEUE_SIZE (write_queue_ s).

(** What holds of the writer between two member calls, [h] being the
    frames offered so far: the queue is a well-formed ring of non-null
    frames; the frames written and waiting are frames offered, in the
    order offered; the writes in flight are the last ones started; at
    most one is in flight, and [writing_] is set while it is. *)
Definition writer_core (h : list Data) (s : t) : Prop :=
  SPSCQueue.wf WRITE_QUEUE_SIZE (write_queue_ s) /\
  Forall is_Some (queued s) /\
  wire s ++ omap id (queued s) `sublist_of` h /\
  (exists done, wire s = done ++ in_flight s).

Definition writer_inv (h : list Data) (s : t) : Prop :=
  writer_core h s /\
  (length (in_flight s) <= 1)%nat /\
  (in_flight s <> [] -> writing_ s = true).

End WebSocketSession.

Module ServerShutdown.

(** [sessions_mutex_] as the calling thread sees it. *)
Inductive mutex :=
| Unlocked
| Owned.               (* the calling thread holds it *)

(** [std::unique_lock lock(sessions_mutex_)]: locking a mutex the calling
    thread already owns is undefined. *)
Definition lock_unique (m : mutex) : option mutex :=
  match m with
  | Unlocked => Some Owned
  | Owned => None
  end.

Record t := mk {
  running_ : bool;
  (** the registry, with the [closing_] flag of each registered session *)
  sessions_ : list (string * bool);
  sessions_mutex_ : mutex;
  connected_clients : Z
}.

(** [unregister_session(id)] *)
Definition unregister_session (cid : string) (s : t) : option t :=
  m ← lock_unique (sessions_mutex_ s);
  let sessions := filter (fun e => e.1 ≠ cid) (sessions_ s) in
  Some (mk (running_ s) sessions (sessions_mutex_ s)
           (Machine.wrap32 (Z.of_nat (length sessions)))).

(** [session->close()] on the session registered as [cid]. *)
Definition close_session (cid : string) (closing : bool) (s : t) : option t :=
  if closing then Some s else unregister_session cid s.

(** [stop()], up to the release of the registry lock. *)
Definition stop (s : t) : option t :=
  if negb (running_ s) then Some s
  else
    m ← lock_unique (sessions_mutex_ s);
    let s1 := mk false (sessions_ s) m (connected_clients s) in
    s2 ← foldl (fun acc e => s' ← acc; close_session e.1 e.2 s')
               (Some s1) (sessions_ s);
    Some (mk (running_ s2) [] Unlocked (connected_clients s2)).

End ServerShutdown.

(* ===================================================================== *)
(** ** The writer of a session under two threads ([websocket_server.cpp]) *)
(* ===================================================================== *)

(** [send_frame] runs on the thread that broadcasts, the handlers on the
    session's strand. Each step below is one access to the atomics
    [closing_] and [writing_] or one operation of the write queue of
    [send_frame], [on_write] and [do_write]; the steps of the two threads
    interleave freely. *)
Module SessionThreads.
Import WebSocketSession.

(** Where a thread stands. *)
Inductive pc :=
| Idle
| AtPush (data : Data)   (* [send_frame]: past the test of closing_, is_open *)
| AtCas                  (* [send_frame]: frame queued, at compare_exchange *)
| AtClosingTest          (* [do_write]: at the test of [closing_] *)
| AtPop                  (* [do_write]: at [try_pop] *)
| AtClear.               (* [do_write]: at [writing_.store(false)] *)

Record t := mk {
  session : WebSocketSession.t;
  encoder : pc;          (* the thread inside [send_frame] *)
  strand : pc            (* the strand inside [on_write] *)
}.

Definition init : t := mk WebSocketSession.create Idle Idle.

Definition set_writing (w : bool) (s : WebSocketSession.t) : WebSocketSession.t :=
  WebSocketSession.mk (closing_ s) (is_open s) (write_queue_ s) w
    (current_write_ s) (in_flight s) (wire s) (frames_sent s) (bytes_sent s).

Definition set_queue (q : SPSCQueue.t (option Data)) (s : WebSocketSession.t)
  : WebSocketSession.t :=
  WebSocketSession.mk (closing_ s) (is_open s) q (writing_ s)
    (current_write_ s) (in_flight s) (wire s) (frames_sent s) (bytes_sent s).

(** One step of [do_write], by whichever thread runs it. *)
Definition do_write_step (p : pc) (s : WebSocketSession.t)
  : option (pc * WebSocketSession.t) :=
  match p with
  | AtClosingTest => Some (if closing_ s then AtClear else AtPop, s)
  | AtPop =>
      match SPSCQueue.try_pop WRITE_QUEUE_SIZE (write_queue_ s) with
      | (None, _) => Some (AtClear, s)
      | (Some item, queue) =>
          data ← item;
          Some (Idle,
                WebSocketSession.mk (closing_ s) (is_open s) queue (writing_ s)
                  (Some data) (in_flight s ++ [data]) (wire s ++ [data])
                  (frames_sent s) (bytes_sent s))
      end
  | AtClear => Some (Idle, set_writing false s)
  | _ => Some (p, s)
  end.

(** One step of the thread inside [send_frame]. *)
Definition encoder_step (p : pc) (s : WebSocketSession.t)
  : option (pc * WebSocketSession.t) :=
  match p with
  | AtPush data =>
      let '(pushed, queue) :=
        SPSCQueue.try_push WRITE_QUEUE_SIZE (Some data) (write_queue_ s) in
      Some (if pushed then AtCas else Idle, if pushed then set_queue queue s else s)
  | AtCas =>
      if writing_ s then Some (Idle, s)
      else Some (AtClosingTest, set_writing true s)
  | _ => do_write_step p s
  end.

Inductive event :=
| Send (data : Data)             (* [send_frame(data)] is called *)
| Enc                            (* the thread in [send_frame] takes a step *)
| Done (ec : bool) (bytes : Z)   (* the oldest write completes: [on_write] *)
| Str                            (* the strand takes a step of [do_write] *)
| PeerCloses.

Definition step (e : event) (st : t) : option (t * list effect) :=
  let s := session st in
  match e with
  | Send data =>
      match encoder st with
      | Idle =>
          Some (mk s (if closing_ s || negb (is_open s) then Idle
                      else AtPush data) (strand st), [])
      | _ => Some (st, [])
      end
  | Enc =>
      '(p, s') ← encoder_step (encoder st) s;
      Some (mk s' p (strand st), [])
  | Done ec bytes =>
      match strand st, in_flight s with
      | Idle, _ :: rest =>
          let s1 := WebSocketSession.mk (closing_ s) (is_open s)
                      (write_queue_ s) (writing_ s) (current_write_ s) rest
                      (wire s) (frames_sent s) (bytes_sent s) in
          if ec then
            let '(s2, fx) := close (set_writing false s1) in
            Some (mk s2 (encoder st) Idle, fx)
          else
            Some (mk (WebSocketSession.mk (closing_ s1) (is_open s1)
                        (write_queue_ s1) (writing_ s1) None (in_flight s1)
                        (wire s1) (Machine.wrap64 (frames_sent s1 + 1))
                        (Machine.wrap64 (bytes_sent s1 + bytes)))
                     (encoder st) AtClosingTest,
                  [BytesSent bytes; FrameSent])
      | _, _ => Some (st, [])
      end
  | Str =>
      '(p, s') ← do_write_step (strand st) s;
      Some (mk s' (encoder st) p, [])
  | PeerCloses =>
      Some (mk (WebSocketSession.mk (closing_ s) false (write_queue_ s)
                  (writing_ s) (current_write_ s) (in_flight s) (wire s)
                  (frames_sent s) (bytes_sent s))
               (encoder st) (strand st), [])
  end.

Fixpoint run (es : list event) (st : t) : option (t * list effect) :=
  match es with
  | [] => Some (st, [])
  | e :: es =>
      '(st1, fx1) ← step e st;
      '(st2, fx2) ← run es st1;
      Some (st2, fx1 ++ fx2)
  end.

Definition offered (es : list event) : list Data :=
  omap (fun e => match e with Send data => Some data | _ => None end) es.

(** Whether a thread is inside [do_write]. *)
Definition in_do_write (p : pc) : bool :=
  match p with
  | AtClosingTest | AtPop | AtClear => true
  | _ => false
  end.

(** The frame a thread is about to queue. *)
Definition pending (p : pc) : list Data :=
  match p with AtPush data => [data] | _ => [] end.

(** Those that hold the right to write: a thread inside [do_write], or
    a write in flight. *)
Definition holders (st : t) : nat :=
  (if in_do_write (encoder st) then 1 else 0)
  + (if in_do_write (strand st) then 1 else 0)
  + length (in_flight (session st)).

Definition inv (h : list Data) (st : t) : Prop :=
  SPSCQueue.wf WRITE_QUEUE_SIZE (write_queue_ (session st)) /\
  Forall is_Some (queued (session st)) /\
  wire (session st) ++ omap id (queued (session st)) ++ pending (encoder st)
    `sublist_of` h /\
  (holders st <= 1)%nat /\
  (holders st = 1%nat -> writing_ (session st) = true) /\
  pending (strand st) = [] /\ strand st <> AtCas.

End SessionThreads.

(* ===================================================================== *)
(** ** Pathnames ([std::filesystem::path]) *)
(* ===================================================================== *)

Module Path.
Import Text.

(** What the platform decides about a pathname: how many characters its
    root name takes, which characters separate directories, which of them
    is preferred, and which pathnames are absolute. *)
Record Rules := mkRules {
  root_name_length : list ascii -> nat;
  is_separator : ascii -> bool;
  preferred_separator : ascii;
  is_absolute : list ascii -> bool
}.

(** POSIX: no root names, [/] separates, a rooted pathname is absolute. *)
Definition posix : Rules :=
  mkRules (fun _ => 0%nat) (fun c => Ascii.eqb c "/") "/"%char
          (fun p => match p with c :: _ => Ascii.eqb c "/" | [] => false end).

Definition backslash : ascii := ascii_of_nat 92.

Definition is_slash (c : ascii) : bool :=
  Ascii.eqb c "/" || Ascii.eqb c backslash.

Definition is_letter (c : ascii) : bool :=
  let n := Z.of_N (N_of_ascii c) in
  ((65 <=? n) && (n <=? 90)) || ((97 <=? n) && (n <=? 122)).

Definition has_drive (p : list ascii) : bool :=
  match p with
  | c0 :: c1 :: _ => is_letter c0 && Ascii.eqb c1 ":"
  | _ => false
  end.

(** Windows, for the pathnames that do not begin with two separators
    (server and device names are left out): a drive letter with its colon
    is the root name, both slashes separate, and a pathname is absolute
    when it has a drive and a separator after it. *)
Definition windows_drives : Rules :=
  mkRules (fun p => if has_drive p then 2%nat else 0%nat) is_slash backslash
          (fun p => match p with
                    | _ :: _ :: c2 :: _ => has_drive p && is_slash c2
                    | _ => false
                    end).

Section Paths.
Variable R : Rules.

Definition root_name (p : list ascii) : list ascii :=
  take (root_name_length R p) p.

Definition after_root_name (p : list ascii) : list ascii :=
  drop (root_name_length R p) p.

Definition has_root_name (p : list ascii) : bool := negb (eqs (root_name p) []).

Definition has_root_directory (p : list ascii) : bool :=
  match after_root_name p with
  | c :: _ => is_separator R c
  | [] => false
  end.

Definition relative_path (p : list ascii) : list ascii :=
  drop_while (is_separator R) (after_root_name p).

(** The characters after the last separator of [s], [cur] being those
    seen since the last one. *)
Fixpoint last_component (s cur : list ascii) : list ascii :=
  match s with
  | [] => cur
  | c :: s' =>
      if is_separator R c then last_component s' []
      else last_component s' (cur ++ [c])
  end.

Definition filename (p : list ascii) : list ascii :=
  last_component (relative_path p) [].

Definition has_filename (p : list ascii) : bool := negb (eqs (filename p) []).

(** The part of [s] from its last period on. *)
Fixpoint from_last_period (s : list ascii) : option (list ascii) :=
  match s with
  | [] => None
  | c :: s' =>
      match from_last_period s' with
      | Some e => Some e
      | None => if Ascii.eqb c "." then Some s else None
      end
  end.

(** [extension()]: from the last period of the file name on; a period
    that begins the file name does not count, and the names [.] and [..]
    have none. *)
Definition extension (p : list ascii) : list ascii :=
  let f := filename p in
  if eqs f (str ".") || eqs f (str "..") then []
  else
    match f with
    | [] => []
    | _ :: f' => default [] (from_last_period f')
    end.

(** [base / p] *)
Definition append (base p : list ascii) : list ascii :=
  if is_absolute R p
     || (has_root_name p && negb (eqs (root_name p) (root_name base)))
  then p
  else
    let base' :=
      if has_root_directory p then root_name base
      else if has_filename base
              || (negb (has_root_directory base) && is_absolute R base)
           then base ++ [preferred_separator R]
           else base in
    base' ++ after_root_name p.

End Paths.
End Path.

(* ===================================================================== *)
(** ** [HTTPServer] ([http_server.cpp]) *)
(* ===================================================================== *)

Module HTTPServer.
Import Text Path.

Definition mime_types_ : list (list ascii * list ascii) :=
  [ (str ".html", str "text/html");
    (str ".htm", str "text/html");
    (str ".css", str "text/css");
    (str ".js", str "application/javascript");
    (str ".json", str "application/json");
    (str ".png", str "image/png");
    (str ".jpg", str "image/jpeg");
    (str ".jpeg", str "image/jpeg");
    (str ".gif", str "image/gif");
    (str ".svg", str "image/svg+xml");
    (str ".ico", str "image/x-icon");
    (str ".woff", str "font/woff");
    (str ".woff2", str "font/woff2");
    (str ".ttf", str "font/ttf");
    (str ".txt", str "text/plain") ].

(** What the file system answers for a pathname. *)
Inductive file_status :=
| Missing
| RegularFile (content : list ascii)
| OtherFile                    (* a directory, a device, ... *)
| StatusError.                 (* the query throws [filesystem_error] *)

Inductive field := Server | ContentType | CacheControl | ContentLength.

Record response := mkResponse {
  status : Z;
  fields : list (field * list ascii);
  body : list ascii
}.

(** [prepare_payload] *)
Definition prepare_payload (r : response) : response :=
  mkResponse (status r)
    (fields r ++ [(ContentLength, print_unsigned (Z.of_nat (length (body r))))])
    (body r).

Definition forbidden : response :=
  prepare_payload (mkResponse 403 [(ContentType, str "text/plain")] (str "Forbidden")).

Definition not_found : response :=
  prepare_payload (mkResponse 404 [(ContentType, str "text/plain")] (str "Not Found")).

Definition ok (mime content : list ascii) : response :=
  prepare_payload
    (mkResponse 200
       [(Server, str "VRStreamer/1.0"); (ContentType, mime);
        (CacheControl, str "no-cache")]
       content).

Section Server.
Variable R : Rules.
Variable web_root_ : list ascii.
Variable fs : list ascii -> file_status.

(** [get_mime_type] *)
Definition get_mime_type (path : list ascii) : list ascii :=
  let ext := extension R path in
  match find (fun kv => eqs kv.1 ext) mime_types_ with
  | Some kv => kv.2
  | None => str "application/octet-stream"
  end.

(** The pathname [handle_request] builds for a request target. *)
Definition request_path (target : list ascii) : list ascii :=
  if eqs target [] || eqs target (str "/") then str "/index.html" else target.

Definition file_path (target : list ascii) : list ascii :=
  append R web_root_ (drop 1 (request_path target)).

(** [handle_request] once the request is read: the response written, or
    [None] when an exception ends the request without one. *)
Definition handle_request (target : list ascii) : option response :=
  let path := request_path target in
  if contains (str "..") path then Some forbidden
  else
    match fs (file_path target) with
    | StatusError => None
    | RegularFile content => Some (ok (get_mime_type (file_path target)) content)
    | _ => Some not_found
    end.

End Server.
End HTTPServer.

(* ===================================================================== *)
(** ** Command line and keyboard ([main.cpp]) *)
(* ===================================================================== *)

Module Main.
Import Text Cfg.

(** [std::stoull(s)]: leading white space, an optional sign, decimal
    digits; a minus sign negates within 64 bits. [None] stands for
    [std::invalid_argument] and [std::out_of_range]. *)
Definition stoull (s : list ascii) : option Z :=
  let '(neg, s1) := take_sign (skip_space s) in
  if starts_with_digit s1 then
    let n := parse_digits_acc s1 0 in
    if n <=? 2 ^ 64 - 1
    then Some (if neg then Machine.wrap64 (- n) else n)
    else None
  else None.

(** What the argument loop of [main] sets. *)
Record options := mkOptions {
  config : Config;
  show_help : bool;
  target_hwnd : Z
}.

Definition start : options := mkOptions default_config false 0.

Definition with_config (f : Config -> Config) (o : options) : options :=
  mkOptions (f (config o)) (show_help o) (target_hwnd o).

Definition preset_named (name : list ascii) (c : Config) : Config :=
  if eqs name (str "ultra_performance") then apply_preset ULTRA_PERFORMANCE c
  else if eqs name (str "low_latency") then apply_preset LOW_LATENCY c
  else if eqs name (str "balanced") then apply_preset BALANCED c
  else if eqs name (str "quality") then apply_preset QUALITY c
  else if eqs name (str "maximum_quality") then apply_preset MAXIMUM_QUALITY c
  else c.

(** One round of the argument loop: [arg] is [argv[i]] and [next] is
    [argv[i + 1]] when [i + 1 < argc]. The result tells whether
    [argv[i + 1]] was taken; [None] is an exception of a conversion, which
    nothing catches. *)
Definition parse_arg (arg : list ascii) (next : option (list ascii))
  (o : options) : option (options * bool) :=
  let value := default [] next in
  let more := bool_decide (is_Some next) in
  if eqs arg (str "-h") || eqs arg (str "--help") then
    Some (mkOptions (config o) true (target_hwnd o), false)
  else if (eqs arg (str "-p") || eqs arg (str "--port")) && more then
    n ← stoi value;
    Some (with_config (on_network (set_port (Machine.wrap16 n))) o, true)
  else if (eqs arg (str "-q") || eqs arg (str "--quality")) && more then
    n ← stoi value;
    Some (with_config (on_encoder (set_jpeg_quality (Machine.clamp n 1 100))) o,
          true)
  else if (eqs arg (str "-f") || eqs arg (str "--fps")) && more then
    n ← stoi value;
    Some (with_config (on_capture (set_target_fps (Machine.clamp n 1 240))) o,
          true)
  else if (eqs arg (str "-s") || eqs arg (str "--scale")) && more then
    x ← stof value;
    Some (with_config
            (on_encoder (set_downscale_factor (F32.clamp x (F32.lit 1 1) F32.one)))
            o, true)
  else if (eqs arg (str "-m") || eqs arg (str "--monitor")) && more then
    n ← stoi value;
    Some (with_config (on_capture (set_monitor_index (Machine.wrap32 n))) o, true)
  else if eqs arg (str "--hwnd") && more then
    h ← stoull value;
    Some (mkOptions (config o) (show_help o) h, true)
  else if eqs arg (str "--preset") && more then
    Some (with_config (preset_named value) o, true)
  else if eqs arg (str "--no-vr") then
    Some (with_config (on_encoder (set_vr_enabled false)) o, false)
  else if eqs arg (str "--no-gpu") then
    Some (with_config
            (on_encoder (set_use_nvjpeg false)
             ∘ on_encoder (set_use_nvenc false)
             ∘ on_encoder (set_use_gpu false)) o, false)
  else Some (o, false).

(** The argument loop over [argv[1]], ..., [argv[argc - 1]]. *)
Fixpoint parse_args (args : list (list ascii)) (o : options) : option options :=
  match args with
  | [] => Some o
  | arg :: rest =>
      match rest with
      | [] =>
          '(o', _) ← parse_arg arg None o;
          Some o'
      | value :: rest' =>
          '(o', taken) ← parse_arg arg (Some value) o;
          if taken : bool then parse_args rest' o' else parse_args rest o'
      end
  end.

(** [std::tolower] in the C locale. *)
Definition tolower (key : Z) : Z :=
  if (65 <=? key) && (key <=? 90) then key + 32 else key.

Definition key (c : ascii) : Z := Z.of_N (N_of_ascii c).

Definition f32_sub : spec_float -> spec_float -> spec_float :=
  SFsub F32.prec F32.emax.

(** [std::min(a, b)] and [std::max(a, b)] on [float]. *)
Definition f32_min (a b : spec_float) : spec_float := if F32.ltb b a then b else a.
Definition f32_max (a b : spec_float) : spec_float := if F32.ltb a b then b else a.

(** One key of the control loop: the application afterwards, and whether
    [stop] was called. *)
Definition on_key (k : Z) (a : VRStreamerApp.t) : VRStreamerApp.t * bool :=
  let k := tolower k in
  let cfg := VRStreamerApp.config_ a in
  if k =? key "q" then (a, true)
  else if (k =? key "+") || (k =? key "=") then
    let quality :=
      Z.min 100 (Machine.wrap32 (jpeg_quality (encoder cfg) + 5)) in
    (VRStreamerApp.update_config (on_encoder (set_jpeg_quality quality) cfg) a,
     false)
  else if (k =? key "-") || (k =? key "_") then
    let quality :=
      Z.max 10 (Machine.wrap32 (jpeg_quality (encoder cfg) - 5)) in
    (VRStreamerApp.update_config (on_encoder (set_jpeg_quality quality) cfg) a,
     false)
  else if k =? key "]" then
    let factor :=
      f32_min F32.one (F32.add (downscale_factor (encoder cfg)) (F32.lit 5 2)) in
    (VRStreamerApp.update_config (on_encoder (set_downscale_factor factor) cfg) a,
     false)
  else if k =? key "[" then
    let factor :=
      f32_max (F32.lit 2 1) (f32_sub (downscale_factor (encoder cfg)) (F32.lit 5 2)) in
    (VRStreamerApp.update_config (on_encoder (set_downscale_factor factor) cfg) a,
     false)
  else if k =? key "1" then
    (VRStreamerApp.set_quality_preset ULTRA_PERFORMANCE a, false)
  else if k =? key "2" then
    (VRStreamerApp.set_quality_preset LOW_LATENCY a, false)
  else if k =? key "3" then
    (VRStreamerApp.set_quality_preset BALANCED a, false)
  else if k =? key "4" then
    (VRStreamerApp.set_quality_preset QUALITY a, false)
  else if k =? key "5" then
    (VRStreamerApp.set_quality_preset MAXIMUM_QUALITY a, false)
  else (a, false).

(** The keys pressed one after the other, until [stop]. *)
Fixpoint on_keys (ks : list Z) (a : VRStreamerApp.t) : VRStreamerApp.t :=
  match ks with
  | [] => a
  | k :: ks' =>
      let '(a', stopped) := on_key k a in
      if stopped : bool then a' else on_keys ks' a'
  end.

(** The application after [init] has stored the configuration and built
    the encoder from it. *)
Definition app_of (o : options) : VRStreamerApp.t :=
  VRStreamerApp.mk (config o)
    (Some (VRFrameEncoder.create (encoder (config o)))) [].

(** The range of [jpeg_quality] and of [target_fps]. *)
Definition in_range (c : Config) : Prop :=
  1 <= jpeg_quality (encoder c) <= 100 /\ 1 <= target_fps (capture c) <= 240.

Definition quality (a : VRStreamerApp.t) : Z :=
  jpeg_quality (encoder (VRStreamerApp.config_ a)).

(** The encoder runs with the encoder settings of the application. *)
Definition synced (a : VRStreamerApp.t) : Prop :=
  VRFrameEncoder.config_ <$> VRStreamerApp.encoder_ a
  = Some (encoder (VRStreamerApp.config_ a)).


End Main.

(* ===================================================================== *)
(** * Properties *)
(* ===================================================================== *)

Module SPSCQueueFacts.
Import SPSCQueue.

Lemma has_single_bit_pow2 v :
Machine.has_single_bit v = true -> exists k, 0 <= k /\ v = 2 ^ k.
Proof.
unfold Machine.has_single_bit. intros Hv.
apply andb_true_iff in Hv as [Hpos Heq].
apply Z.ltb_lt in Hpos. apply Z.eqb_eq in Heq.
exists (Z.log2 v). split; [apply Z.log2_nonneg | exact Heq].
Qed.

Lemma land_mask_mod N x :
valid_capacity N -> 0 <= x -> Z.land x (MASK N) = x mod N.
Proof.
intros (Hp & H2 & H64) Hx.
destruct (has_single_bit_pow2 N Hp) as (k & Hk & ->).
unfold MASK, Machine.wrap64.
rewrite Z.mod_small by lia.
replace (2 ^ k - 1) with (Z.ones k) by (rewrite Z.ones_equiv; lia).
apply Z.land_ones. exact Hk.
Qed.

Section Facts.
Context {T : Type} `{Inhabited T}.
Variable N : Z.
Hypothesis HN : valid_capacity N.

Lemma wrap64_small x : 0 <= x <= N -> Machine.wrap64 x = x.
Proof.
  destruct HN as (_ & _ & H64). intros Hx.
  unfold Machine.wrap64. apply Z.mod_small. lia.
Qed.

Lemma next_index_range x : 0 <= x < N ->
  0 <= Z.land (Machine.wrap64 (x + 1)) (MASK N) < N.
Proof.
  intros Hx. rewrite wrap64_small by lia.
  rewrite land_mask_mod by (auto; lia).
  apply Z.mod_pos_bound. lia.
Qed.

Lemma wf_init : wf N (init N (T := T)).
Proof.
  destruct HN as (_ & H2 & _).
  unfold wf, init; simpl. rewrite length_replicate. lia.
Qed.

Lemma wf_step (o : op) (q : t T) : wf N q -> wf N (step N o q).
Proof.
  intros (Hh & Ht & Hl). destruct o as [item| |]; simpl.
  - unfold try_push.
    destruct (_ =? _); simpl; [unfold wf; tauto|].
    unfold wf; simpl. rewrite length_insert.
    pose proof (next_index_range (tail_ q) Ht). tauto.
  - unfold try_pop.
    destruct (_ =? _); simpl; [unfold wf; tauto|].
    unfold wf; simpl.
    pose proof (next_index_range (head_ q) Hh). tauto.
  - unfold clear, wf; simpl. tauto.
Qed.

Lemma wf_run ops (q : t T) : wf N q -> wf N (run N ops q).
Proof.
  revert q. induction ops as [|o ops IH]; intros q Hq; simpl; [exact Hq|].
  apply IH, wf_step, Hq.
Qed.

Lemma reachable_wf (q : t T) : reachable N q -> wf N q.
Proof. intros [ops ->]. apply wf_run, wf_init. Qed.

End Facts.

(** C6. In every reachable state of a ring of power-of-two capacity [N],
  [try_push] returns false iff [(tail+1) mod N = head], and [try_pop]
  returns no element iff [tail = head]. *)
Theorem try_push_try_pop_iff {T : Type} `{Inhabited T} (N : Z) (q : t T) (item : T) :
valid_capacity N ->
reachable N q ->
((try_push N item q).1 = false <-> (tail_ q + 1) mod N = head_ q) /\
((try_pop N q).1 = None <-> tail_ q = head_ q).
Proof.
intros HN Hr. pose proof (reachable_wf N HN q Hr) as (Hh & Ht & _).
split.
- unfold try_push.
  rewrite (wrap64_small N HN) by lia.
  rewrite land_mask_mod by (auto; lia).
  destruct (Z.eqb_spec ((tail_ q + 1) mod N) (head_ q)); simpl; split; congruence.
- unfold try_pop.
  destruct (Z.eqb_spec (head_ q) (tail_ q)); simpl; split; congruence.
Qed.

(** A ring of sixteen slots (the per-client write queue) after three pushes
  and one pop is reachable, and the characterisation applies to it. *)
Lemma try_push_try_pop_iff_witness :
let q := run 16 [Push 7%nat; Push 8%nat; Push 9%nat; Pop] (init 16) in
((try_push 16 1%nat q).1 = false <-> (tail_ q + 1) mod 16 = head_ q) /\
((try_pop 16 q).1 = None <-> tail_ q = head_ q).
Proof.
apply (try_push_try_pop_iff 16).
- unfold valid_capacity. split; [reflexivity | lia].
- eexists. reflexivity.
Defined.

End SPSCQueueFacts.

(* --------------------------------------------------------------------- *)
(** ** Frame buffer pool *)
(* --------------------------------------------------------------------- *)

Module FrameBufferPoolFacts.
Import FrameBufferPool.

Lemma free_count_create bs ps : 0 <= ps -> free_count (create bs ps) = ps.
Proof.
  intros Hps. unfold free_count, create; simpl.
  rewrite length_replicate. lia.
Qed.

Lemma free_count_acquire p : free_count (acquire p).2 <= free_count p.
Proof.
  unfold acquire, free_count.
  destruct (free_buffers_ p) eqn:E; cbn [snd free_buffers_ length];
    [rewrite E; simpl; lia | lia].
Qed.

Lemma pool_size_acquire p : pool_size_ (acquire p).2 = pool_size_ p.
Proof. unfold acquire. destruct (free_buffers_ p); reflexivity. Qed.

Lemma pool_size_release b p : pool_size_ (release b p) = pool_size_ p.
Proof.
  unfold release. destruct b; [|reflexivity].
  destruct (_ <? _); reflexivity.
Qed.

Lemma free_count_release b p :
  2 * pool_size_ p < 2 ^ 64 -> 0 <= pool_size_ p ->
  free_count p <= 2 * pool_size_ p ->
  free_count (release b p) <= 2 * pool_size_ p.
Proof.
  intros H64 H0 Hle. unfold release. destruct b as [b|]; [|exact Hle].
  unfold Machine.wrap64. rewrite Z.mod_small by lia.
  destruct (Z.ltb_spec (Z.of_nat (length (free_buffers_ p))) (pool_size_ p * 2));
    [|exact Hle].
  unfold free_count; cbn [free_buffers_ length]. lia.
Qed.

Lemma step_invariant ps o s :
  0 <= ps -> 2 * ps < 2 ^ 64 ->
  pool_size_ (pool s) = ps /\ free_count (pool s) <= 2 * ps ->
  pool_size_ (pool (step o s)) = ps /\ free_count (pool (step o s)) <= 2 * ps.
Proof.
  intros H0 H64 [Hps Hle]. destruct o as [|i|i]; unfold step.
  - pose proof (free_count_acquire (pool s)) as Hacq.
    pose proof (pool_size_acquire (pool s)) as Hsz.
    destruct (acquire (pool s)) as [b p'] eqn:E; cbn [pool snd] in *. split; lia.
  - destruct (held s !! i) as [b|]; cbn [pool]; [|auto].
    rewrite pool_size_release. split; [exact Hps|].
    rewrite <- Hps. apply free_count_release; rewrite Hps; auto.
  - auto.
Qed.

Lemma run_invariant ps ops s :
  0 <= ps -> 2 * ps < 2 ^ 64 ->
  pool_size_ (pool s) = ps /\ free_count (pool s) <= 2 * ps ->
  pool_size_ (pool (run ops s)) = ps /\ free_count (pool (run ops s)) <= 2 * ps.
Proof.
  intros H0 H64. revert s.
  induction ops as [|o ops IH]; intros s Hs; simpl; [exact Hs|].
  apply IH, step_invariant; auto.
Qed.

(** C4, as stated: [free_count + in_use_count <= 2 * pool_size] is violated
    by a pool of one buffer after three acquisitions, because [acquire]
    synthesises a buffer whenever the free list is empty. *)
Lemma pool_bound_counterexample :
  let s := run [Acquire; Acquire; Acquire] (start 8 1) in
  ~ (free_count (pool s) + in_use_count s <= 2 * 1).
Proof. vm_compute. intros Hle. apply Hle. reflexivity. Qed.

(** C4, amended: for every sequence of acquire, release and drop operations
    on a pool constructed with [pool_size] buffers, the free list never
    holds more than [2 * pool_size] buffers. *)
Theorem free_count_bounded (buffer_size pool_size : Z) (ops : list op) :
  0 <= pool_size -> 2 * pool_size < 2 ^ 64 ->
  free_count (pool (run ops (start buffer_size pool_size))) <= 2 * pool_size.
Proof.
  intros H0 H64.
  apply (run_invariant pool_size ops (start buffer_size pool_size) H0 H64).
  simpl. split; [reflexivity|].
  rewrite free_count_create by exact H0. lia.
Qed.

Lemma free_count_bounded_witness :
  free_count (pool (run [Acquire; Acquire; Release 0%nat; Release 0%nat;
                         Acquire; Drop 0%nat] (start 16 2))) <= 2 * 2.
Proof. apply (free_count_bounded 16 2); lia. Defined.

End FrameBufferPoolFacts.

(* --------------------------------------------------------------------- *)
(** ** Byte buffers and counted loops *)
(* --------------------------------------------------------------------- *)

Module MemFacts.
Import Mem.

Lemma bind_some {A B} (a : A) (f : A -> option B) : (x ← Some a; f x) = f a.
Proof. reflexivity. Qed.

Lemma store_spec buf off v buf' :
  store buf off v = Some buf' ->
  0 <= off < Z.of_nat (length buf) /\
  length buf' = length buf /\
  load buf' off = Some v /\
  (forall i, i <> off -> load buf' i = load buf i).
Proof.
  unfold store, load. intros Hs.
  destruct (Z.leb_spec 0 off) as [H0|H0]; simpl in Hs; [|discriminate].
  destruct (Z.ltb_spec off (Z.of_nat (length buf))) as [H1|H1];
    simpl in Hs; [|discriminate].
  injection Hs as <-.
  split; [lia|]. split; [apply length_insert|]. split.
  - apply list_lookup_insert_eq. lia.
  - intros i Hi. destruct (Z.leb_spec 0 i); [|reflexivity].
    apply list_lookup_insert_ne. lia.
Qed.

(** Loop invariant rule for [for_loop]. *)
Lemma for_loop_ind {S : Type} (P : Z -> S -> Prop) (body : Z -> S -> option S) :
  forall (n : nat) (i : Z) (s s' : S),
  for_loop n i body s = Some s' ->
  P i s ->
  (forall j t t', i <= j < i + Z.of_nat n -> P j t -> body j t = Some t' ->
                  P (j + 1) t') ->
  P (i + Z.of_nat n) s'.
Proof.
  induction n as [|n IH]; intros i s s' Hrun Hinit Hstep.
  - simpl in Hrun. injection Hrun as <-.
    replace (i + Z.of_nat 0) with i by lia. exact Hinit.
  - simpl in Hrun.
    destruct (body i s) as [t|] eqn:Eb; simpl in Hrun; [|discriminate].
    replace (i + Z.of_nat (Datatypes.S n)) with ((i + 1) + Z.of_nat n) by lia.
    apply (IH (i + 1) t s' Hrun).
    + apply (Hstep i s t); [lia | exact Hinit | exact Eb].
    + intros j u u' Hj Hu Hb. apply (Hstep j u u'); [lia | exact Hu | exact Hb].
Qed.

(** A loop whose every step is defined is defined. *)
Lemma for_loop_total {S : Type} (P : Z -> S -> Prop) (body : Z -> S -> option S) :
  forall (n : nat) (i : Z) (s : S),
  P i s ->
  (forall j t, i <= j < i + Z.of_nat n -> P j t ->
               exists t', body j t = Some t' /\ P (j + 1) t') ->
  exists s', for_loop n i body s = Some s'.
Proof.
  induction n as [|n IH]; intros i s Hinit Hstep.
  - exists s. reflexivity.
  - destruct (Hstep i s) as (t & Eb & Ht); [lia | exact Hinit |].
    destruct (IH (i + 1) t Ht) as (s' & Es').
    + intros j u Hj Hu. apply Hstep; [lia | exact Hu].
    + exists s'. simpl. rewrite Eb. simpl. exact Es'.
Qed.

End MemFacts.

(* --------------------------------------------------------------------- *)
(** ** Stereo shaper *)
(* --------------------------------------------------------------------- *)

Module StereoFacts.
Import Machine Mem MemFacts CPUStereoProcessor.

Lemma wrap32_small x : 0 <= x < 2 ^ 32 -> wrap32 x = x.
Proof. intros Hx. unfold wrap32. apply Z.mod_small. exact Hx. Qed.

Lemma copy_pixel_spec input src out dst out' :
  copy_pixel input src out dst = Some out' ->
  length out' = length out /\
  (forall i, ~ (dst <= i < dst + 3) -> load out' i = load out i) /\
  (forall c, 0 <= c < 3 ->
     exists b, load input (src + c) = Some b /\ load out' (dst + c) = Some b).
Proof.
  unfold copy_pixel. intros Hc.
  destruct (load input src) as [b|] eqn:Eb; simpl in Hc; [|discriminate].
  destruct (store out dst b) as [o0|] eqn:E0; simpl in Hc; [|discriminate].
  destruct (load input (src + 1)) as [g|] eqn:Eg; simpl in Hc; [|discriminate].
  destruct (store o0 (dst + 1) g) as [o1|] eqn:E1; simpl in Hc; [|discriminate].
  destruct (load input (src + 2)) as [r|] eqn:Er; simpl in Hc; [|discriminate].
  apply store_spec in E0 as (R0 & L0 & V0 & F0).
  apply store_spec in E1 as (R1 & L1 & V1 & F1).
  apply store_spec in Hc as (R2 & L2 & V2 & F2).
  split; [congruence|]. split.
  - intros i Hi. rewrite F2, F1, F0 by lia. reflexivity.
  - intros c Hc. assert (c = 0 \/ c = 1 \/ c = 2) as [-> | [-> | ->]] by lia.
    + exists b. rewrite !Z.add_0_r. split; [exact Eb|].
      rewrite F2, F1 by lia. exact V0.
    + exists g. split; [exact Eg|]. rewrite F2 by lia. exact V1.
    + exists r. split; [exact Er|]. exact V2.
Qed.

(** What one eye's loop over [n] columns does to the output: only the
    [3 * n] bytes from [D0] on change, and column [x] receives the three
    bytes of the source pixel selected by [srcx x]. *)
Lemma eye_loop_spec input ch (srcx : Z -> option Z) src_row D0
  (body : Z -> list Z -> option (list Z)) n out out' :
  0 <= n ->
  (forall x o, 0 <= x < n ->
     body x o = sx ← srcx x;
                copy_pixel input (src_row + wrap32 (sx * ch)) o (D0 + 3 * x)) ->
  for_loop (Z.to_nat n) 0 body out = Some out' ->
  length out' = length out /\
  (forall i, ~ (D0 <= i < D0 + 3 * n) -> load out' i = load out i) /\
  (forall x, 0 <= x < n ->
     exists sx, srcx x = Some sx /\
       forall c, 0 <= c < 3 ->
         exists b, load input (src_row + wrap32 (sx * ch) + c) = Some b /\
                   load out' (D0 + 3 * x + c) = Some b).
Proof.
  intros Hn Hbody Hrun.
  pose (P := fun (j : Z) (o : list Z) =>
    length o = length out /\
    (forall i, ~ (D0 <= i < D0 + 3 * j) -> load o i = load out i) /\
    (forall x, 0 <= x < j ->
       exists sx, srcx x = Some sx /\
         forall c, 0 <= c < 3 ->
           exists b, load input (src_row + wrap32 (sx * ch) + c) = Some b /\
                     load o (D0 + 3 * x + c) = Some b)).
  assert (HP : P (0 + Z.of_nat (Z.to_nat n)) out').
  { apply (for_loop_ind P body (Z.to_nat n) 0 out out' Hrun).
    - unfold P. split; [reflexivity|]. split; [reflexivity|]. intros x Hx. lia.
    - intros j t t' Hj (Hlen & Hframe & Hcells) Hstep.
      rewrite Hbody in Hstep by lia.
      destruct (srcx j) as [sx|] eqn:Esx; simpl in Hstep; [|discriminate].
      apply copy_pixel_spec in Hstep as (Hl & Hf & Hv).
      unfold P. split; [congruence|]. split.
      + intros i Hi. rewrite Hf by lia. apply Hframe. lia.
      + intros x Hx. destruct (Z.eq_dec x j) as [->|Hne].
        * exists sx. split; [exact Esx|]. exact Hv.
        * destruct (Hcells x) as (sx' & Esx' & Hv'); [lia|].
          exists sx'. split; [exact Esx'|].
          intros c Hc. destruct (Hv' c Hc) as (b & Hb1 & Hb2).
          exists b. split; [exact Hb1|]. rewrite Hf by lia. exact Hb2. }
  rewrite Z2Nat.id in HP by exact Hn. exact HP.
Qed.

Lemma pixel_copied_frame input src out out' dst :
  (forall i, dst <= i < dst + 3 -> load out' i = load out i) ->
  pixel_copied input src out dst -> pixel_copied input src out' dst.
Proof.
  intros Hsame Hpc c Hc. destruct (Hpc c Hc) as (b & Hb1 & Hb2).
  exists b. split; [exact Hb1|]. rewrite Hsame by lia. exact Hb2.
Qed.

(** One output row: both eyes of row [y]. *)
Lemma process_row_spec input iw pitch ch sep half OP xs ys y out out' :
  0 <= half -> 0 <= y -> 0 <= y * OP < 2 ^ 32 -> 3 * (2 * half) < 2 ^ 32 ->
  process_row input iw pitch ch sep half OP xs ys y out = Some out' ->
  exists sy, src_row_y ys y = Some sy /\
    length out' = length out /\
    (forall i, ~ (y * OP <= i < y * OP + 3 * (2 * half)) ->
               load out' i = load out i) /\
    (forall x, 0 <= x < half ->
       exists sx, left_src_x iw sep xs x = Some sx /\
         pixel_copied input (wrap32 (sy * pitch) + wrap32 (sx * ch))
                      out' (y * OP + 3 * x)) /\
    (forall x, 0 <= x < half ->
       exists sx, right_src_x iw sep xs x = Some sx /\
         pixel_copied input (wrap32 (sy * pitch) + wrap32 (sx * ch))
                      out' (y * OP + 3 * (half + x))).
Proof.
  intros Hhalf Hy HyOP H32 Hrow. unfold process_row in Hrow.
  destruct (src_row_y ys y) as [sy|] eqn:Esy; simpl in Hrow; [|discriminate].
  rewrite (wrap32_small (y * OP)) in Hrow by exact HyOP.
  destruct (for_loop (Z.to_nat half) 0 _ out) as [o1|] eqn:EL;
    simpl in Hrow; [|discriminate].
  apply (eye_loop_spec input ch (left_src_x iw sep xs)
           (wrap32 (sy * pitch)) (y * OP)) in EL as (LL & LF & LC);
    [ | exact Hhalf | ].
  2:{ intros x o Hx. unfold left_eye.
      rewrite (wrap32_small (x * 3)) by lia.
      replace (y * OP + x * 3) with (y * OP + 3 * x) by lia. reflexivity. }
  apply (eye_loop_spec input ch (right_src_x iw sep xs)
           (wrap32 (sy * pitch)) (y * OP + 3 * half)) in Hrow as (RL & RF & RC);
    [ | exact Hhalf | ].
  2:{ intros x o Hx. unfold right_eye.
      rewrite (wrap32_small (half + x)) by lia.
      rewrite (wrap32_small ((half + x) * 3)) by lia.
      replace (y * OP + (half + x) * 3) with (y * OP + 3 * half + 3 * x) by lia.
      reflexivity. }
  exists sy. split; [reflexivity|]. split; [congruence|]. split; [|split].
  - intros i Hi. rewrite RF by lia. apply LF. lia.
  - intros x Hx. destruct (LC x Hx) as (sx & Esx & Hpc).
    exists sx. split; [exact Esx|].
    apply (pixel_copied_frame input _ o1); [|exact Hpc].
    intros i Hi. apply RF. lia.
  - intros x Hx. destruct (RC x Hx) as (sx & Esx & Hpc).
    exists sx. split; [exact Esx|].
    replace (y * OP + 3 * (half + x)) with (y * OP + 3 * half + 3 * x) by lia.
    exact Hpc.
Qed.

(** The whole image: every pixel of either half holds the bytes of the
    source pixel chosen by [left_src_x] / [right_src_x] and [src_row_y]. *)
Lemma process_scaled_spec input iw ih pitch ch output ow oh ds es p out' :
  0 <= ow -> 0 <= oh -> ow * 3 * oh < 2 ^ 32 ->
  process_scaled input iw ih pitch ch output ow oh ds es = Some (p, out') ->
  let half := ow / 2 in
  let xs := F32.div (F32.of_int iw) (F32.of_int half) in
  let ys := F32.div (F32.of_int ih) (F32.of_int oh) in
  exists sep, F32.to_u32 (F32.mul (F32.of_int iw) es) = Some sep /\
    length out' = length output /\
    forall y x, 0 <= y < oh -> 0 <= x < half ->
      exists sy, src_row_y ys y = Some sy /\
        (exists sx, left_src_x iw sep xs x = Some sx /\
           pixel_copied input (wrap32 (sy * pitch) + wrap32 (sx * ch))
                        out' (y * (ow * 3) + 3 * x)) /\
        (exists sx, right_src_x iw sep xs x = Some sx /\
           pixel_copied input (wrap32 (sy * pitch) + wrap32 (sx * ch))
                        out' (y * (ow * 3) + 3 * (half + x))).
Proof.
  intros How Hoh H32 Hps half xs ys. unfold process_scaled in Hps.
  destruct (F32.to_u32 (F32.mul (F32.of_int iw) es)) as [sep|] eqn:Esep;
    simpl in Hps; [|discriminate].
  fold half in Hps. fold xs in Hps. fold ys in Hps.
  destruct (for_loop _ 0 _ output) as [o|] eqn:Eloop; simpl in Hps; [|discriminate].
  injection Hps as <- <-.
  exists sep. split; [reflexivity|].
  assert (Hhalf : 0 <= half) by (apply Z.div_pos; lia).
  assert (H2half : 2 * half <= ow).
  { unfold half. pose proof (Z.mul_div_le ow 2). lia. }
  destruct (Z.eq_dec half 0) as [Hz|Hnz].
  { (* no column at all: the inner loops are empty *)
    split; [|intros y x Hy Hx; lia].
    pose (Q := fun (_ : Z) (t : list Z) => length t = length output).
    assert (HP : Q (0 + Z.of_nat (Z.to_nat (as_i32 oh))) o).
    { apply (for_loop_ind Q _ _ 0 output o Eloop); [reflexivity|].
      intros j t t' Hj Ht Hstep. unfold Q in *. unfold process_row in Hstep.
      destruct (src_row_y ys j); simpl in Hstep; [|discriminate].
      rewrite Hz in Hstep. simpl in Hstep. injection Hstep as <-. exact Ht. }
    exact HP. }
  assert (Hoh31 : oh < 2 ^ 31) by nia.
  assert (Eas : as_i32 oh = oh).
  { unfold as_i32. destruct (Z.ltb_spec oh (2 ^ 31)); lia. }
  rewrite Eas in Eloop.
  pose (P := fun (j : Z) (t : list Z) =>
    length t = length output /\
    forall y x, 0 <= y < j -> 0 <= x < half ->
      exists sy, src_row_y ys y = Some sy /\
        (exists sx, left_src_x iw sep xs x = Some sx /\
           pixel_copied input (wrap32 (sy * pitch) + wrap32 (sx * ch))
                        t (y * (ow * 3) + 3 * x)) /\
        (exists sx, right_src_x iw sep xs x = Some sx /\
           pixel_copied input (wrap32 (sy * pitch) + wrap32 (sx * ch))
                        t (y * (ow * 3) + 3 * (half + x)))).
  assert (HP : P (0 + Z.of_nat (Z.to_nat oh)) o).
  { apply (for_loop_ind P _ _ 0 output o Eloop).
    - split; [reflexivity|]. intros y x Hy. lia.
    - intros j t t' Hj (Hlen & Hcells) Hstep.
      assert (Hjoh : 0 <= j < oh) by lia.
      assert (EOP : wrap32 (ow * 3) = ow * 3) by (apply wrap32_small; nia).
      rewrite EOP in Hstep.
      apply process_row_spec in Hstep as (sy & Esy & Hl & Hf & HL & HR);
        [ | lia | lia | nia | nia ].
      split; [congruence|].
      intros y x Hy Hx. destruct (Z.eq_dec y j) as [->|Hne].
      + exists sy. split; [exact Esy|]. split; [apply HL | apply HR]; exact Hx.
      + destruct (Hcells y x) as (sy' & Esy' & (sl & Esl & Hpl) & (sr & Esr & Hpr));
          [lia | exact Hx |].
        exists sy'. split; [exact Esy'|]. split.
        * exists sl. split; [exact Esl|].
          apply (pixel_copied_frame input _ t); [|exact Hpl].
          intros i Hi. apply Hf. nia.
        * exists sr. split; [exact Esr|].
          apply (pixel_copied_frame input _ t); [|exact Hpr].
          intros i Hi. apply Hf. nia. }
  rewrite Z2Nat.id in HP by exact Hoh. destruct HP as (Hlen & Hcells).
  split; [exact Hlen|]. exact Hcells.
Qed.

Lemma store_defined buf off v :
  0 <= off < Z.of_nat (length buf) ->
  exists buf', store buf off v = Some buf' /\ length buf' = length buf.
Proof.
  intros Hoff. unfold store.
  destruct (Z.leb_spec 0 off); [|lia].
  destruct (Z.ltb_spec off (Z.of_nat (length buf))); [|lia].
  simpl. eexists. split; [reflexivity|]. apply length_insert.
Qed.

Lemma load_defined buf off :
  0 <= off < Z.of_nat (length buf) -> exists b, load buf off = Some b.
Proof.
  intros Hoff. unfold load. destruct (Z.leb_spec 0 off); [|lia].
  destruct (lookup_lt_is_Some_2 buf (Z.to_nat off)) as [b Hb]; [lia|].
  exists b. exact Hb.
Qed.

(** A pixel copy is defined when both pixels lie inside their buffers. *)
Lemma copy_pixel_defined input src out dst :
  0 <= src -> src + 2 < Z.of_nat (length input) ->
  0 <= dst -> dst + 2 < Z.of_nat (length out) ->
  exists out', copy_pixel input src out dst = Some out' /\
               length out' = length out.
Proof.
  intros Hs0 Hs Hd0 Hd. unfold copy_pixel.
  destruct (load_defined input src) as [b Eb]; [lia|].
  destruct (store_defined out dst b) as (o0 & E0 & L0); [lia|].
  destruct (load_defined input (src + 1)) as [g Eg]; [lia|].
  destruct (store_defined o0 (dst + 1) g) as (o1 & E1 & L1); [lia|].
  destruct (load_defined input (src + 2)) as [r Er]; [lia|].
  destruct (store_defined o1 (dst + 2) r) as (o2 & E2 & L2); [lia|].
  rewrite Eb, bind_some, E0, bind_some, Eg, bind_some, E1, bind_some, Er,
    bind_some, E2.
  exists o2. split; [reflexivity|]. congruence.
Qed.

(** X8. [process_scaled] has defined behaviour as soon as its conversions
    from [f32] are defined, every sampled pixel lies inside the input and
    the output buffer holds the [Wo * 3 * Ho] bytes of the image: no load
    or store leaves its buffer, and the pitch [Wo * 3] is returned. *)
Lemma process_scaled_defined input iw ih pitch ch output ow oh ds es sep :
  0 <= ow -> 0 <= oh < 2 ^ 31 -> ow * 3 * oh < 2 ^ 32 ->
  ow * 3 * oh <= Z.of_nat (length output) ->
  let half := ow / 2 in
  let xs := F32.div (F32.of_int iw) (F32.of_int half) in
  let ys := F32.div (F32.of_int ih) (F32.of_int oh) in
  F32.to_u32 (F32.mul (F32.of_int iw) es) = Some sep ->
  (forall y, 0 <= y < oh ->
     exists sy, src_row_y ys y = Some sy /\
       forall x, 0 <= x < half ->
         (exists sx, left_src_x iw sep xs x = Some sx /\
            wrap32 (sy * pitch) + wrap32 (sx * ch) + 2 < Z.of_nat (length input)) /\
         (exists sx, right_src_x iw sep xs x = Some sx /\
            wrap32 (sy * pitch) + wrap32 (sx * ch) + 2 < Z.of_nat (length input))) ->
  exists out', process_scaled input iw ih pitch ch output ow oh ds es
                 = Some (wrap32 (ow * 3), out').
Proof.
  intros How Hoh H32 Hlen half xs ys Hsep Hsrc.
  unfold process_scaled. rewrite Hsep. simpl.
  fold half. fold xs. fold ys.
  assert (Hhalf : 0 <= half) by (apply Z.div_pos; lia).
  assert (H2half : 2 * half <= ow).
  { unfold half. pose proof (Z.mul_div_le ow 2). lia. }
  assert (Eas : as_i32 oh = oh).
  { unfold as_i32. destruct (Z.ltb_spec oh (2 ^ 31)); lia. }
  rewrite Eas.
  pose (P := fun (_ : Z) (t : list Z) => length t = length output).
  destruct (for_loop_total P
              (process_row input iw pitch ch sep half (wrap32 (ow * 3)) xs ys)
              (Z.to_nat oh) 0 output) as (o & Eo); [reflexivity| |].
  2:{ rewrite Eo. simpl. eexists. reflexivity. }
  intros y t Hy Ht. unfold P in Ht.
  assert (Hyoh : 0 <= y < oh) by lia.
  assert (Hw : ow * 3 < 2 ^ 32) by nia.
  assert (EOP : wrap32 (ow * 3) = ow * 3) by (apply wrap32_small; lia).
  destruct (Hsrc y Hyoh) as (sy & Esy & Hcols).
  unfold process_row. rewrite Esy. simpl. rewrite EOP.
  rewrite (wrap32_small (y * (ow * 3))) by nia.
  assert (Hsrc0 : forall sx, 0 <= wrap32 (sy * pitch) + wrap32 (sx * ch)).
  { intros sx. unfold wrap32.
    pose proof (Z.mod_pos_bound (sy * pitch) (2 ^ 32)).
    pose proof (Z.mod_pos_bound (sx * ch) (2 ^ 32)). lia. }
  destruct (for_loop_total P
              (left_eye input iw ch sep xs (wrap32 (sy * pitch)) (y * (ow * 3)))
              (Z.to_nat half) 0 t) as (o1 & Eo1); [exact Ht| |].
  { intros x u Hx Hu. unfold P in Hu.
    destruct (Hcols x) as ((sx & Esx & Hin) & _); [lia|].
    unfold left_eye. rewrite Esx. simpl.
    rewrite (wrap32_small (x * 3)) by lia.
    destruct (copy_pixel_defined input (wrap32 (sy * pitch) + wrap32 (sx * ch))
                u (y * (ow * 3) + x * 3)) as (u' & Eu & Lu);
      [apply Hsrc0 | exact Hin | nia | rewrite Hu; nia |].
    exists u'. split; [exact Eu|]. unfold P. congruence. }
  rewrite Eo1. simpl.
  assert (Ho1 : length o1 = length output).
  { pose (Q := fun (_ : Z) (u : list Z) => length u = length output).
    change (Q (0 + Z.of_nat (Z.to_nat half)) o1).
    apply (for_loop_ind Q _ _ 0 t o1 Eo1); [exact Ht|].
    intros x u u' Hx Hu Hstep. unfold Q in *. unfold left_eye in Hstep.
    destruct (left_src_x iw sep xs x); simpl in Hstep; [|discriminate].
    apply copy_pixel_spec in Hstep as (Hl & _). congruence. }
  destruct (for_loop_total P
              (right_eye input iw ch sep half xs (wrap32 (sy * pitch))
                         (y * (ow * 3)))
              (Z.to_nat half) 0 o1) as (o2 & Eo2); [exact Ho1| |].
  { intros x u Hx Hu. unfold P in Hu.
    destruct (Hcols x) as (_ & (sx & Esx & Hin)); [lia|].
    unfold right_eye. rewrite Esx. simpl.
    rewrite (wrap32_small (half + x)) by lia.
    rewrite (wrap32_small ((half + x) * 3)) by lia.
    destruct (copy_pixel_defined input (wrap32 (sy * pitch) + wrap32 (sx * ch))
                u (y * (ow * 3) + (half + x) * 3)) as (u' & Eu & Lu);
      [apply Hsrc0 | exact Hin | nia | rewrite Hu; nia |].
    exists u'. split; [exact Eu|]. unfold P. congruence. }
  exists o2. split; [exact Eo2|].
  pose (Q := fun (_ : Z) (u : list Z) => length u = length output).
  change (Q (y + 1) o2).
  replace (y + 1) with (y + 1 + 0) by lia.
  assert (HQ : Q (0 + Z.of_nat (Z.to_nat half)) o2).
  { apply (for_loop_ind Q _ _ 0 o1 o2 Eo2); [exact Ho1|].
    intros x u u' Hx Hu Hstep. unfold Q in *. unfold right_eye in Hstep.
    destruct (right_src_x iw sep xs x); simpl in Hstep; [|discriminate].
    apply copy_pixel_spec in Hstep as (Hl & _). congruence. }
  exact HQ.
Qed.

Lemma to_u32_range f v : F32.to_u32 f = Some v -> 0 <= v < 2 ^ 32.
Proof.
  unfold F32.to_u32. destruct (float_trunc f) as [t|]; simpl; [|discriminate].
  destruct (Z.leb_spec 0 t); simpl; [|discriminate].
  destruct (Z.ltb_spec t (2 ^ 32)); simpl; [|discriminate].
  intros [= <-]. lia.
Qed.

(** The guard [src_x + separation_pixels < input_width] already implies
    [src_x <= input_width - separation_pixels - 1]: the [std::min] of the
    left eye never changes [src_x]. *)
Lemma left_src_x_unclamped iw sep xs x fx :
  0 <= sep -> iw < 2 ^ 32 ->
  F32.to_u32 (F32.mul (F32.of_int x) xs) = Some fx ->
  fx + sep < 2 ^ 32 ->
  left_src_x iw sep xs x = Some fx.
Proof.
  intros Hsep Hiw Hfx Hno. pose proof (to_u32_range _ _ Hfx) as Hr.
  unfold left_src_x. rewrite Hfx. simpl.
  rewrite (wrap32_small (fx + sep)) by lia.
  destruct (Z.ltb_spec (fx + sep) iw) as [Hlt|Hge]; [|reflexivity].
  rewrite (wrap32_small (iw - sep)) by lia.
  rewrite (wrap32_small (iw - sep - 1)) by lia.
  f_equal. lia.
Qed.

(** C2, at a failing input: a 16x1 BGRA row whose byte [i] is [i], shaped
    into a 32x1 stereo image with [eye_separation = 0.0625] (so [sep = 1]).
    For the left-half pixel [x = 15] the formula of the claim selects source
    column [min(15, 16 - 1 - 1) = 14]; the shaper copies column 15. *)
Theorem left_half_clamp_not_applied :
  let input := map Z.of_nat (seq 0 64) in
  let es := F32.lit 625 4 in
  let sx_scale := F32.div (F32.of_int 16) (F32.of_int (32 / 2)) in
  exists p out',
    process_scaled input 16 1 64 4 (replicate 96 0) 32 1 F32.one es
      = Some (p, out') /\
    F32.to_u32 (F32.mul (F32.of_int 16) es) = Some 1 /\
    F32.to_u32 (F32.mul (F32.of_int 15) sx_scale) = Some 15 /\
    Z.min 15 (16 - 1 - 1) = 14 /\
    pixel_copied input (0 * 64 + 15 * 4) out' (0 * (32 * 3) + 15 * 3) /\
    ~ pixel_copied input (0 * 64 + 14 * 4) out' (0 * (32 * 3) + 15 * 3).
Proof.
  intros input es sx_scale. eexists. eexists.
  split; [vm_compute; reflexivity|].
  split; [vm_compute; reflexivity|].
  split; [vm_compute; reflexivity|].
  split; [reflexivity|]. split.
  - intros c Hc. assert (c = 0 \/ c = 1 \/ c = 2) as [-> | [-> | ->]] by lia;
      eexists; split; vm_compute; reflexivity.
  - intros Hpc. destruct (Hpc 0) as (b & Hb1 & Hb2); [lia|].
    vm_compute in Hb1, Hb2. congruence.
Qed.

(** C9, as stated, fails in two ways. The scales are [f32] quotients and
    the products are rounded to [f32] before they are truncated: a frame
    26 rows high shaped to 22 rows has the exact row
    [floor(11 * 26 / 22) = 13] for [y = 11], but [26.0f / 22] is below
    [13/11] and the product below 13, so row 12 is copied. And the right
    eye is [Wo/2] columns wide from column [Wo/2] on: for an odd [Wo] the
    column [Wo - 1], which the claim counts to the right half, is never
    written. *)
Lemma right_half_counterexample :
  (let input := map Z.of_nat (seq 0 78) in
   exists p out',
     process_scaled input 1 26 3 3 (replicate 132 0) 2 22 F32.one
                    (S754_zero false) = Some (p, out') /\
     11 * 26 / 22 = 13 /\
     F32.to_u32 (F32.mul (F32.of_int 11)
                   (F32.div (F32.of_int 26) (F32.of_int 22))) = Some 12 /\
     pixel_copied input (12 * 3 + 0 * 3) out' (11 * (2 * 3) + 1 * 3) /\
     ~ pixel_copied input (13 * 3 + 0 * 3) out' (11 * (2 * 3) + 1 * 3)) /\
  (let input := [1; 2; 3] in
   exists p out',
     process_scaled input 1 1 3 3 (replicate 9 7) 3 1 F32.one
                    (S754_zero false) = Some (p, out') /\
     3 / 2 <= 2 < 3 /\
     Z.min (0 + 0) (1 - 1) = 0 /\
     ~ pixel_copied input (0 * 3 + 0 * 3) out' (0 * (3 * 3) + 2 * 3)).
Proof.
  split.
  - intros input. eexists. eexists.
    split; [vm_compute; reflexivity|].
    split; [reflexivity|].
    split; [vm_compute; reflexivity|]. split.
    + intros c Hc. assert (c = 0 \/ c = 1 \/ c = 2) as [-> | [-> | ->]] by lia;
        eexists; split; vm_compute; reflexivity.
    + intros Hpc. destruct (Hpc 0) as (b & Hb1 & Hb2); [lia|].
      vm_compute in Hb1, Hb2. congruence.
  - intros input. eexists. eexists.
    split; [vm_compute; reflexivity|].
    split; [change (3 / 2) with 1; lia|].
    split; [reflexivity|].
    intros Hpc. destruct (Hpc 0) as (b & Hb1 & Hb2); [lia|].
    vm_compute in Hb1, Hb2. congruence.
Qed.

(** C9, amended. Every pixel [(x, y)] of the right eye
    ([Wo/2 <= x < 2 * (Wo/2)], which is the right half when [Wo] is even)
    holds the three channels of the input pixel at column
    [min(trunc((x - Wo/2) *f sx_scale) + sep, Wi - 1)] and row
    [trunc(y *f sy_scale)], where [sx_scale = Wi /f (Wo/2)] and
    [sy_scale = Hi /f Ho] are [f32] quotients, [*f] is the [f32] product,
    [trunc] the conversion to [u32] and [sep = trunc(Wi *f eye_separation)];
    the offsets fit 32 bits. *)
Theorem right_half_source input iw ih pitch ch output ow oh ds es p out' x y :
  process_scaled input iw ih pitch ch output ow oh ds es = Some (p, out') ->
  0 <= ow ->
  0 <= oh -> ow * 3 * oh < 2 ^ 32 ->
  1 <= iw < 2 ^ 32 -> 0 <= pitch -> 0 <= ch ->
  ow / 2 <= x < 2 * (ow / 2) -> 0 <= y < oh ->
  let sx_scale := F32.div (F32.of_int iw) (F32.of_int (ow / 2)) in
  let sy_scale := F32.div (F32.of_int ih) (F32.of_int oh) in
  exists sep fx sy,
    F32.to_u32 (F32.mul (F32.of_int iw) es) = Some sep /\
    F32.to_u32 (F32.mul (F32.of_int (x - ow / 2)) sx_scale) = Some fx /\
    F32.to_u32 (F32.mul (F32.of_int y) sy_scale) = Some sy /\
    let sx := Z.min (fx + sep) (iw - 1) in
    (fx + sep < 2 ^ 32 -> sy * pitch < 2 ^ 32 -> sx * ch < 2 ^ 32 ->
     pixel_copied input (sy * pitch + sx * ch) out' (y * (ow * 3) + x * 3)).
Proof.
  intros Hps How Hoh H32 Hiw Hpitch Hch Hx Hy sx_scale sy_scale.
  apply process_scaled_spec in Hps as (sep & Esep & _ & Hcells); [ | lia | lia | lia ].
  destruct (Hcells y (x - ow / 2)) as (sy & Esy & _ & (sx & Esx & Hpc)); [lia | lia |].
  unfold right_src_x in Esx. fold sx_scale in Esx.
  destruct (F32.to_u32 (F32.mul (F32.of_int (x - ow / 2)) sx_scale)) as [fx|] eqn:Efx;
    simpl in Esx; [|discriminate].
  injection Esx as <-.
  exists sep, fx, sy. split; [exact Esep|]. split; [reflexivity|].
  split; [exact Esy|].
  intros sx Hno1 Hno2 Hno3.
  pose proof (to_u32_range _ _ Esep). pose proof (to_u32_range _ _ Efx).
  pose proof (to_u32_range _ _ Esy).
  rewrite (wrap32_small (fx + sep)) in Hpc by lia.
  rewrite (wrap32_small (iw - 1)) in Hpc by lia.
  fold sx in Hpc.
  rewrite (wrap32_small (sy * pitch)) in Hpc by nia.
  rewrite (wrap32_small (sx * ch)) in Hpc by (unfold sx in *; nia).
  replace (y * (ow * 3) + x * 3) with (y * (ow * 3) + 3 * (ow / 2 + (x - ow / 2))) by lia.
  exact Hpc.
Qed.

Lemma right_half_source_witness :
  let input := map Z.of_nat (seq 0 64) in
  let es := F32.lit 625 4 in
  let sx_scale := F32.div (F32.of_int 16) (F32.of_int (32 / 2)) in
  let sy_scale := F32.div (F32.of_int 1) (F32.of_int 1) in
  exists p out',
    process_scaled input 16 1 64 4 (replicate 96 0) 32 1 F32.one es
      = Some (p, out') /\
    exists sep fx sy,
      F32.to_u32 (F32.mul (F32.of_int 16) es) = Some sep /\
      F32.to_u32 (F32.mul (F32.of_int (20 - 32 / 2)) sx_scale) = Some fx /\
      F32.to_u32 (F32.mul (F32.of_int 0) sy_scale) = Some sy /\
      let sx := Z.min (fx + sep) (16 - 1) in
      (fx + sep < 2 ^ 32 -> sy * 64 < 2 ^ 32 -> sx * 4 < 2 ^ 32 ->
       pixel_copied input (sy * 64 + sx * 4) out' (0 * (32 * 3) + 20 * 3)).
Proof.
  intros input es sx_scale sy_scale. eexists. eexists. split.
  - vm_compute. reflexivity.
  - eapply (right_half_source input 16 1 64 4 (replicate 96 0) 32 1 F32.one es).
    + vm_compute. reflexivity.
    + lia.
    + lia.
    + lia.
    + lia.
    + lia.
    + lia.
    + Z.div_mod_to_equations. lia.
    + lia.
Defined.

End StereoFacts.

(* --------------------------------------------------------------------- *)
(** ** Encoder pipeline *)
(* --------------------------------------------------------------------- *)

Module EncoderFacts.
Import Machine Cfg VRFrameEncoder.



(** With the stereo shaper disabled the back end receives the caller's
    raster unchanged, whatever the downscale factor. *)
Lemma prepare_passthrough e input width height pitch channels d :
  vr_enabled (config_ e) = false ->
  output_dims (config_ e) width height = Some d ->
  exists sb,
    prepare e input width height pitch channels =
      Some (JPEG.mkRequest input width height pitch channels
                           (jpeg_quality (config_ e)), sb).
Proof.
  intros Hvr Hd. unfold prepare. rewrite Hd. destruct d as [ow oh]. simpl.
  rewrite Hvr. eexists. reflexivity.
Qed.

(** C1, at the failing input: a 1920x1080 BGRA frame, downscale 0.5, stereo
    disabled, no override. The computed output size is 960x540, yet the
    compressor is asked to encode the 1920x1080 input, so the JPEG it
    produces is 1920x1080 and not 960x540. *)
Theorem encode_novr_keeps_input_size (input stereo_buffer : list Z) (pitch : Z)
  (stats : Stats) :
  let e := mk scenario_config stereo_buffer stats in
  output_dims scenario_config 1920 1080 = Some (960, 540) /\
  exists rq sb,
    prepare e input 1920 1080 pitch 4 = Some (rq, sb) /\
    JPEG.rq_input rq = input /\
    JPEG.rq_width rq = 1920 /\ JPEG.rq_height rq = 1080 /\
    JPEG.rq_channels rq = 4 /\
    (JPEG.rq_width rq, JPEG.rq_height rq) <> (960, 540).
Proof.
  intros e.
  assert (Hd : output_dims scenario_config 1920 1080 = Some (960, 540))
    by (vm_compute; reflexivity).
  split; [exact Hd|].
  destruct (prepare_passthrough e input 1920 1080 pitch 4 (960, 540))
    as (sb & Hsb); [reflexivity | exact Hd |].
  eexists. exists sb. split; [exact Hsb|]. simpl.
  repeat split; congruence.
Qed.

(** The divisor of the compression ratio is the size reported by the back
    end, whatever it is. *)
Lemma encode_ratio_divisor jpeg e input width height pitch channels output
  n out e' :
  encode jpeg e input width height pitch channels output = Some (n, out, e') ->
  exists rq sb,
    prepare e input width height pitch channels = Some (rq, sb) /\
    (jpeg rq output).1 = n /\
    compression_ratio (stats_ e') =
      F64.div
        (F64.of_int (wrap32 (wrap32 (JPEG.rq_width rq * JPEG.rq_height rq)
                             * JPEG.rq_channels rq)))
        (F64.of_int n).
Proof.
  unfold encode. intros He.
  destruct (prepare e input width height pitch channels) as [[rq sb]|] eqn:Ep;
    simpl in He; [|discriminate].
  destruct (jpeg rq output) as [sz o] eqn:Ej. injection He as <- <- <-.
  exists rq, sb. split; [reflexivity|]. rewrite Ej. split; reflexivity.
Qed.

(** C5, at a failing input: a 2x2 BGRA frame encoded through the OpenCV
    fallback, which reports 0 bytes. [encode] returns 0 and has divided the
    raw size 16 by that 0: the stored ratio is the IEEE quotient [16 / 0],
    plus infinity. *)
Theorem encode_divides_by_zero :
  let input := replicate 16 7 in
  let e := create scenario_config in
  exists out e',
    encode JPEG.OpenCV_encode e input 2 2 8 4 [] = Some (0, out, e') /\
    compression_ratio (stats_ e') = F64.div (F64.of_int 16) (F64.of_int 0) /\
    F64.of_int 0 = S754_zero false /\
    compression_ratio (stats_ e') = S754_infinity false.
Proof.
  intros input e. eexists. eexists.
  split; [vm_compute; reflexivity|].
  split; [vm_compute; reflexivity|].
  split; vm_compute; reflexivity.
Qed.

End EncoderFacts.

(* --------------------------------------------------------------------- *)
(** ** Capture manager *)
(* --------------------------------------------------------------------- *)

Module CaptureFacts.
Import DXGICapture CaptureManager.

Lemma init_monitor_index p i c : monitor_index_ (DXGICapture.init p i c).2 = i.
Proof.
  unfold DXGICapture.init, create_device, create_duplication,
    create_staging_texture, shutdown. simpl.
  destruct (device_ok p); simpl; [|reflexivity].
  destruct (output_exists p i); simpl; [|reflexivity].
  destruct (duplicate_ok p); simpl; [|reflexivity].
  destruct (staging_ok p); reflexivity.
Qed.

Lemma capture_frame_monitor_index p c :
  monitor_index_ (capture_frame p c).2 = monitor_index_ c.
Proof.
  unfold capture_frame.
  destruct (negb (initialized_ c) || negb (duplication_ c)); [reflexivity|].
  destruct (next_frame p); try reflexivity.
  unfold reinit_duplication, create_duplication. simpl.
  destruct (output_exists p (monitor_index_ c)); simpl; [|reflexivity].
  destruct (duplicate_ok p); reflexivity.
Qed.

(** A recovery in monitor mode initialises monitor 0, whatever monitor was
    configured before. *)
Lemma recovery_targets_monitor_zero p m :
  initialized_ (capture_ m) = false ->
  use_window_capture_ m = false ->
  recovery_attempts_ m < MAX_RECOVERY_ATTEMPTS ->
  monitor_index_ (capture_ (capture p m).2) = 0.
Proof.
  intros Hinit Hwin Hatt. unfold capture. rewrite Hinit, Hwin. simpl.
  destruct (Z.leb_spec MAX_RECOVERY_ATTEMPTS (recovery_attempts_ m)); [lia|].
  pose proof (init_monitor_index p 0 (capture_ m)) as Hidx.
  destruct (DXGICapture.init p 0 (capture_ m)) as [ok c] eqn:Ei. simpl in Hidx.
  destruct ok; simpl; [|exact Hidx].
  pose proof (capture_frame_monitor_index p c) as Hcf.
  destruct (capture_frame p c) as [got c']. simpl in *. congruence.
Qed.

(** The retry bound: once three recoveries in a row have failed, [capture]
    gives up without touching the capture source. *)
Lemma recovery_bounded p m :
  initialized_ (capture_ m) = false ->
  MAX_RECOVERY_ATTEMPTS <= recovery_attempts_ m ->
  capture p m = (false, m).
Proof.
  intros Hinit Hatt. unfold capture. rewrite Hinit. simpl.
  destruct (Z.leb_spec MAX_RECOVERY_ATTEMPTS (recovery_attempts_ m)); [reflexivity|lia].
Qed.

(** C3, at a failing input: on a machine with two monitors,
    [set_monitor(1)] succeeds; a second [set_monitor(1)] issued while
    duplication is refused fails and leaves the source uninitialised; the
    next [capture] recovers, and captures monitor 0 instead of monitor 1. *)
Theorem recovery_forgets_monitor :
  let '(ok1, m1) := set_monitor two_monitors 1 CaptureManager.create in
  let '(ok2, m2) := set_monitor two_monitors_busy 1 m1 in
  let '(ok3, m3) := capture two_monitors m2 in
  ok1 = true /\ monitor_index_ (capture_ m1) = 1 /\
  ok2 = false /\ initialized_ (capture_ m2) = false /\
  ok3 = true /\ initialized_ (capture_ m3) = true /\
  monitor_index_ (capture_ m3) = 0.
Proof. vm_compute. repeat split; reflexivity. Qed.

End CaptureFacts.

(* --------------------------------------------------------------------- *)
(** ** Broadcast server *)
(* --------------------------------------------------------------------- *)

Module ServerFacts.
Import StreamingServer.

(** A connection arriving while the registry holds [max_clients] clients is
    closed without a handshake and the registry is untouched. *)
Lemma on_accept_full cid s :
  max_clients s <= client_count s ->
  on_accept false cid s = (false, s).
Proof.
  intros Hfull. unfold on_accept.
  destruct (Z.ltb_spec (client_count s) (max_clients s)); [lia|reflexivity].
Qed.

(** C7, at a failing input: [max_clients = 1]; two connections are accepted
    before either websocket handshake completes. Both pass the check of
    [on_accept], the registry being still empty, and both register: the
    registry then holds two clients. *)
Theorem registry_exceeds_max_clients :
  let s := run [Accept "10.0.0.2:50000"; Accept "10.0.0.3:50000";
                Handshake "10.0.0.2:50000"; Handshake "10.0.0.3:50000"]
               (create 1) in
  max_clients s = 1 /\ client_count s = 2 /\ size (sessions_ s) = 2%nat.
Proof. vm_compute. repeat split; reflexivity. Qed.

End ServerFacts.

(* --------------------------------------------------------------------- *)
(** ** Runtime quality controls *)
(* --------------------------------------------------------------------- *)

Module AppFacts.
Import Cfg VRStreamerApp.

Lemma SFcompare_antisym a b : SFcompare b a = CompOpp <$> SFcompare a b.
Proof.
  destruct a as [sa|sa| |sa ma ea], b as [sb|sb| |sb mb eb]; simpl;
    try reflexivity; try (destruct sa; reflexivity);
    try (destruct sb; reflexivity);
    try (destruct sa, sb; reflexivity).
  assert (Hpos : forall p q,
            PosDef.Pos.compare_cont Eq q p = CompOpp (PosDef.Pos.compare_cont Eq p q)).
  { intros p q. symmetry. exact (Pos.compare_cont_antisym p q Eq). }
  destruct sa, sb; simpl; try reflexivity.
  - rewrite (Z.compare_antisym ea eb).
    destruct (ea ?= eb); simpl; try reflexivity.
    rewrite (Hpos ma mb). reflexivity.
  - rewrite (Z.compare_antisym ea eb).
    destruct (ea ?= eb); simpl; try reflexivity.
    rewrite (Hpos ma mb). reflexivity.
Qed.

Lemma SFcompare_defined a b :
  a <> S754_nan -> b <> S754_nan -> exists c, SFcompare a b = Some c.
Proof.
  intros Ha Hb.
  destruct a as [sa|sa| |sa ma ea], b as [sb|sb| |sb mb eb]; simpl;
    try congruence; eexists; reflexivity.
Qed.

(** On numbers, [not (a < b)] is [b <= a]. *)
Lemma not_ltb_leb a b :
  a <> S754_nan -> b <> S754_nan -> F32.ltb a b = false -> F32.leb b a = true.
Proof.
  intros Ha Hb. unfold F32.ltb, F32.leb, SFltb, SFleb.
  rewrite (SFcompare_antisym a b).
  destruct (SFcompare_defined a b Ha Hb) as [c ->]. simpl.
  destruct c; simpl; congruence.
Qed.

Lemma lo_value : F32.lit 1 1 = S754_finite false 13421773 (-27).
Proof. vm_compute. reflexivity. Qed.

Lemma hi_value : F32.one = S754_finite false 8388608 (-23).
Proof. vm_compute. reflexivity. Qed.

(** Nothing is both above [1.0f] and below [0.1f]. *)
Lemma above_hi_not_below_lo f :
  F32.ltb F32.one f = true -> F32.ltb f (F32.lit 1 1) = false.
Proof.
  rewrite lo_value, hi_value. unfold F32.ltb, SFltb.
  destruct f as [s|s| |s m e]; cbv beta iota delta [SFcompare].
  - discriminate.
  - destruct s; [discriminate|reflexivity].
  - discriminate.
  - destruct s; [discriminate|].
    destruct (Z.compare_spec (-23) e) as [He|He|He].
    + intros _. subst e. reflexivity.
    + intros _. destruct (Z.compare_spec e (-27)) as [He'|He'|He'];
        try reflexivity; lia.
    + discriminate.
Qed.

(** C10, as stated: not every argument is clamped into range. A NaN is
    neither below [0.1f] nor above [1.0f], so [std::clamp] returns it and
    [set_downscale(NaN)] stores NaN, in the configuration and in the
    encoder; the stored factor is in no range, and nothing reaches the
    error callback. *)
Lemma set_downscale_nan_counterexample :
  let a := VRStreamerApp.mk default_config
             (Some (VRFrameEncoder.create (encoder default_config))) [] in
  let ad := set_downscale S754_nan a in
  let r := downscale_factor (encoder (config_ ad)) in
  r = S754_nan /\
  F32.leb (F32.lit 1 1) r = false /\ F32.leb r F32.one = false /\
  downscale_factor <$> (VRFrameEncoder.config_ <$> encoder_ ad) = Some S754_nan /\
  errors_ ad = [].
Proof. vm_compute. repeat split. Qed.

(** C10, amended. [set_quality(u)] stores [clamp(u, 1, 100)] and
    [set_downscale(f)] stores [std::clamp(f, 0.1f, 1.0f)], in the
    application's configuration and in the encoder's when there is one: an
    argument below the range yields the lower bound, one above it the upper
    bound, any other the argument itself. The stored quality lies in
    [1, 100]; the stored factor lies in [0.1f, 1.0f] exactly when the
    argument is not a NaN, which is stored as it is. Nothing reaches the
    error callback. *)
Theorem setters_clamp_silently (u : Z) (f : spec_float) (a : VRStreamerApp.t) :
  let lo := F32.lit 1 1 in
  let hi := F32.one in
  let aq := set_quality u a in
  let ad := set_downscale f a in
  let q := jpeg_quality (encoder (config_ aq)) in
  let r := downscale_factor (encoder (config_ ad)) in
  (q = Z.max 1 (Z.min u 100) /\ 1 <= q <= 100) /\
  ((F32.ltb f lo = true -> r = lo) /\
   (F32.ltb hi f = true -> r = hi) /\
   (F32.ltb f lo = false -> F32.ltb hi f = false -> r = f) /\
   (F32.leb lo r = true /\ F32.leb r hi = true <-> f <> S754_nan)) /\
  (VRFrameEncoder.config_ <$> encoder_ aq
     = (fun _ => encoder (config_ aq)) <$> encoder_ a /\
   VRFrameEncoder.config_ <$> encoder_ ad
     = (fun _ => encoder (config_ ad)) <$> encoder_ a) /\
  (errors_ aq = errors_ a /\ errors_ ad = errors_ a).
Proof.
  intros lo hi aq ad q r.
  assert (Hlohi : F32.leb lo hi = true) by (vm_compute; reflexivity).
  assert (Hlolo : F32.leb lo lo = true) by (vm_compute; reflexivity).
  assert (Hhihi : F32.leb hi hi = true) by (vm_compute; reflexivity).
  assert (Hlo : lo <> S754_nan) by (unfold lo; rewrite lo_value; discriminate).
  assert (Hhi : hi <> S754_nan) by (unfold hi; rewrite hi_value; discriminate).
  assert (Er : r = F32.clamp f lo hi) by reflexivity.
  split; [|split; [|split]].
  - assert (Eq : q = Machine.clamp u 1 100) by reflexivity.
    rewrite Eq. unfold Machine.clamp.
    destruct (Z.ltb_spec u 1); [lia|].
    destruct (Z.ltb_spec 100 u); lia.
  - rewrite Er. unfold F32.clamp. split; [|split; [|split; [|split]]].
    + intros ->. reflexivity.
    + intros Habove. unfold lo. rewrite (above_hi_not_below_lo f Habove).
      fold lo. rewrite Habove. reflexivity.
    + intros -> ->. reflexivity.
    + intros [Hin _] ->. vm_compute in Hin. discriminate Hin.
    + intros Hf. split.
      * destruct (F32.ltb f lo) eqn:E1; [exact Hlolo|].
        destruct (F32.ltb hi f) eqn:E2; [exact Hlohi|].
        apply not_ltb_leb; assumption.
      * destruct (F32.ltb f lo) eqn:E1; [exact Hlohi|].
        destruct (F32.ltb hi f) eqn:E2; [exact Hhihi|].
        apply not_ltb_leb; assumption.
  - unfold aq, ad, set_quality, set_downscale; simpl.
    destruct (encoder_ a); split; reflexivity.
  - split; reflexivity.
Qed.

End AppFacts.

(* --------------------------------------------------------------------- *)
(** ** Text conversions *)
(* --------------------------------------------------------------------- *)

Module TextFacts.
Import Text ConfigIO.

Lemma digit_cases d : 0 <= d <= 9 ->
  d = 0 \/ d = 1 \/ d = 2 \/ d = 3 \/ d = 4 \/ d = 5 \/ d = 6 \/ d = 7 \/ d = 8 \/ d = 9.
Proof. lia. Qed.

Lemma digit_val_char d : 0 <= d <= 9 -> digit_val (digit_char d) = Some d.
Proof.
  intros Hd.
  destruct (digit_cases d Hd) as [-> | [-> | [-> | [-> | [-> | [-> | [-> | [-> | [-> | ->]]]]]]]]];
    reflexivity.
Qed.

Lemma digit_char_plain d : 0 <= d <= 9 -> plain_char (digit_char d) = true.
Proof.
  intros Hd.
  destruct (digit_cases d Hd) as [-> | [-> | [-> | [-> | [-> | [-> | [-> | [-> | [-> | ->]]]]]]]]];
    reflexivity.
Qed.

Lemma digit_char_not_space d : 0 <= d <= 9 -> is_space (digit_char d) = false.
Proof.
  intros Hd.
  destruct (digit_cases d Hd) as [-> | [-> | [-> | [-> | [-> | [-> | [-> | [-> | [-> | ->]]]]]]]]];
    reflexivity.
Qed.

Lemma digit_char_not_sign d : 0 <= d <= 9 ->
  Ascii.eqb (digit_char d) "-" = false /\ Ascii.eqb (digit_char d) "+" = false.
Proof.
  intros Hd.
  destruct (digit_cases d Hd) as [-> | [-> | [-> | [-> | [-> | [-> | [-> | [-> | [-> | ->]]]]]]]]];
    split; reflexivity.
Qed.

Lemma mod10_digit n : 0 <= n mod 10 <= 9.
Proof. pose proof (Z.mod_pos_bound n 10). lia. Qed.

(** The digits come out most significant first and are read back by
    Horner's rule. *)
Lemma parse_digits_aux fuel : forall n acc a,
  0 <= n < 10 ^ (Z.of_nat fuel + 1) ->
  exists k, 0 <= k /\
    parse_digits_acc (digits_aux fuel n acc) a
      = parse_digits_acc acc (a * 10 ^ k + n).
Proof.
  induction fuel as [|f IH]; intros n acc a Hn.
  - exists 1. split; [lia|]. simpl digits_aux. simpl parse_digits_acc.
    change (10 ^ (Z.of_nat 0 + 1)) with 10 in Hn.
    rewrite Z.mod_small by lia. rewrite digit_val_char by lia.
    f_equal; lia.
  - simpl digits_aux. destruct (Z.ltb_spec n 10) as [Hlt|Hge].
    + exists 1. split; [lia|]. simpl parse_digits_acc.
      rewrite Z.mod_small by lia. rewrite digit_val_char by lia.
      f_equal; lia.
    + assert (Hq : 0 <= n / 10 < 10 ^ (Z.of_nat f + 1)).
      { split; [apply Z.div_pos; lia|].
        apply Z.div_lt_upper_bound; [lia|].
        replace (10 * 10 ^ (Z.of_nat f + 1)) with (10 ^ (Z.of_nat (S f) + 1));
          [lia|].
        replace (Z.of_nat (S f) + 1) with (Z.succ (Z.of_nat f + 1)) by lia.
        rewrite Z.pow_succ_r by lia. reflexivity. }
      destruct (IH (n / 10) (digit_char (n mod 10) :: acc) a Hq) as (k & Hk & Ek).
      exists (k + 1). split; [lia|]. rewrite Ek. simpl parse_digits_acc.
      rewrite digit_val_char by apply mod10_digit.
      f_equal. rewrite Z.pow_add_r by lia.
      pose proof (Z.div_mod n 10). lia.
Qed.

Lemma digits_aux_head fuel : forall n acc,
  exists d rest, 0 <= d <= 9 /\ digits_aux fuel n acc = digit_char d :: rest.
Proof.
  induction fuel as [|f IH]; intros n acc; simpl.
  - exists (n mod 10), acc. split; [apply mod10_digit|reflexivity].
  - destruct (n <? 10).
    + exists (n mod 10), acc. split; [apply mod10_digit|reflexivity].
    + apply IH.
Qed.

Lemma digits_aux_plain fuel : forall n acc,
  plain acc = true -> plain (digits_aux fuel n acc) = true.
Proof.
  induction fuel as [|f IH]; intros n acc Hacc; simpl digits_aux.
  - unfold plain. simpl. rewrite digit_char_plain by apply mod10_digit. exact Hacc.
  - destruct (n <? 10).
    + unfold plain. simpl. rewrite digit_char_plain by apply mod10_digit. exact Hacc.
    + apply IH. unfold plain. simpl.
      rewrite digit_char_plain by apply mod10_digit. exact Hacc.
Qed.

Lemma stoi_digits s n :
  (exists d rest, 0 <= d <= 9 /\ s = digit_char d :: rest) ->
  parse_digits_acc s 0 = n ->
  Machine.INT_MIN <= n <= Machine.INT_MAX ->
  stoi s = Some n.
Proof.
  intros (d & rest & Hd & ->) Hp Hn. unfold stoi.
  simpl skip_space. rewrite digit_char_not_space by exact Hd.
  unfold take_sign. destruct (digit_char_not_sign d Hd) as [-> ->].
  unfold starts_with_digit. rewrite digit_val_char by exact Hd.
  rewrite Hp.
  destruct (Z.leb_spec Machine.INT_MIN n); [|lia].
  destruct (Z.leb_spec n Machine.INT_MAX); [|lia]. reflexivity.
Qed.

Lemma parse_print_unsigned n : 0 <= n < 10 ^ 21 ->
  parse_digits_acc (print_unsigned n) 0 = n.
Proof.
  intros Hn. unfold print_unsigned.
  destruct (parse_digits_aux 20 n [] 0) as (k & Hk & Ek); [simpl; lia|].
  rewrite Ek. simpl. lia.
Qed.

(** [std::stoi] reads back what the stream printed, within [int]. *)
Lemma stoi_print_unsigned n : fits_int n -> stoi (print_unsigned n) = Some n.
Proof.
  unfold fits_int, Machine.INT_MAX. intros Hn. apply stoi_digits.
  - apply digits_aux_head.
  - apply parse_print_unsigned. lia.
  - unfold Machine.INT_MIN, Machine.INT_MAX. lia.
Qed.

Lemma stoi_minus_digits s n :
  (exists d rest, 0 <= d <= 9 /\ s = digit_char d :: rest) ->
  parse_digits_acc s 0 = n ->
  Machine.INT_MIN <= - n <= Machine.INT_MAX ->
  stoi ("-"%char :: s) = Some (- n).
Proof.
  intros (d & rest & Hd & ->) Hp Hn. unfold stoi.
  change (skip_space ("-"%char :: digit_char d :: rest))
    with ("-"%char :: digit_char d :: rest).
  change (take_sign ("-"%char :: digit_char d :: rest))
    with (true, digit_char d :: rest).
  cbv beta iota.
  unfold starts_with_digit. rewrite digit_val_char by exact Hd.
  rewrite Hp.
  destruct (Z.leb_spec Machine.INT_MIN (- n)); [|lia].
  destruct (Z.leb_spec (- n) Machine.INT_MAX); [|lia]. reflexivity.
Qed.

Lemma stoi_print_signed n :
  Machine.INT_MIN <= n <= Machine.INT_MAX -> stoi (print_signed n) = Some n.
Proof.
  intros Hn. unfold print_signed.
  destruct (Z.ltb_spec n 0) as [Hneg|Hpos].
  - change (str "-" ++ print_unsigned (- n)) with ("-"%char :: print_unsigned (- n)).
    rewrite <- (Z.opp_involutive n) at 2.
    apply stoi_minus_digits.
    + apply digits_aux_head.
    + apply parse_print_unsigned.
      unfold Machine.INT_MIN, Machine.INT_MAX in Hn. lia.
    + rewrite Z.opp_involutive. exact Hn.
  - apply stoi_digits.
    + apply digits_aux_head.
    + apply parse_print_unsigned.
      unfold Machine.INT_MIN, Machine.INT_MAX in Hn. lia.
    + exact Hn.
Qed.

(** *** Lines *)

Lemma getlines_aux_line l : forall rest cur,
  no_nl l = true ->
  getlines_aux (l ++ nl :: rest) cur = (rev cur ++ l) :: getlines_aux rest [].
Proof.
  induction l as [|c l IH]; intros rest cur Hl; simpl.
  - change (Ascii.eqb nl nl) with true. cbv iota. rewrite app_nil_r. reflexivity.
  - simpl in Hl. apply andb_true_iff in Hl as [Hc Hl].
    apply negb_true_iff in Hc. rewrite Hc.
    rewrite IH by exact Hl. simpl. rewrite <- app_assoc. reflexivity.
Qed.

Lemma getlines_unlines ls :
  Forall (fun l => no_nl l = true) ls -> getlines (unlines ls) = ls.
Proof.
  unfold getlines, unlines. induction 1 as [|l ls Hl _ IH]; simpl; [reflexivity|].
  rewrite <- app_assoc. simpl.
  rewrite getlines_aux_line by exact Hl. simpl. rewrite IH. reflexivity.
Qed.

(** *** Searching *)

Lemma last_cons_cons {A} (a b : A) l : last (a :: b :: l) = last (b :: l).
Proof. reflexivity. Qed.

Local Arguments Ascii.eqb : simpl never.

(** A pattern ending in a colon cannot match into a text without colon. *)
Lemma is_prefix_app_no_colon p : forall l v,
  last p = Some colon -> no_colon v = true ->
  is_prefix p (l ++ v) = is_prefix p l.
Proof.
  induction p as [|a p IH]; intros l v Hlast Hv; [discriminate|].
  destruct p as [|a' p].
  - simpl in Hlast. injection Hlast as ->.
    destruct l as [|b l]; simpl; [|reflexivity].
    destruct v as [|c v]; [reflexivity|]. simpl in Hv.
    apply andb_true_iff in Hv as [Hc Hv]. apply negb_true_iff in Hc.
    rewrite Ascii.eqb_sym, Hc. reflexivity.
  - rewrite last_cons_cons in Hlast.
    destruct l as [|b l].
    + destruct v as [|c v]; [reflexivity|]. simpl in Hv.
      apply andb_true_iff in Hv as [Hc Hv].
      change (is_prefix (a :: a' :: p) ([] ++ c :: v))
        with (Ascii.eqb a c && is_prefix (a' :: p) ([] ++ v)).
      rewrite (IH [] v Hlast Hv). simpl. apply andb_false_r.
    + change (is_prefix (a :: a' :: p) ((b :: l) ++ v))
        with (Ascii.eqb a b && is_prefix (a' :: p) (l ++ v)).
      rewrite (IH l v Hlast Hv). reflexivity.
Qed.

Lemma contains_no_colon p v :
  last p = Some colon -> no_colon v = true -> contains p v = false.
Proof.
  intros Hlast Hv. induction v as [|c v IH].
  - simpl. destruct p; [discriminate|reflexivity].
  - simpl contains. simpl in Hv. apply andb_true_iff in Hv as [Hc Hv].
    rewrite (IH Hv). rewrite orb_false_r.
    pose proof (is_prefix_app_no_colon p [] (c :: v) Hlast) as Hp.
    simpl in Hp. rewrite Hp.
    + destruct p; [discriminate|reflexivity].
    + simpl. rewrite Hc. exact Hv.
Qed.

(** [line.find(key)] only looks at the part of the line before a value
    without colon. *)
Lemma contains_app_no_colon p l v :
  last p = Some colon -> no_colon v = true ->
  contains p (l ++ v) = contains p l.
Proof.
  intros Hlast Hv. induction l as [|b l IH].
  - simpl app. rewrite (contains_no_colon p v Hlast Hv).
    simpl. destruct p; [discriminate|reflexivity].
  - change ((b :: l) ++ v) with (b :: (l ++ v)). simpl contains.
    rewrite IH.
    change (b :: (l ++ v)) with ((b :: l) ++ v).
    rewrite (is_prefix_app_no_colon p (b :: l) v Hlast Hv). reflexivity.
Qed.

(** *** Plain text *)

Lemma plain_app a b : plain (a ++ b) = plain a && plain b.
Proof. apply forallb_app. Qed.

Lemma plain_Forall s : plain s = true <-> Forall (fun c => plain_char c = true) s.
Proof.
  unfold plain. induction s as [|c s IH]; simpl.
  - split; [constructor|reflexivity].
  - rewrite andb_true_iff, IH. split.
    + intros [Hc Hs]. constructor; assumption.
    + intros Hcs. inversion Hcs; subst. split; assumption.
Qed.

Lemma plain_char_no_nl c : plain_char c = true -> Ascii.eqb c nl = false.
Proof.
  unfold plain_char. intros Hc. apply negb_true_iff in Hc.
  apply orb_false_iff in Hc as [Hc _]. apply orb_false_iff in Hc as [Hc _].
  apply orb_false_iff in Hc as [Hc _]. apply orb_false_iff in Hc as [Hc _].
  exact Hc.
Qed.

Lemma plain_char_no_colon c : plain_char c = true -> Ascii.eqb c colon = false.
Proof.
  unfold plain_char. intros Hc. apply negb_true_iff in Hc.
  apply orb_false_iff in Hc as [_ Hc]. exact Hc.
Qed.

Lemma plain_char_not_front c : plain_char c = true -> trim_front_char c = false.
Proof.
  unfold plain_char, trim_front_char. intros Hc. apply negb_true_iff in Hc.
  apply orb_false_iff in Hc as [Hc _]. apply orb_false_iff in Hc as [Hc Hs].
  apply orb_false_iff in Hc as [_ Hq]. rewrite Hs, Hq. reflexivity.
Qed.

Lemma plain_char_not_back c : plain_char c = true -> trim_back_char c = false.
Proof.
  unfold plain_char, trim_back_char. intros Hc. apply negb_true_iff in Hc.
  apply orb_false_iff in Hc as [Hc _]. apply orb_false_iff in Hc as [Hc Hs].
  apply orb_false_iff in Hc as [Hc Hq]. apply orb_false_iff in Hc as [_ Hr].
  rewrite Hs, Hq, Hr. reflexivity.
Qed.

Lemma plain_no_nl s : plain s = true -> no_nl s = true.
Proof.
  unfold plain, no_nl. induction s as [|c s IH]; simpl; [reflexivity|].
  intros Hcs. apply andb_true_iff in Hcs as [Hc Hs].
  rewrite (plain_char_no_nl c Hc), IH by exact Hs. reflexivity.
Qed.

Lemma plain_no_colon s : plain s = true -> no_colon s = true.
Proof.
  unfold plain, no_colon. induction s as [|c s IH]; simpl; [reflexivity|].
  intros Hcs. apply andb_true_iff in Hcs as [Hc Hs].
  rewrite (plain_char_no_colon c Hc), IH by exact Hs. reflexivity.
Qed.

Lemma no_nl_app a b : no_nl (a ++ b) = no_nl a && no_nl b.
Proof. apply forallb_app. Qed.

Lemma no_colon_app a b : no_colon (a ++ b) = no_colon a && no_colon b.
Proof. apply forallb_app. Qed.

(** *** What the printers emit is plain and not empty *)

Lemma print_unsigned_plain n : plain (print_unsigned n) = true.
Proof. apply digits_aux_plain. reflexivity. Qed.

Lemma print_unsigned_nonempty n : print_unsigned n <> [].
Proof.
  unfold print_unsigned. destruct (digits_aux_head 20 n []) as (d & r & _ & ->).
  discriminate.
Qed.

Lemma print_signed_plain n : plain (print_signed n) = true.
Proof.
  unfold print_signed. destruct (n <? 0); [|apply print_unsigned_plain].
  rewrite plain_app, print_unsigned_plain. reflexivity.
Qed.

Lemma print_signed_nonempty n : print_signed n <> [].
Proof.
  unfold print_signed. destruct (n <? 0); [discriminate|apply print_unsigned_nonempty].
Qed.

Lemma print_bool_plain b : plain (print_bool b) = true.
Proof. destruct b; reflexivity. Qed.

Lemma print_method_plain m : plain (print_method m) = true.
Proof. destruct m; reflexivity. Qed.

Lemma drop_zeros_plain s : plain s = true -> plain (drop_zeros s) = true.
Proof.
  induction s as [|c s IH]; simpl; [reflexivity|].
  intros Hcs. destruct (Ascii.eqb c "0").
  - apply IH. unfold plain in Hcs. simpl in Hcs.
    apply andb_true_iff in Hcs as [_ Hs]. exact Hs.
  - exact Hcs.
Qed.

Lemma plain_rev s : plain s = true -> plain (rev s) = true.
Proof. rewrite !plain_Forall. apply Forall_rev. Qed.

Lemma plain_take n s : plain s = true -> plain (take n s) = true.
Proof. rewrite !plain_Forall. apply Forall_take. Qed.

Lemma plain_drop n s : plain s = true -> plain (drop n s) = true.
Proof. rewrite !plain_Forall. apply Forall_drop. Qed.

Lemma plain_replicate n c : plain_char c = true -> plain (replicate n c) = true.
Proof.
  intros Hc. rewrite plain_Forall. apply Forall_replicate. exact Hc.
Qed.

Lemma point_frac_plain s : plain s = true -> plain (point_frac s) = true.
Proof.
  intros Hs. unfold point_frac, strip_zeros.
  assert (Hr : plain (rev (drop_zeros (rev s))) = true)
    by (apply plain_rev, drop_zeros_plain, plain_rev, Hs).
  destruct (rev (drop_zeros (rev s))); [reflexivity|].
  rewrite plain_app, Hr. reflexivity.
Qed.

Lemma print_g6_plain num den : plain (print_g6 num den) = true.
Proof.
  unfold print_g6.
  set (X0 := find_exp 100 40 num den).
  set (D0 := if 0 <=? 5 - X0 then _ else _).
  destruct (if D0 =? 10 ^ 6 then (X0 + 1, 10 ^ 5) else (X0, D0)) as [X D].
  assert (Hds : plain (digits_aux 5 D []) = true)
    by (apply digits_aux_plain; reflexivity).
  destruct ((-4 <=? X) && (X <? 6)).
  - destruct (0 <=? X).
    + rewrite plain_app, plain_take, point_frac_plain; auto using plain_drop.
    + rewrite plain_app, point_frac_plain; [reflexivity|].
      rewrite plain_app, Hds, plain_replicate; reflexivity.
  - rewrite !plain_app, plain_take, point_frac_plain, print_unsigned_plain;
      auto using plain_drop.
    destruct (X <? 0), (Z.abs X <? 10); reflexivity.
Qed.

Lemma print_float_plain x : plain (print_float x) = true.
Proof.
  destruct x as [s|s| |s m e]; simpl.
  - destruct s; reflexivity.
  - destruct s; reflexivity.
  - reflexivity.
  - rewrite plain_app. destruct (0 <=? e); rewrite print_g6_plain;
      destruct s; reflexivity.
Qed.

Lemma stof_nil : stof [] = None.
Proof. reflexivity. Qed.

Lemma prints_exactly_nonempty x : prints_exactly x -> print_float x <> [].
Proof. unfold prints_exactly. intros Hx Hnil. rewrite Hnil in Hx. discriminate. Qed.

(** *** Reading the values back *)

Lemma parse_print_bool b : parse_bool (print_bool b) = b.
Proof. destruct b; reflexivity. Qed.

Lemma print_bool_nonempty b : print_bool b <> [].
Proof. destruct b; discriminate. Qed.

Lemma parse_print_method m m0 : parse_method (print_method m) m0 = m.
Proof. destruct m; reflexivity. Qed.

Lemma print_method_nonempty m : print_method m <> [].
Proof. destruct m; discriminate. Qed.

Lemma string_of_str s : String.string_of_list_ascii (str s) = s.
Proof. apply String.string_of_list_ascii_of_string. Qed.

Lemma str_nonempty s : s <> "" -> str s <> [].
Proof. destruct s; [congruence|discriminate]. Qed.

(** *** [parse_value] *)

Lemma after_colon_app pre r t :
  after_colon pre = Some r -> after_colon (pre ++ t) = Some (r ++ t).
Proof.
  induction pre as [|c pre IH]; simpl; [discriminate|].
  destruct (Ascii.eqb c colon); [intros [= <-]; reflexivity|exact IH].
Qed.

Lemma drop_while_stop f c s : f c = false -> drop_while f (c :: s) = c :: s.
Proof. intros Hc. simpl. rewrite Hc. reflexivity. Qed.

Lemma trim_back_plain v :
  plain v = true -> rev (drop_while trim_back_char (rev v)) = v.
Proof.
  intros Hv. destruct (rev v) as [|c r] eqn:Er.
  - simpl. apply (f_equal (@rev ascii)) in Er. rewrite rev_involutive in Er.
    symmetry. exact Er.
  - assert (Hc : plain_char c = true).
    { apply plain_rev in Hv. rewrite Er in Hv. unfold plain in Hv. simpl in Hv.
      apply andb_true_iff in Hv as [Hc _]. exact Hc. }
    rewrite drop_while_stop by (apply plain_char_not_back; exact Hc).
    rewrite <- Er. apply rev_involutive.
Qed.

Lemma trim_front_plain v :
  plain v = true -> drop_while trim_front_char v = v.
Proof.
  destruct v as [|c v]; [reflexivity|]. intros Hv.
  unfold plain in Hv. simpl in Hv. apply andb_true_iff in Hv as [Hc _].
  apply drop_while_stop, plain_char_not_front, Hc.
Qed.

(** An unquoted value is returned as written. *)
Lemma parse_value_plain pre v :
  after_colon pre = Some [space] -> plain v = true ->
  parse_value (pre ++ v) = v.
Proof.
  intros Hpre Hv. unfold parse_value.
  rewrite (after_colon_app pre [space] v Hpre).
  change ([space] ++ v) with (space :: v).
  change (drop_while trim_front_char (space :: v))
    with (drop_while trim_front_char v).
  rewrite trim_front_plain by exact Hv. apply trim_back_plain, Hv.
Qed.

(** A quoted non-empty value loses its quotes. *)
Lemma parse_value_quoted pre v :
  after_colon pre = Some [space] -> plain v = true -> v <> [] ->
  parse_value (pre ++ [quote] ++ v ++ [quote]) = v.
Proof.
  intros Hpre Hv Hne. unfold parse_value.
  rewrite (after_colon_app pre [space] _ Hpre).
  change ([space] ++ [quote] ++ v ++ [quote]) with (space :: quote :: v ++ [quote]).
  change (drop_while trim_front_char (space :: quote :: v ++ [quote]))
    with (drop_while trim_front_char (v ++ [quote])).
  destruct v as [|c v]; [congruence|].
  assert (Hc : plain_char c = true).
  { unfold plain in Hv. simpl in Hv. apply andb_true_iff in Hv as [Hc _]. exact Hc. }
  change ((c :: v) ++ [quote]) with (c :: (v ++ [quote])).
  rewrite drop_while_stop by (apply plain_char_not_front; exact Hc).
  change (c :: (v ++ [quote])) with ((c :: v) ++ [quote]).
  rewrite rev_app_distr.
  change (rev [quote] ++ rev (c :: v)) with (quote :: rev (c :: v)).
  change (drop_while trim_back_char (quote :: rev (c :: v)))
    with (drop_while trim_back_char (rev (c :: v))).
  apply trim_back_plain, Hv.
Qed.

(** An empty quoted value yields the empty string. *)
Lemma parse_value_quoted_empty pre :
  after_colon pre = Some [space] ->
  parse_value (pre ++ [quote] ++ [] ++ [quote]) = [].
Proof.
  intros Hpre. unfold parse_value.
  rewrite (after_colon_app pre [space] _ Hpre). reflexivity.
Qed.

(** *** Trimming *)

Lemma drop_while_length (f : ascii -> bool) s :
  (length (drop_while f s) <= length s)%nat.
Proof.
  induction s as [|c s IH]; simpl; [lia|]. destruct (f c); simpl; lia.
Qed.

Lemma drop_while_all (f : ascii -> bool) s :
  forallb f s = true -> drop_while f s = [].
Proof.
  induction s as [|c s IH]; simpl; [reflexivity|].
  intros H. apply andb_true_iff in H as [Hc Hs]. rewrite Hc. exact (IH Hs).
Qed.

Lemma drop_while_app_stop (f : ascii -> bool) s t :
  drop_while f s <> [] -> drop_while f (s ++ t) = drop_while f s ++ t.
Proof.
  induction s as [|c s IH]; simpl; [congruence|].
  destruct (f c); [exact IH|reflexivity].
Qed.

Lemma drop_while_nil_all (f : ascii -> bool) s :
  drop_while f s = [] -> forallb f s = true.
Proof.
  induction s as [|c s IH]; simpl; [reflexivity|].
  destruct (f c); [exact IH|discriminate].
Qed.

Lemma trim_length v : (length (trim v) <= length (drop_while trim_front_char v))%nat.
Proof.
  unfold trim. rewrite length_rev.
  etransitivity; [apply drop_while_length|]. rewrite length_rev. lia.
Qed.

(** What [parse_value] keeps it returns. *)
Lemma kept_trim v : kept v = true -> trim v = v.
Proof.
  unfold kept. intros H.
  apply andb_true_iff in H as [H Hb]. apply andb_true_iff in H as [_ Hf].
  unfold trim.
  assert (Ef : drop_while trim_front_char v = v).
  { destruct v as [|c v]; [reflexivity|].
    apply drop_while_stop, negb_true_iff, Hf. }
  rewrite Ef. destruct (rev v) as [|c r] eqn:Er.
  - simpl. apply (f_equal (@rev ascii)) in Er. rewrite rev_involutive in Er.
    symmetry. exact Er.
  - rewrite drop_while_stop by (apply negb_true_iff, Hb).
    rewrite <- Er. apply rev_involutive.
Qed.

(** What [parse_value] returns unchanged it keeps. *)
Lemma trim_kept v : no_nl v = true -> trim v = v -> kept v = true.
Proof.
  intros Hnl Ht. unfold kept. rewrite Hnl. cbn [andb].
  pose proof (trim_length v) as Hlen. rewrite Ht in Hlen.
  assert (Ef : drop_while trim_front_char v = v).
  { destruct v as [|c v]; [reflexivity|]. simpl in *.
    destruct (trim_front_char c); [|reflexivity].
    pose proof (drop_while_length trim_front_char v). lia. }
  apply andb_true_intro. split.
  - destruct v as [|c v]; [reflexivity|]. simpl in Ef.
    destruct (trim_front_char c); [|reflexivity].
    pose proof (drop_while_length trim_front_char v) as Hl.
    rewrite Ef in Hl. simpl in Hl. lia.
  - unfold trim in Ht. rewrite Ef in Ht.
    destruct (rev v) as [|c r] eqn:Er; [reflexivity|].
    simpl in Ht. destruct (trim_back_char c); [|reflexivity].
    apply (f_equal (@length ascii)) in Ht. rewrite length_rev in Ht.
    pose proof (drop_while_length trim_back_char r) as Hl.
    apply (f_equal (@length ascii)) in Er. rewrite length_rev in Er.
    simpl in Er. lia.
Qed.

Lemma trim_quoted v : trim (space :: quote :: v ++ [quote]) = trim v.
Proof.
  unfold trim.
  change (drop_while trim_front_char (space :: quote :: v ++ [quote]))
    with (drop_while trim_front_char (v ++ [quote])).
  destruct (drop_while trim_front_char v) as [|c w] eqn:Ew.
  - assert (E : drop_while trim_front_char (v ++ [quote]) = []).
    { apply drop_while_all. rewrite forallb_app.
      rewrite (drop_while_nil_all _ _ Ew). reflexivity. }
    rewrite E. reflexivity.
  - rewrite drop_while_app_stop by (rewrite Ew; discriminate).
    rewrite Ew, rev_app_distr. reflexivity.
Qed.

(** The value of a quoted line is what the loops leave of the string. *)
Lemma parse_value_quoted_trim pre v :
  after_colon pre = Some [space] ->
  parse_value (pre ++ [quote] ++ v ++ [quote]) = trim v.
Proof.
  intros Hpre. unfold parse_value.
  rewrite (after_colon_app pre [space] _ Hpre).
  exact (trim_quoted v).
Qed.

(** *** Newlines *)

Lemma no_nl_rev s : no_nl (rev s) = no_nl s.
Proof.
  induction s as [|c s IH]; [reflexivity|]. simpl rev.
  rewrite no_nl_app, IH. unfold no_nl. simpl.
  rewrite andb_true_r. apply andb_comm.
Qed.

Lemma no_nl_drop_while f s : no_nl s = true -> no_nl (drop_while f s) = true.
Proof.
  induction s as [|c s IH]; [reflexivity|]. intros H. simpl.
  destruct (f c); [|exact H].
  apply IH. unfold no_nl in *. simpl in H.
  apply andb_true_iff in H as [_ H]. exact H.
Qed.

Lemma no_nl_trim s : no_nl s = true -> no_nl (trim s) = true.
Proof.
  intros H. unfold trim. rewrite no_nl_rev.
  apply no_nl_drop_while. rewrite no_nl_rev. apply no_nl_drop_while, H.
Qed.

Lemma no_nl_parse_value line : no_nl line = true -> no_nl (parse_value line) = true.
Proof.
  intros H. unfold parse_value.
  destruct (after_colon line) as [v|] eqn:Ev; [|reflexivity].
  apply (no_nl_trim v). revert v Ev.
  induction line as [|c line IH]; intros v Ev; [discriminate|].
  simpl in Ev. unfold no_nl in H. simpl in H.
  apply andb_true_iff in H as [_ H].
  destruct (Ascii.eqb c colon); [injection Ev as <-; exact H|].
  exact (IH H v Ev).
Qed.

(** [std::getline] never returns a newline. *)
Lemma getlines_aux_no_nl s : forall cur,
  no_nl cur = true ->
  Forall (fun l => no_nl l = true) (getlines_aux s cur).
Proof.
  induction s as [|c s IH]; intros cur Hcur; simpl.
  - destruct cur; [constructor|].
    constructor; [rewrite no_nl_rev; exact Hcur|constructor].
  - destruct (Ascii.eqb c nl) eqn:Ec.
    + constructor; [rewrite no_nl_rev; exact Hcur|]. apply IH. reflexivity.
    + apply IH. unfold no_nl in *. simpl. rewrite Ec. exact Hcur.
Qed.

Lemma getlines_no_nl s : Forall (fun l => no_nl l = true) (getlines s).
Proof. apply getlines_aux_no_nl. reflexivity. Qed.

(** *** Searching around a character the pattern does not hold *)

Lemma is_prefix_app_sep c p : forall l t,
  lacks c p = true -> is_prefix p (l ++ c :: t) = is_prefix p l.
Proof.
  induction p as [|x p IH]; intros l t Hp; [destruct l; reflexivity|].
  unfold lacks in Hp. simpl in Hp. apply andb_true_iff in Hp as [Hx Hp].
  apply negb_true_iff in Hx.
  destruct l as [|y l]; simpl.
  - rewrite Hx. reflexivity.
  - rewrite (IH l t Hp). reflexivity.
Qed.

Lemma contains_app_sep c p l t :
  p <> [] -> lacks c p = true ->
  contains p (l ++ c :: t) = contains p l || contains p t.
Proof.
  intros Hne Hp. induction l as [|y l IH].
  - pose proof (is_prefix_app_sep c p [] t Hp) as E.
    change ([] ++ c :: t) with (c :: t) in *.
    simpl contains. rewrite E.
    destruct p; [congruence|]. reflexivity.
  - pose proof (is_prefix_app_sep c p (y :: l) t Hp) as E.
    change ((y :: l) ++ c :: t) with (y :: (l ++ c :: t)) in *.
    simpl contains. rewrite IH, E.
    rewrite orb_assoc. reflexivity.
Qed.

Lemma contains_nil p : p <> [] -> contains p [] = false.
Proof. destruct p; [congruence|reflexivity]. Qed.

(** A quoted string holds a pattern without quotes when the string
    does. *)
Lemma contains_quoted p pre v :
  p <> [] -> lacks quote p = true ->
  contains p (pre ++ [quote] ++ v ++ [quote])
  = contains p pre || contains p v.
Proof.
  intros Hne Hp.
  change (pre ++ [quote] ++ v ++ [quote]) with (pre ++ quote :: (v ++ quote :: [])).
  rewrite (contains_app_sep quote p pre _ Hne Hp).
  rewrite (contains_app_sep quote p v [] Hne Hp).
  rewrite (contains_nil p Hne), orb_false_r. reflexivity.
Qed.

Lemma is_prefix_spec p : forall s, is_prefix p s = true -> exists t, s = p ++ t.
Proof.
  induction p as [|x p IH]; intros s H; [exists s; reflexivity|].
  destruct s as [|y s]; [discriminate|]. simpl in H.
  apply andb_true_iff in H as [Hxy H]. apply Ascii.eqb_eq in Hxy. subst y.
  destruct (IH s H) as [t ->]. exists t. reflexivity.
Qed.

Lemma is_prefix_refl_app p t : is_prefix p (p ++ t) = true.
Proof.
  induction p as [|x p IH]; [reflexivity|]. simpl.
  rewrite Ascii.eqb_refl. exact IH.
Qed.

Lemma contains_skip p a : forall t, contains p t = true -> contains p (a ++ t) = true.
Proof.
  induction a as [|y a IH]; intros t H; [exact H|].
  change ((y :: a) ++ t) with (y :: (a ++ t)). simpl contains.
  rewrite (IH t H). apply orb_true_r.
Qed.

Lemma contains_of_prefix p s : is_prefix p s = true -> contains p s = true.
Proof. intros H. destruct s; simpl; simpl in H; rewrite H; reflexivity. Qed.

(** The text that holds [a ++ b] holds [b]. *)
Lemma contains_suffix a b : forall s,
  contains (a ++ b) s = true -> contains b s = true.
Proof.
  assert (Hpre : forall s, is_prefix (a ++ b) s = true -> contains b s = true).
  { intros s H. destruct (is_prefix_spec _ _ H) as [t ->].
    rewrite <- app_assoc. apply contains_skip, contains_of_prefix,
      is_prefix_refl_app. }
  induction s as [|y s IH]; intros H.
  - apply Hpre. simpl in H. destruct (is_prefix (a ++ b) []); [reflexivity|].
    discriminate H.
  - simpl in H. apply orb_true_iff in H as [H|H]; [exact (Hpre _ H)|].
    simpl. rewrite (IH H). apply orb_true_r.
Qed.

(** *** Floats *)

Lemma print_float_nonempty x : print_float x <> [].
Proof.
  destruct x as [s|s| |s m e]; try (destruct s; discriminate); [discriminate|].
  unfold print_float.
  assert (Hg : forall num den, print_g6 num den <> []).
  { intros num den. unfold print_g6.
    set (X0 := find_exp 100 40 num den).
    set (D0 := if 0 <=? 5 - X0 then _ else _).
    destruct (if D0 =? 10 ^ 6 then _ else _) as [X D].
    destruct (digits_aux_head 5 D []) as (d & rest & _ & ->).
    destruct ((-4 <=? X) && (X <? 6)).
    - destruct (0 <=? X) eqn:EX; [|discriminate].
      apply Z.leb_le in EX.
      destruct (Z.to_nat (X + 1)) as [|n] eqn:En; [lia|]. discriminate.
    - discriminate. }
  intros H. apply app_eq_nil in H as [_ H].
  destruct (0 <=? e); exact (Hg _ _ H).
Qed.

Lemma feq_refl x : x <> S754_nan -> feq x x = true.
Proof.
  intros Hx. unfold feq, SFeqb.
  destruct x as [s|s| |s m e]; cbn [SFcompare]; try reflexivity;
    try (destruct s; reflexivity); [congruence|].
  rewrite Z.compare_refl.
  change (PosDef.Pos.compare_cont Eq m m) with (Pos.compare m m).
  rewrite Pos.compare_refl. destruct s; reflexivity.
Qed.

(** Floats that compare equal are the same but for the sign of zero;
    neither is a NaN. *)
Lemma feq_eq a b :
  feq a b = true ->
  b <> S754_nan /\ (a = b \/ exists s t, a = S754_zero s /\ b = S754_zero t).
Proof.
  unfold feq, SFeqb. intros H.
  destruct a as [sa|sa| |sa ma ea], b as [sb|sb| |sb mb eb];
    cbn [SFcompare] in H; try discriminate H;
    try (destruct sa; discriminate H); try (destruct sb; discriminate H).
  - split; [discriminate|]. right. eauto.
  - split; [discriminate|]. left. destruct sa, sb; try discriminate H; reflexivity.
  - split; [discriminate|]. left.
    assert (Hm : forall c, c = Eq \/ CompOpp c = Eq -> c = Eq)
      by (intros c [Hc|Hc]; [exact Hc|destruct c; try discriminate; reflexivity]).
    destruct sa, sb; try discriminate H;
      destruct (Z.compare_spec ea eb) as [He|He|He]; try discriminate H; subst;
      change (PosDef.Pos.compare_cont Eq ma mb) with (Pos.compare ma mb) in H;
      destruct (Pos.compare_spec ma mb) as [Hp|Hp|Hp]; try discriminate H;
      subst; reflexivity.
Qed.

(** A float read back as an equal value is read back as itself. *)
Lemma reads_back_of_feq x x' :
  stof (print_float x) = Some x' -> feq x' x = true -> reads_back x.
Proof.
  intros Hs He. destruct (feq_eq _ _ He) as [Hn [-> | (s & t & -> & ->)]].
  - split; assumption.
  - split; [|discriminate]. unfold prints_exactly.
    destruct t; vm_compute in Hs |- *; exact eq_refl.
Qed.

Lemma reads_back_feq x : reads_back x -> feq x x = true.
Proof. intros [_ Hx]. apply feq_refl, Hx. Qed.

End TextFacts.

(* --------------------------------------------------------------------- *)
(** ** Configuration file round trip *)
(* --------------------------------------------------------------------- *)

Module ConfigFacts.
Import Cfg Text ConfigIO MemFacts TextFacts.

Local Arguments Ascii.eqb : simpl never.

(** [save] writes the lines of [save_lines], each ended by a newline. *)
Lemma save_text_unlines c : save_text c = unlines (save_lines c).
Proof.
  unfold save_text, save_lines, capture_lines, encoder_lines, network_lines,
    unlines.
  repeat match goal with
  | |- context [print_unsigned ?x] => generalize (print_unsigned x); intro
  | |- context [print_signed ?x] => generalize (print_signed x); intro
  | |- context [print_float ?x] => generalize (print_float x); intro
  | |- context [print_bool ?x] => generalize (print_bool x); intro
  | |- context [print_method ?x] => generalize (print_method x); intro
  | |- context [str (host ?x)] => generalize (str (host x)); intro
  | |- context [str (static_ip ?x)] => generalize (str (static_ip x)); intro
  end.
  simpl. rewrite <- !app_assoc. simpl. reflexivity.
Qed.

Lemma no_colon_quoted v : plain v = true -> no_colon ([quote] ++ v ++ [quote]) = true.
Proof. intros Hv. rewrite !no_colon_app, (plain_no_colon v Hv). reflexivity. Qed.

Lemma no_nl_quoted v : plain v = true -> no_nl ([quote] ++ v ++ [quote]) = true.
Proof. intros Hv. rewrite !no_nl_app, (plain_no_nl v Hv). reflexivity. Qed.

Create HintDb text.
#[local] Hint Resolve print_unsigned_plain print_signed_plain print_bool_plain
  print_method_plain print_float_plain plain_no_colon plain_no_nl
  no_colon_quoted no_nl_quoted : text.

Lemma fits_int_u32 n : fits_int n -> Machine.wrap32 n = n.
Proof.
  unfold fits_int, Machine.INT_MAX. intros Hn. apply StereoFacts.wrap32_small. lia.
Qed.

Lemma wrap16_small n : 0 <= n < 2 ^ 16 -> Machine.wrap16 n = n.
Proof. intros Hn. unfold Machine.wrap16. apply Z.mod_small. exact Hn. Qed.

Lemma u16_fits_int n : 0 <= n < 2 ^ 16 -> fits_int n.
Proof. unfold fits_int, Machine.INT_MAX. lia. Qed.

Lemma no_nl_in_quotes v : no_nl v = true -> no_nl ([quote] ++ v ++ [quote]) = true.
Proof. intros Hv. rewrite !no_nl_app, Hv. reflexivity. Qed.

(** No line of the file contains a newline when neither string does. *)
Lemma save_lines_no_nl c :
  no_nl (str (host (network c))) = true ->
  no_nl (str (static_ip (network c))) = true ->
  Forall (fun l => no_nl l = true) (save_lines c).
Proof.
  intros Hh Hs.
  unfold save_lines, capture_lines, encoder_lines, network_lines. cbn [app].
  repeat (apply Forall_cons; split);
    try apply Forall_nil; try reflexivity;
    rewrite no_nl_app; apply andb_true_intro; split;
    first [reflexivity | solve [auto with text]
          | apply no_nl_in_quotes; assumption].
Qed.

(** *** One line *)

Lemma load_lines_step line rest st st' :
  load_line line st = Some st' ->
  load_lines (line :: rest) st = load_lines rest st'.
Proof. intros Hl. simpl. rewrite Hl. reflexivity. Qed.

Lemma load_line_skip pre tail st :
  (exists r, pre = space :: r) -> parse_value (pre ++ tail) = [] ->
  load_line (pre ++ tail) st = Some st.
Proof.
  intros [r ->] Hv. destruct st as [sec cfg]. unfold load_line.
  change ((space :: r) ++ tail) with (space :: (r ++ tail)) in *.
  cbv beta iota zeta. rewrite Hv.
  change (Ascii.eqb space "#") with false.
  change (Ascii.eqb space space) with true. reflexivity.
Qed.

Lemma load_line_capture pre tail cap enc net value cap' :
  (exists r, pre = space :: r) ->
  parse_value (pre ++ tail) = value -> value <> [] ->
  load_capture (pre ++ tail) value cap = Some cap' ->
  load_line (pre ++ tail) (str "capture", mkConfig cap enc net)
    = Some (str "capture", mkConfig cap' enc net).
Proof.
  intros [r ->] Hv Hne Hc. unfold load_line.
  change ((space :: r) ++ tail) with (space :: (r ++ tail)) in *.
  cbv beta iota zeta. rewrite Hv.
  change (Ascii.eqb space "#") with false.
  change (Ascii.eqb space space) with true.
  destruct value as [|c v]; [congruence|].
  change (eqs (str "capture") (str "capture")) with true.
  cbv beta iota. cbn [capture encoder network]. rewrite Hc. reflexivity.
Qed.

Lemma load_line_encoder pre tail cap enc net value enc' :
  (exists r, pre = space :: r) ->
  parse_value (pre ++ tail) = value -> value <> [] ->
  load_encoder (pre ++ tail) value enc = Some enc' ->
  load_line (pre ++ tail) (str "encoder", mkConfig cap enc net)
    = Some (str "encoder", mkConfig cap enc' net).
Proof.
  intros [r ->] Hv Hne Hc. unfold load_line.
  change ((space :: r) ++ tail) with (space :: (r ++ tail)) in *.
  cbv beta iota zeta. rewrite Hv.
  change (Ascii.eqb space "#") with false.
  change (Ascii.eqb space space) with true.
  destruct value as [|c v]; [congruence|].
  change (eqs (str "encoder") (str "capture")) with false.
  change (eqs (str "encoder") (str "encoder")) with true.
  cbv beta iota. cbn [capture encoder network]. rewrite Hc. reflexivity.
Qed.

Lemma load_line_network pre tail cap enc net value net' :
  (exists r, pre = space :: r) ->
  parse_value (pre ++ tail) = value -> value <> [] ->
  load_network (pre ++ tail) value net = Some net' ->
  load_line (pre ++ tail) (str "network", mkConfig cap enc net)
    = Some (str "network", mkConfig cap enc net').
Proof.
  intros [r ->] Hv Hne Hc. unfold load_line.
  change ((space :: r) ++ tail) with (space :: (r ++ tail)) in *.
  cbv beta iota zeta. rewrite Hv.
  change (Ascii.eqb space "#") with false.
  change (Ascii.eqb space space) with true.
  destruct value as [|c v]; [congruence|].
  change (eqs (str "network") (str "capture")) with false.
  change (eqs (str "network") (str "encoder")) with false.
  change (eqs (str "network") (str "network")) with true.
  cbv beta iota. cbn [capture encoder network]. rewrite Hc. reflexivity.
Qed.

(** *** The chains of [line.find] tests *)

(** Evaluates the [has] tests of a loop body on a line made of a literal
    key part and a value without colon. *)
Ltac eval_chain :=
  unfold load_capture, load_encoder, load_network, has;
  rewrite !contains_app_no_colon by (solve [auto with text]);
  repeat match goal with
  | |- context [contains (str ?k) (str ?l)] =>
      let b := eval vm_compute in (contains (str k) (str l)) in
      change (contains (str k) (str l)) with b
  end;
  cbv beta iota.

(** Solves [load_line line st = Some ?st'] for an unquoted data line. *)
Ltac data_line lem :=
  eapply lem;
  [ eexists; reflexivity
  | apply parse_value_plain; [reflexivity | solve [auto with text]]
  | solve [auto using print_unsigned_nonempty, print_signed_nonempty,
             print_bool_nonempty, print_method_nonempty,
             print_float_nonempty]
  | eval_chain ].

Lemma load_capture_lines cap cap0 enc0 net0 :
  fits_int (target_fps cap) -> fits_int (monitor_index cap) ->
  fits_int (frame_buffer_count cap) ->
  load_lines (capture_lines cap) (str "capture", mkConfig cap0 enc0 net0)
    = Some (str "capture", mkConfig cap enc0 net0).
Proof.
  intros H1 H2 H3. unfold capture_lines.
  erewrite load_lines_step.
  2:{ data_line load_line_capture.
      rewrite stoi_print_unsigned, bind_some, fits_int_u32 by assumption.
      reflexivity. }
  erewrite load_lines_step.
  2:{ data_line load_line_capture.
      rewrite stoi_print_unsigned, bind_some, fits_int_u32 by assumption.
      reflexivity. }
  erewrite load_lines_step.
  2:{ data_line load_line_capture. rewrite parse_print_bool. reflexivity. }
  erewrite load_lines_step.
  2:{ data_line load_line_capture. rewrite parse_print_bool. reflexivity. }
  erewrite load_lines_step.
  2:{ data_line load_line_capture.
      rewrite stoi_print_unsigned, bind_some, fits_int_u32 by assumption.
      reflexivity. }
  erewrite load_lines_step.
  2:{ data_line load_line_capture. rewrite parse_print_bool. reflexivity. }
  destruct cap. reflexivity.
Qed.

Ltac uint_line lem :=
  data_line lem;
  rewrite stoi_print_unsigned, bind_some, fits_int_u32 by assumption;
  reflexivity.

Ltac bool_line lem :=
  data_line lem; rewrite parse_print_bool; reflexivity.

Ltac float_line lem H :=
  data_line lem; rewrite H, bind_some; reflexivity.

Lemma load_encoder_lines enc cap0 enc0 net0 :
  fits_int (jpeg_quality enc) -> fits_int (output_width enc) ->
  fits_int (output_height enc) ->
  Machine.INT_MIN <= gpu_device_id enc <= Machine.INT_MAX ->
  fits_int (h264_bitrate enc) -> fits_int (h264_gop_length enc) ->
  prints_exactly (downscale_factor enc) ->
  prints_exactly (eye_separation enc) ->
  load_lines (encoder_lines enc) (str "encoder", mkConfig cap0 enc0 net0)
    = Some (str "encoder", mkConfig cap0 enc net0).
Proof.
  intros H1 H2 H3 H4 H5 H6 F1 F2. unfold encoder_lines.
  pose proof F1 as F1'. pose proof F2 as F2'. unfold prints_exactly in F1', F2'.
  erewrite load_lines_step by (uint_line load_line_encoder).
  erewrite load_lines_step by (float_line load_line_encoder F1').
  erewrite load_lines_step by (uint_line load_line_encoder).
  erewrite load_lines_step by (uint_line load_line_encoder).
  erewrite load_lines_step
    by (data_line load_line_encoder; rewrite parse_print_method; reflexivity).
  erewrite load_lines_step by (bool_line load_line_encoder).
  erewrite load_lines_step by (float_line load_line_encoder F2').
  erewrite load_lines_step by (bool_line load_line_encoder).
  erewrite load_lines_step
    by (data_line load_line_encoder;
        rewrite stoi_print_signed, bind_some by assumption; reflexivity).
  erewrite load_lines_step by (bool_line load_line_encoder).
  erewrite load_lines_step by (bool_line load_line_encoder).
  erewrite load_lines_step by (uint_line load_line_encoder).
  erewrite load_lines_step by (uint_line load_line_encoder).
  erewrite load_lines_step by (bool_line load_line_encoder).
  destruct enc. reflexivity.
Qed.

(** *** The two quoted lines *)

Lemma load_line_network_eq pre tail cap enc net value :
  (exists r, pre = space :: r) ->
  parse_value (pre ++ tail) = value -> value <> [] ->
  load_line (pre ++ tail) (str "network", mkConfig cap enc net)
    = net' ← load_network (pre ++ tail) value net;
      Some (str "network", mkConfig cap enc net').
Proof.
  intros [r ->] Hv Hne. unfold load_line.
  change ((space :: r) ++ tail) with (space :: (r ++ tail)) in *.
  cbv beta iota zeta. rewrite Hv.
  change (Ascii.eqb space "#") with false.
  change (Ascii.eqb space space) with true.
  destruct value as [|c v]; [congruence|].
  change (eqs (str "network") (str "capture")) with false.
  change (eqs (str "network") (str "encoder")) with false.
  change (eqs (str "network") (str "network")) with true.
  cbv beta iota. cbn [capture encoder network]. reflexivity.
Qed.

(** The [host] line: skipped when nothing is left of the string, else
    the host is what is left. *)
Lemma load_host_line h cap enc net :
  load_line (str "  host: " ++ [quote] ++ h ++ [quote])
            (str "network", mkConfig cap enc net)
    = Some (str "network",
            mkConfig cap enc
              (match trim h with
               | [] => net
               | v => set_host (String.string_of_list_ascii v) net
               end)).
Proof.
  destruct (trim h) as [|a v] eqn:Et.
  - apply load_line_skip; [eexists; reflexivity|].
    rewrite parse_value_quoted_trim by reflexivity. exact Et.
  - rewrite (load_line_network_eq _ _ cap enc net (a :: v));
      [ | eexists; reflexivity
        | rewrite parse_value_quoted_trim by reflexivity; exact Et
        | discriminate ].
    unfold load_network, has.
    rewrite contains_quoted by (discriminate || reflexivity).
    reflexivity.
Qed.

(** The [static_ip] line: skipped when nothing is left of the string;
    else the tests of ["host:"], ["http_port:"] and ["port:"] come
    first, on the whole line. *)
Lemma load_static_ip_line_eval s cap enc net :
  load_line (str "  static_ip: " ++ [quote] ++ s ++ [quote])
            (str "network", mkConfig cap enc net)
    = match trim s with
      | [] => Some (str "network", mkConfig cap enc net)
      | v =>
          net' ← (if contains (str "host:") s then
                    Some (set_host (String.string_of_list_ascii v) net)
                  else if contains (str "http_port:") s then
                    n ← stoi v; Some (set_http_port (Machine.wrap16 n) net)
                  else if contains (str "port:") s then
                    n ← stoi v; Some (set_port (Machine.wrap16 n) net)
                  else Some (set_static_ip (String.string_of_list_ascii v) net));
          Some (str "network", mkConfig cap enc net')
      end.
Proof.
  destruct (trim s) as [|a v] eqn:Et.
  - apply load_line_skip; [eexists; reflexivity|].
    rewrite parse_value_quoted_trim by reflexivity. exact Et.
  - rewrite (load_line_network_eq _ _ cap enc net (a :: v));
      [ | eexists; reflexivity
        | rewrite parse_value_quoted_trim by reflexivity; exact Et
        | discriminate ].
    unfold load_network, has.
    rewrite !contains_quoted by (discriminate || reflexivity).
    reflexivity.
Qed.

Lemma kept_no_nl v : kept v = true -> no_nl v = true.
Proof.
  unfold kept. intros H. apply andb_true_iff in H as [H _].
  apply andb_true_iff in H as [H _]. exact H.
Qed.

Lemma no_port_no_http_port s :
  contains (str "port:") s = false -> contains (str "http_port:") s = false.
Proof.
  intros H. destruct (contains (str "http_port:") s) eqn:E; [|reflexivity].
  rewrite (contains_suffix (str "http_") (str "port:") s E) in H. discriminate H.
Qed.

Lemma load_host_line_kept h cap enc net :
  h <> "" -> kept (str h) = true ->
  load_line (str "  host: " ++ [quote] ++ str h ++ [quote])
            (str "network", mkConfig cap enc net)
    = Some (str "network", mkConfig cap enc (set_host h net)).
Proof.
  intros Hne Hk. rewrite load_host_line, (kept_trim _ Hk).
  destruct (str h) as [|a v] eqn:E; [exact (False_ind _ (str_nonempty h Hne E))|].
  rewrite <- E, string_of_str. reflexivity.
Qed.

(** The [static_ip] line of a representable configuration: skipped when
    the address is empty, which leaves the (empty) address of the
    configuration being filled. *)
Lemma load_static_ip_line ip cap enc net :
  (ip = "" \/
   kept (str ip) = true /\
   contains (str "host:") (str ip) = false /\
   contains (str "port:") (str ip) = false) ->
  static_ip net = "" ->
  load_line (str "  static_ip: " ++ [quote] ++ str ip ++ [quote])
            (str "network", mkConfig cap enc net)
    = Some (str "network", mkConfig cap enc (set_static_ip ip net)).
Proof.
  intros Hip Hcfg. rewrite load_static_ip_line_eval.
  destruct Hip as [-> | (Hk & Hh & Hp)].
  - destruct net. simpl in Hcfg. subst. reflexivity.
  - rewrite (kept_trim _ Hk), Hh, Hp, (no_port_no_http_port _ Hp).
    destruct (str ip) as [|a v] eqn:E.
    + destruct ip; [|discriminate E].
      destruct net. simpl in Hcfg. subst. reflexivity.
    + cbv zeta. rewrite <- E, string_of_str. reflexivity.
Qed.

Lemma load_network_lines net cap0 enc0 net0 :
  0 <= port net < 2 ^ 16 -> 0 <= http_port net < 2 ^ 16 ->
  fits_int (max_clients net) -> fits_int (send_buffer_size net) ->
  prints_exactly (ping_interval net) ->
  host net <> "" -> kept (str (host net)) = true ->
  (static_ip net = "" \/
   kept (str (static_ip net)) = true /\
   contains (str "host:") (str (static_ip net)) = false /\
   contains (str "port:") (str (static_ip net)) = false) ->
  static_ip net0 = "" ->
  load_lines (network_lines net) (str "network", mkConfig cap0 enc0 net0)
    = Some (str "network", mkConfig cap0 enc0 net).
Proof.
  intros H1 H2 H3 H4 F1 Hh Hhp Hsp Hcfg. unfold network_lines.
  pose proof F1 as F1'. unfold prints_exactly in F1'.
  pose proof (u16_fits_int _ H1) as H1'. pose proof (u16_fits_int _ H2) as H2'.
  erewrite load_lines_step by (apply load_host_line_kept; assumption).
  erewrite load_lines_step
    by (data_line load_line_network;
        rewrite stoi_print_unsigned, bind_some, wrap16_small by assumption;
        reflexivity).
  erewrite load_lines_step
    by (data_line load_line_network;
        rewrite stoi_print_unsigned, bind_some, wrap16_small by assumption;
        reflexivity).
  erewrite load_lines_step by (apply load_static_ip_line; assumption).
  erewrite load_lines_step by (uint_line load_line_network).
  erewrite load_lines_step by (uint_line load_line_network).
  erewrite load_lines_step by (float_line load_line_network F1').
  erewrite load_lines_step by (bool_line load_line_network).
  erewrite load_lines_step by (bool_line load_line_network).
  destruct net. reflexivity.
Qed.

(** *** The whole file *)

Lemma load_lines_app a : forall b st,
  load_lines (a ++ b) st = st' ← load_lines a st; load_lines b st'.
Proof.
  induction a as [|l a IH]; intros b st; simpl; [reflexivity|].
  destruct (load_line l st) as [st'|]; simpl; [apply IH|reflexivity].
Qed.

Lemma save_lines_cons c :
  save_lines c
  = str "# VR Streamer Configuration" :: [] :: str "capture:" ::
    (capture_lines (capture c) ++ [] :: str "encoder:" ::
     (encoder_lines (encoder c) ++ [] :: str "network:" ::
      network_lines (network c))).
Proof. reflexivity. Qed.

Lemma load_save_lines c :
  representable c ->
  load_lines (save_lines c) ([], Config_init) = Some (str "network", c).
Proof.
  intros ((C1 & C2 & C3)
          & (E1 & E2 & E3 & E4 & E5 & E6 & (E7 & E7n) & (E8 & E8n))
          & (N1 & N2 & N3 & N4 & (N5 & N5n) & N6 & N7 & N8)).
  rewrite save_lines_cons.
  rewrite (load_lines_step _ _ _ ([], Config_init)) by reflexivity.
  rewrite (load_lines_step _ _ _ ([], Config_init)) by reflexivity.
  rewrite (load_lines_step _ _ _ (str "capture", Config_init)) by reflexivity.
  unfold Config_init.
  rewrite load_lines_app, load_capture_lines, bind_some by assumption.
  erewrite load_lines_step by reflexivity.
  erewrite load_lines_step by reflexivity.
  rewrite load_lines_app, load_encoder_lines, bind_some by assumption.
  erewrite load_lines_step by reflexivity.
  erewrite load_lines_step by reflexivity.
  rewrite load_network_lines by (assumption || reflexivity).
  destruct c. reflexivity.
Qed.

Lemma representable_no_nl c :
  representable c ->
  no_nl (str (host (network c))) = true /\
  no_nl (str (static_ip (network c))) = true.
Proof.
  intros (_ & _ & (_ & _ & _ & _ & _ & _ & Hh & Hs)).
  split; [apply kept_no_nl, Hh|].
  destruct Hs as [-> | (Hs & _)]; [reflexivity | apply kept_no_nl, Hs].
Qed.

(** What [load] reads from what [save] wrote. *)
Lemma load_text_save_text c :
  representable c -> load_text (save_text c) = Some c.
Proof.
  intros Hc. unfold load_text.
  rewrite save_text_unlines, getlines_unlines.
  - rewrite (load_save_lines c Hc). reflexivity.
  - destruct (representable_no_nl c Hc). apply save_lines_no_nl; assumption.
Qed.

Lemma representable_keys_equal c : representable c -> keys_equal c c.
Proof.
  intros (_ & (_ & _ & _ & _ & _ & _ & E7 & E8) & (_ & _ & _ & _ & N5 & _)).
  unfold keys_equal.
  rewrite !reads_back_feq by assumption. repeat split.
Qed.

Lemma representable_survives c : representable c -> survives c.
Proof.
  intros Hc. exists c. split; [apply load_text_save_text, Hc|].
  apply representable_keys_equal, Hc.
Qed.

(** *** Only the representable configurations survive *)

Lemma load_lines_throw line rest st :
  load_line line st = None -> load_lines (line :: rest) st = None.
Proof. intros Hl. cbn [load_lines]. rewrite Hl. reflexivity. Qed.

Lemma stoi_print_unsigned_overflow n :
  Machine.INT_MAX < n < 10 ^ 21 -> stoi (print_unsigned n) = None.
Proof.
  intros Hn.
  pose proof (parse_print_unsigned n ltac:(unfold Machine.INT_MAX in Hn; lia)) as Hp.
  unfold print_unsigned in *.
  destruct (digits_aux_head 20 n []) as (d & rest & Hd & E).
  rewrite E in *. unfold stoi.
  simpl skip_space. rewrite digit_char_not_space by exact Hd.
  unfold take_sign. destruct (digit_char_not_sign d Hd) as [-> ->].
  unfold starts_with_digit. rewrite digit_val_char by exact Hd.
  rewrite Hp.
  destruct (Z.leb_spec n Machine.INT_MAX); [lia|].
  rewrite andb_false_r. reflexivity.
Qed.

Lemma load_line_capture_throws pre tail cap enc net value :
  (exists r, pre = space :: r) ->
  parse_value (pre ++ tail) = value -> value <> [] ->
  load_capture (pre ++ tail) value cap = None ->
  load_line (pre ++ tail) (str "capture", mkConfig cap enc net) = None.
Proof.
  intros [r ->] Hv Hne Hc. unfold load_line.
  change ((space :: r) ++ tail) with (space :: (r ++ tail)) in *.
  cbv beta iota zeta. rewrite Hv.
  change (Ascii.eqb space "#") with false.
  change (Ascii.eqb space space) with true.
  destruct value as [|c v]; [congruence|].
  change (eqs (str "capture") (str "capture")) with true.
  cbv beta iota. cbn [capture encoder network]. rewrite Hc. reflexivity.
Qed.

Lemma load_line_encoder_throws pre tail cap enc net value :
  (exists r, pre = space :: r) ->
  parse_value (pre ++ tail) = value -> value <> [] ->
  load_encoder (pre ++ tail) value enc = None ->
  load_line (pre ++ tail) (str "encoder", mkConfig cap enc net) = None.
Proof.
  intros [r ->] Hv Hne Hc. unfold load_line.
  change ((space :: r) ++ tail) with (space :: (r ++ tail)) in *.
  cbv beta iota zeta. rewrite Hv.
  change (Ascii.eqb space "#") with false.
  change (Ascii.eqb space space) with true.
  destruct value as [|c v]; [congruence|].
  change (eqs (str "encoder") (str "capture")) with false.
  change (eqs (str "encoder") (str "encoder")) with true.
  cbv beta iota. cbn [capture encoder network]. rewrite Hc. reflexivity.
Qed.

Lemma load_line_network_throws pre tail cap enc net value :
  (exists r, pre = space :: r) ->
  parse_value (pre ++ tail) = value -> value <> [] ->
  load_network (pre ++ tail) value net = None ->
  load_line (pre ++ tail) (str "network", mkConfig cap enc net) = None.
Proof.
  intros Hpre Hv Hne Hc.
  rewrite (load_line_network_eq pre tail cap enc net value Hpre Hv Hne), Hc.
  reflexivity.
Qed.

(** An unsigned field above [INT_MAX] makes its line throw. *)
Ltac uint_throw lem :=
  eapply lem;
  [ eexists; reflexivity
  | apply parse_value_plain; [reflexivity | solve [auto with text]]
  | apply print_unsigned_nonempty
  | eval_chain; rewrite stoi_print_unsigned_overflow; [reflexivity|];
    unfold in_u32, Machine.INT_MAX in *; lia ].

(** A float that [std::stof] refuses makes its line throw. *)
Ltac float_throw lem E :=
  eapply lem;
  [ eexists; reflexivity
  | apply parse_value_plain; [reflexivity | solve [auto with text]]
  | apply print_float_nonempty
  | eval_chain; rewrite E; reflexivity ].

(** The line of an unsigned field in a file that loads: the field is
    within [int]. *)
Ltac uint_fits H U lem :=
  match type of U with
  | in_u32 ?v =>
      let F := fresh "F" in
      assert (F : fits_int v);
      [ destruct (Z_le_gt_dec v Machine.INT_MAX) as [|Hbad];
        [ unfold fits_int, in_u32 in *; lia
        | rewrite load_lines_throw in H by (uint_throw lem);
          discriminate H ]
      | ]
  end.

Lemma load_capture_lines_inv cap cap0 enc0 net0 st :
  in_u32 (target_fps cap) -> in_u32 (monitor_index cap) ->
  in_u32 (frame_buffer_count cap) ->
  load_lines (capture_lines cap) (str "capture", mkConfig cap0 enc0 net0)
    = Some st ->
  fits_int (target_fps cap) /\ fits_int (monitor_index cap) /\
  fits_int (frame_buffer_count cap).
Proof.
  intros U1 U2 U3 H. unfold capture_lines in H.
  uint_fits H U1 load_line_capture_throws.
  erewrite load_lines_step in H by (uint_line load_line_capture).
  uint_fits H U2 load_line_capture_throws.
  erewrite load_lines_step in H by (uint_line load_line_capture).
  erewrite load_lines_step in H by (bool_line load_line_capture).
  erewrite load_lines_step in H by (bool_line load_line_capture).
  uint_fits H U3 load_line_capture_throws.
  auto.
Qed.

Lemma load_encoder_lines_inv enc cap0 enc0 net0 st :
  in_u32 (jpeg_quality enc) -> in_u32 (output_width enc) ->
  in_u32 (output_height enc) ->
  Machine.INT_MIN <= gpu_device_id enc <= Machine.INT_MAX ->
  in_u32 (h264_bitrate enc) -> in_u32 (h264_gop_length enc) ->
  load_lines (encoder_lines enc) (str "encoder", mkConfig cap0 enc0 net0)
    = Some st ->
  (fits_int (jpeg_quality enc) /\ fits_int (output_width enc) /\
   fits_int (output_height enc) /\
   fits_int (h264_bitrate enc) /\ fits_int (h264_gop_length enc)) /\
  exists x1 x2,
    stof (print_float (downscale_factor enc)) = Some x1 /\
    stof (print_float (eye_separation enc)) = Some x2 /\
    st = (str "encoder",
          mkConfig cap0 (set_eye_separation x2 (set_downscale_factor x1 enc))
                   net0).
Proof.
  intros U1 U2 U3 G U4 U5 H. unfold encoder_lines in H.
  uint_fits H U1 load_line_encoder_throws.
  erewrite load_lines_step in H by (uint_line load_line_encoder).
  destruct (stof (print_float (downscale_factor enc))) as [x1|] eqn:E1;
    [|rewrite load_lines_throw in H
        by (float_throw load_line_encoder_throws E1); discriminate H].
  erewrite load_lines_step in H
    by (data_line load_line_encoder; rewrite E1, bind_some; reflexivity).
  uint_fits H U2 load_line_encoder_throws.
  erewrite load_lines_step in H by (uint_line load_line_encoder).
  uint_fits H U3 load_line_encoder_throws.
  erewrite load_lines_step in H by (uint_line load_line_encoder).
  erewrite load_lines_step in H
    by (data_line load_line_encoder; rewrite parse_print_method; reflexivity).
  erewrite load_lines_step in H by (bool_line load_line_encoder).
  destruct (stof (print_float (eye_separation enc))) as [x2|] eqn:E2;
    [|rewrite load_lines_throw in H
        by (float_throw load_line_encoder_throws E2); discriminate H].
  erewrite load_lines_step in H
    by (data_line load_line_encoder; rewrite E2, bind_some; reflexivity).
  erewrite load_lines_step in H by (bool_line load_line_encoder).
  erewrite load_lines_step in H
    by (data_line load_line_encoder;
        rewrite stoi_print_signed, bind_some by assumption; reflexivity).
  erewrite load_lines_step in H by (bool_line load_line_encoder).
  erewrite load_lines_step in H by (bool_line load_line_encoder).
  uint_fits H U4 load_line_encoder_throws.
  erewrite load_lines_step in H by (uint_line load_line_encoder).
  uint_fits H U5 load_line_encoder_throws.
  erewrite load_lines_step in H by (uint_line load_line_encoder).
  erewrite load_lines_step in H by (bool_line load_line_encoder).
  split; [auto 10|]. exists x1, x2. split; [reflexivity|]. split; [reflexivity|].
  cbn [load_lines] in H. injection H as <-. destruct enc. reflexivity.
Qed.

(** What the [static_ip] line can leave behind. *)
Lemma load_static_ip_line_inv s cap enc net st :
  load_line (str "  static_ip: " ++ [quote] ++ s ++ [quote])
            (str "network", mkConfig cap enc net) = Some st ->
  exists net',
    st = (str "network", mkConfig cap enc net') /\
    ((trim s = [] /\ net' = net) \/
     (trim s <> [] /\ s <> [] /\ static_ip net' = static_ip net) \/
     (trim s <> [] /\
      contains (str "host:") s = false /\ contains (str "port:") s = false /\
      net' = set_static_ip (String.string_of_list_ascii (trim s)) net)).
Proof.
  rewrite load_static_ip_line_eval. intros H.
  assert (Hne : forall k, k <> [] -> contains k s = true -> s <> []).
  { intros k Hk Hc ->. rewrite (contains_nil k Hk) in Hc. discriminate Hc. }
  destruct (trim s) as [|a v] eqn:Et.
  - injection H as <-. eexists. split; [reflexivity|]. left. auto.
  - cbv zeta in H. destruct (contains (str "host:") s) eqn:Eh.
    { cbn [mbind option_bind] in H. injection H as <-.
      eexists. split; [reflexivity|]. right. left.
      split; [discriminate|]. split; [|destruct net; reflexivity].
      apply (Hne (str "host:")); [discriminate | exact Eh]. }
    destruct (contains (str "http_port:") s) eqn:Ehp.
    { destruct (stoi (a :: v)) as [n|]; cbn [mbind option_bind] in H;
        [|discriminate H].
      injection H as <-. eexists. split; [reflexivity|]. right. left.
      split; [discriminate|]. split; [|destruct net; reflexivity].
      apply (Hne (str "http_port:")); [discriminate | exact Ehp]. }
    destruct (contains (str "port:") s) eqn:Ep.
    { destruct (stoi (a :: v)) as [n|]; cbn [mbind option_bind] in H;
        [|discriminate H].
      injection H as <-. eexists. split; [reflexivity|]. right. left.
      split; [discriminate|]. split; [|destruct net; reflexivity].
      apply (Hne (str "port:")); [discriminate | exact Ep]. }
    cbn [mbind option_bind] in H. injection H as <-.
    eexists. split; [reflexivity|]. right. right.
    split; [discriminate|]. auto.
Qed.

Lemma str_of_string_of v : str (String.string_of_list_ascii v) = v.
Proof. apply String.list_ascii_of_string_of_list_ascii. Qed.

Lemma str_inj a b : str a = str b -> a = b.
Proof.
  intros H. rewrite <- (string_of_str a), <- (string_of_str b), H. reflexivity.
Qed.

Lemma load_lines_cons_inv line rest st st' :
  load_lines (line :: rest) st = Some st' ->
  exists st1, load_line line st = Some st1 /\ load_lines rest st1 = Some st'.
Proof.
  cbn [load_lines]. destruct (load_line line st) as [st1|];
    cbn [mbind option_bind]; [|discriminate]. eauto.
Qed.

Lemma load_network_lines_inv net cap0 enc0 st :
  0 <= port net < 2 ^ 16 -> 0 <= http_port net < 2 ^ 16 ->
  in_u32 (max_clients net) -> in_u32 (send_buffer_size net) ->
  no_nl (str (host net)) = true -> no_nl (str (static_ip net)) = true ->
  load_lines (network_lines net)
             (str "network", mkConfig cap0 enc0 NetworkConfig_init) = Some st ->
  host (network st.2) = host net ->
  static_ip (network st.2) = static_ip net ->
  (capture st.2 = cap0 /\ encoder st.2 = enc0) /\
  (fits_int (max_clients net) /\ fits_int (send_buffer_size net)) /\
  (exists x3, stof (print_float (ping_interval net)) = Some x3 /\
              ping_interval (network st.2) = x3) /\
  host net <> "" /\ kept (str (host net)) = true /\
  (static_ip net = "" \/
   kept (str (static_ip net)) = true /\
   contains (str "host:") (str (static_ip net)) = false /\
   contains (str "port:") (str (static_ip net)) = false).
Proof.
  intros H1 H2 U1 U2 Hnh Hns H Hhost Hip. unfold network_lines in H.
  pose proof (u16_fits_int _ H1) as H1'. pose proof (u16_fits_int _ H2) as H2'.
  rewrite (load_lines_step _ _ _ _ (load_host_line _ _ _ _)) in H.
  set (net1 := match trim (str (host net)) with
               | [] => NetworkConfig_init
               | v => set_host (String.string_of_list_ascii v) NetworkConfig_init
               end) in H.
  assert (Hip1 : static_ip net1 = "")
    by (unfold net1; destruct (trim (str (host net))); reflexivity).
  erewrite load_lines_step in H
    by (data_line load_line_network;
        rewrite stoi_print_unsigned, bind_some, wrap16_small by assumption;
        reflexivity).
  erewrite load_lines_step in H
    by (data_line load_line_network;
        rewrite stoi_print_unsigned, bind_some, wrap16_small by assumption;
        reflexivity).
  apply load_lines_cons_inv in H as (st4 & E4 & H).
  apply load_static_ip_line_inv in E4 as (net4 & -> & Hcase).
  uint_fits H U1 load_line_network_throws.
  erewrite load_lines_step in H by (uint_line load_line_network).
  uint_fits H U2 load_line_network_throws.
  erewrite load_lines_step in H by (uint_line load_line_network).
  destruct (stof (print_float (ping_interval net))) as [x3|] eqn:E3;
    [|rewrite load_lines_throw in H
        by (float_throw load_line_network_throws E3); discriminate H].
  erewrite load_lines_step in H
    by (data_line load_line_network; rewrite E3, bind_some; reflexivity).
  erewrite load_lines_step in H by (bool_line load_line_network).
  erewrite load_lines_step in H by (bool_line load_line_network).
  cbn [load_lines] in H. injection H as <-.
  cbn [snd network host static_ip ping_interval set_use_cork set_use_tcp_nodelay
       set_ping_interval set_send_buffer_size set_max_clients] in Hhost, Hip |- *.
  split; [split; reflexivity|].
  split; [auto|]. split; [exists x3; split; reflexivity|].
  assert (Hh4 : host net4 = host net1 -> host net <> "" /\ kept (str (host net)) = true).
  { intros E. rewrite Hhost in E. unfold net1 in E.
    destruct (trim (str (host net))) as [|a v] eqn:Et.
    - cbn in E. rewrite E in Et. vm_compute in Et. discriminate Et.
    - cbn [host set_host] in E.
      assert (Ek : trim (str (host net)) = str (host net)).
      { rewrite Et, E. symmetry. apply str_of_string_of. }
      split; [|apply trim_kept; assumption].
      intros Hz. rewrite Hz in Ek, Et. rewrite Ek in Et. discriminate Et. }
  destruct Hcase as [(Et & ->) | [(Et & Hne & Es) | (Et & Hh & Hp & ->)]].
  - cbn [host static_ip set_http_port set_port] in Hhost, Hip, Hh4.
    destruct (Hh4 eq_refl) as [Ha Hb]. split; [exact Ha|]. split; [exact Hb|].
    left. rewrite <- Hip. exact Hip1.
  - exfalso. apply Hne. rewrite <- Hip, Es.
    cbn [static_ip set_http_port set_port]. rewrite Hip1. reflexivity.
  - cbn [host static_ip set_static_ip set_http_port set_port] in Hhost, Hip, Hh4.
    destruct (Hh4 eq_refl) as [Ha Hb]. split; [exact Ha|]. split; [exact Hb|].
    right. split; [|split; assumption].
    apply trim_kept; [exact Hns|].
    rewrite <- Hip at 2. symmetry. apply str_of_string_of.
Qed.

(** The strings [load] stores hold no newline. *)
Lemma load_network_strings line value net net' :
  no_nl value = true ->
  load_network line value net = Some net' ->
  no_nl (str (host net)) = true -> no_nl (str (static_ip net)) = true ->
  no_nl (str (host net')) = true /\ no_nl (str (static_ip net')) = true.
Proof.
  intros Hv H Hh Hs. unfold load_network in H.
  repeat match type of H with
         | (if ?b then _ else _) = _ => destruct b
         | (?m ≫= _) = _ =>
             destruct m; cbn [mbind option_bind] in H; [|discriminate H]
         end;
    injection H as <-; cbn; rewrite ?str_of_string_of; auto.
Qed.

Lemma load_line_strings line sec c sec' c' :
  no_nl line = true ->
  load_line line (sec, c) = Some (sec', c') ->
  no_nl (str (host (network c))) = true ->
  no_nl (str (static_ip (network c))) = true ->
  no_nl (str (host (network c'))) = true /\
  no_nl (str (static_ip (network c'))) = true.
Proof.
  intros Hl H Hh Hs. unfold load_line in H.
  destruct line as [|c0 l]; [injection H as <- <-; auto|].
  destruct (Ascii.eqb c0 "#"); [injection H as <- <-; auto|].
  destruct (negb (Ascii.eqb c0 space) && _); [injection H as <- <-; auto|].
  pose proof (no_nl_parse_value _ Hl) as Hv.
  destruct (parse_value (c0 :: l)) as [|a v]; [injection H as <- <-; auto|].
  destruct (eqs sec (str "capture")).
  { destruct (load_capture _ _ _); cbn [mbind option_bind] in H;
      [|discriminate H]. injection H as <- <-. auto. }
  destruct (eqs sec (str "encoder")).
  { destruct (load_encoder _ _ _); cbn [mbind option_bind] in H;
      [|discriminate H]. injection H as <- <-. auto. }
  destruct (eqs sec (str "network")); [|injection H as <- <-; auto].
  destruct (load_network _ _ _) as [net'|] eqn:En; cbn [mbind option_bind] in H;
    [|discriminate H].
  injection H as <- <-. cbn [network].
  exact (load_network_strings _ _ _ _ Hv En Hh Hs).
Qed.

Lemma load_lines_strings lines : forall st st',
  Forall (fun l => no_nl l = true) lines ->
  load_lines lines st = Some st' ->
  no_nl (str (host (network st.2))) = true ->
  no_nl (str (static_ip (network st.2))) = true ->
  no_nl (str (host (network st'.2))) = true /\
  no_nl (str (static_ip (network st'.2))) = true.
Proof.
  induction lines as [|l lines IH]; intros st st' Hall H Hh Hs.
  - injection H as <-. auto.
  - apply load_lines_cons_inv in H as (st1 & E1 & H).
    inversion Hall as [|? ? Hl Hrest]; subst.
    destruct st as [sec c], st1 as [sec1 c1].
    destruct (load_line_strings _ _ _ _ _ Hl E1 Hh Hs) as [Hh1 Hs1].
    exact (IH _ _ Hrest H Hh1 Hs1).
Qed.

(** Only the representable configurations survive. *)
Lemma survives_representable c : well_typed c -> survives c -> representable c.
Proof.
  intros ((U1 & U2 & U3) & (V1 & V2 & V3 & G & V4 & V5) & (P1 & P2 & W1 & W2))
         (c' & Hl & (KC & KE & KN)).
  destruct KE as (_ & Kd & _ & _ & _ & _ & Ke & _).
  destruct KN as (Kh & _ & _ & Ks & _ & _ & Kp & _).
  unfold load_text in Hl.
  destruct (load_lines (getlines (save_text c)) ([], Config_init)) as [st|] eqn:E;
    cbn [mbind option_bind] in Hl; [|discriminate Hl].
  injection Hl as <-.
  destruct (load_lines_strings _ _ _ (getlines_no_nl _) E eq_refl eq_refl)
    as [Hnh Hns].
  rewrite Kh in Hnh. rewrite Ks in Hns.
  rewrite save_text_unlines, getlines_unlines in E
    by (apply save_lines_no_nl; assumption).
  rewrite save_lines_cons in E.
  rewrite (load_lines_step _ _ _ ([], Config_init)) in E by reflexivity.
  rewrite (load_lines_step _ _ _ ([], Config_init)) in E by reflexivity.
  rewrite (load_lines_step _ _ _ (str "capture", Config_init)) in E by reflexivity.
  unfold Config_init in E.
  rewrite load_lines_app in E.
  destruct (load_lines (capture_lines (capture c)) _) as [st1|] eqn:E1;
    cbn [mbind option_bind] in E; [|discriminate E].
  destruct (load_capture_lines_inv _ _ _ _ _ U1 U2 U3 E1) as (C1 & C2 & C3).
  rewrite load_capture_lines in E1 by assumption. injection E1 as <-.
  erewrite load_lines_step in E by reflexivity.
  erewrite load_lines_step in E by reflexivity.
  rewrite load_lines_app in E.
  destruct (load_lines (encoder_lines (encoder c)) _) as [st2|] eqn:E2;
    cbn [mbind option_bind] in E; [|discriminate E].
  destruct (load_encoder_lines_inv _ _ _ _ _ V1 V2 V3 G V4 V5 E2)
    as ((F1 & F2 & F3 & F4 & F5) & x1 & x2 & X1 & X2 & ->).
  erewrite load_lines_step in E by reflexivity.
  erewrite load_lines_step in E by reflexivity.
  destruct (load_network_lines_inv _ _ _ _ P1 P2 W1 W2 Hnh Hns E Kh Ks)
    as ((_ & Est) & (N3 & N4) & (x3 & X3 & Ex3) & Hh & Hk & Hs).
  rewrite Est in Kd, Ke. cbn [downscale_factor eye_separation
    set_eye_separation set_downscale_factor] in Kd, Ke.
  rewrite Ex3 in Kp.
  pose proof (reads_back_of_feq _ _ X1 Kd) as R1.
  pose proof (reads_back_of_feq _ _ X2 Ke) as R2.
  pose proof (reads_back_of_feq _ _ X3 Kp) as R3.
  unfold representable. auto 20.
Qed.

(** Hosts with colons or spaces inside survive. *)
Lemma colon_and_space_hosts_survive :
  survives (on_network (set_static_ip "fe80::1")
              (on_network (set_host "::1") default_config)) /\
  survives (on_network (set_host "my host") default_config).
Proof.
  split; apply representable_survives;
    unfold representable, fits_int, reads_back, prints_exactly;
    repeat split; try (vm_compute; congruence); try discriminate;
    first [ left; reflexivity | right; repeat split; vm_compute; reflexivity ].
Qed.

(** A NaN, a static address that holds a key, and a host that begins
    with a space do not. *)
Lemma excluded_do_not_survive :
  ~ survives (on_encoder (set_eye_separation S754_nan) default_config) /\
  ~ survives (on_network (set_static_ip "host:1") default_config) /\
  ~ survives (on_network (set_host " a") default_config).
Proof.
  assert (W : forall c, capture c = capture default_config ->
              gpu_device_id (encoder c) = 0 ->
              jpeg_quality (encoder c) = 55 -> output_width (encoder c) = 0 ->
              output_height (encoder c) = 0 ->
              h264_bitrate (encoder c) = 20000 ->
              h264_gop_length (encoder c) = 30 ->
              port (network c) = 8765 -> http_port (network c) = 8080 ->
              max_clients (network c) = 4 ->
              send_buffer_size (network c) = 64 * 1024 -> well_typed c).
  { intros c Hc G Q OW OH HB HG P HP MC SB.
    unfold well_typed, in_u32, Machine.INT_MIN, Machine.INT_MAX.
    rewrite Hc, G, Q, OW, OH, HB, HG, P, HP, MC, SB. cbn. lia. }
  split; [|split]; intros H; apply survives_representable in H;
    try (apply W; reflexivity).
  - destruct H as (_ & (_ & _ & _ & _ & _ & _ & _ & (_ & Hn)) & _).
    apply Hn. reflexivity.
  - destruct H as (_ & _ & (_ & _ & _ & _ & _ & _ & _ & [Hs | (_ & Hs & _)]));
      [discriminate Hs | vm_compute in Hs; discriminate Hs].
  - destruct H as (_ & _ & (_ & _ & _ & _ & _ & _ & Hk & _)).
    vm_compute in Hk. discriminate Hk.
Qed.


Lemma default_representable : representable default_config.
Proof.
  unfold representable, fits_int, reads_back, prints_exactly.
  repeat split; try (vm_compute; congruence); try discriminate.
  left. reflexivity.
Qed.



End ConfigFacts.

(* --------------------------------------------------------------------- *)
(** ** The rings as bounded first-in first-out lists *)
(* --------------------------------------------------------------------- *)

Module RingArith.

Lemma mod_once N x :
0 < N -> 0 <= x < 2 * N -> x mod N = if x <? N then x else x - N.
Proof.
intros HN Hx. destruct (Z.ltb_spec x N).
- apply Z.mod_small; lia.
- symmetry. apply (Z.mod_unique x N 1); lia.
Qed.

Lemma mod_diff N h x :
0 <= h < N -> 0 <= x < N ->
(x - h) mod N = if h <=? x then x - h else x - h + N.
Proof.
intros Hh Hx. destruct (Z.leb_spec h x).
- apply Z.mod_small; lia.
- symmetry. apply (Z.mod_unique (x - h) N (-1)); lia.
Qed.

Lemma mod_succ N x :
0 <= x < N -> (x + 1) mod N = if x + 1 <? N then x + 1 else 0.
Proof.
intros Hx. rewrite mod_once by lia.
destruct (Z.ltb_spec (x + 1) N); lia.
Qed.

Lemma pow2_divides_word N :
SPSCQueue.valid_capacity N -> (N | 2 ^ 64).
Proof.
intros (Hp & H2 & H64).
destruct (SPSCQueueFacts.has_single_bit_pow2 N Hp) as (k & Hk & ->).
assert (k < 64) by (apply (Z.pow_lt_mono_r_iff 2); lia).
exists (2 ^ (64 - k)). rewrite <- Z.pow_add_r by lia. f_equal; lia.
Qed.

Lemma wrap64_mod N x :
SPSCQueue.valid_capacity N -> Machine.wrap64 x mod N = x mod N.
Proof.
intros HN. unfold Machine.wrap64.
apply Z.mod_mod_divide, pow2_divides_word, HN.
Qed.

Lemma next_mod N x :
SPSCQueue.valid_capacity N -> 0 <= x < N ->
Z.land (Machine.wrap64 (x + 1)) (SPSCQueue.MASK N) = (x + 1) mod N.
Proof.
intros HN Hx.
rewrite (SPSCQueueFacts.wrap64_small N HN) by lia.
apply SPSCQueueFacts.land_mask_mod; [exact HN | lia].
Qed.

End RingArith.

Ltac ring_cases :=
  repeat match goal with
  | |- context [Z.ltb ?a ?b] => destruct (Z.ltb_spec a b)
  | |- context [Z.leb ?a ?b] => destruct (Z.leb_spec a b)
  | |- context [Z.eqb ?a ?b] => destruct (Z.eqb_spec a b)
  | H : context [Z.ltb ?a ?b] |- _ => destruct (Z.ltb_spec a b)
  | H : context [Z.leb ?a ?b] |- _ => destruct (Z.leb_spec a b)
  | H : context [Z.eqb ?a ?b] |- _ => destruct (Z.eqb_spec a b)
  end.

Module QueueOrderFacts.
Import SPSCQueue QueueModel RingArith.

Section Facts.
Context {T : Type} `{Inhabited T}.
Variable N : Z.
Hypothesis HN : valid_capacity N.

Lemma N_pos : 2 <= N.
Proof. destruct HN as (_ & H2 & _). exact H2. Qed.

Lemma count_range (q : t T) : 0 <= count N q < N.
Proof. apply Z.mod_pos_bound. pose proof N_pos. lia. Qed.

Lemma length_contents (q : t T) :
Z.of_nat (length (contents N q)) = count N q.
Proof.
unfold contents. rewrite length_map, length_seq.
pose proof (count_range q). lia.
Qed.

Lemma contents_push (q : t T) item :
wf N q -> (tail_ q + 1) mod N <> head_ q ->
contents N (mk (head_ q) ((tail_ q + 1) mod N)
                 (<[Z.to_nat (tail_ q) := item]> (storage_ q)))
= contents N q ++ [item].
Proof.
intros (Hh & Ht & Hl) Hne. pose proof N_pos as H2.
unfold contents, count, slot. cbn [head_ tail_ storage_].
assert (Hc : ((tail_ q + 1) mod N - head_ q) mod N
             = (tail_ q - head_ q) mod N + 1).
{ revert Hne. rewrite mod_succ by lia.
  destruct (Z.ltb_spec (tail_ q + 1) N); intros Hne;
    rewrite !mod_diff by lia; ring_cases; lia. }
rewrite Hc.
pose proof (Z.mod_pos_bound (tail_ q - head_ q) N ltac:(lia)) as Hb.
set (c := (tail_ q - head_ q) mod N) in *.
replace (Z.to_nat (c + 1)) with (S (Z.to_nat c)) by lia.
rewrite seq_S, map_app. cbn [map plus]. f_equal.
- apply map_ext_in. intros i Hi. apply in_seq in Hi.
  apply list_lookup_total_insert_ne.
  assert (Hi' : 0 <= Z.of_nat i < c) by lia.
  pose proof (Z.mod_pos_bound (head_ q + Z.of_nat i) N ltac:(lia)) as Hm.
  assert (tail_ q <> (head_ q + Z.of_nat i) mod N); [|lia].
  clear Hm.
  unfold c in Hi'. rewrite mod_diff in Hi' by lia.
  rewrite mod_once by (ring_cases; lia). ring_cases; lia.
- f_equal.
  assert (Hidx : (head_ q + Z.of_nat (Z.to_nat c)) mod N = tail_ q).
  { rewrite Z2Nat.id by lia. unfold c. rewrite mod_diff by lia.
    rewrite mod_once by (ring_cases; lia). ring_cases; lia. }
  rewrite Hidx. apply list_lookup_total_insert_eq. lia.
Qed.

Lemma contents_full (q : t T) :
wf N q -> (tail_ q + 1) mod N = head_ q -> count N q = N - 1.
Proof.
intros (Hh & Ht & Hl) He. pose proof N_pos as H2.
unfold count. revert He. rewrite mod_succ, mod_diff by lia.
ring_cases; lia.
Qed.

Lemma contents_empty (q : t T) :
head_ q = tail_ q -> contents N q = [].
Proof.
intros He. unfold contents, count. rewrite He, Z.sub_diag, Z.mod_0_l.
- reflexivity.
- pose proof N_pos. lia.
Qed.

Lemma contents_pop (q : t T) :
wf N q -> head_ q <> tail_ q ->
contents N q =
  storage_ q !!! Z.to_nat (head_ q) ::
  contents N (mk ((head_ q + 1) mod N) (tail_ q) (storage_ q)).
Proof.
intros (Hh & Ht & Hl) Hne. pose proof N_pos as H2.
unfold contents, count, slot. cbn [head_ tail_ storage_].
assert (Hc : (tail_ q - head_ q) mod N
             = (tail_ q - (head_ q + 1) mod N) mod N + 1).
{ rewrite mod_succ by lia.
  destruct (Z.ltb_spec (head_ q + 1) N);
    rewrite !mod_diff by lia; ring_cases; lia. }
rewrite Hc.
pose proof (Z.mod_pos_bound (tail_ q - (head_ q + 1) mod N) N ltac:(lia)) as Hb.
set (c := (tail_ q - (head_ q + 1) mod N) mod N) in *.
replace (Z.to_nat (c + 1)) with (S (Z.to_nat c)) by lia.
rewrite <- cons_seq. cbn [map]. f_equal.
- f_equal. rewrite Z.add_0_r, Z.mod_small by lia. reflexivity.
- rewrite <- seq_shift, map_map. apply map_ext. intros i.
  f_equal. f_equal. rewrite Zplus_mod_idemp_l. f_equal. lia.
Qed.

Lemma ring_contents_step (o : op) (q : t T) :
wf N q -> contents N (step N o q) = fifo_step N o (contents N q).
Proof.
intros Hq. pose proof Hq as (Hh & Ht & Hl).
destruct o as [item | |]; unfold step, fifo_step.
- unfold try_push. rewrite next_mod by auto.
  rewrite length_contents.
  destruct (Z.eqb_spec ((tail_ q + 1) mod N) (head_ q)) as [He | Hne];
    cbn [snd].
  + rewrite (contents_full q Hq He).
    rewrite Z.ltb_irrefl. reflexivity.
  + rewrite contents_push by assumption.
    assert (Hlt : count N q < N - 1).
    { pose proof N_pos as H2. unfold count. rewrite mod_diff by lia.
      revert Hne. rewrite mod_succ by lia. ring_cases; lia. }
    apply Z.ltb_lt in Hlt. rewrite Hlt. reflexivity.
- unfold try_pop. rewrite next_mod by auto.
  destruct (Z.eqb_spec (head_ q) (tail_ q)) as [He | Hne]; cbn [snd].
  + rewrite contents_empty by assumption. reflexivity.
  + rewrite (contents_pop q) by assumption. reflexivity.
- apply contents_empty. reflexivity.
Qed.

Lemma ring_contents_run ops (q : t T) :
wf N q -> contents N (run N ops q) = fifo_run N ops (contents N q).
Proof.
revert q. induction ops as [|o ops IH]; intros q Hq; [reflexivity|].
cbn [run fifo_run fold_left].
fold (run N ops (step N o q)).
fold (fifo_run N ops (fifo_step N o (contents N q))).
rewrite <- ring_contents_step by assumption.
apply IH, SPSCQueueFacts.wf_step; assumption.
Qed.

Lemma try_pop_head (q : t T) :
wf N q -> (try_pop N q).1 = head (contents N q).
Proof.
intros Hq. unfold try_pop.
destruct (Z.eqb_spec (head_ q) (tail_ q)) as [He | Hne]; cbn [fst].
- rewrite contents_empty by assumption. reflexivity.
- rewrite (contents_pop q) by assumption. reflexivity.
Qed.

Lemma try_push_room (q : t T) item :
wf N q ->
(try_push N item q).1 = (Z.of_nat (length (contents N q)) <? N - 1).
Proof.
intros Hq. pose proof Hq as (Hh & Ht & Hl). pose proof N_pos as H2.
unfold try_push. rewrite next_mod by auto. rewrite length_contents.
unfold count. rewrite mod_diff, mod_succ by lia.
ring_cases; cbn [fst]; try reflexivity; lia.
Qed.

Lemma size_approx_count (q : t T) :
wf N q -> size_approx N q = count N q.
Proof.
intros (Hh & Ht & Hl). pose proof N_pos as H2.
unfold size_approx, count.
rewrite SPSCQueueFacts.land_mask_mod
  by (auto; apply Z.mod_pos_bound; lia).
rewrite wrap64_mod by assumption.
rewrite <- Zplus_mod_idemp_l, wrap64_mod by assumption.
rewrite Zplus_mod_idemp_l.
rewrite <- (Z.mul_1_l N) at 1. apply Z.mod_add. lia.
Qed.

End Facts.

(** X1. A ring of power-of-two capacity [N] driven by any sequence of pushes,
  pops and clears holds exactly what a first-in first-out list bounded
  by [N - 1] items would hold; [try_pop] hands out the oldest item, and
  [try_push] succeeds exactly while fewer than [N - 1] items are stored. *)
Theorem queue_is_bounded_fifo {T : Type} `{Inhabited T} (N : Z) (ops : list op) (item : T) :
valid_capacity N ->
contents N (run N ops (init N)) = fifo_run N ops [] /\
(try_pop N (run N ops (init N))).1 = head (fifo_run N ops []) /\
(try_push N item (run N ops (init N))).1
  = (Z.of_nat (length (fifo_run N ops [])) <? N - 1).
Proof.
intros HN.
pose proof (SPSCQueueFacts.wf_init N HN (T := T)) as Hi.
pose proof (SPSCQueueFacts.wf_run N HN ops _ Hi) as Hr.
pose proof (ring_contents_run N HN ops _ Hi) as Hc.
rewrite (contents_empty N HN (init N)) in Hc by reflexivity.
rewrite <- Hc. split; [reflexivity | split].
- apply try_pop_head; assumption.
- apply try_push_room; assumption.
Qed.

Lemma queue_is_bounded_fifo_witness :
contents 4 (run 4 [Push 1%nat; Push 2%nat; Pop; Push 3%nat; Push 4%nat; Push 5%nat] (init 4))
  = fifo_run 4 [Push 1%nat; Push 2%nat; Pop; Push 3%nat; Push 4%nat; Push 5%nat] [] /\
(try_pop 4 (run 4 [Push 1%nat; Push 2%nat; Pop; Push 3%nat; Push 4%nat; Push 5%nat] (init 4))).1
  = head (fifo_run 4 [Push 1%nat; Push 2%nat; Pop; Push 3%nat; Push 4%nat; Push 5%nat] []) /\
(try_push 4 6%nat (run 4 [Push 1%nat; Push 2%nat; Pop; Push 3%nat; Push 4%nat; Push 5%nat] (init 4))).1
  = (Z.of_nat (length (fifo_run 4 [Push 1%nat; Push 2%nat; Pop; Push 3%nat; Push 4%nat; Push 5%nat] [])) <? 4 - 1).
Proof.
apply (queue_is_bounded_fifo 4).
unfold valid_capacity. split; [reflexivity | lia].
Defined.

(** X2. In every reachable state [size_approx] is the number of stored
  items, it lies between [0] and [N - 1], [full] holds exactly at
  [N - 1] and [empty] exactly at [0]. *)
Theorem size_approx_exact {T : Type} `{Inhabited T} (N : Z) (q : t T) :
valid_capacity N ->
reachable N q ->
size_approx N q = Z.of_nat (length (contents N q)) /\
0 <= size_approx N q <= N - 1 /\
(full N q = true <-> size_approx N q = N - 1) /\
(empty q = true <-> size_approx N q = 0).
Proof.
intros HN Hr. pose proof (SPSCQueueFacts.reachable_wf N HN q Hr) as Hq.
pose proof Hq as (Hh & Ht & Hl). pose proof (N_pos N HN) as H2.
rewrite (size_approx_count N HN q Hq), (length_contents N HN).
split; [reflexivity|].
unfold full, empty. rewrite next_mod by auto.
unfold count. rewrite mod_diff, mod_succ by lia.
repeat split; ring_cases; intros; try lia; try congruence.
Qed.

Lemma size_approx_exact_witness :
let q := run 8 [Push 1%nat; Push 2%nat; Push 3%nat; Pop] (init 8) in
size_approx 8 q = Z.of_nat (length (contents 8 q)) /\
0 <= size_approx 8 q <= 8 - 1 /\
(full 8 q = true <-> size_approx 8 q = 8 - 1) /\
(empty q = true <-> size_approx 8 q = 0).
Proof.
apply (size_approx_exact 8).
- unfold valid_capacity. split; [reflexivity | lia].
- eexists. reflexivity.
Defined.

End QueueOrderFacts.

Module FrameQueueFacts.
Import SPSCFrameQueue RingArith.
#[local] Existing Instance Slot_inhabited.

Section Facts.
Context {T : Type} `{Inhabited T}.
Variable N : Z.
Hypothesis HN : SPSCQueue.valid_capacity N.

Lemma next_eq x : 0 <= x < N -> next N x = (x + 1) mod N.
Proof. intros Hx. unfold next. apply next_mod; assumption. Qed.

Lemma produce_full (q : t T) v :
wf N q -> (tail_ q + 1) mod N = head_ q -> produce N v q = (false, q).
Proof.
intros (Hh & Ht & Hl & Hw & Hr) He.
unfold produce, begin_write. rewrite Hw, next_eq by assumption.
rewrite He, Z.eqb_refl. reflexivity.
Qed.

Lemma produce_room (q : t T) v :
wf N q -> (tail_ q + 1) mod N <> head_ q ->
produce N v q =
  (true, mk (head_ q) ((tail_ q + 1) mod N)
            (<[Z.to_nat (tail_ q) := mkSlot v true]> (slots_ q)) false).
Proof.
intros (Hh & Ht & Hl & Hw & Hr) Hne.
unfold produce, begin_write. rewrite Hw, next_eq by assumption.
apply Z.eqb_neq in Hne. rewrite Hne.
unfold commit_write, write. cbn [write_in_progress_ negb head_ tail_ slots_].
rewrite next_eq by assumption.
unfold set_ready, set_data.
rewrite list_lookup_total_insert_eq by lia.
rewrite list_insert_insert_eq. reflexivity.
Qed.

Lemma consume_empty (q : t T) :
head_ q = tail_ q -> consume N q = (None, q).
Proof.
intros He. unfold consume, peek_read.
apply Z.eqb_eq in He. rewrite He. reflexivity.
Qed.

Lemma ready_head (q : t T) :
wf N q -> head_ q <> tail_ q ->
ready (slots_ q !!! Z.to_nat (head_ q)) = true.
Proof.
intros (Hh & Ht & Hl & Hw & Hr) Hne.
rewrite Hr by assumption. unfold count.
rewrite Z.sub_diag, Z.mod_0_l by lia.
rewrite mod_diff by lia. ring_cases; lia.
Qed.

Lemma consume_item (q : t T) :
wf N q -> head_ q <> tail_ q ->
consume N q =
  (Some (data (slots_ q !!! Z.to_nat (head_ q))),
   mk ((head_ q + 1) mod N) (tail_ q)
      (<[Z.to_nat (head_ q) :=
           mkSlot (data (slots_ q !!! Z.to_nat (head_ q))) false]> (slots_ q))
      false).
Proof.
intros Hq Hne. pose proof (ready_head q Hq Hne) as Hrd.
destruct Hq as (Hh & Ht & Hl & Hw & Hr).
unfold consume, peek_read. apply Z.eqb_neq in Hne. rewrite Hne, Hrd.
cbn [negb]. unfold complete_read, set_ready.
rewrite next_eq, Hw by assumption. reflexivity.
Qed.

Lemma frame_wf_init : wf N (init N (T := T)).
Proof.
destruct HN as (_ & H2 & _).
unfold wf, init, count; cbn [head_ tail_ slots_ write_in_progress_].
rewrite length_replicate. repeat split; try lia.
intros j Hj. rewrite Z.sub_0_r, Z.mod_0_l by lia.
rewrite lookup_total_replicate_2 by lia. cbn [ready].
symmetry. apply Z.ltb_ge. apply Z.mod_pos_bound. lia.
Qed.

Lemma frame_wf_step (o : op) (q : t T) : wf N q -> wf N (step N o q).
Proof.
intros Hq. pose proof Hq as (Hh & Ht & Hl & Hw & Hr).
destruct HN as (_ & H2 & _).
destruct o as [v|]; unfold step.
- destruct (Z.eq_dec ((tail_ q + 1) mod N) (head_ q)) as [He | Hne].
  + rewrite produce_full by assumption. exact Hq.
  + rewrite produce_room by assumption.
    unfold wf, count; cbn [snd head_ tail_ slots_ write_in_progress_].
    rewrite length_insert.
    split; [exact Hh|]. split; [apply Z.mod_pos_bound; lia|].
    split; [exact Hl|]. split; [reflexivity|].
    intros j Hj.
    destruct (Z.eq_dec j (tail_ q)) as [-> | Hjt].
    * rewrite list_lookup_total_insert_eq by lia. cbn [ready].
      symmetry. apply Z.ltb_lt.
      revert Hne. rewrite mod_succ by lia.
      destruct (Z.ltb_spec (tail_ q + 1) N); intros Hne;
        rewrite !mod_diff by lia; ring_cases; lia.
    * rewrite list_lookup_total_insert_ne by lia.
      rewrite Hr by assumption. unfold count.
      revert Hne. rewrite mod_succ by lia.
      destruct (Z.ltb_spec (tail_ q + 1) N); intros Hne;
        rewrite !mod_diff by lia; ring_cases; lia.
- destruct (Z.eq_dec (head_ q) (tail_ q)) as [He | Hne].
  + rewrite consume_empty by assumption. exact Hq.
  + rewrite consume_item by assumption.
    unfold wf, count; cbn [snd head_ tail_ slots_ write_in_progress_].
    rewrite length_insert.
    split; [apply Z.mod_pos_bound; lia|]. split; [exact Ht|].
    split; [exact Hl|]. split; [reflexivity|].
    intros j Hj.
    destruct (Z.eq_dec j (head_ q)) as [-> | Hjh].
    * rewrite list_lookup_total_insert_eq by lia. cbn [ready].
      symmetry. apply Z.ltb_ge.
      rewrite mod_succ by lia.
      destruct (Z.ltb_spec (head_ q + 1) N);
        rewrite !mod_diff by lia; ring_cases; lia.
    * rewrite list_lookup_total_insert_ne by lia.
      rewrite Hr by assumption. unfold count.
      rewrite mod_succ by lia.
      destruct (Z.ltb_spec (head_ q + 1) N);
        rewrite !mod_diff by lia; ring_cases; lia.
Qed.

Lemma frame_wf_run ops (q : t T) : wf N q -> wf N (run N ops q).
Proof.
revert q. induction ops as [|o ops IH]; intros q Hq; [exact Hq|].
apply IH, frame_wf_step, Hq.
Qed.

Lemma wf_as_ring (q : t T) : wf N q -> SPSCQueue.wf N (as_ring q).
Proof.
intros (Hh & Ht & Hl & _). unfold SPSCQueue.wf, as_ring.
cbn [SPSCQueue.head_ SPSCQueue.tail_ SPSCQueue.storage_].
rewrite length_fmap. auto.
Qed.

Lemma contents_as_ring (q : t T) :
wf N q -> contents N q = QueueModel.contents N (as_ring q).
Proof.
intros (Hh & Ht & Hl & _). destruct HN as (_ & H2 & _).
unfold contents, QueueModel.contents, count, QueueModel.count, slot,
  QueueModel.slot, as_ring.
cbn [SPSCQueue.head_ SPSCQueue.tail_ SPSCQueue.storage_].
apply map_ext. intros i.
rewrite (list_lookup_total_fmap (@data T)); [reflexivity|].
pose proof (Z.mod_pos_bound (head_ q + Z.of_nat i) N ltac:(lia)). lia.
Qed.

Lemma ring_push h t (st : list T) item :
0 <= t < N ->
SPSCQueue.step N (SPSCQueue.Push item) (SPSCQueue.mk h t st) =
  if (t + 1) mod N =? h then SPSCQueue.mk h t st
  else SPSCQueue.mk h ((t + 1) mod N) (<[Z.to_nat t := item]> st).
Proof.
intros Ht. unfold SPSCQueue.step, SPSCQueue.try_push.
cbn [SPSCQueue.head_ SPSCQueue.tail_ SPSCQueue.storage_].
rewrite next_mod by assumption.
destruct (_ =? _); reflexivity.
Qed.

Lemma ring_pop h t (st : list T) :
0 <= h < N ->
SPSCQueue.step N SPSCQueue.Pop (SPSCQueue.mk h t st) =
  if h =? t then SPSCQueue.mk h t st
  else SPSCQueue.mk ((h + 1) mod N) t st.
Proof.
intros Hh. unfold SPSCQueue.step, SPSCQueue.try_pop.
cbn [SPSCQueue.head_ SPSCQueue.tail_ SPSCQueue.storage_].
rewrite next_mod by assumption.
destruct (_ =? _); reflexivity.
Qed.

Lemma as_ring_step (o : op) (q : t T) :
wf N q ->
as_ring (step N o q) =
  SPSCQueue.step N
    match o with Produce v => SPSCQueue.Push v | Consume => SPSCQueue.Pop end
    (as_ring q).
Proof.
intros Hq. pose proof Hq as (Hh & Ht & Hl & Hw & Hr).
destruct o as [v|]; unfold step.
- unfold as_ring at 2. rewrite ring_push by assumption.
  destruct (Z.eqb_spec ((tail_ q + 1) mod N) (head_ q)) as [He | Hne].
  + rewrite produce_full by assumption. reflexivity.
  + rewrite produce_room by assumption. unfold as_ring.
    cbn [snd head_ tail_ slots_]. rewrite list_fmap_insert. reflexivity.
- unfold as_ring at 2. rewrite ring_pop by assumption.
  destruct (Z.eqb_spec (head_ q) (tail_ q)) as [He | Hne].
  + rewrite consume_empty by assumption. reflexivity.
  + rewrite consume_item by assumption. unfold as_ring.
    cbn [snd head_ tail_ slots_]. rewrite list_fmap_insert. cbn [data].
    rewrite list_insert_id; [reflexivity|].
    rewrite list_lookup_fmap.
    rewrite (list_lookup_lookup_total_lt (slots_ q) (Z.to_nat (head_ q)))
      by lia.
    reflexivity.
Qed.

Lemma frame_contents_step (o : op) (q : t T) :
wf N q -> contents N (step N o q) = fifo_step N o (contents N q).
Proof.
intros Hq.
rewrite (contents_as_ring (step N o q)) by (apply frame_wf_step; exact Hq).
rewrite as_ring_step by exact Hq.
rewrite QueueOrderFacts.ring_contents_step by (auto using wf_as_ring).
rewrite <- contents_as_ring by exact Hq.
destruct o; reflexivity.
Qed.

Lemma frame_contents_run ops (q : t T) :
wf N q -> contents N (run N ops q) = fifo_run N ops (contents N q).
Proof.
revert q. induction ops as [|o ops IH]; intros q Hq; [reflexivity|].
cbn [run fifo_run fold_left].
fold (run N ops (step N o q)).
fold (fifo_run N ops (fifo_step N o (contents N q))).
rewrite <- frame_contents_step by assumption.
apply IH, frame_wf_step; assumption.
Qed.

Lemma contents_init : contents N (init N (T := T)) = [].
Proof.
destruct HN as (_ & H2 & _).
unfold contents, count, init; cbn [head_ tail_].
rewrite Z.sub_diag, Z.mod_0_l by lia. reflexivity.
Qed.

Lemma consume_head (q : t T) :
wf N q -> (consume N q).1 = head (contents N q).
Proof.
intros Hq. pose proof Hq as (Hh & Ht & Hl & Hw & Hr).
rewrite contents_as_ring by exact Hq.
rewrite <- QueueOrderFacts.try_pop_head by (auto using wf_as_ring).
unfold SPSCQueue.try_pop, as_ring.
cbn [SPSCQueue.head_ SPSCQueue.tail_ SPSCQueue.storage_].
destruct (Z.eqb_spec (head_ q) (tail_ q)) as [He | Hne].
- rewrite consume_empty by assumption. reflexivity.
- rewrite consume_item by assumption. cbn [fst].
  rewrite (list_lookup_total_fmap (@data T)) by lia. reflexivity.
Qed.

Lemma all_unready (q : t T) j :
wf N q -> head_ q = tail_ q -> 0 <= j < N ->
ready (slots_ q !!! Z.to_nat j) = false.
Proof.
intros (Hh & Ht & Hl & Hw & Hr) He Hj.
rewrite Hr by assumption. unfold count.
rewrite He, Z.sub_diag, Z.mod_0_l by lia.
apply Z.ltb_ge. apply Z.mod_pos_bound. lia.
Qed.

End Facts.

(** X3. A frame queue of power-of-two capacity [N], written through
  [begin_write]/[commit_write] and read through [peek_read]/
  [complete_read], holds what a first-in first-out list bounded by
  [N - 1] items would hold; the consumer is handed the oldest frame, and
  [peek_read] is null exactly when the queue is empty. *)
Theorem frame_queue_is_bounded_fifo {T : Type} `{Inhabited T} (N : Z) (ops : list (@op T)) :
SPSCQueue.valid_capacity N ->
contents N (run N ops (init N)) = fifo_run N ops [] /\
(consume N (run N ops (init N))).1 = head (fifo_run N ops []) /\
(peek_read (run N ops (init N)) = None <-> empty (run N ops (init N)) = true).
Proof.
intros HN.
pose proof (frame_wf_init N HN (T := T)) as Hi.
pose proof (frame_wf_run N HN ops _ Hi) as Hr.
pose proof (frame_contents_run N HN ops _ Hi) as Hc.
rewrite (contents_init N HN) in Hc. rewrite <- Hc.
split; [reflexivity | split].
- apply consume_head; assumption.
- unfold peek_read, empty.
  destruct (Z.eqb_spec (head_ (run N ops (init N))) (tail_ (run N ops (init N))))
    as [He | Hne]; [tauto|].
  rewrite (ready_head N _ Hr Hne). cbn [negb]. split; discriminate.
Qed.

Lemma frame_queue_is_bounded_fifo_witness :
contents 4 (run 4 [Produce 1%nat; Produce 2%nat; Consume; Produce 3%nat; Produce 4%nat] (init 4))
  = fifo_run 4 [Produce 1%nat; Produce 2%nat; Consume; Produce 3%nat; Produce 4%nat] [] /\
(consume 4 (run 4 [Produce 1%nat; Produce 2%nat; Consume; Produce 3%nat; Produce 4%nat] (init 4))).1
  = head (fifo_run 4 [Produce 1%nat; Produce 2%nat; Consume; Produce 3%nat; Produce 4%nat] []) /\
(peek_read (run 4 [Produce 1%nat; Produce 2%nat; Consume; Produce 3%nat; Produce 4%nat] (init 4)) = None
 <-> empty (run 4 [Produce 1%nat; Produce 2%nat; Consume; Produce 3%nat; Produce 4%nat] (init 4)) = true).
Proof.
apply (frame_queue_is_bounded_fifo 4).
unfold SPSCQueue.valid_capacity. split; [reflexivity | lia].
Defined.

(** X4. [complete_read] has no emptiness check: called on an empty frame
  queue it moves [head_] past [tail_], after which the producer finds the
  queue full, the consumer finds no ready frame, and no sequence of
  further writes and reads changes the queue. *)
Theorem complete_read_on_empty_wedges {T : Type} `{Inhabited T} (N : Z) (ops0 ops : list op) (v : T) :
SPSCQueue.valid_capacity N ->
empty (run N ops0 (init N)) = true ->
(produce N v (complete_read N (run N ops0 (init N)))).1 = false /\
(consume N (complete_read N (run N ops0 (init N)))).1 = None /\
run N ops (complete_read N (run N ops0 (init N)))
  = complete_read N (run N ops0 (init N)).
Proof.
intros HN He. pose proof HN as (_ & H2 & _).
pose proof (frame_wf_run N HN ops0 _ (frame_wf_init N HN (T := T))) as Hq.
set (q := run N ops0 (init N)) in *.
pose proof Hq as (Hh & Ht & Hl & Hw & Hr).
apply Z.eqb_eq in He.
assert (Hp : forall w, produce N w (complete_read N q) = (false, complete_read N q)).
{ intros w. unfold produce, begin_write, complete_read.
  cbn [write_in_progress_ head_ tail_]. rewrite Hw, <- He, Z.eqb_refl.
  reflexivity. }
assert (Hc : consume N (complete_read N q) = (None, complete_read N q)).
{ unfold consume, peek_read, complete_read. cbn [head_ tail_ slots_].
  rewrite next_eq by assumption.
  assert (Hne : (head_ q + 1) mod N <> tail_ q).
  { rewrite mod_succ by lia. ring_cases; lia. }
  apply Z.eqb_neq in Hne. rewrite Hne.
  unfold set_ready.
  pose proof (Z.mod_pos_bound (head_ q + 1) N ltac:(lia)) as Hb.
  rewrite list_lookup_total_insert.
  destruct (decide _) as [_ | _]; cbn [ready negb]; [reflexivity|].
  rewrite (all_unready N q ((head_ q + 1) mod N) Hq He Hb). reflexivity. }
split; [rewrite Hp; reflexivity|].
split; [rewrite Hc; reflexivity|].
induction ops as [|o ops IH]; [reflexivity|].
cbn [run fold_left]. fold (run N ops (step N o (complete_read N q))).
replace (step N o (complete_read N q)) with (complete_read N q); [exact IH|].
destruct o as [w|]; unfold step; [rewrite Hp | rewrite Hc]; reflexivity.
Qed.

Lemma complete_read_on_empty_wedges_witness :
(produce 4 7%nat (complete_read 4 (run 4 [Produce 1%nat; Consume] (init 4)))).1 = false /\
(consume 4 (complete_read 4 (run 4 [Produce 1%nat; Consume] (init 4)))).1 = None /\
run 4 [Produce 8%nat; Consume; Produce 9%nat] (complete_read 4 (run 4 [Produce 1%nat; Consume] (init 4)))
  = complete_read 4 (run 4 [Produce 1%nat; Consume] (init 4)).
Proof.
apply (complete_read_on_empty_wedges 4).
- unfold SPSCQueue.valid_capacity. split; [reflexivity | lia].
- reflexivity.
Defined.

End FrameQueueFacts.

(* --------------------------------------------------------------------- *)
(** ** The capture and encode threads around the pool and the queue *)
(* --------------------------------------------------------------------- *)

Module PipelineFacts.
Import Pipeline.

Lemma valid_queue : SPSCQueue.valid_capacity QUEUE_SIZE.
Proof.
unfold SPSCQueue.valid_capacity, QUEUE_SIZE. split; [reflexivity | lia].
Qed.

Lemma sized_reset b : sized b -> sized (FrameBufferPool.reset b).
Proof. intros Hb. exact Hb. Qed.

Lemma sized_allocate cap b :
0 <= cap -> sized b ->
sized (FrameBufferPool.allocate cap b) /\
cap <= FrameBufferPool.capacity (FrameBufferPool.allocate cap b).
Proof.
intros Hcap [Hl H0]. unfold FrameBufferPool.allocate.
destruct (Z.ltb_spec (FrameBufferPool.capacity b) cap);
  unfold sized; cbn [FrameBufferPool.data FrameBufferPool.capacity].
- rewrite length_replicate. lia.
- lia.
Qed.

Lemma memcpy_front dst src n :
0 <= n -> n <= Z.of_nat (length src) -> n <= Z.of_nat (length dst) ->
exists out, Bytes.memcpy dst 0 src 0 n = Some out /\ length out = length dst.
Proof.
intros H0 Hs Hd. unfold Bytes.memcpy.
assert (Hc : (0 <=? 0) && (0 <=? 0) && (0 <=? n)
             && (0 + n <=? Z.of_nat (length src))
             && (0 + n <=? Z.of_nat (length dst)) = true).
{ rewrite !andb_true_iff, !Z.leb_le. lia. }
rewrite Hc. eexists. split; [reflexivity|].
rewrite !length_app, !length_take, !length_drop. lia.
Qed.

Lemma fill_defined frame b :
sized b ->
Machine.wrap64 (pitch frame * height frame)
  <= Z.of_nat (length (cpu_data frame)) ->
exists b', fill frame b = Some b' /\ sized b'.
Proof.
intros Hb Hm. unfold fill.
set (n := Machine.wrap64 (pitch frame * height frame)) in *.
assert (Hn : 0 <= n) by (apply Z.mod_pos_bound; lia).
set (b1 := FrameBufferPool.mkBuffer _ _ _ _ _ _ _ _ _).
assert (Hb1 : sized b1) by exact Hb.
destruct (sized_allocate n b1 Hn Hb1) as [[Hl Hc] Hle].
destruct (memcpy_front (FrameBufferPool.data (FrameBufferPool.allocate n b1))
            (cpu_data frame) n Hn Hm ltac:(lia)) as (out & -> & Hout).
eexists. split; [reflexivity|].
unfold sized; cbn [FrameBufferPool.data FrameBufferPool.capacity].
rewrite Hout. auto.
Qed.

Lemma queued_range s :
SPSCQueue.wf QUEUE_SIZE (capture_queue_ s) -> 0 <= queued s <= 3.
Proof.
intros _. unfold queued.
rewrite (QueueOrderFacts.length_contents QUEUE_SIZE valid_queue).
pose proof (QueueOrderFacts.count_range QUEUE_SIZE valid_queue
              (capture_queue_ s)).
unfold QUEUE_SIZE in *. lia.
Qed.

Lemma held_range b : 0 <= held b <= 1.
Proof. destruct b; cbn; lia. Qed.

Lemma release_keeps b p :
FrameBufferPool.pool_size_ p = 6 ->
FrameBufferPool.free_count p < 12 ->
FrameBufferPool.release (Some b) p =
  FrameBufferPool.mk (FrameBufferPool.buffer_size_ p)
    (FrameBufferPool.pool_size_ p)
    (FrameBufferPool.reset b :: FrameBufferPool.free_buffers_ p).
Proof.
intros Hps Hfree. unfold FrameBufferPool.release.
rewrite Hps. change (Machine.wrap64 (6 * 2)) with 12.
apply Z.ltb_lt in Hfree. unfold FrameBufferPool.free_count in Hfree.
rewrite Hfree. reflexivity.
Qed.

Lemma pipeline_inv_init : inv init.
Proof.
unfold inv, init, queued.
cbn [frame_pool_ capture_queue_ capture_buffer encode_buffer].
rewrite (QueueOrderFacts.contents_empty QUEUE_SIZE valid_queue) by reflexivity.
split; [apply (SPSCQueueFacts.wf_init QUEUE_SIZE valid_queue)|].
split; [reflexivity|]. split; [reflexivity|].
split.
{ rewrite FrameBufferPoolFacts.free_count_create by lia. reflexivity. }
split; [constructor|].
split; [|split; exact I].
unfold FrameBufferPool.create; cbn [FrameBufferPool.free_buffers_].
apply Forall_replicate.
apply sized_allocate; [unfold max_frame_size; lia|].
split; [reflexivity | cbn; lia].
Qed.

Lemma pipeline_step_inv e s :
inv s -> frame_mapped e -> exists s', step e s = Some s' /\ inv s'.
Proof.
intros (Hwf & Hps & Hbs & Hsum & Hq & Hfree & Hcap & Henc) Hm.
pose proof (queued_range s Hwf) as Hqr.
pose proof (held_range (capture_buffer s)) as Hcr.
pose proof (held_range (encode_buffer s)) as Her.
assert (Hinv : inv s) by (unfold inv; tauto).
destruct e as [frame | | |]; unfold step.
- destruct (capture_buffer s) as [b0|] eqn:Ecap; [eauto|].
  cbn [held] in Hsum.
  unfold FrameBufferPool.acquire.
  unfold FrameBufferPool.free_count in Hsum.
  destruct (FrameBufferPool.free_buffers_ (frame_pool_ s)) as [|b rest] eqn:Efree.
  { cbn [length] in Hsum. lia. }
  apply Forall_cons in Hfree as [Hb Hrest].
  destruct (fill_defined frame (FrameBufferPool.reset b)
              (sized_reset b Hb) Hm) as (b' & Hfill & Hb').
  rewrite Hfill. cbn [mbind option_bind]. eexists. split; [reflexivity|].
  unfold inv, queued, FrameBufferPool.free_count.
  cbn [frame_pool_ capture_queue_ capture_buffer encode_buffer held
       FrameBufferPool.pool_size_ FrameBufferPool.buffer_size_
       FrameBufferPool.free_buffers_ sized_ptr].
  unfold queued in Hsum. cbn [length] in Hsum.
  split; [assumption|]. repeat split; try assumption; try lia; apply Hb'.
- destruct (capture_buffer s) as [b|] eqn:Ecap; [|eauto].
  pose proof (QueueOrderFacts.try_push_room QUEUE_SIZE valid_queue
                (capture_queue_ s) (Some b) Hwf) as Hroom.
  pose proof (QueueOrderFacts.ring_contents_step QUEUE_SIZE valid_queue
                (SPSCQueue.Push (Some b)) (capture_queue_ s) Hwf) as Hcont.
  pose proof (SPSCQueueFacts.wf_step QUEUE_SIZE valid_queue
                (SPSCQueue.Push (Some b)) (capture_queue_ s) Hwf) as Hwf'.
  unfold SPSCQueue.step, QueueModel.fifo_step in Hcont, Hwf'.
  destruct (SPSCQueue.try_push QUEUE_SIZE (Some b) (capture_queue_ s))
    as [pushed queue'] eqn:Epush.
  try rewrite Epush in Hroom.
  cbn [fst snd] in Hroom, Hcont, Hwf'.
  eexists. split; [reflexivity|].
  unfold inv, queued.
  cbn [frame_pool_ capture_queue_ capture_buffer encode_buffer held sized_ptr].
  rewrite Hcont, <- Hroom. unfold queued in Hsum, Hqr. cbn [held] in Hsum.
  destruct pushed.
  + rewrite length_app. cbn [length].
    split; [assumption|]. repeat split; try assumption; try lia.
    apply Forall_app. split; [exact Hq|].
    constructor; [|constructor]. split; [eauto | exact Hcap].
  + rewrite release_keeps by (assumption || lia).
    unfold FrameBufferPool.free_count in *.
    cbn [FrameBufferPool.pool_size_ FrameBufferPool.buffer_size_
         FrameBufferPool.free_buffers_ length].
    split; [assumption|]. repeat split; try assumption; try lia.
    constructor; [exact Hcap | exact Hfree].
- destruct (encode_buffer s) as [b0|] eqn:Eenc; [eauto|].
  pose proof (QueueOrderFacts.try_pop_head QUEUE_SIZE valid_queue
                (capture_queue_ s) Hwf) as Hhead.
  pose proof (QueueOrderFacts.ring_contents_step QUEUE_SIZE valid_queue
                SPSCQueue.Pop (capture_queue_ s) Hwf) as Hcont.
  pose proof (SPSCQueueFacts.wf_step QUEUE_SIZE valid_queue
                SPSCQueue.Pop (capture_queue_ s) Hwf) as Hwf'.
  unfold SPSCQueue.step, QueueModel.fifo_step in Hcont, Hwf'.
  destruct (SPSCQueue.try_pop QUEUE_SIZE (capture_queue_ s))
    as [item queue'] eqn:Epop.
  try rewrite Epop in Hhead.
  cbn [fst snd] in Hhead, Hcont, Hwf'.
  unfold queued in Hsum, Hqr. cbn [held] in Hsum.
  destruct (QueueModel.contents QUEUE_SIZE (capture_queue_ s))
    as [|x l] eqn:Ec; cbn [head tail] in Hhead, Hcont; subst item;
    [eauto|].
  apply Forall_cons in Hq as [[[b ->] Hb] Hl].
  eexists. split; [reflexivity|].
  unfold inv, queued.
  cbn [frame_pool_ capture_queue_ capture_buffer encode_buffer held sized_ptr].
  rewrite Hcont. cbn [length] in Hsum.
  split; [assumption|]. repeat split; try assumption; try lia; apply Hb.
- destruct (encode_buffer s) as [b|] eqn:Eenc; [|eauto].
  eexists. split; [reflexivity|].
  unfold inv, queued.
  cbn [frame_pool_ capture_queue_ capture_buffer encode_buffer held sized_ptr].
  unfold queued in Hsum, Hqr. cbn [held] in Hsum.
  rewrite release_keeps by (assumption || lia).
  unfold FrameBufferPool.free_count in *.
  cbn [FrameBufferPool.pool_size_ FrameBufferPool.buffer_size_
       FrameBufferPool.free_buffers_ length].
  split; [assumption|]. repeat split; try assumption; try lia.
  constructor; [exact Henc | exact Hfree].
Qed.

Lemma pipeline_run_inv es s :
inv s -> Forall frame_mapped es -> exists s', run es s = Some s' /\ inv s'.
Proof.
revert s. induction es as [|e es IH]; intros s Hs Hes; cbn [run]; [eauto|].
apply Forall_cons in Hes as [He Hes].
destruct (pipeline_step_inv e s Hs He) as (s1 & -> & Hs1).
cbn [mbind option_bind]. apply IH; assumption.
Qed.

(** X5. However the capture and the encode thread interleave, as long
  as each captured frame spans [pitch * height] mapped bytes: no copy
  leaves its buffer, the six pooled buffers are all accounted for (free,
  queued, or held by one of the threads), and the free list holds at
  least two buffers whenever the capture thread asks for one, so that
  [acquire] never allocates and [release] never discards. *)
Theorem pipeline_conserves_buffers (es : list event) :
Forall frame_mapped es ->
exists s,
  run es init = Some s /\
  FrameBufferPool.free_count (frame_pool_ s) + queued s
    + held (capture_buffer s) + held (encode_buffer s) = 6 /\
  (capture_buffer s = None -> 2 <= FrameBufferPool.free_count (frame_pool_ s)) /\
  FrameBufferPool.free_count (frame_pool_ s) <= 6.
Proof.
intros Hes.
destruct (pipeline_run_inv es init pipeline_inv_init Hes) as (s & Hrun & Hs).
exists s. split; [exact Hrun|].
destruct Hs as (Hwf & _ & _ & Hsum & _).
pose proof (queued_range s Hwf) as Hqr.
pose proof (held_range (capture_buffer s)) as Hcr.
pose proof (held_range (encode_buffer s)) as Her.
split; [exact Hsum|]. split; [|lia].
intros Hnone. rewrite Hnone in Hsum. cbn [held] in Hsum. lia.
Qed.

Lemma pipeline_conserves_buffers_witness :
exists s,
  run [CaptureAcquire (mkFrame [1; 2; 3; 4; 5; 6; 7; 8] 1 2 4 0 1);
       CapturePush; EncodePop; EncodeRelease] init = Some s /\
  FrameBufferPool.free_count (frame_pool_ s) + queued s
    + held (capture_buffer s) + held (encode_buffer s) = 6 /\
  (capture_buffer s = None -> 2 <= FrameBufferPool.free_count (frame_pool_ s)) /\
  FrameBufferPool.free_count (frame_pool_ s) <= 6.
Proof.
apply pipeline_conserves_buffers.
repeat constructor. vm_compute. intros Hc; discriminate Hc.
Defined.

End PipelineFacts.

(* --------------------------------------------------------------------- *)
(** ** Stereo shaper: the left half, the untouched bytes, the encoder's call *)
(* --------------------------------------------------------------------- *)

Module StereoFrameFacts.
Import Machine Mem MemFacts CPUStereoProcessor StereoFacts.

Lemma process_scaled_pitch input iw ih pitch ch output ow oh ds es p out' :
process_scaled input iw ih pitch ch output ow oh ds es = Some (p, out') ->
p = wrap32 (ow * 3).
Proof.
unfold process_scaled.
destruct (F32.to_u32 _) as [sep|]; cbn [mbind option_bind]; [|discriminate].
destruct (for_loop _ 0 _ output) as [o|]; cbn [mbind option_bind];
  [|discriminate].
intros [= <- _]. reflexivity.
Qed.

(** The [f32] column can lie below the exact one: for [Wi = 800],
  [Wo = 48] and [x = 15] the exact [floor(15 * 800 / 24)] is 500, the
  column the code computes is 499. *)
Lemma f32_column_below_exact :
15 * 800 / (48 / 2) = 500 /\
F32.to_u32 (F32.mul (F32.of_int 15)
              (F32.div (F32.of_int 800) (F32.of_int (48 / 2)))) = Some 499.
Proof. split; [reflexivity | vm_compute; reflexivity]. Qed.

(** X6. Every pixel [(x, y)] of the left half ([0 <= x < Wo/2]) holds the
  three channels of the input pixel at column [trunc(x *f (Wi /f (Wo/2)))]
  and row [trunc(y *f (Hi /f Ho))], where [/f] and [*f] are the quotient
  and the product of [f32], each rounded, and [trunc] is the conversion
  to [u32]; this is not always the floor of the exact quotient. The eye
  separation does not shift the left eye, and its clamp never changes the
  column. The offsets fit 32 bits. *)
Theorem left_half_source input iw ih pitch ch output ow oh ds es p out' x y :
process_scaled input iw ih pitch ch output ow oh ds es = Some (p, out') ->
0 <= ow -> 0 <= oh -> ow * 3 * oh < 2 ^ 32 ->
iw < 2 ^ 32 -> 0 <= pitch -> 0 <= ch ->
0 <= x < ow / 2 -> 0 <= y < oh ->
exists sep fx sy,
  F32.to_u32 (F32.mul (F32.of_int iw) es) = Some sep /\
  F32.to_u32 (F32.mul (F32.of_int x)
                (F32.div (F32.of_int iw) (F32.of_int (ow / 2)))) = Some fx /\
  F32.to_u32 (F32.mul (F32.of_int y)
                (F32.div (F32.of_int ih) (F32.of_int oh))) = Some sy /\
  (fx + sep < 2 ^ 32 -> sy * pitch < 2 ^ 32 -> fx * ch < 2 ^ 32 ->
   pixel_copied input (sy * pitch + fx * ch) out' (y * (ow * 3) + x * 3)).
Proof.
intros Hps How Hoh H32 Hiw Hpitch Hch Hx Hy.
apply process_scaled_spec in Hps as (sep & Esep & _ & Hcells);
  [ | lia | lia | lia ].
destruct (Hcells y x) as (sy & Esy & (sx & Esx & Hpc) & _); [lia | lia |].
pose proof Esx as Esx'. unfold left_src_x in Esx'.
destruct (F32.to_u32 (F32.mul (F32.of_int x)
            (F32.div (F32.of_int iw) (F32.of_int (ow / 2))))) as [fx|] eqn:Efx;
  cbn [mbind option_bind] in Esx'; [|discriminate].
clear Esx'.
exists sep, fx, sy. split; [exact Esep|]. split; [reflexivity|].
split; [exact Esy|].
intros Hno1 Hno2 Hno3.
pose proof (to_u32_range _ _ Esep). pose proof (to_u32_range _ _ Efx).
pose proof (to_u32_range _ _ Esy).
rewrite (left_src_x_unclamped iw sep _ x fx) in Esx by (assumption || lia).
injection Esx as <-.
rewrite (wrap32_small (sy * pitch)) in Hpc by nia.
rewrite (wrap32_small (fx * ch)) in Hpc by nia.
replace (y * (ow * 3) + x * 3) with (y * (ow * 3) + 3 * x) by lia.
exact Hpc.
Qed.

Lemma left_half_source_witness :
exists sep fx sy,
  F32.to_u32 (F32.mul (F32.of_int 16) (F32.lit 625 4)) = Some sep /\
  F32.to_u32 (F32.mul (F32.of_int 15)
                (F32.div (F32.of_int 16) (F32.of_int (32 / 2)))) = Some fx /\
  F32.to_u32 (F32.mul (F32.of_int 0)
                (F32.div (F32.of_int 1) (F32.of_int 1))) = Some sy /\
  (fx + sep < 2 ^ 32 -> sy * 64 < 2 ^ 32 -> fx * 4 < 2 ^ 32 ->
   pixel_copied (map Z.of_nat (seq 0 64)) (sy * 64 + fx * 4)
     (snd (default (0, []) (process_scaled (map Z.of_nat (seq 0 64)) 16 1 64 4
                              (replicate 96 0) 32 1 F32.one (F32.lit 625 4))))
     (0 * (32 * 3) + 15 * 3)).
Proof.
eapply (left_half_source (map Z.of_nat (seq 0 64)) 16 1 64 4 (replicate 96 0)
          32 1 F32.one (F32.lit 625 4)).
- vm_compute. reflexivity.
- lia.
- lia.
- lia.
- lia.
- lia.
- lia.
- Z.div_mod_to_equations. lia.
- lia.
Defined.

(** X7. [process_scaled] returns the pitch [Wo * 3], keeps the length of
  the output buffer, and changes no byte outside the [2 * (Wo/2)] pixels
  it writes in each of the [Ho] rows; in particular no byte at or beyond
  offset [Wo * 3 * Ho], and, for an odd [Wo], not the last pixel of any
  row. *)
Theorem process_scaled_frame input iw ih pitch ch output ow oh ds es p out' :
0 <= ow -> 0 <= oh < 2 ^ 32 -> ow * 3 * oh < 2 ^ 32 ->
process_scaled input iw ih pitch ch output ow oh ds es = Some (p, out') ->
p = wrap32 (ow * 3) /\
length out' = length output /\
(forall i,
   (forall y, 0 <= y < oh ->
      ~ (y * (ow * 3) <= i < y * (ow * 3) + 3 * (2 * (ow / 2)))) ->
   load out' i = load output i) /\
(forall i, ow * 3 * oh <= i -> load out' i = load output i).
Proof.
intros How Hoh H32 Hps.
split; [exact (process_scaled_pitch _ _ _ _ _ _ _ _ _ _ _ _ Hps)|].
assert (Hhalf : 0 <= ow / 2) by (apply Z.div_pos; lia).
assert (H2half : 2 * (ow / 2) <= ow) by (pose proof (Z.mul_div_le ow 2); lia).
assert (Hmain :
  length out' = length output /\
  forall i,
    (forall y, 0 <= y < oh ->
       ~ (y * (ow * 3) <= i < y * (ow * 3) + 3 * (2 * (ow / 2)))) ->
    load out' i = load output i).
{ unfold process_scaled in Hps.
  destruct (F32.to_u32 (F32.mul (F32.of_int iw) es)) as [sep|];
    cbn [mbind option_bind] in Hps; [|discriminate].
  destruct (for_loop _ 0 _ output) as [o|] eqn:Eloop;
    cbn [mbind option_bind] in Hps; [|discriminate].
  injection Hps as _ <-.
  destruct (Z.ltb_spec oh (2 ^ 31)) as [Hlt | Hge].
  - assert (Eas : as_i32 oh = oh).
    { unfold as_i32. destruct (Z.ltb_spec oh (2 ^ 31)); lia. }
    rewrite Eas in Eloop.
    pose (P := fun (j : Z) (t : list Z) =>
      length t = length output /\
      forall i,
        (forall y, 0 <= y < j ->
           ~ (y * (ow * 3) <= i < y * (ow * 3) + 3 * (2 * (ow / 2)))) ->
        load t i = load output i).
    assert (HP : P (0 + Z.of_nat (Z.to_nat oh)) o).
    { apply (for_loop_ind P _ _ 0 output o Eloop).
      - split; [reflexivity|]. intros i _. reflexivity.
      - intros j t t' Hj (Hlen & Hout) Hstep.
        assert (Hjoh : 0 <= j < oh) by lia.
        assert (EOP : wrap32 (ow * 3) = ow * 3) by (apply wrap32_small; nia).
        rewrite EOP in Hstep.
        apply process_row_spec in Hstep as (sy & _ & Hl & Hf & _);
          [ | lia | lia | nia | nia ].
        split; [congruence|].
        intros i Hi. rewrite Hf by (apply Hi; lia).
        apply Hout. intros y Hy. apply Hi. lia. }
    rewrite Z2Nat.id in HP by lia. exact HP.
  - assert (Eas : Z.to_nat (as_i32 oh) = 0%nat).
    { unfold as_i32. destruct (Z.ltb_spec oh (2 ^ 31)); lia. }
    rewrite Eas in Eloop. cbn [for_loop] in Eloop. injection Eloop as <-.
    split; reflexivity. }
destruct Hmain as (Hlen & Hout). split; [exact Hlen|]. split; [exact Hout|].
intros i Hi. apply Hout. intros y Hy. nia.
Qed.

Lemma process_scaled_frame_witness :
fst (default (0, []) (process_scaled (map Z.of_nat (seq 0 64)) 16 1 64 4
                        (replicate 100 7) 5 1 F32.one (F32.lit 625 4)))
  = wrap32 (5 * 3) /\
length (snd (default (0, []) (process_scaled (map Z.of_nat (seq 0 64)) 16 1 64 4
                        (replicate 100 7) 5 1 F32.one (F32.lit 625 4))))
  = length (replicate 100 7) /\
(forall i,
   (forall y, 0 <= y < 1 ->
      ~ (y * (5 * 3) <= i < y * (5 * 3) + 3 * (2 * (5 / 2)))) ->
   load (snd (default (0, []) (process_scaled (map Z.of_nat (seq 0 64)) 16 1 64 4
                        (replicate 100 7) 5 1 F32.one (F32.lit 625 4)))) i
   = load (replicate 100 7) i) /\
(forall i, 5 * 3 * 1 <= i ->
   load (snd (default (0, []) (process_scaled (map Z.of_nat (seq 0 64)) 16 1 64 4
                        (replicate 100 7) 5 1 F32.one (F32.lit 625 4)))) i
   = load (replicate 100 7) i).
Proof.
apply (process_scaled_frame (map Z.of_nat (seq 0 64)) 16 1 64 4
         (replicate 100 7) 5 1 F32.one (F32.lit 625 4)).
- lia.
- lia.
- lia.
- vm_compute. reflexivity.
Defined.

Lemma process_scaled_defined_witness :
exists out',
  process_scaled [10; 11; 12; 13; 20; 21; 22; 23] 2 1 8 4 (replicate 12 0)
                 4 1 F32.one (F32.lit 0 0)
  = Some (wrap32 (4 * 3), out').
Proof.
apply (process_scaled_defined _ 2 1 8 4 _ 4 1 F32.one (F32.lit 0 0) 0).
- lia.
- lia.
- lia.
- cbn. lia.
- vm_compute. reflexivity.
- intros y Hy. assert (y = 0) as -> by lia.
  exists 0. split; [vm_compute; reflexivity|].
  intros x Hx.
  assert (x = 0 \/ x = 1) as [-> | ->]
    by (revert Hx; change (4 / 2) with 2; lia).
  + split; exists 0; (split; vm_compute; reflexivity).
  + split; exists 1; (split; vm_compute; reflexivity).
Defined.

End StereoFrameFacts.

Module EncoderRequestFacts.
Import Machine Cfg VRFrameEncoder.




(** X10. When the scaled width is below two pixels the output width is
  zero, the shaper reports a zero pitch, and the back end is handed the
  caller's raster unshaped: full input size, the input's own pitch and
  channel count. *)
Theorem prepare_zero_width_fallback e input width height pitch channels oh rq sb :
vr_enabled (config_ e) = true ->
output_dims (config_ e) width height = Some (0, oh) ->
prepare e input width height pitch channels = Some (rq, sb) ->
rq = JPEG.mkRequest input width height pitch channels (jpeg_quality (config_ e)).
Proof.
intros Hvr Hd Hp.
unfold prepare in Hp. rewrite Hd in Hp. cbn [mbind option_bind] in Hp.
rewrite Hvr in Hp.
destruct (CPUStereoProcessor.process_scaled _ _ _ _ _ _ _ _ _ _)
  as [[p sb']|] eqn:Eps; cbn [mbind option_bind] in Hp; [|discriminate].
pose proof (StereoFrameFacts.process_scaled_pitch _ _ _ _ _ _ _ _ _ _ _ _ Eps)
  as Epitch.
change (wrap32 (0 * 3)) with 0 in Epitch. subst p.
change (0 <? 0) with false in Hp. injection Hp as <- _. reflexivity.
Qed.

Lemma prepare_zero_width_fallback_witness :
exists rq sb,
  prepare (create EncoderConfig_init) [10; 11; 12; 13; 20; 21; 22; 23] 1 2 4 4
    = Some (rq, sb) /\
  rq = JPEG.mkRequest [10; 11; 12; 13; 20; 21; 22; 23] 1 2 4 4
         (jpeg_quality (config_ (create EncoderConfig_init))).
Proof.
eexists. eexists. split; [vm_compute; reflexivity|].
eapply (prepare_zero_width_fallback (create EncoderConfig_init)
         [10; 11; 12; 13; 20; 21; 22; 23] 1 2 4 4 0).
- reflexivity.
- vm_compute. reflexivity.
- vm_compute. reflexivity.
Defined.

End EncoderRequestFacts.

(* --------------------------------------------------------------------- *)
(** ** Configuration files: presets, files without sections, overflow *)
(* --------------------------------------------------------------------- *)

Module ConfigFileFacts.
Import Cfg Text ConfigIO ConfigLines TextFacts ConfigFacts MemFacts.

Local Arguments Ascii.eqb : simpl never.

#[local] Hint Resolve print_unsigned_plain print_signed_plain print_bool_plain
  print_method_plain print_float_plain plain_no_colon plain_no_nl : text.

Lemma representable_preset p c :
representable c -> representable (apply_preset p c).
Proof.
intros ((C1 & C2 & C3)
        & (E1 & E2 & E3 & E4 & E5 & E6 & (E7 & E7n) & (E8 & E8n)) & HN).
destruct c as [cap enc net]. destruct cap, enc.
unfold representable, reads_back, fits_int, Machine.INT_MAX in *.
destruct p; cbn in *;
  (split; [|split; [|exact HN]]); repeat split; try assumption; try lia;
  first [ unfold prints_exactly; vm_compute; reflexivity
        | vm_compute; discriminate ].
Qed.

Lemma default_well_typed : well_typed default_config.
Proof.
unfold well_typed, in_u32, Machine.INT_MIN, Machine.INT_MAX. cbn. lia.
Qed.

(** X11. Applying any quality preset to a configuration that survives
  [save] and [load] (what [load] reads from what [save] wrote has every
  key equal to its own) gives one that survives them too: after [save],
  [load] returns the preset configuration itself, every key equal; the
  preset's quality, frame rate, method and bit rate are read back as
  written, and its downscale factor (0.35, 0.5, 0.65, 0.8 or 1) is read
  back exactly from its six printed digits. The fields hold values of
  their C++ types. *)
Theorem preset_survives_roundtrip (p : QualityPreset) (c : Config) (filepath : string) (fs : FS) :
well_typed c ->
survives c ->
writable fs filepath = true ->
(save (apply_preset p c) filepath fs).1 = true /\
load filepath (save (apply_preset p c) filepath fs).2 = Some (apply_preset p c) /\
keys_equal (apply_preset p c) (apply_preset p c).
Proof.
intros Wc Hc Hw. unfold save. rewrite Hw. split; [reflexivity|].
unfold load. cbn [snd files]. rewrite lookup_insert_eq.
pose proof (representable_preset p c (survives_representable c Wc Hc)) as Hp.
split; [apply load_text_save_text, Hp | apply representable_keys_equal, Hp].
Qed.

Lemma preset_survives_roundtrip_witness :
(save (apply_preset MAXIMUM_QUALITY default_config) "config.yaml"
      (mkFS ∅ (fun _ => true))).1 = true /\
load "config.yaml"
     (save (apply_preset MAXIMUM_QUALITY default_config) "config.yaml"
           (mkFS ∅ (fun _ => true))).2
  = Some (apply_preset MAXIMUM_QUALITY default_config) /\
keys_equal (apply_preset MAXIMUM_QUALITY default_config)
           (apply_preset MAXIMUM_QUALITY default_config).
Proof.
apply (preset_survives_roundtrip MAXIMUM_QUALITY default_config "config.yaml").
- apply default_well_typed.
- apply representable_survives, default_representable.
- reflexivity.
Defined.





(** X13. [save] writes an unsigned field in full, [load] reads it with
  [std::stoi]: a configuration whose [target_fps] exceeds [INT_MAX] is
  saved successfully and then makes [load] throw. *)
Theorem saved_fps_above_int_max_unloadable (c : Config) (filepath : string) (fs : FS) :
plain (str (host (network c))) = true ->
plain (str (static_ip (network c))) = true ->
Machine.INT_MAX < target_fps (capture c) < 2 ^ 32 ->
writable fs filepath = true ->
(save c filepath fs).1 = true /\
load filepath (save c filepath fs).2 = None.
Proof.
intros Hh Hs Hfps Hw. unfold save. rewrite Hw. split; [reflexivity|].
unfold load. cbn [snd files]. rewrite lookup_insert_eq.
unfold load_text.
rewrite save_text_unlines, getlines_unlines
  by (apply save_lines_no_nl; apply plain_no_nl; assumption).
unfold save_lines.
change ([str "# VR Streamer Configuration"; []; str "capture:"] ++
        capture_lines (capture c) ++ [[]; str "encoder:"] ++
        encoder_lines (encoder c) ++ [[]; str "network:"] ++
        network_lines (network c))
  with (str "# VR Streamer Configuration" :: [] :: str "capture:" ::
        (capture_lines (capture c) ++ [] :: str "encoder:" ::
         (encoder_lines (encoder c) ++ [] :: str "network:" ::
          network_lines (network c)))).
rewrite (load_lines_step _ _ _ ([], Config_init)) by reflexivity.
rewrite (load_lines_step _ _ _ ([], Config_init)) by reflexivity.
rewrite (load_lines_step _ _ _ (str "capture", Config_init)) by reflexivity.
unfold Config_init, capture_lines.
cbn [app].
assert (Hl : load_line (str "  target_fps: " ++ print_unsigned (target_fps (capture c)))
               (str "capture", mkConfig CaptureConfig_init EncoderConfig_init
                                 NetworkConfig_init) = None).
{ eapply load_line_capture_throws.
  - eexists; reflexivity.
  - apply parse_value_plain; [reflexivity | solve [auto with text]].
  - apply print_unsigned_nonempty.
  - eval_chain. rewrite stoi_print_unsigned_overflow; [reflexivity|].
    unfold Machine.INT_MAX in *. lia. }
rewrite (load_lines_throw _ _ _ Hl). reflexivity.
Qed.

Lemma saved_fps_above_int_max_unloadable_witness :
(save (on_capture (set_target_fps 4000000000) default_config) "config.yaml"
      (mkFS ∅ (fun _ => true))).1 = true /\
load "config.yaml"
     (save (on_capture (set_target_fps 4000000000) default_config) "config.yaml"
           (mkFS ∅ (fun _ => true))).2 = None.
Proof.
apply (saved_fps_above_int_max_unloadable
         (on_capture (set_target_fps 4000000000) default_config) "config.yaml").
- reflexivity.
- reflexivity.
- unfold Machine.INT_MAX. cbn. lia.
- reflexivity.
Defined.

End ConfigFileFacts.

(* --------------------------------------------------------------------- *)
(** ** Capture: what recovery reaches and what it never reaches *)
(* --------------------------------------------------------------------- *)

Module CaptureRecoveryFacts.
Import DXGICapture CaptureManager.

Lemma init_initialized p i c :
initialized_ (DXGICapture.init p i c).2 = (DXGICapture.init p i c).1.
Proof.
unfold DXGICapture.init, create_device, create_duplication,
  create_staging_texture, shutdown. cbn.
destruct (device_ok p); cbn; [|reflexivity].
destruct (output_exists p i); cbn; [|reflexivity].
destruct (duplicate_ok p); cbn; [|reflexivity].
destruct (staging_ok p); reflexivity.
Qed.

Lemma init_window_initialized p hwnd c :
initialized_ c = false ->
initialized_ (init_window p hwnd c).2 = (init_window p hwnd c).1.
Proof.
intros Hc. unfold init_window.
destruct (is_window p hwnd); cbn; [|exact Hc].
pose proof (init_initialized p (window_monitor p hwnd) c) as Hi.
destruct (DXGICapture.init p (window_monitor p hwnd) c) as [ok c'].
cbn in Hi. destruct ok; cbn; exact Hi.
Qed.

Lemma init_window_target p hwnd c :
(init_window p hwnd c).1 = true ->
target_window_ (init_window p hwnd c).2 = hwnd /\
monitor_index_ (init_window p hwnd c).2 = window_monitor p hwnd.
Proof.
unfold init_window.
destruct (is_window p hwnd); cbn; [|discriminate].
pose proof (CaptureFacts.init_monitor_index p (window_monitor p hwnd) c) as Hi.
destruct (DXGICapture.init p (window_monitor p hwnd) c) as [ok c'].
cbn in Hi. destruct ok; cbn; [|discriminate]. auto.
Qed.

Lemma capture_frame_keeps p c :
initialized_ (capture_frame p c).2 = initialized_ c /\
target_window_ (capture_frame p c).2 = target_window_ c /\
monitor_index_ (capture_frame p c).2 = monitor_index_ c.
Proof.
unfold capture_frame.
destruct (negb (initialized_ c) || negb (duplication_ c)); [auto|].
destruct (next_frame p); auto.
unfold reinit_duplication, create_duplication. cbn.
destruct (output_exists p (monitor_index_ c)); cbn; [|auto].
destruct (duplicate_ok p); auto.
Qed.

(** What a capture call does to an uninitialised source that has
    attempts left. *)
Lemma capture_uninitialised p m :
initialized_ (capture_ m) = false ->
recovery_attempts_ m < MAX_RECOVERY_ATTEMPTS ->
initialized_ (capture_ (capture p m).2) = false ->
(capture p m).1 = false /\
recovery_attempts_ (capture p m).2 = Machine.wrap32 (recovery_attempts_ m + 1).
Proof.
intros Hinit Hatt. unfold capture. rewrite Hinit. cbn [negb].
destruct (Z.leb_spec MAX_RECOVERY_ATTEMPTS (recovery_attempts_ m)); [lia|].
destruct (use_window_capture_ m && negb (selected_window_ m =? 0)).
- pose proof (init_window_initialized p (selected_window_ m) (capture_ m) Hinit)
    as Hi.
  destruct (init_window p (selected_window_ m) (capture_ m)) as [ok c].
  cbn in Hi. destruct ok; cbn; [|auto].
  pose proof (capture_frame_keeps p c) as (Hk & _).
  destruct (capture_frame p c) as [got c']. cbn in *. congruence.
- pose proof (init_initialized p 0 (capture_ m)) as Hi.
  destruct (DXGICapture.init p 0 (capture_ m)) as [ok c].
  cbn in Hi. destruct ok; cbn; [|auto].
  pose proof (capture_frame_keeps p c) as (Hk & _).
  destruct (capture_frame p c) as [got c']. cbn in *. congruence.
Qed.

(** X14. The recovery counter is reset only by a successful recovery:
  when the source is still unavailable after three capture calls in a
  row, every later capture call fails at once and leaves the manager as
  it is, whatever the system would answer by then. *)
Theorem three_failed_recoveries_are_final (m : CaptureManager.t) (p1 p2 p3 p : Platform) :
initialized_ (capture_ m) = false ->
recovery_attempts_ m = 0 ->
initialized_ (capture_ (capture p1 m).2) = false ->
initialized_ (capture_ (capture p2 (capture p1 m).2).2) = false ->
initialized_ (capture_ (capture p3 (capture p2 (capture p1 m).2).2).2) = false ->
capture p (capture p3 (capture p2 (capture p1 m).2).2).2
  = (false, (capture p3 (capture p2 (capture p1 m).2).2).2).
Proof.
intros H0 Ha H1 H2 H3.
destruct (capture_uninitialised p1 m H0 ltac:(rewrite Ha; reflexivity) H1)
  as (_ & A1).
rewrite Ha in A1. change (Machine.wrap32 (0 + 1)) with 1 in A1.
destruct (capture_uninitialised p2 _ H1 ltac:(rewrite A1; reflexivity) H2)
  as (_ & A2).
rewrite A1 in A2. change (Machine.wrap32 (1 + 1)) with 2 in A2.
destruct (capture_uninitialised p3 _ H2 ltac:(rewrite A2; reflexivity) H3)
  as (_ & A3).
rewrite A2 in A3. change (Machine.wrap32 (2 + 1)) with 3 in A3.
apply CaptureFacts.recovery_bounded; [exact H3|].
rewrite A3. unfold MAX_RECOVERY_ATTEMPTS. lia.
Qed.

Lemma three_failed_recoveries_are_final_witness :
capture two_monitors
  (capture two_monitors_busy
     (capture two_monitors_busy
        (capture two_monitors_busy CaptureManager.create).2).2).2
= (false,
   (capture two_monitors_busy
      (capture two_monitors_busy
         (capture two_monitors_busy CaptureManager.create).2).2).2).
Proof.
apply (three_failed_recoveries_are_final CaptureManager.create
         two_monitors_busy two_monitors_busy two_monitors_busy two_monitors);
  reflexivity.
Defined.

Lemma capture_access_lost p mi tw dev stg fid fc fd sw uw ra :
next_frame p = AccessLost ->
output_exists p mi && duplicate_ok p = false ->
capture p (CaptureManager.mk (DXGICapture.mk true mi tw dev true stg fid fc fd)
                             sw uw ra)
= (false, CaptureManager.mk (DXGICapture.mk true mi tw dev false stg fid fc fd)
                            sw uw ra).
Proof.
intros Hn Hf.
unfold capture, capture_frame, reinit_duplication, create_duplication.
cbn. rewrite Hn. cbn.
destruct (output_exists p mi); cbn in Hf |- *; [rewrite Hf|]; reflexivity.
Qed.

(** X15. When desktop duplication is lost and cannot be re-created at
  once, the source stays initialised without a duplication: every later
  capture call fails and changes nothing, and the recovery path, which
  looks at [initialized()] only, is never entered. *)
Theorem lost_duplication_is_never_recovered (m : CaptureManager.t) (p p' : Platform) :
initialized_ (capture_ m) = true ->
duplication_ (capture_ m) = true ->
next_frame p = AccessLost ->
output_exists p (monitor_index_ (capture_ m)) && duplicate_ok p = false ->
(capture p m).1 = false /\
initialized_ (capture_ (capture p m).2) = true /\
capture p' (capture p m).2 = (false, (capture p m).2).
Proof.
intros Hi Hd Hn Hf.
destruct m as [c sw uw ra]. destruct c as [ini mi tw dev dup stg fid fc fd].
cbn in Hi, Hd, Hf. subst ini dup.
rewrite (capture_access_lost p mi tw dev stg fid fc fd sw uw ra Hn Hf).
cbn [fst snd capture_ initialized_].
split; [reflexivity|]. split; [reflexivity|].
reflexivity.
Qed.

Lemma lost_duplication_is_never_recovered_witness :
(capture (mkPlatform true (fun i => (0 <=? i) && (i <? 2)) false true
            (fun _ => false) (fun _ => 0) AccessLost)
         (CaptureManager.init two_monitors CaptureManager.create).2).1 = false /\
initialized_ (capture_
  (capture (mkPlatform true (fun i => (0 <=? i) && (i <? 2)) false true
              (fun _ => false) (fun _ => 0) AccessLost)
           (CaptureManager.init two_monitors CaptureManager.create).2).2) = true /\
capture two_monitors
  (capture (mkPlatform true (fun i => (0 <=? i) && (i <? 2)) false true
              (fun _ => false) (fun _ => 0) AccessLost)
           (CaptureManager.init two_monitors CaptureManager.create).2).2
= (false,
   (capture (mkPlatform true (fun i => (0 <=? i) && (i <? 2)) false true
               (fun _ => false) (fun _ => 0) AccessLost)
            (CaptureManager.init two_monitors CaptureManager.create).2).2).
Proof.
apply lost_duplication_is_never_recovered; reflexivity.
Defined.

(** X16. A recovery in window mode goes back to the selected window:
  when it succeeds the source targets that window again, on the monitor
  the window is on at the time of the recovery. *)
Theorem window_recovery_targets_window (p : Platform) (m : CaptureManager.t) :
initialized_ (capture_ m) = false ->
use_window_capture_ m = true ->
selected_window_ m <> 0 ->
recovery_attempts_ m < MAX_RECOVERY_ATTEMPTS ->
initialized_ (capture_ (capture p m).2) = true ->
target_window_ (capture_ (capture p m).2) = selected_window_ m /\
monitor_index_ (capture_ (capture p m).2) = window_monitor p (selected_window_ m) /\
recovery_attempts_ (capture p m).2 = 0.
Proof.
intros Hinit Hwin Hsel Hatt. unfold capture. rewrite Hinit, Hwin. cbn [negb andb].
destruct (Z.leb_spec MAX_RECOVERY_ATTEMPTS (recovery_attempts_ m)); [lia|].
apply Z.eqb_neq in Hsel. rewrite Hsel. cbn [negb].
pose proof (init_window_initialized p (selected_window_ m) (capture_ m) Hinit)
  as Hi.
pose proof (init_window_target p (selected_window_ m) (capture_ m)) as Ht.
destruct (init_window p (selected_window_ m) (capture_ m)) as [ok c].
cbn in Hi, Ht. destruct ok; cbn.
- destruct (Ht eq_refl) as [Ht1 Ht2].
  pose proof (capture_frame_keeps p c) as (_ & Hk1 & Hk2).
  destruct (capture_frame p c) as [got c']. cbn in *.
  intros _. repeat split; congruence.
- congruence.
Qed.

Lemma window_recovery_targets_window_witness :
target_window_ (capture_
  (capture (mkPlatform true (fun i => (0 <=? i) && (i <? 2)) true true
              (fun h => h =? 77) (fun _ => 1) NewFrame)
           (CaptureManager.mk DXGICapture.create 77 true 0)).2) = 77 /\
monitor_index_ (capture_
  (capture (mkPlatform true (fun i => (0 <=? i) && (i <? 2)) true true
              (fun h => h =? 77) (fun _ => 1) NewFrame)
           (CaptureManager.mk DXGICapture.create 77 true 0)).2) = 1 /\
recovery_attempts_
  (capture (mkPlatform true (fun i => (0 <=? i) && (i <? 2)) true true
              (fun h => h =? 77) (fun _ => 1) NewFrame)
           (CaptureManager.mk DXGICapture.create 77 true 0)).2 = 0.
Proof.
apply (window_recovery_targets_window
         (mkPlatform true (fun i => (0 <=? i) && (i <? 2)) true true
            (fun h => h =? 77) (fun _ => 1) NewFrame)
         (CaptureManager.mk DXGICapture.create 77 true 0)).
- reflexivity.
- reflexivity.
- discriminate.
- reflexivity.
- reflexivity.
Defined.

End CaptureRecoveryFacts.

(* --------------------------------------------------------------------- *)
(** ** Clipping a frame to the tracked window *)
(* --------------------------------------------------------------------- *)

Module WindowClipFacts.
Import Machine Mem MemFacts WindowClip.

Lemma memcpy_spec dst doff src soff n out :
Bytes.memcpy dst doff src soff n = Some out ->
length out = length dst /\
(forall i, 0 <= i < n -> load out (doff + i) = load src (soff + i)) /\
(forall i, ~ (doff <= i < doff + n) -> load out i = load dst i).
Proof.
unfold Bytes.memcpy.
destruct ((0 <=? doff) && (0 <=? soff) && (0 <=? n)
          && (soff + n <=? Z.of_nat (length src))
          && (doff + n <=? Z.of_nat (length dst))) eqn:Ec; [|discriminate].
rewrite !andb_true_iff, !Z.leb_le in Ec.
destruct Ec as ((((Hd & Hs) & Hn) & Hsrc) & Hdst).
intros [= <-].
assert (Hlt : length (take (Z.to_nat doff) dst) = Z.to_nat doff)
  by (rewrite length_take; lia).
assert (Hlm : length (take (Z.to_nat n) (drop (Z.to_nat soff) src)) = Z.to_nat n)
  by (rewrite length_take, length_drop; lia).
split; [|split].
- rewrite !length_app, Hlt, Hlm, length_drop. lia.
- intros i Hi. unfold load.
  destruct (Z.leb_spec 0 (doff + i)); [|lia].
  destruct (Z.leb_spec 0 (soff + i)); [|lia].
  rewrite lookup_app_r by lia. rewrite Hlt.
  rewrite lookup_app_l by lia.
  rewrite lookup_take_lt by lia. rewrite lookup_drop. f_equal. lia.
- intros i Hi. unfold load.
  destruct (Z.leb_spec 0 i); [|reflexivity].
  destruct (Z_lt_le_dec i doff).
  + rewrite lookup_app_l by lia. apply lookup_take_lt. lia.
  + rewrite lookup_app_r by lia. rewrite Hlt.
    rewrite lookup_app_r by lia. rewrite Hlm.
    rewrite lookup_drop. f_equal. lia.
Qed.

Lemma memcpy_defined dst doff src soff n :
0 <= doff -> 0 <= soff -> 0 <= n ->
soff + n <= Z.of_nat (length src) -> doff + n <= Z.of_nat (length dst) ->
exists out, Bytes.memcpy dst doff src soff n = Some out.
Proof.
intros Hd Hs Hn Hsrc Hdst. unfold Bytes.memcpy.
assert (Hc : (0 <=? doff) && (0 <=? soff) && (0 <=? n)
             && (soff + n <=? Z.of_nat (length src))
             && (doff + n <=? Z.of_nat (length dst)) = true).
{ rewrite !andb_true_iff, !Z.leb_le. lia. }
rewrite Hc. eauto.
Qed.

Lemma memcpy_overrun dst doff src soff n :
0 <= soff -> Z.of_nat (length src) < n ->
Bytes.memcpy dst doff src soff n = None.
Proof.
intros Hs Hn. unfold Bytes.memcpy.
assert (Hc : (soff + n <=? Z.of_nat (length src)) = false)
  by (apply Z.leb_gt; lia).
rewrite Hc, andb_false_r. reflexivity.
Qed.

Lemma for_loop_inv {S : Type} (P : Z -> S -> Prop) (body : Z -> S -> option S) :
forall (n : nat) (i : Z) (s : S),
P i s ->
(forall j t, i <= j < i + Z.of_nat n -> P j t ->
             exists t', body j t = Some t' /\ P (j + 1) t') ->
exists s', for_loop n i body s = Some s' /\ P (i + Z.of_nat n) s'.
Proof.
induction n as [|n IH]; intros i s Hinit Hstep.
- exists s. split; [reflexivity|].
  replace (i + Z.of_nat 0) with i by lia. exact Hinit.
- destruct (Hstep i s ltac:(lia) Hinit) as (t & Eb & Ht).
  destruct (IH (i + 1) t Ht) as (s' & Es & Hs').
  { intros j u Hj Hu. apply Hstep; [lia | exact Hu]. }
  exists s'. split.
  + cbn [for_loop]. rewrite Eb. exact Es.
  + replace (i + Z.of_nat (Datatypes.S n)) with (i + 1 + Z.of_nat n) by lia.
    exact Hs'.
Qed.

Lemma sub_i32_small a b :
- 2 ^ 29 <= a <= 2 ^ 29 -> - 2 ^ 29 <= b <= 2 ^ 29 ->
sub_i32 a b = Some (a - b).
Proof.
intros Ha Hb. unfold sub_i32, INT_MIN, INT_MAX.
destruct (Z.leb_spec (- 2 ^ 31) (a - b)); [|lia].
destruct (Z.leb_spec (a - b) (2 ^ 31 - 1)); [|lia]. reflexivity.
Qed.

Lemma mul_i32_small a :
0 <= a <= 2 ^ 20 -> mul_i32 a 4 = Some (a * 4).
Proof.
intros Ha. unfold mul_i32, INT_MIN, INT_MAX.
destruct (Z.leb_spec (- 2 ^ 31) (a * 4)); [|lia].
destruct (Z.leb_spec (a * 4) (2 ^ 31 - 1)); [|lia]. reflexivity.
Qed.

Lemma as_i32_small w : 0 <= w <= 2 ^ 20 -> CPUStereoProcessor.as_i32 w = w.
Proof.
intros Hw. unfold CPUStereoProcessor.as_i32.
destruct (Z.ltb_spec w (2 ^ 31)); lia.
Qed.

Lemma wrap32_neg d : - 2 ^ 32 <= d < 0 -> wrap32 d = d + 2 ^ 32.
Proof.
intros Hd. unfold wrap32. symmetry.
apply (Z.mod_unique d (2 ^ 32) (-1)); lia.
Qed.

Lemma wrap_small_32 x : 0 <= x < 2 ^ 32 -> wrap32 x = x.
Proof. intros Hx. apply Z.mod_small. exact Hx. Qed.

Lemma wrap_small_64 x : 0 <= x < 2 ^ 64 -> wrap64 x = x.
Proof. intros Hx. apply Z.mod_small. exact Hx. Qed.

(** Up to [max_size] the buffer is made large enough. *)
Lemma resize_to_small (v : list Z) (n : Z) :
n <= max_size ->
exists v', resize_to v n = Some v' /\ n <= Z.of_nat (length v').
Proof.
intros Hn. unfold resize_to.
destruct (Z.ltb_spec (Z.of_nat (length v)) n) as [Hlt|Hge].
- destruct (Z.ltb_spec max_size n); [lia|].
  eexists. split; [reflexivity|].
  rewrite length_app, length_replicate. lia.
- exists v. split; [reflexivity | lia].
Qed.

(** Above [max_size] it throws. *)
Lemma resize_to_throws (v : list Z) (n : Z) :
Z.of_nat (length v) <= max_size -> max_size < n -> resize_to v n = None.
Proof.
intros Hv Hn. unfold resize_to.
destruct (Z.ltb_spec (Z.of_nat (length v)) n); [|lia].
destruct (Z.ltb_spec max_size n); [reflexivity | lia].
Qed.

(** The arithmetic of the head of [clip_to_window] on everyday
    coordinates. *)
Lemma clip_head rect c frame :
target_window_ c <> 0 -> sane rect c ->
clip_to_window (Some rect) c frame =
  let k := clamped rect c in
  let clipped_width := wrap32 (right k - left k) in
  let clipped_height := wrap32 (bottom k - top k) in
  if (clipped_width <? 10) || (clipped_height <? 10)
  then Some (false,
             mk (target_window_ c) rect (monitor_rect_ c) (width_ c)
                (height_ c) (clipped_buffer_ c) clipped_width clipped_height,
             frame)
  else
    let clipped_pitch := wrap32 (clipped_width * 4) in
    buffer ← resize_to (clipped_buffer_ c)
               (wrap64 (clipped_pitch * clipped_height));
    out ← for_loop (Z.to_nat clipped_height) 0
            (copy_row frame (left k) (top k) clipped_width clipped_pitch)
            buffer;
    Some (true,
          mk (target_window_ c) rect (monitor_rect_ c) (width_ c) (height_ c)
             out clipped_width clipped_height,
          mkFrame out clipped_width clipped_height (wrap32 clipped_pitch)).
Proof.
intros Ht ((R1 & R2 & R3 & R4) & (M1 & M2) & (W1 & W2)).
unfold clip_to_window. apply Z.eqb_neq in Ht. rewrite Ht.
rewrite !sub_i32_small by lia. cbn [mbind option_bind].
rewrite !as_i32_small by lia.
rewrite !sub_i32_small by lia. cbn [mbind option_bind].
reflexivity.
Qed.

(** X17. A window lying at least 10 x 10 pixels inside its monitor is
  clipped to its visible part: the frame handed on has the size of the
  intersection of window and monitor, a pitch of four bytes per pixel,
  and its pixel [(x, y)] is the pixel [(left + x, top + y)] of the
  captured monitor frame; every row copy stays inside both buffers. *)
Theorem clip_copies_window_region (rect : RECT) (c : t) (frame : Frame) :
target_window_ c <> 0 ->
sane rect c ->
10 <= right (clamped rect c) - left (clamped rect c) ->
10 <= bottom (clamped rect c) - top (clamped rect c) ->
4 * width_ c <= pitch frame ->
pitch frame * height_ c < 2 ^ 32 ->
pitch frame * height_ c <= Z.of_nat (length (cpu_data frame)) ->
exists c' out,
  clip_to_window (Some rect) c frame =
    Some (true, c',
          mkFrame out (right (clamped rect c) - left (clamped rect c))
                  (bottom (clamped rect c) - top (clamped rect c))
                  (4 * (right (clamped rect c) - left (clamped rect c)))) /\
  clipped_buffer_ c' = out /\
  forall x y b, 0 <= x < right (clamped rect c) - left (clamped rect c) ->
    0 <= y < bottom (clamped rect c) - top (clamped rect c) ->
    0 <= b < 4 ->
    load out (y * (4 * (right (clamped rect c) - left (clamped rect c)))
              + 4 * x + b)
    = load (cpu_data frame)
        ((top (clamped rect c) + y) * pitch frame
         + 4 * (left (clamped rect c) + x) + b).
Proof.
intros Ht Hsane Hw Hh Hp H32 Hlen.
rewrite (clip_head rect c frame Ht Hsane). cbv zeta.
destruct Hsane as ((R1 & R2 & R3 & R4) & (M1 & M2) & (W1 & W2)).
set (k := clamped rect c) in *.
assert (HL : 0 <= left k) by (unfold k; cbn; lia).
assert (HT : 0 <= top k) by (unfold k; cbn; lia).
assert (HR : right k <= width_ c) by (unfold k; cbn; lia).
assert (HB : bottom k <= height_ c) by (unfold k; cbn; lia).
set (cw := right k - left k) in *. set (ch := bottom k - top k) in *.
rewrite (wrap_small_32 cw) by lia. rewrite (wrap_small_32 ch) by lia.
destruct (Z.ltb_spec cw 10); [lia|]. destruct (Z.ltb_spec ch 10); [lia|].
cbn [orb].
rewrite (wrap_small_32 (cw * 4)) by lia.
rewrite (wrap_small_64 (cw * 4 * ch)) by nia.
rewrite (wrap_small_32 (cw * 4)) by lia.
destruct (resize_to_small (clipped_buffer_ c) (cw * 4 * ch))
  as (buf0 & Ebuf & Hbuf); [unfold max_size; nia|].
rewrite Ebuf. cbn [mbind option_bind].
pose (P := fun (j : Z) (t : list Z) =>
  length t = length buf0 /\
  forall y i, 0 <= y < j -> 0 <= i < cw * 4 ->
    load t (y * (cw * 4) + i)
    = load (cpu_data frame) ((top k + y) * pitch frame + left k * 4 + i)).
destruct (for_loop_inv P (copy_row frame (left k) (top k) cw (cw * 4))
            (Z.to_nat ch) 0 buf0) as (out & Eout & Hout).
{ split; [reflexivity|]. intros y i Hy. lia. }
{ intros j t Hj (Hlt & Hrows).
  assert (Hjc : 0 <= j < ch) by lia.
  unfold copy_row. rewrite mul_i32_small by lia. cbn [mbind option_bind].
  rewrite (wrap_small_64 (j * (cw * 4))) by nia.
  rewrite (wrap_small_32 (top k)) by lia.
  rewrite (wrap_small_32 (top k + j)) by lia.
  rewrite (wrap_small_32 ((top k + j) * pitch frame)) by nia.
  rewrite (wrap_small_32 (cw * 4)) by lia.
  destruct (memcpy_defined t (j * (cw * 4)) (cpu_data frame)
              ((top k + j) * pitch frame + left k * 4) (cw * 4))
    as (t' & Et'); [nia | nia | lia | nia | rewrite Hlt; nia |].
  exists t'. split; [exact Et'|].
  apply memcpy_spec in Et' as (Hl' & Hcopy & Hframe).
  split; [congruence|].
  intros y i Hy Hi. destruct (Z.eq_dec y j) as [-> | Hne].
  - apply Hcopy. lia.
  - rewrite Hframe by nia. apply Hrows; lia. }
rewrite Eout. cbn [mbind option_bind].
replace (0 + Z.of_nat (Z.to_nat ch)) with ch in Hout by lia.
destruct Hout as (_ & Hrows).
eexists. exists out. split.
{ replace (4 * cw) with (cw * 4) by lia. reflexivity. }
split; [reflexivity|].
intros x y b Hx Hy Hb.
replace (y * (4 * cw) + 4 * x + b) with (y * (cw * 4) + (4 * x + b)) by lia.
rewrite Hrows by lia. f_equal. lia.
Qed.

Lemma clip_copies_window_region_witness :
exists c' out,
  clip_to_window (Some (mkRECT 1 1 11 11))
    (mk 77 (mkRECT 0 0 0 0) (mkRECT 0 0 12 12) 12 12 [] 0 0)
    (mkFrame (map Z.of_nat (seq 0 576)) 12 12 48) =
    Some (true, c', mkFrame out (11 - 1) (11 - 1) (4 * (11 - 1))) /\
  clipped_buffer_ c' = out /\
  forall x y b, 0 <= x < 11 - 1 -> 0 <= y < 11 - 1 -> 0 <= b < 4 ->
    load out (y * (4 * (11 - 1)) + 4 * x + b)
    = load (map Z.of_nat (seq 0 576)) ((1 + y) * 48 + 4 * (1 + x) + b).
Proof.
apply (clip_copies_window_region (mkRECT 1 1 11 11)
         (mk 77 (mkRECT 0 0 0 0) (mkRECT 0 0 12 12) 12 12 [] 0 0)
         (mkFrame (map Z.of_nat (seq 0 576)) 12 12 48)).
- discriminate.
- unfold sane. cbn. lia.
- cbn. lia.
- cbn. lia.
- cbn. lia.
- cbn. lia.
- cbn. lia.
Defined.

(** X18. The size test compares unsigned values: a window lying wholly
  to the left or to the right of its monitor (a minimised window,
  reported at -32000, is one) has a negative clipped width, which as
  [u32] is far above 10. Unless the clipped height is between 0 and 9
  the frame is therefore not skipped, and the call returns no frame:
  when the height is negative too, the byte count exceeds [max_size] and
  [resize] throws; otherwise, whatever buffer [resize] leaves, the first
  row copy asks for more than 2 GiB of the mapped frame. *)
Theorem offscreen_window_is_not_skipped (rect : RECT) (c : t) (frame : Frame) :
target_window_ c <> 0 ->
sane rect c ->
right (clamped rect c) - left (clamped rect c) < 0 ->
~ (0 <= bottom (clamped rect c) - top (clamped rect c) < 10) ->
Z.of_nat (length (cpu_data frame)) < 2 ^ 31 ->
0 <= pitch frame ->
Z.of_nat (length (clipped_buffer_ c)) <= max_size ->
let k := clamped rect c in
let clipped_width := wrap32 (right k - left k) in
let clipped_height := wrap32 (bottom k - top k) in
let clipped_pitch := wrap32 (clipped_width * 4) in
(10 <= clipped_width /\ 10 <= clipped_height) /\
(bottom k - top k < 0 ->
 resize_to (clipped_buffer_ c) (wrap64 (clipped_pitch * clipped_height))
 = None) /\
(forall buf,
   copy_row frame (left k) (top k) clipped_width clipped_pitch 0 buf = None) /\
clip_to_window (Some rect) c frame = None.
Proof.
intros Ht Hsane Hw Hh Hlen Hp Hcap k.
rewrite (clip_head rect c frame Ht Hsane). cbv zeta. fold k.
destruct Hsane as ((R1 & R2 & R3 & R4) & (M1 & M2) & (W1 & W2)).
assert (HL : 0 <= left k <= 2 ^ 21) by (unfold k; cbn; lia).
assert (HT : 0 <= top k <= 2 ^ 21) by (unfold k; cbn; lia).
assert (HR : - 2 ^ 21 <= right k <= 2 ^ 20) by (unfold k; cbn; lia).
assert (HB : - 2 ^ 21 <= bottom k <= 2 ^ 20) by (unfold k; cbn; lia).
fold k in Hw, Hh.
set (dw := right k - left k) in *. set (dh := bottom k - top k) in *.
rewrite (wrap32_neg dw) by lia.
assert (Hch : 10 <= wrap32 dh < 2 ^ 32).
{ destruct (Z_lt_le_dec dh 0).
  - rewrite wrap32_neg by lia. lia.
  - rewrite wrap_small_32 by lia. lia. }
assert (Hn : wrap32 ((dw + 2 ^ 32) * 4) = 4 * dw + 2 ^ 32).
{ unfold wrap32. symmetry.
  apply (Z.mod_unique ((dw + 2 ^ 32) * 4) (2 ^ 32) 3); lia. }
rewrite Hn.
assert (Hrow : forall buf,
  copy_row frame (left k) (top k) (dw + 2 ^ 32) (4 * dw + 2 ^ 32) 0 buf = None).
{ intros buf. unfold copy_row.
  assert (Hm : mul_i32 (left k) 4 = Some (left k * 4)).
  { unfold mul_i32, INT_MIN, INT_MAX.
    destruct (Z.leb_spec (- 2 ^ 31) (left k * 4)); [|lia].
    destruct (Z.leb_spec (left k * 4) (2 ^ 31 - 1)); [|lia]. reflexivity. }
  rewrite Hm. cbn [mbind option_bind].
  rewrite Hn. apply memcpy_overrun; [|lia].
  unfold wrap32.
  pose proof (Z.mod_pos_bound ((top k mod 2 ^ 32 + 0) mod 2 ^ 32 * pitch frame)
                (2 ^ 32) ltac:(lia)).
  lia. }
split; [lia|]. split; [|split; [exact Hrow|]].
- intros Hneg. rewrite (wrap32_neg dh) by lia.
  rewrite wrap_small_64 by nia.
  apply resize_to_throws; [exact Hcap|]. unfold max_size. nia.
- destruct (Z.ltb_spec (dw + 2 ^ 32) 10); [lia|].
  destruct (Z.ltb_spec (wrap32 dh) 10); [lia|]. cbn [orb].
  destruct (resize_to _ _) as [buf|]; cbn [mbind option_bind]; [|reflexivity].
  destruct (Z.to_nat (wrap32 dh)) as [|n] eqn:En; [lia|].
  cbn [for_loop]. rewrite Hrow. reflexivity.
Qed.

Lemma offscreen_window_is_not_skipped_witness :
let rect := mkRECT (-32000) (-32000) (-31840) (-31972) in
let c := mk 77 (mkRECT 0 0 0 0) (mkRECT 0 0 1920 1080) 1920 1080 [] 0 0 in
let frame := mkFrame (replicate 64 0) 1920 1080 7680 in
let k := clamped rect c in
let clipped_width := wrap32 (right k - left k) in
let clipped_height := wrap32 (bottom k - top k) in
let clipped_pitch := wrap32 (clipped_width * 4) in
(10 <= clipped_width /\ 10 <= clipped_height) /\
(bottom k - top k < 0 ->
 resize_to (clipped_buffer_ c) (wrap64 (clipped_pitch * clipped_height))
 = None) /\
(forall buf,
   copy_row frame (left k) (top k) clipped_width clipped_pitch 0 buf = None) /\
clip_to_window (Some rect) c frame = None.
Proof.
apply (offscreen_window_is_not_skipped
         (mkRECT (-32000) (-32000) (-31840) (-31972))
         (mk 77 (mkRECT 0 0 0 0) (mkRECT 0 0 1920 1080) 1920 1080 [] 0 0)
         (mkFrame (replicate 64 0) 1920 1080 7680)).
- discriminate.
- unfold sane. cbn. lia.
- cbn. lia.
- cbn. lia.
- cbn. lia.
- cbn. lia.
- unfold max_size. cbn. lia.
Defined.

End WindowClipFacts.

(* --------------------------------------------------------------------- *)
(** ** Sessions: the writer, the peer that leaves, the shutdown *)
(* --------------------------------------------------------------------- *)

Module ServerStatsFacts.
Import StreamingServer.

Lemma connected_clients_step e s :
connected_clients s = client_count s ->
connected_clients (step e s) = client_count (step e s).
Proof.
intros Hs. destruct e as [cid | | cid | cid | cid]; unfold step.
- unfold on_accept. cbn [negb]. destruct (_ <? _); exact Hs.
- exact Hs.
- unfold session_on_accept. destruct (bool_decide _); [reflexivity | exact Hs].
- unfold session_on_accept. destruct (bool_decide _); [reflexivity | exact Hs].
- reflexivity.
Qed.

(** X19. The [connected_clients] statistic is recomputed at every
  registration and removal: after any sequence of accepts, handshakes
  and closes it equals the size of the registry, the value
  [client_count] returns. *)
Theorem connected_clients_is_registry_size (n : Z) (es : list event) :
connected_clients (run es (create n)) = client_count (run es (create n)).
Proof.
assert (H : forall s, connected_clients s = client_count s ->
            connected_clients (run es s) = client_count (run es s)).
{ induction es as [|e es IH]; intros s Hs; [exact Hs|].
  cbn [run fold_left]. apply IH, connected_clients_step, Hs. }
apply H. reflexivity.
Qed.

End ServerStatsFacts.

Module SessionFacts.
Import WebSocketSession.

Lemma valid_write_queue : SPSCQueue.valid_capacity WRITE_QUEUE_SIZE.
Proof.
unfold SPSCQueue.valid_capacity, WRITE_QUEUE_SIZE. split; [reflexivity | lia].
Qed.

Lemma step_of_closed_peer e s :
is_open s = false -> in_flight s = [] -> step e s = Some (s, []).
Proof.
intros Ho Hf. destruct e as [data | ec bytes | ec |]; unfold step.
- unfold send_frame. rewrite Ho, orb_true_r. reflexivity.
- unfold on_write. rewrite Hf. reflexivity.
- reflexivity.
- destruct s. cbn in Ho. subst. reflexivity.
Qed.

Lemma run_of_closed_peer es s :
is_open s = false -> in_flight s = [] -> run es s = Some (s, []).
Proof.
intros Ho Hf. induction es as [|e es IH]; [reflexivity|].
cbn [run]. rewrite (step_of_closed_peer e s Ho Hf).
cbn [mbind option_bind]. rewrite IH. reflexivity.
Qed.

(** X20. A session whose peer closes the connection while no write is in
  flight is never closed: whatever is broadcast, read or completed
  afterwards, no member changes and the server is never asked to
  unregister it, so it keeps counting towards [max_clients]. *)
Theorem closed_peer_is_never_unregistered (s : t) (es : list event) :
closing_ s = false ->
in_flight s = [] ->
exists s',
  run (PeerClosed :: es) s = Some (s', []) /\
  closing_ s' = false /\ is_open s' = false.
Proof.
intros Hc Hf. cbn [run step mbind option_bind].
rewrite run_of_closed_peer by (cbn; trivial).
eexists. split; [reflexivity|]. cbn. auto.
Qed.

Lemma closed_peer_is_never_unregistered_witness :
exists s',
  run [PeerClosed; SendFrame [1; 2; 3]; ReadDone true; SendFrame [4];
       WriteDone true 0] create = Some (s', []) /\
  closing_ s' = false /\ is_open s' = false.
Proof.
apply (closed_peer_is_never_unregistered create); reflexivity.
Defined.

Lemma core_same h s s' :
write_queue_ s' = write_queue_ s -> wire s' = wire s ->
in_flight s' = in_flight s ->
writer_core h s -> writer_core h s'.
Proof.
unfold writer_core, queued. intros -> -> ->. trivial.
Qed.

Lemma do_write_inv h s :
writer_core h s -> writing_ s = true -> in_flight s = [] ->
exists s', do_write s = Some s' /\ writer_inv h s'.
Proof.
intros Hcore Hw Hf.
pose proof Hcore as (Hwf & Hq & Hsub & (done & Hdone)).
unfold do_write. destruct (closing_ s).
{ eexists. split; [reflexivity|]. split.
  - apply (core_same h s); [reflexivity | reflexivity | reflexivity | exact Hcore].
  - cbn [in_flight writing_]. rewrite Hf. split; [cbn; lia | congruence]. }
pose proof (QueueOrderFacts.try_pop_head WRITE_QUEUE_SIZE valid_write_queue
              (write_queue_ s) Hwf) as Hhead.
pose proof (QueueOrderFacts.ring_contents_step WRITE_QUEUE_SIZE valid_write_queue
              SPSCQueue.Pop (write_queue_ s) Hwf) as Hcont.
pose proof (SPSCQueueFacts.wf_step WRITE_QUEUE_SIZE valid_write_queue
              SPSCQueue.Pop (write_queue_ s) Hwf) as Hwf'.
unfold SPSCQueue.step, QueueModel.fifo_step in Hcont, Hwf'.
destruct (SPSCQueue.try_pop WRITE_QUEUE_SIZE (write_queue_ s))
  as [item queue] eqn:Epop.
try rewrite Epop in Hhead.
cbn [fst snd] in Hhead, Hcont, Hwf'.
unfold queued in *.
destruct (QueueModel.contents WRITE_QUEUE_SIZE (write_queue_ s))
  as [|x l] eqn:Ec; cbn [head tail] in Hhead, Hcont; subst item.
{ eexists. split; [reflexivity|]. split.
  - apply (core_same h s); [reflexivity | reflexivity | reflexivity | exact Hcore].
  - cbn [in_flight writing_]. rewrite Hf. split; [cbn; lia | congruence]. }
apply Forall_cons in Hq as [[d ->] Hl].
cbn [mbind option_bind]. eexists. split; [reflexivity|].
split; [|cbn [in_flight writing_]; rewrite Hf; split; [cbn; lia | intros _; exact Hw]].
unfold writer_core, queued.
cbn [write_queue_ wire in_flight]. rewrite Hcont, Hf.
split; [exact Hwf'|]. split; [exact Hl|]. split.
{ cbn in Hsub. rewrite <- app_assoc. exact Hsub. }
exists (wire s). reflexivity.
Qed.

Lemma session_offered_cons e es : offered (e :: es) = offered [e] ++ offered es.
Proof. unfold offered. cbn. destruct e; reflexivity. Qed.

Lemma writer_inv_weaken h k s : writer_inv h s -> writer_inv (h ++ k) s.
Proof.
intros ((Hwf & Hq & Hsub & Hdone) & Hlen & Hw).
split; [|split; assumption].
split; [exact Hwf|]. split; [exact Hq|]. split; [|exact Hdone].
apply sublist_inserts_r, Hsub.
Qed.

Lemma send_frame_inv h s d :
writer_inv h s ->
exists s', send_frame (Some d) s = Some s' /\ writer_inv (h ++ [d]) s'.
Proof.
intros Hinv. pose proof Hinv as ((Hwf & Hq & Hsub & (done & Hdone)) & Hlen & Hw).
unfold send_frame.
destruct (closing_ s || negb (is_open s)).
{ eexists. split; [reflexivity|]. apply writer_inv_weaken, Hinv. }
pose proof (QueueOrderFacts.ring_contents_step WRITE_QUEUE_SIZE valid_write_queue
              (SPSCQueue.Push (Some d)) (write_queue_ s) Hwf) as Hcont.
pose proof (QueueOrderFacts.try_push_room WRITE_QUEUE_SIZE valid_write_queue
              (write_queue_ s) (Some d) Hwf) as Hroom.
pose proof (SPSCQueueFacts.wf_step WRITE_QUEUE_SIZE valid_write_queue
              (SPSCQueue.Push (Some d)) (write_queue_ s) Hwf) as Hwf'.
unfold SPSCQueue.step, QueueModel.fifo_step in Hcont, Hwf'.
destruct (SPSCQueue.try_push WRITE_QUEUE_SIZE (Some d) (write_queue_ s))
  as [pushed queue] eqn:Epush.
try rewrite Epush in Hroom.
cbn [fst snd] in Hroom, Hcont, Hwf'. rewrite <- Hroom in Hcont.
destruct pushed; cbn [negb].
2:{ eexists. split; [reflexivity|]. apply writer_inv_weaken, Hinv. }
assert (Hcore : writer_core (h ++ [d])
  (mk (closing_ s) (is_open s) queue true (current_write_ s) (in_flight s)
      (wire s) (frames_sent s) (bytes_sent s))).
{ unfold writer_core, queued in *. cbn. rewrite Hcont.
  split; [exact Hwf'|]. split.
  { apply Forall_app. split; [exact Hq|]. constructor; [eauto | constructor]. }
  split.
  { rewrite omap_app, app_assoc. apply sublist_app; [exact Hsub|]. reflexivity. }
  exists done. exact Hdone. }
cbn [writing_]. destruct (writing_ s) eqn:Ew.
- eexists. split; [reflexivity|].
  split; [|split; [exact Hlen | intros _; reflexivity]].
  exact Hcore.
- assert (Hf : in_flight s = []).
  { destruct (in_flight s) as [|x l] eqn:Ef; [reflexivity|].
    assert (false = true) by (apply Hw; discriminate). discriminate. }
  cbn [closing_ is_open write_queue_ current_write_ in_flight wire
       frames_sent bytes_sent].
  apply do_write_inv; [exact Hcore | reflexivity | exact Hf].
Qed.

Lemma on_write_inv h s ec bytes :
writer_inv h s ->
exists s' fx, on_write ec bytes s = Some (s', fx) /\ writer_inv h s'.
Proof.
intros Hinv. pose proof Hinv as ((Hwf & Hq & Hsub & (done & Hdone)) & Hlen & Hw).
unfold on_write. destruct (in_flight s) as [|x rest] eqn:Ef.
{ eexists. eexists. split; [reflexivity | exact Hinv]. }
assert (rest = []) as -> by (destruct rest; [reflexivity | cbn in Hlen; lia]).
assert (Hwr : writing_ s = true) by (apply Hw; discriminate).
cbn [closing_ is_open write_queue_ writing_ current_write_ in_flight wire
     frames_sent bytes_sent].
assert (Hcore : forall c o w cw fs bs,
  writer_core h (mk c o (write_queue_ s) w cw [] (wire s) fs bs)).
{ intros. unfold writer_core, queued in *. cbn.
  split; [exact Hwf|]. split; [exact Hq|]. split; [exact Hsub|].
  exists (wire s). rewrite app_nil_r. reflexivity. }
destruct ec.
- unfold close. cbn [closing_].
  destruct (closing_ s); (eexists; eexists; split; [reflexivity|]);
    (split; [apply Hcore|]); cbn [in_flight length]; (split; [lia | congruence]).
- destruct (do_write_inv h
    (mk (closing_ s) (is_open s) (write_queue_ s) (writing_ s) None []
        (wire s) (Machine.wrap64 (frames_sent s + 1))
        (Machine.wrap64 (bytes_sent s + bytes))))
    as (s' & Es' & Hs'); [apply Hcore | exact Hwr | reflexivity |].
  rewrite Es'. cbn [mbind option_bind]. eauto.
Qed.

Lemma session_step_inv h s e :
writer_inv h s ->
exists s' fx, step e s = Some (s', fx) /\ writer_inv (h ++ offered [e]) s'.
Proof.
intros Hinv. destruct e as [d | ec bytes | ec |]; unfold step.
- destruct (send_frame_inv h s d Hinv) as (s' & -> & Hs').
  cbn [mbind option_bind]. eauto.
- destruct (on_write_inv h s ec bytes Hinv) as (s' & fx & -> & Hs').
  eexists. eexists. split; [reflexivity|].
  change (offered [WriteDone ec bytes]) with (@nil Data).
  rewrite app_nil_r. exact Hs'.
- eexists. eexists. split; [reflexivity|].
  change (offered [ReadDone ec]) with (@nil Data).
  rewrite app_nil_r. exact Hinv.
- eexists. eexists. split; [reflexivity|].
  change (offered [PeerClosed]) with (@nil Data).
  rewrite app_nil_r. exact Hinv.
Qed.

Lemma session_run_inv es : forall h s,
writer_inv h s ->
exists s' fx, run es s = Some (s', fx) /\ writer_inv (h ++ offered es) s'.
Proof.
induction es as [|e es IH]; intros h s Hinv.
- eexists. eexists. split; [reflexivity|].
  change (offered []) with (@nil Data). rewrite app_nil_r. exact Hinv.
- destruct (session_step_inv h s e Hinv) as (s1 & fx1 & E1 & H1).
  destruct (IH _ s1 H1) as (s2 & fx2 & E2 & H2).
  cbn [run]. rewrite E1. cbn [mbind option_bind]. rewrite E2.
  cbn [mbind option_bind]. eexists. eexists. split; [reflexivity|].
  rewrite session_offered_cons, app_assoc. exact H2.
Qed.

Lemma writer_inv_create : writer_inv [] create.
Proof.
unfold writer_inv, writer_core, queued, create. cbn.
rewrite (QueueOrderFacts.contents_empty WRITE_QUEUE_SIZE valid_write_queue)
  by reflexivity.
split; [|split; [lia | congruence]].
split; [apply (SPSCQueueFacts.wf_init WRITE_QUEUE_SIZE valid_write_queue)|].
split; [constructor|]. split; [constructor|]. exists []. reflexivity.
Qed.

(** With the member functions of a session run one at a time, in
  any order and with any outcomes: no null frame is ever dereferenced, at
  most one write is in flight, at most 15 frames wait behind it, and the
  frames written followed by the frames waiting are frames that were
  offered, each at most once and in the order offered. *)
Lemma writer_keeps_order (es : list event) :
exists s fx,
  run es create = Some (s, fx) /\
  (length (in_flight s) <= 1)%nat /\
  (length (queued s) <= 15)%nat /\
  wire s ++ omap id (queued s) `sublist_of` offered es.
Proof.
destruct (session_run_inv es [] create writer_inv_create)
  as (s & fx & Erun & ((Hwf & Hq & Hsub & Hdone) & Hlen & Hw)).
exists s, fx. split; [exact Erun|]. split; [exact Hlen|]. split; [|exact Hsub].
pose proof (QueueOrderFacts.length_contents WRITE_QUEUE_SIZE valid_write_queue
              (write_queue_ s)) as Hl.
pose proof (QueueOrderFacts.count_range WRITE_QUEUE_SIZE valid_write_queue
              (write_queue_ s)) as Hr.
unfold queued, WRITE_QUEUE_SIZE in *. lia.
Qed.

End SessionFacts.

Module ServerShutdownFacts.
Import ServerShutdown.

Lemma close_all_defined sessions s :
sessions_mutex_ s = Owned ->
(foldl (fun acc e => s' ← acc; close_session e.1 e.2 s') (Some s) sessions
 = Some s /\ Forall (fun e => e.2 = true) sessions)
\/
(foldl (fun acc e => s' ← acc; close_session e.1 e.2 s') (Some s) sessions
 = None /\ Exists (fun e => e.2 = false) sessions).
Proof.
intros Hm. induction sessions as [|[cid closing] l IH] using rev_ind.
- left. split; [reflexivity | constructor].
- rewrite foldl_snoc. destruct IH as [[-> Hall] | [-> Hex]].
  + cbn [mbind option_bind fst snd]. unfold close_session.
    destruct closing.
    * left. split; [reflexivity|]. apply Forall_app. split; [exact Hall|].
      constructor; [reflexivity | constructor].
    * right. split.
      { unfold unregister_session. rewrite Hm. reflexivity. }
      apply Exists_app. right. constructor. reflexivity.
  + right. split; [reflexivity|]. apply Exists_app. left. exact Hex.
Qed.

(** X21. [stop] closes every session while it holds the registry lock,
  and [close] unregisters the session under the same lock: stopping a
  running server has a defined outcome exactly when every registered
  session is already closing; with one live client the thread locks a
  mutex it owns. *)
Theorem stop_with_live_client_relocks (s : t) :
running_ s = true ->
sessions_mutex_ s = Unlocked ->
(stop s = None <-> Exists (fun e => e.2 = false) (sessions_ s)) /\
(Forall (fun e => e.2 = true) (sessions_ s) ->
 stop s = Some (mk false [] Unlocked (connected_clients s))).
Proof.
intros Hr Hm. unfold stop. rewrite Hr, Hm. cbn [negb lock_unique mbind option_bind].
destruct (close_all_defined (sessions_ s)
            (mk false (sessions_ s) Owned (connected_clients s)) eq_refl)
  as [[-> Hall] | [-> Hex]]; cbn [mbind option_bind running_ connected_clients].
- split; [|reflexivity]. split; [discriminate|].
  intros Hex. exfalso. apply Exists_exists in Hex as (e & He & Hf).
  rewrite Forall_forall in Hall. specialize (Hall e He). congruence.
- split; [tauto|]. intros Hall. exfalso.
  apply Exists_exists in Hex as (e & He & Hf).
  rewrite Forall_forall in Hall. specialize (Hall e He). congruence.
Qed.

Lemma stop_with_live_client_relocks_witness :
(stop (mk true [("10.0.0.2:50000"%string, false)] Unlocked 1) = None
 <-> Exists (fun e => e.2 = false) [("10.0.0.2:50000"%string, false)]) /\
(Forall (fun e => e.2 = true) [("10.0.0.2:50000"%string, false)] ->
 stop (mk true [("10.0.0.2:50000"%string, false)] Unlocked 1)
 = Some (mk false [] Unlocked 1)).
Proof.
apply (stop_with_live_client_relocks
         (mk true [("10.0.0.2:50000"%string, false)] Unlocked 1));
  reflexivity.
Defined.

End ServerShutdownFacts.

(* --------------------------------------------------------------------- *)
(** ** The writer of a session under two threads *)
(* --------------------------------------------------------------------- *)

Module SessionThreadsFacts.
Import WebSocketSession SessionThreads.

Lemma threads_offered_cons e es : offered (e :: es) = offered [e] ++ offered es.
Proof. unfold offered. cbn. destruct e; reflexivity. Qed.

Lemma inv_weaken h k st : inv h st -> inv (h ++ k) st.
Proof.
intros (Hwf & Hq & Hsub & Hle & Hw & Hp).
split; [exact Hwf|]. split; [exact Hq|]. split; [|tauto].
apply sublist_inserts_r, Hsub.
Qed.

(** One step inside [do_write]: the queue stays a ring of non-null
    frames, no frame is lost or reordered, and the right to write either
    stays with the thread, or passes to the write it started, or is given
    up together with [writing_]. *)
Lemma do_write_step_spec p s :
in_do_write p = true ->
SPSCQueue.wf WRITE_QUEUE_SIZE (write_queue_ s) ->
Forall is_Some (queued s) ->
exists p' s',
  do_write_step p s = Some (p', s') /\
  SPSCQueue.wf WRITE_QUEUE_SIZE (write_queue_ s') /\
  Forall is_Some (queued s') /\
  wire s' ++ omap id (queued s') = wire s ++ omap id (queued s) /\
  pending p' = [] /\ p' <> AtCas /\
  ((in_do_write p' = true /\ in_flight s' = in_flight s /\
    writing_ s' = writing_ s) \/
   (p' = Idle /\ length (in_flight s') = S (length (in_flight s)) /\
    writing_ s' = writing_ s) \/
   (p' = Idle /\ in_flight s' = in_flight s /\ writing_ s' = false)).
Proof.
intros Hp Hwf Hq. destruct p; try discriminate; unfold do_write_step.
- exists (if closing_ s then AtClear else AtPop), s.
  split; [reflexivity|]. split; [exact Hwf|]. split; [exact Hq|].
  split; [reflexivity|].
  destruct (closing_ s); (split; [reflexivity|]); (split; [discriminate|]);
    left; auto.
- pose proof (QueueOrderFacts.try_pop_head WRITE_QUEUE_SIZE
                SessionFacts.valid_write_queue (write_queue_ s) Hwf) as Hhead.
  pose proof (QueueOrderFacts.ring_contents_step WRITE_QUEUE_SIZE
                SessionFacts.valid_write_queue SPSCQueue.Pop (write_queue_ s) Hwf)
    as Hcont.
  pose proof (SPSCQueueFacts.wf_step WRITE_QUEUE_SIZE
                SessionFacts.valid_write_queue SPSCQueue.Pop (write_queue_ s) Hwf)
    as Hwf'.
  unfold SPSCQueue.step, QueueModel.fifo_step in Hcont, Hwf'.
  destruct (SPSCQueue.try_pop WRITE_QUEUE_SIZE (write_queue_ s))
    as [item queue] eqn:Epop.
  try rewrite Epop in Hhead.
  cbn [fst snd] in Hhead, Hcont, Hwf'.
  unfold queued in *.
  destruct (QueueModel.contents WRITE_QUEUE_SIZE (write_queue_ s))
    as [|x l] eqn:Ec; cbn [head tail] in Hhead, Hcont; subst item.
  + exists AtClear, s. split; [reflexivity|]. split; [exact Hwf|].
    rewrite Ec. split; [constructor|]. split; [reflexivity|].
    split; [reflexivity|]. split; [discriminate|]. left. auto.
  + apply Forall_cons in Hq as [[d ->] Hl].
    cbn [mbind option_bind]. eexists. eexists. split; [reflexivity|].
    cbn [write_queue_ wire in_flight writing_]. rewrite Hcont.
    split; [exact Hwf'|]. split; [exact Hl|]. split.
    { cbn. rewrite <- app_assoc. reflexivity. }
    split; [reflexivity|]. split; [discriminate|]. right. left.
    split; [reflexivity|]. split; [|reflexivity].
    rewrite length_app. cbn. lia.
- exists Idle, (set_writing false s). split; [reflexivity|].
  split; [exact Hwf|]. split; [exact Hq|]. split; [reflexivity|].
  split; [reflexivity|]. split; [discriminate|]. right. right. auto.
Qed.

Lemma do_write_step_outside p s :
in_do_write p = false -> do_write_step p s = Some (p, s).
Proof. destruct p; try discriminate; reflexivity. Qed.

Ltac holders_cases :=
  unfold holders in *; cbn [session encoder strand] in *;
  repeat match goal with
  | H : context [in_do_write ?p] |- _ =>
      is_var p; destruct p; cbn [in_do_write pending] in H
  | |- context [in_do_write ?p] =>
      is_var p; destruct p; cbn [in_do_write pending]
  end.

Lemma threads_step_inv h st e :
inv h st ->
exists st' fx, step e st = Some (st', fx) /\ inv (h ++ offered [e]) st'.
Proof.
intros Hinv. pose proof Hinv as (Hwf & Hq & Hsub & Hle & Hw & Hps & Hsc).
destruct st as [s pe ps]. cbn [session encoder strand] in *.
destruct e as [d | | ec bytes | |]; unfold step; cbn [session encoder strand].
- (* Send *)
  change (offered [Send d]) with [d].
  destruct pe; try (eexists; eexists; split; [reflexivity|];
                    apply (inv_weaken h [d]); exact Hinv).
  destruct (closing_ s || negb (is_open s)).
  + eexists. eexists. split; [reflexivity|]. apply (inv_weaken h [d]). exact Hinv.
  + eexists. eexists. split; [reflexivity|].
    split; [exact Hwf|]. split; [exact Hq|]. split.
    { cbn [session encoder pending] in *. rewrite app_nil_r in Hsub.
      rewrite app_assoc. apply sublist_app; [exact Hsub | reflexivity]. }
    split; [exact Hle|]. split; [exact Hw|]. split; assumption.
- (* Enc *)
  change (offered [Enc]) with (@nil Data). rewrite app_nil_r.
  destruct (in_do_write pe) eqn:Hin.
  + assert (Hes : encoder_step pe s = do_write_step pe s)
      by (destruct pe; try discriminate; reflexivity).
    rewrite Hes.
    destruct (do_write_step_spec pe s Hin Hwf Hq)
      as (p' & s' & -> & Hwf' & Hq' & Hlist & Hp' & Hc' & Hcases).
    cbn [mbind option_bind]. eexists. eexists. split; [reflexivity|].
    split; [exact Hwf'|]. split; [exact Hq'|]. split.
    { cbn [session encoder]. rewrite Hp', app_nil_r, Hlist.
      cbn [session encoder] in Hsub.
      assert (Hpe : pending pe = []) by (destruct pe; try discriminate; reflexivity).
      rewrite Hpe, app_nil_r in Hsub. exact Hsub. }
    unfold holders in *. cbn [session encoder strand] in *. rewrite Hin in *.
    destruct Hcases as [(Hi & Hf & Hwr) | [(-> & Hf & Hwr) | (-> & Hf & Hwr)]];
      cbn [in_do_write]; try rewrite Hi; rewrite ?Hf, ?Hwr;
      (split; [lia|]); (split; [|split; assumption]); intros; try lia;
      apply Hw; lia.
  + destruct pe; try discriminate; unfold encoder_step.
    * (* Idle *)
      eexists. eexists. split; [reflexivity | exact Hinv].
    * (* AtPush *)
      pose proof (QueueOrderFacts.ring_contents_step WRITE_QUEUE_SIZE
                    SessionFacts.valid_write_queue (SPSCQueue.Push (Some data))
                    (write_queue_ s) Hwf) as Hcont.
      pose proof (QueueOrderFacts.try_push_room WRITE_QUEUE_SIZE
                    SessionFacts.valid_write_queue (write_queue_ s) (Some data) Hwf)
        as Hroom.
      pose proof (SPSCQueueFacts.wf_step WRITE_QUEUE_SIZE
                    SessionFacts.valid_write_queue (SPSCQueue.Push (Some data))
                    (write_queue_ s) Hwf) as Hwf'.
      unfold SPSCQueue.step, QueueModel.fifo_step in Hcont, Hwf'.
      destruct (SPSCQueue.try_push WRITE_QUEUE_SIZE (Some data) (write_queue_ s))
        as [pushed queue] eqn:Epush.
      try rewrite Epush in Hroom.
      cbn [fst snd] in Hroom, Hcont, Hwf'. rewrite <- Hroom in Hcont.
      cbn [mbind option_bind]. eexists. eexists. split; [reflexivity|].
      destruct pushed.
      { unfold inv, queued, holders in *.
        cbn [session encoder strand set_queue write_queue_ wire in_flight
             writing_ in_do_write pending] in *.
        rewrite Hcont. split; [exact Hwf'|]. split.
        { apply Forall_app. split; [exact Hq|]. constructor; [eauto | constructor]. }
        split.
        { rewrite omap_app, app_nil_r. exact Hsub. }
        tauto. }
      { unfold inv, queued, holders in *.
        cbn [session encoder strand in_do_write pending] in *.
        split; [exact Hwf|]. split; [exact Hq|]. split; [|tauto].
        rewrite app_nil_r. etransitivity; [|exact Hsub].
        rewrite app_assoc. apply sublist_inserts_r. reflexivity. }
    * (* AtCas *)
      destruct (writing_ s) eqn:Ew.
      { eexists. eexists. split; [reflexivity|].
        unfold inv, holders in *.
        cbn [session encoder strand in_do_write pending] in *. tauto. }
      { eexists. eexists. split; [reflexivity|].
        unfold inv, queued, holders in *.
        cbn [session encoder strand set_writing write_queue_ wire in_flight
             writing_ in_do_write pending] in *.
        assert (H0 : (0 + (if in_do_write ps then 1 else 0)
                      + length (in_flight s))%nat <> 1%nat).
        { intros E1. specialize (Hw E1). discriminate. }
        split; [exact Hwf|]. split; [exact Hq|]. split; [exact Hsub|].
        split; [lia|]. split; [reflexivity|]. tauto. }
- (* Done *)
  change (offered [Done ec bytes]) with (@nil Data). rewrite app_nil_r.
  destruct ps; try (eexists; eexists; split; [reflexivity | exact Hinv]).
  destruct (in_flight s) as [|x rest] eqn:Ef;
    [eexists; eexists; split; [reflexivity | exact Hinv]|].
  unfold inv, queued, holders in *.
  cbn [session encoder strand in_do_write pending length] in *.
  rewrite Ef in *. cbn [length] in *.
  assert (rest = []) as -> by (destruct rest; [reflexivity | cbn in Hle; lia]).
  assert (Hpe : in_do_write pe = false) by (destruct (in_do_write pe); [lia | reflexivity]).
  rewrite Hpe in *.
  assert (Hwt : writing_ s = true) by (apply Hw; reflexivity).
  assert (Hdrop : wire s ++ omap id (QueueModel.contents WRITE_QUEUE_SIZE
                                       (write_queue_ s)) ++ pending pe
                  `sublist_of` h) by exact Hsub.
  destruct ec.
  + unfold close. cbn [set_writing closing_].
    destruct (closing_ s); (eexists; eexists; split; [reflexivity|]);
      cbn -[QueueModel.contents]; rewrite Hpe;
      (split; [exact Hwf|]); (split; [exact Hq|]);
      (split; [exact Hdrop|]); (split; [lia|]);
      (split; [intros; lia|]); (split; [reflexivity | discriminate]).
  + eexists. eexists. split; [reflexivity|].
    cbn -[QueueModel.contents]. rewrite Hpe.
    split; [exact Hwf|]. split; [exact Hq|].
    split; [exact Hdrop|]. split; [lia|].
    split; [intros; exact Hwt|]. split; [reflexivity | discriminate].
- (* Str *)
  change (offered [Str]) with (@nil Data). rewrite app_nil_r.
  destruct (in_do_write ps) eqn:Hin.
  + destruct (do_write_step_spec ps s Hin Hwf Hq)
      as (p' & s' & -> & Hwf' & Hq' & Hlist & Hp' & Hc' & Hcases).
    cbn [mbind option_bind]. eexists. eexists. split; [reflexivity|].
    split; [exact Hwf'|]. split; [exact Hq'|]. split.
    { cbn [session encoder] in *. rewrite app_assoc, Hlist, <- app_assoc.
      exact Hsub. }
    unfold holders in *. cbn [session encoder strand] in *. rewrite Hin in *.
    destruct Hcases as [(Hi & Hf & Hwr) | [(-> & Hf & Hwr) | (-> & Hf & Hwr)]];
      cbn [in_do_write]; try rewrite Hi; rewrite ?Hf, ?Hwr;
      (split; [lia|]); (split; [|split; assumption]); intros; try lia;
      apply Hw; lia.
  + rewrite (do_write_step_outside ps s Hin). cbn [mbind option_bind].
    eexists. eexists. split; [reflexivity | exact Hinv].
- (* PeerCloses *)
  change (offered [PeerCloses]) with (@nil Data). rewrite app_nil_r.
  eexists. eexists. split; [reflexivity|]. exact Hinv.
Qed.

Lemma threads_run_inv es : forall h st,
inv h st ->
exists st' fx, run es st = Some (st', fx) /\ inv (h ++ offered es) st'.
Proof.
induction es as [|e es IH]; intros h st Hinv.
- eexists. eexists. split; [reflexivity|].
  change (offered []) with (@nil Data). rewrite app_nil_r. exact Hinv.
- destruct (threads_step_inv h st e Hinv) as (st1 & fx1 & E1 & H1).
  destruct (IH _ st1 H1) as (st2 & fx2 & E2 & H2).
  cbn [run]. rewrite E1. cbn [mbind option_bind]. rewrite E2.
  cbn [mbind option_bind]. eexists. eexists. split; [reflexivity|].
  rewrite threads_offered_cons, app_assoc. exact H2.
Qed.

Lemma threads_inv_init : inv [] init.
Proof.
unfold inv, queued, holders, init, create. cbn.
rewrite (QueueOrderFacts.contents_empty WRITE_QUEUE_SIZE
           SessionFacts.valid_write_queue) by reflexivity.
split; [apply (SPSCQueueFacts.wf_init WRITE_QUEUE_SIZE
                 SessionFacts.valid_write_queue)|].
split; [constructor|]. split; [constructor|].
split; [lia|]. split; [intros; lia|]. split; [reflexivity | discriminate].
Qed.

(** X22. However the steps of [send_frame] on the broadcasting thread
  interleave with those of [on_write] and [do_write] on the strand: no
  null frame is dereferenced, the two threads are never inside [do_write]
  together, at most one write is in flight, at most 15 frames wait behind
  it, and the frames written followed by the frames waiting are frames
  that were offered, each at most once and in the order offered. *)
Theorem writer_is_exclusive_and_ordered (es : list event) :
exists st fx,
  run es init = Some (st, fx) /\
  in_do_write (encoder st) && in_do_write (strand st) = false /\
  (length (in_flight (session st)) <= 1)%nat /\
  (length (queued (session st)) <= 15)%nat /\
  wire (session st) ++ omap id (queued (session st)) `sublist_of` offered es.
Proof.
destruct (threads_run_inv es [] init threads_inv_init)
  as (st & fx & Erun & (Hwf & Hq & Hsub & Hle & Hw & Hp)).
exists st, fx. split; [exact Erun|].
unfold holders in Hle. split; [|split; [|split]].
- destruct (in_do_write (encoder st)), (in_do_write (strand st));
    try reflexivity. lia.
- lia.
- pose proof (QueueOrderFacts.length_contents WRITE_QUEUE_SIZE
                SessionFacts.valid_write_queue (write_queue_ (session st)))
    as Hl.
  pose proof (QueueOrderFacts.count_range WRITE_QUEUE_SIZE
                SessionFacts.valid_write_queue (write_queue_ (session st)))
    as Hr.
  unfold queued, WRITE_QUEUE_SIZE in *. lia.
- cbn [app] in Hsub. etransitivity; [|exact Hsub].
  rewrite (app_assoc (wire (session st))). apply sublist_inserts_r. reflexivity.
Qed.

(** The state in which the next theorem starts is reached from [init]:
    one frame is sent and written, and the strand comes back to the
    queue. *)
Lemma strand_at_pop_reachable (d0 : Data) (bytes : Z) :
exists s fx,
  run [Send d0; Enc; Enc; Enc; Enc; Done false bytes; Str] init
    = Some (mk s Idle AtPop, fx) /\
  SPSCQueue.wf WRITE_QUEUE_SIZE (write_queue_ s) /\
  queued s = [] /\
  closing_ s = false /\ is_open s = true /\
  writing_ s = true /\ in_flight s = [].
Proof.
eexists. eexists. split; [reflexivity|].
cbn [write_queue_ closing_ is_open writing_ in_flight].
split; [|repeat split].
vm_compute. repeat split; try lia; try reflexivity; discriminate.
Qed.

(** X23. The emptiness test and the release of [writing_] in [do_write]
  are two steps. When the strand has found the queue empty and a frame is
  sent before it clears the flag, the frame is queued, the sender loses
  the compare-and-exchange, and the strand then clears the flag: the frame
  waits with no write in flight and no thread to write it, until the next
  frame is sent. *)
Theorem frame_can_wait_without_writer (s : WebSocketSession.t) (d : Data) :
SPSCQueue.wf WRITE_QUEUE_SIZE (write_queue_ s) ->
queued s = [] ->
closing_ s = false -> is_open s = true ->
writing_ s = true -> in_flight s = [] ->
exists st,
  run [Str; Send d; Enc; Enc; Str] (mk s Idle AtPop) = Some (st, []) /\
  encoder st = Idle /\ strand st = Idle /\
  queued (session st) = [Some d] /\
  writing_ (session st) = false /\
  in_flight (session st) = [] /\
  wire (session st) = wire s.
Proof.
intros Hwf Hq Hc Ho Hw Hf.
pose proof (QueueOrderFacts.try_pop_head WRITE_QUEUE_SIZE
              SessionFacts.valid_write_queue (write_queue_ s) Hwf) as Hhead.
unfold queued in Hq. rewrite Hq in Hhead. cbn [head] in Hhead.
pose proof (QueueOrderFacts.ring_contents_step WRITE_QUEUE_SIZE
              SessionFacts.valid_write_queue (SPSCQueue.Push (Some d))
              (write_queue_ s) Hwf) as Hcont.
pose proof (QueueOrderFacts.try_push_room WRITE_QUEUE_SIZE
              SessionFacts.valid_write_queue (write_queue_ s) (Some d) Hwf)
  as Hroom.
unfold SPSCQueue.step, QueueModel.fifo_step in Hcont.
rewrite Hq in Hcont, Hroom.
assert (Etrue : (Z.of_nat (length (@nil (option Data))) <? WRITE_QUEUE_SIZE - 1)
                = true) by reflexivity.
rewrite Etrue in Hcont, Hroom. cbn [app] in Hcont.
cbn [run step session encoder strand do_write_step].
destruct (SPSCQueue.try_pop WRITE_QUEUE_SIZE (write_queue_ s))
  as [item queue0] eqn:Epop.
cbn [fst] in Hhead. subst item.
cbn [mbind option_bind session encoder strand].
rewrite Hc, Ho. cbn [orb negb].
cbn [mbind option_bind session encoder strand encoder_step].
destruct (SPSCQueue.try_push WRITE_QUEUE_SIZE (Some d) (write_queue_ s))
  as [pushed queue] eqn:Epush.
cbn [fst snd] in Hcont, Hroom. subst pushed.
cbn [mbind option_bind session encoder strand encoder_step set_queue writing_].
rewrite Hw.
cbn [mbind option_bind session encoder strand do_write_step set_writing app].
eexists. split; [reflexivity|].
cbn [session encoder strand]. unfold queued, set_writing, set_queue.
cbn [write_queue_ writing_ in_flight wire].
rewrite Hcont. repeat split; auto.
Qed.

Lemma frame_can_wait_without_writer_witness :
exists st,
  run [Str; Send [1; 2; 3]; Enc; Enc; Str]
      (mk (set_writing true WebSocketSession.create) Idle AtPop)
    = Some (st, []) /\
  encoder st = Idle /\ strand st = Idle /\
  queued (session st) = [Some [1; 2; 3]] /\
  writing_ (session st) = false /\
  in_flight (session st) = [] /\
  wire (session st) = wire (set_writing true WebSocketSession.create).
Proof.
apply (frame_can_wait_without_writer
         (set_writing true WebSocketSession.create) [1; 2; 3]).
- apply (SPSCQueueFacts.wf_init WRITE_QUEUE_SIZE SessionFacts.valid_write_queue).
- reflexivity.
- reflexivity.
- reflexivity.
- reflexivity.
- reflexivity.
Defined.

End SessionThreadsFacts.

Module SessionStepsFacts.
Import WebSocketSession SessionThreads.

#[local] Ltac steps :=
  cbn -[SPSCQueue.try_push SPSCQueue.try_pop WRITE_QUEUE_SIZE Machine.wrap64].

(** Run without interruption, the steps of the thread inside
    [send_frame] amount to the member function. *)
Lemma send_frame_as_steps (s : WebSocketSession.t) (d : Data) (ps : pc) :
run [Send d; Enc; Enc; Enc; Enc; Enc] (mk s Idle ps)
= s' ← send_frame (Some d) s; Some (mk s' Idle ps, []).
Proof.
destruct s as [closing open queue writing current flight sent frames bytes].
unfold send_frame, do_write. steps.
destruct closing; [reflexivity|].
destruct open; [|reflexivity].
steps.
destruct (SPSCQueue.try_push WRITE_QUEUE_SIZE (Some d) queue)
  as [pushed queue1]; destruct pushed; [|reflexivity].
steps.
destruct writing; [reflexivity|].
steps.
destruct (SPSCQueue.try_pop WRITE_QUEUE_SIZE queue1) as [[[data|]|] queue2];
  reflexivity.
Qed.

(** Likewise for the strand inside [on_write]. *)
Lemma on_write_as_steps (s : WebSocketSession.t) (ec : bool) (bytes : Z) (pe : pc) :
run [Done ec bytes; Str; Str; Str] (mk s pe Idle)
= '(s', fx) ← on_write ec bytes s; Some (mk s' pe Idle, fx).
Proof.
destruct s as [closing open queue writing current flight sent frames bytes0].
unfold on_write, close, do_write. steps.
destruct flight as [|x rest]; [reflexivity|].
destruct ec.
- destruct closing; reflexivity.
- steps.
  destruct closing; [reflexivity|].
  steps.
  destruct (SPSCQueue.try_pop WRITE_QUEUE_SIZE queue) as [[[data|]|] queue2];
    reflexivity.
Qed.

End SessionStepsFacts.

(* ===================================================================== *)
(** ** The HTTP server's file lookup *)
(* ===================================================================== *)

Module HTTPServerFacts.
Import Text Path HTTPServer.

Lemma eqs_true (a b : list ascii) : eqs a b = true <-> a = b.
Proof. unfold eqs. apply bool_decide_eq_true. Qed.

Lemma eqs_false (a b : list ascii) : eqs a b = false <-> a <> b.
Proof. unfold eqs. apply bool_decide_eq_false. Qed.

Lemma contains_cons (p : list ascii) (c : ascii) (s : list ascii) :
contains p (c :: s) = is_prefix p (c :: s) || contains p s.
Proof. reflexivity. Qed.

Lemma no_root_name R (p : list ascii) :
has_root_name R p = false -> root_name R p = [] /\ after_root_name R p = p.
Proof.
unfold has_root_name, root_name, after_root_name. intros H.
apply negb_false_iff, eqs_true in H. split; [exact H|].
pose proof (take_drop (root_name_length R p) p) as E. rewrite H in E. exact E.
Qed.

Lemma request_path_cons (c : ascii) (rel : list ascii) :
rel <> [] -> request_path (c :: rel) = c :: rel.
Proof.
intros Hne. unfold request_path.
assert (E1 : eqs (c :: rel) [] = false) by (apply eqs_false; discriminate).
assert (E2 : eqs (c :: rel) (str "/") = false).
{ apply eqs_false. intros H. inversion H. contradiction. }
rewrite E1, E2. reflexivity.
Qed.

(** The file a rooted target names: [web_root_] contributes its root
    name at most. *)
Lemma file_path_rooted R web_root (rel : list ascii) :
has_root_directory R rel = true ->
has_root_name R rel = false ->
file_path R web_root ("/"%char :: rel)
= if is_absolute R rel then rel else root_name R web_root ++ rel.
Proof.
intros Hdir Hname.
destruct (no_root_name R rel Hname) as [Hr Ha].
assert (Hne : rel <> []).
{ intros ->. unfold has_root_directory, after_root_name in Hdir.
  rewrite drop_nil in Hdir. discriminate. }
unfold file_path. rewrite (request_path_cons _ _ Hne).
change (drop 1 ("/"%char :: rel)) with rel.
unfold append. rewrite Hname, Hdir, Ha. cbn [andb]. rewrite orb_false_r.
reflexivity.
Qed.

(** The file a plain relative target names lies under [web_root_]. *)
Lemma file_path_plain R web_root (rel : list ascii) :
rel <> [] ->
has_root_directory R rel = false ->
has_root_name R rel = false ->
is_absolute R rel = false ->
has_filename R web_root = true ->
file_path R web_root ("/"%char :: rel)
= web_root ++ [preferred_separator R] ++ rel.
Proof.
intros Hne Hdir Hname Habs Hfile.
destruct (no_root_name R rel Hname) as [Hr Ha].
unfold file_path. rewrite (request_path_cons _ _ Hne).
change (drop 1 ("/"%char :: rel)) with rel.
unfold append. rewrite Hname, Hdir, Habs, Ha, Hfile. cbn [andb orb].
rewrite <- app_assoc. reflexivity.
Qed.

(** X24. The test for [..] is the only guard of the file lookup, and
  appending a rooted pathname to [web_root_] discards the directories of
  [web_root_]: a target whose second character is a separator (such as
  [//Windows/win.ini]) is answered with status 200 and the content of the
  file of that name at the root of the file system, or of the drive of
  [web_root_], whatever directory [web_root_] is. *)
Theorem rooted_target_leaves_web_root R (web_root : list ascii)
  (fs : list ascii -> file_status) (rel content : list ascii) :
has_root_directory R rel = true ->
has_root_name R rel = false ->
contains (str "..") rel = false ->
fs (if is_absolute R rel then rel else root_name R web_root ++ rel)
  = RegularFile content ->
handle_request R web_root fs ("/"%char :: rel)
= Some (ok (get_mime_type R
              (if is_absolute R rel then rel else root_name R web_root ++ rel))
           content).
Proof.
intros Hdir Hname Hdots Hfs.
assert (Hne : rel <> []).
{ intros ->. unfold has_root_directory, after_root_name in Hdir.
  rewrite drop_nil in Hdir. discriminate. }
unfold handle_request.
rewrite (file_path_rooted R web_root rel Hdir Hname).
rewrite (request_path_cons _ _ Hne).
assert (E : contains (str "..") ("/"%char :: rel) = false).
{ rewrite contains_cons, Hdots. reflexivity. }
rewrite E, Hfs. reflexivity.
Qed.

Lemma rooted_target_leaves_web_root_witness :
handle_request windows_drives
  (str "C:" ++ [backslash] ++ str "app" ++ [backslash] ++ str "mobile_app")
  (fun p => if eqs p (str "C:/Windows/win.ini")
            then RegularFile (str "[fonts]") else Missing)
  (str "//Windows/win.ini")
= Some (ok (str "application/octet-stream") (str "[fonts]")).
Proof.
apply (rooted_target_leaves_web_root windows_drives
         (str "C:" ++ [backslash] ++ str "app" ++ [backslash] ++ str "mobile_app")
         (fun p => if eqs p (str "C:/Windows/win.ini")
                   then RegularFile (str "[fonts]") else Missing)
         (str "/Windows/win.ini") (str "[fonts]")).
- reflexivity.
- reflexivity.
- reflexivity.
- reflexivity.
Defined.

End HTTPServerFacts.

(* ===================================================================== *)
(** ** Command line and keyboard *)
(* ===================================================================== *)

Module MainFacts.
Import Text Cfg Main.

Lemma clamp_range (v lo hi : Z) :
lo <= hi -> lo <= Machine.clamp v lo hi <= hi.
Proof.
intros H. unfold Machine.clamp.
destruct (v <? lo) eqn:E1; [lia|].
destruct (hi <? v) eqn:E2; lia.
Qed.

Lemma apply_preset_in_range (preset : QualityPreset) (c : Config) :
in_range (apply_preset preset c).
Proof. destruct preset; cbn; unfold in_range; cbn; lia. Qed.

Lemma preset_named_in_range (name : list ascii) (c : Config) :
in_range c -> in_range (preset_named name c).
Proof.
intros H. unfold preset_named.
repeat match goal with
       | |- context [if ?b then _ else _] => destruct b
       end; auto using apply_preset_in_range.
Qed.

Lemma parse_arg_in_range (arg : list ascii) (next : option (list ascii))
  (o o' : options) (taken : bool) :
in_range (config o) ->
parse_arg arg next o = Some (o', taken) ->
in_range (config o').
Proof.
intros [Hq Hf] H. unfold parse_arg in H.
repeat match type of H with
       | (if ?b then _ else _) = _ => destruct b
       | (?m ≫= _) = _ => destruct m; cbn [mbind option_bind] in H;
                           [|discriminate H]
       end;
  inversion H; subst; clear H;
  try (split; cbn; first [assumption | apply clamp_range; lia]).
apply preset_named_in_range. split; assumption.
Qed.

Lemma parse_args_in_range_upto (n : nat) :
forall (args : list (list ascii)) (o o' : options),
  (length args <= n)%nat ->
  in_range (config o) ->
  parse_args args o = Some o' ->
  in_range (config o').
Proof.
induction n as [|n IH]; intros args o o' Hlen Hin H.
- destruct args; [|cbn in Hlen; lia]. inversion H. subst. exact Hin.
- destruct args as [|arg rest]; [inversion H; subst; exact Hin|].
  cbn [parse_args] in H. cbn [length] in Hlen.
  destruct rest as [|value rest'].
  + destruct (parse_arg arg None o) as [[o1 taken]|] eqn:E;
      cbn [mbind option_bind] in H; [|discriminate H].
    inversion H. subst. exact (parse_arg_in_range _ _ _ _ _ Hin E).
  + destruct (parse_arg arg (Some value) o) as [[o1 taken]|] eqn:E;
      cbn [mbind option_bind] in H; [|discriminate H].
    pose proof (parse_arg_in_range _ _ _ _ _ Hin E) as Hin1.
    cbn [length] in Hlen.
    destruct taken; (eapply IH; [|exact Hin1|exact H]); cbn [length]; lia.
Qed.

Lemma parse_args_in_range (args : list (list ascii)) (o o' : options) :
in_range (config o) -> parse_args args o = Some o' -> in_range (config o').
Proof. apply (parse_args_in_range_upto (length args)). lia. Qed.

Lemma start_in_range : in_range (config start).
Proof. unfold in_range. cbn. lia. Qed.

(** X25. Whatever the command line, when its numbers convert without an
  exception the configuration handed to the application has a JPEG
  quality between 1 and 100 and a target rate between 1 and 240 frames
  per second. *)
Theorem arguments_keep_quality_and_fps_in_range (args : list (list ascii))
  (o : options) :
parse_args args start = Some o ->
1 <= jpeg_quality (encoder (config o)) <= 100 /\
1 <= target_fps (capture (config o)) <= 240.
Proof. intros H. exact (parse_args_in_range args start o start_in_range H). Qed.

Lemma arguments_keep_quality_and_fps_in_range_witness :
exists o,
  parse_args [str "--preset"; str "quality"; str "-q"; str "500";
              str "--fps"; str "-7"; str "--no-vr"] start = Some o /\
  jpeg_quality (encoder (config o)) = 100 /\
  target_fps (capture (config o)) = 1 /\
  1 <= jpeg_quality (encoder (config o)) <= 100 /\
  1 <= target_fps (capture (config o)) <= 240.
Proof.
eexists. split; [vm_compute; reflexivity|].
split; [reflexivity|]. split; [reflexivity|].
eapply (arguments_keep_quality_and_fps_in_range
          [str "--preset"; str "quality"; str "-q"; str "500";
           str "--fps"; str "-7"; str "--no-vr"]).
vm_compute. reflexivity.
Defined.

Lemma synced_update (c : Config) (a : VRStreamerApp.t) :
synced a -> synced (VRStreamerApp.update_config c a).
Proof.
unfold synced, VRStreamerApp.update_config. cbn.
destruct (VRStreamerApp.encoder_ a); cbn; [reflexivity | discriminate].
Qed.

Lemma synced_preset (p : QualityPreset) (a : VRStreamerApp.t) :
synced a -> synced (VRStreamerApp.set_quality_preset p a).
Proof.
unfold synced, VRStreamerApp.set_quality_preset. cbn.
destruct (VRStreamerApp.encoder_ a); cbn; [reflexivity | discriminate].
Qed.

Lemma on_key_quality (k : Z) (a : VRStreamerApp.t) :
synced a -> 5 <= quality a <= 100 ->
synced (on_key k a).1 /\ 5 <= quality (on_key k a).1 <= 100.
Proof.
intros Hs Hq. unfold on_key.
repeat match goal with
       | |- context [if ?b then _ else _] => destruct b
       end;
  cbn [fst]; (split; [auto using synced_update, synced_preset|]);
  try exact Hq;
  unfold quality in *; cbn; unfold Machine.wrap32;
  try (rewrite Z.mod_small by lia); lia.
Qed.

(** X26. Started with a JPEG quality of at least 5, the control loop
  keeps it between 5 and 100 whatever keys are pressed, and the encoder
  always runs with the encoder settings the application holds. *)
Theorem keys_keep_quality_in_range (ks : list Z) (a : VRStreamerApp.t) :
synced a -> 5 <= quality a <= 100 ->
synced (on_keys ks a) /\ 5 <= quality (on_keys ks a) <= 100.
Proof.
revert a. induction ks as [|k ks IH]; intros a Hs Hq; [auto|].
cbn [on_keys].
destruct (on_key_quality k a Hs Hq) as [Hs1 Hq1].
destruct (on_key k a) as [a1 stopped]. cbn [fst] in Hs1, Hq1.
destruct stopped; auto.
Qed.

Lemma keys_keep_quality_in_range_witness :
synced (on_keys [key "-"; key "-"; key "3"; key "+"; key "["] (app_of start)) /\
5 <= quality (on_keys [key "-"; key "-"; key "3"; key "+"; key "["]
                (app_of start)) <= 100.
Proof.
apply (keys_keep_quality_in_range
         [key "-"; key "-"; key "3"; key "+"; key "["] (app_of start)).
- reflexivity.
- unfold quality. cbn. lia.
Defined.

Lemma on_key_minus (a : VRStreamerApp.t) :
on_key (key "-") a
= (VRStreamerApp.update_config
     (on_encoder
        (set_jpeg_quality (Z.max 10 (Machine.wrap32 (quality a - 5))))
        (VRStreamerApp.config_ a)) a, false).
Proof. reflexivity. Qed.

(** X27. The lower bound of the [-] key is applied after an unsigned
  subtraction: when the command line leaves a JPEG quality below 5 (as
  [-q 1] does), one press of [-] sets it to [2^32 + quality - 5], above
  four thousand million, and hands that value to the encoder. *)
Theorem minus_key_wraps_small_quality (args : list (list ascii)) (o : options) :
parse_args args start = Some o ->
jpeg_quality (encoder (config o)) < 5 ->
let a := (on_key (key "-") (app_of o)).1 in
quality a = 2 ^ 32 + jpeg_quality (encoder (config o)) - 5 /\
2 ^ 32 - 4 <= quality a /\
synced a.
Proof.
intros H Hlt.
destruct (parse_args_in_range args start o start_in_range H) as [Hq _].
cbn zeta. rewrite on_key_minus. cbn [fst].
unfold quality, synced, app_of, VRStreamerApp.update_config.
cbn [VRStreamerApp.config_ VRStreamerApp.encoder_ fmap option_fmap option_map
     VRFrameEncoder.update_config VRFrameEncoder.config_ VRFrameEncoder.create
     on_encoder encoder set_jpeg_quality jpeg_quality].
unfold Machine.wrap32.
replace ((jpeg_quality (encoder (config o)) - 5) mod 2 ^ 32)
  with (2 ^ 32 + jpeg_quality (encoder (config o)) - 5)
  by (apply Z.mod_unique with (q := -1); lia).
split; [lia|]. split; [lia|]. reflexivity.
Qed.

Lemma minus_key_wraps_small_quality_witness :
exists o,
  parse_args [str "-q"; str "1"] start = Some o /\
  quality (on_key (key "-") (app_of o)).1 = 4294967292.
Proof.
eexists. split; [vm_compute; reflexivity|].
eapply (minus_key_wraps_small_quality [str "-q"; str "1"]).
- vm_compute. reflexivity.
- cbn. lia.
Defined.

End MainFacts.
